(* ===== verification/_CoqProject ===== *)
-Q . S2P
Prelude.v
Interfaces.v
ListSpec.v
ListRuns.v
KList.v
KListFacts.v
KListSort.v
KListOrdered.v
KListTheorems.v
Arith64.v
FixedPoint.v
Bitmap.v
CString.v
KState.v
Thread.v
Synch.v
Timer.v
Machine.v
SchedInv.v
SchedKeeps.v
Resched.v
SchedTheorems.v
Donation.v
TimerTheorems.v
LockInv.v
LockKeeps.v
LockTheorems.v
Hash.v
HashTheorems.v
ListHeap.v
CStdlib.v
CStdlibTheorems.v
Random.v
VMem.v
Palloc.v
PallocFacts.v
PallocTheorems.v
PallocInit.v
Mmu.v
MmuFacts.v
MmuTheorems.v
FsState.v
Inode.v
InodeFacts.v
FreeMap.v
FsFile.v
Directory.v
Filesys.v
FileTheorems.v
DirFacts.v
FreeMapFacts.v
OpenInodes.v
FsTheorems.v
Descriptors.v
DescFacts.v
DescTheorems.v
VmState.v
Pager.v
Vm.v
Mmap.v
Args.v
Loader.v
UserMem.v
VmFacts.v
Claim.v
VmExample.v
Faults.v
SegLoad.v
LoadTheorems.v
ElfTheorems.v
SwapTheorems.v
FaultTheorems.v
ArgTheorems.v
VmDefects.v
