(* ===== verification/Prelude.v ===== *)
(** * Verification library of the Pintos-KAIST kernel (weeks 12-13)

    A model of the kernel in src/pintos-kaist/ and the theorems that make its
    components correct. File names below are relative to that directory.

    ** How C is modelled

    C functions become Rocq functions of the same name. This file defines what
    they share:
    - [outcome]: a run gives a value, a kernel panic (a failed ASSERT, PANIC or a
      processor fault), undefined behaviour, or no answer within the fuel;
    - [M S]: programs over a state [S] with such an outcome, with the rules [wp]
      (it returns, and the result satisfies) and, in SchedInv.v, [pwp] (if it
      returns, the result satisfies);
    - integers are [Z]; [u8] to [u64] and [s8] to [s64] write the wrap-around of a
      type out, [int32] and [int64] make signed overflow undefined.
    Every loop of the code is a function with fuel or a recursion on the list it
    walks. Fuel is the number of rounds, and each theorem about such a function
    either says which fuel suffices or holds for every fuel.

    ** The parts

    - Kernel lists, lib/kernel/list.c. KList.v is the code over a heap of link
      cells; ListSpec.v the sequences it represents and the stable sort, insertion
      and duplicate removal on them; ListRuns.v the natural merge sort on
      sequences; KListFacts.v, KListSort.v and KListOrdered.v relate the two;
      KListTheorems.v has the theorems. The other parts use the sequences.
    - Arith64.v, lib/arithmetic.c: 64-bit division from 32-bit instructions.
    - FixedPoint.v, threads/fixed-point.c: 17.14 numbers.
    - Bitmap.v, lib/kernel/bitmap.c: bitmaps in 64-bit words; their storage in a
      file goes through the interface [FileIO] of Interfaces.v.
    - CString.v, lib/string.c: strings and memory blocks over a byte memory.
      CStdlib.v and CStdlibTheorems.v, lib/stdlib.c: numbers, heap sort and binary
      search over the same memory; ListHeap.v is the heap sort on sequences.
    - Random.v, lib/random.c: the pseudo-random generator.
    - Hash.v and HashTheorems.v, lib/kernel/hash.c: hash tables. They implement the
      interface [ElemSet] of Interfaces.v.
    - The scheduler. KState.v has the state: [struct thread], semaphores, locks,
      conditions and the variables of threads/thread.c and devices/timer.c, and the
      interrupt flag of threads/interrupt.c. Thread.v, Synch.v and Timer.v are the
      functions of threads/thread.c, threads/synch.c and devices/timer.c; Machine.v
      is thread creation and the machine. A function that gives up the processor
      returns [Switched t]; its callers then leave [frame]s on the stack of [t], and
      [resume] goes on with them when [t] runs again. [kstep] is one step of the
      machine: the running thread calls a kernel function, or goes on with one; the
      idle thread blocks; the timer interrupts. Interrupts arrive between such
      steps, that is where a kernel function switches threads or has returned; an
      interrupt in the middle of a function that runs with interrupts enabled is not
      a step of its own.
      SchedInv.v and SchedKeeps.v prove the scheduler's invariant function by
      function, LockInv.v and LockKeeps.v the one of locks; Resched.v is total
      correctness of giving up the processor, sema_up and lock_release;
      SchedTheorems.v, LockTheorems.v, Donation.v and TimerTheorems.v have the
      theorems and runs from [boot_state], the state after thread_start.
    - Memory. VMem.v, threads/vaddr.h: addresses, and memory by pages. Palloc.v,
      threads/palloc.c: the page allocator, with PallocFacts.v, PallocTheorems.v and,
      for the boot-time set-up, PallocInit.v. Mmu.v, threads/mmu.c: four-level page
      tables in such pages, with MmuFacts.v and MmuTheorems.v.
    - The file system. FsState.v is the state: the disk's sectors, the free map, the
      open inodes, files and directories on the heap, and what the memory allocator
      will answer. Inode.v and FreeMap.v are filesys/inode.c and free-map.c; FsFile.v,
      Directory.v and Filesys.v are file.c, directory.c and filesys.c. An open file is
      an instance of [FileIO], through which bitmap.c stores the free map.
      InodeFacts.v and FileTheorems.v relate files to byte sequences, DirFacts.v
      directories to finite maps, FreeMapFacts.v and OpenInodes.v are about the free
      map and the open inodes; FsTheorems.v has the theorems.
    - System calls on files. Descriptors.v has those of userprog/syscall.c and the
      descriptor tables of userprog/process.c, on a state that contains the file
      system's; DescFacts.v says what the file system keeps of its files, and
      DescTheorems.v has the theorems.
    - Virtual memory, vm/. VmState.v is the state: physical memory and page tables
      (VMem.v), the file system (FsState.v), pages, frames and file descriptions on
      the heap, the frame table, the swap disk and its table, and the processes with
      their supplemental page tables, which are hash tables (Hash.v). [zoom] runs a
      function of one part on the whole. Pager.v has the kinds of pages: vm/uninit.c,
      vm/anon.c, vm/file.c and lazy_load_segment of userprog/process.c; Vm.v is
      vm/vm.c with page_fault of userprog/exception.c; Mmap.v is mmap and munmap.
      UserMem.v, VmFacts.v and Claim.v relate these to bytes of pages, to maps from
      addresses to pages and to the page tables' maps; Faults.v is about pages that
      are pending and resident. VmExample.v is a small machine to try theorems on;
      SwapTheorems.v, FaultTheorems.v and VmDefects.v have the theorems.
    - Loading programs, userprog/process.c. Args.v splits command lines; Loader.v has
      the ELF headers, the segments (both versions of load_segment, with and without
      virtual memory), the stack and its arguments, load, exec and the memory of fork.
      A store to a user page that is not present goes through page_fault and is tried
      again: growing the stack takes one fault and the new page's frame another, so
      three tries are enough. SegLoad.v, LoadTheorems.v, ElfTheorems.v and
      ArgTheorems.v have the theorems.

    ** What the theorems show

    - Invariants: in every reachable state each thread is in the one list its status
      demands; a held lock has one holder; blocks of pages in use share no page; each
      descriptor denotes an open file that counts its descriptors; there is one open
      inode for each sector.
    - Refinement: hash tables are sets; page tables are maps from pages to frames;
      files are byte sequences; directories are maps from names to sectors.
    - Equivalence: loading a segment page by page, at the page faults of any accesses,
      gives what loading it at once gives.
    - Liveness: threads of equal priority that yield all get the processor.
    - Functional behaviour of lists, bitmaps, strings, sorting, searching and
      arithmetic, of semaphores, locks with donation, yielding and sleeping, of page
      allocation, of the free map and inodes, and their error cases; of the page-fault
      handler on every access; of segments and arguments, which are in memory as the
      executable's format and the calling convention say; of swapping, which restores
      pages and keeps the others.
    - Bounds: no overflow in the feedback-queue scheduler's arithmetic within stated
      limits; strings stay in their buffers.
    - Defects: theorems that exhibit states where the code misbehaves, among them a
      donated thread that is not run, a donation loop that never ends, freed threads
      and freed files that are still used, remainders and page-table entries cut to 32
      bits, descriptors outside the table, sectors that are lost, frames shared by
      processes after eviction and fork.

    ** Not modelled

    Assembly (context switch, interrupt stubs, boot loader), port and device
    input/output (console, keyboard, disk commands), the boot sequence, user
    programs and tests; the memory allocator of threads/malloc.c, whose answers are
    part of the states; formatted output, which is left out of every function; the
    first process and waiting for children (userprog/process.c), the dispatch of
    system calls, other exceptions than page faults. A swap table that could not be
    allocated is not modelled. The FAT file system (filesys/fat.c) is a skeleton that
    is not built. *)

From Stdlib Require Export ZArith Lia Bool.
From stdpp Require Export base tactics list gmap sorting.

#[global] Open Scope Z_scope.

(** ** Outcomes of C code *)

(** What running a piece of C code gives: a value; a kernel panic (an [ASSERT]
    that fires, [PANIC], [NOT_REACHED] or a processor fault); behaviour that C
    leaves undefined (an access outside every object); or no answer within the
    fuel given to a loop. *)
Inductive outcome (A : Type) : Type :=
  | Ok (a : A)
  | Panic
  | Undef
  | NoFuel.

Arguments Ok {A} a.
Arguments Panic {A}.
Arguments Undef {A}.
Arguments NoFuel {A}.

Definition outcome_bind {A B : Type} (f : A -> outcome B) (x : outcome A) : outcome B :=
  match x with
  | Ok a => f a
  | Panic => Panic
  | Undef => Undef
  | NoFuel => NoFuel
  end.

#[export] Instance outcome_mret : MRet outcome := fun A a => Ok a.
#[export] Instance outcome_mbind : MBind outcome := fun A B f x => outcome_bind f x.

(** [ASSERT (b)] of debug.h. *)
Definition ASSERT (b : bool) : outcome unit := if b then Ok tt else Panic.

(** An access that is defined only when the lookup succeeds. *)
Definition from_option_ub {A : Type} (o : option A) : outcome A :=
  match o with Some a => Ok a | None => Undef end.

(** ** A state and error monad for code that mutates shared memory *)

Definition M (S A : Type) : Type := S -> outcome (A * S).

#[export] Instance M_mret {S} : MRet (M S) := fun A a s => Ok (a, s).
#[export] Instance M_mbind {S} : MBind (M S) :=
  fun A B f m s =>
    match m s with
    | Ok (a, s') => f a s'
    | Panic => Panic
    | Undef => Undef
    | NoFuel => NoFuel
    end.

Definition get {S : Type} : M S S := fun s => Ok (s, s).
Definition put {S : Type} (s : S) : M S unit := fun _ => Ok (tt, s).
Definition gets {S A : Type} (f : S -> A) : M S A := fun s => Ok (f s, s).
Definition modify {S : Type} (f : S -> S) : M S unit := fun s => Ok (tt, f s).
Definition lift {S A : Type} (o : outcome A) : M S A :=
  fun s => match o with
           | Ok a => Ok (a, s)
           | Panic => Panic
           | Undef => Undef
           | NoFuel => NoFuel
           end.
Definition assertM {S : Type} (b : bool) : M S unit := lift (ASSERT b).
Definition panicM {S A : Type} : M S A := fun _ => Panic.
Definition nofuelM {S A : Type} : M S A := fun _ => NoFuel.

(** Total correctness: [m] started in [s] returns a value and a state that
    satisfy [Q]; it neither panics, nor misbehaves, nor runs out of fuel. *)
Definition wp {S A : Type} (m : M S A) (Q : A -> S -> Prop) (s : S) : Prop :=
  exists a s', m s = Ok (a, s') /\ Q a s'.

(** The same when a panic is an answer too: boot code and system calls stop the
    machine on input that they cannot serve. *)
Definition wpp {S A : Type} (m : M S A) (Q : A -> S -> Prop) (s : S) : Prop :=
  match m s with Ok (a, s') => Q a s' | Panic => True | Undef | NoFuel => False end.

(** ** Machine integers *)

Definition u8 (z : Z) : Z := z mod 2 ^ 8.
Definition u16 (z : Z) : Z := z mod 2 ^ 16.
Definition u32 (z : Z) : Z := z mod 2 ^ 32.
Definition u64 (z : Z) : Z := z mod 2 ^ 64.
Definition s8 (z : Z) : Z := (z + 2 ^ 7) mod 2 ^ 8 - 2 ^ 7.
Definition s32 (z : Z) : Z := (z + 2 ^ 31) mod 2 ^ 32 - 2 ^ 31.
Definition s64 (z : Z) : Z := (z + 2 ^ 63) mod 2 ^ 64 - 2 ^ 63.

(** An [int] result: overflow of a signed type is undefined. *)
Definition int32 (z : Z) : outcome Z :=
  if (- 2 ^ 31 <=? z) && (z <? 2 ^ 31) then Ok z else Undef.

(** The same for the 64-bit [int64_t] and [long long]. *)
Definition int64 (z : Z) : outcome Z :=
  if (- 2 ^ 63 <=? z) && (z <? 2 ^ 63) then Ok z else Undef.

(** SIZE_MAX: the kernel's stdint.h defines it as UINT32_MAX, although size_t has 64
    bits. *)
Definition SIZE_MAX : Z := 2 ^ 32 - 1.

Definition is_u32 (z : Z) : Prop := 0 <= z < 2 ^ 32.
Definition is_u64 (z : Z) : Prop := 0 <= z < 2 ^ 64.
Definition is_s32 (z : Z) : Prop := - 2 ^ 31 <= z < 2 ^ 31.
Definition is_s64 (z : Z) : Prop := - 2 ^ 63 <= z < 2 ^ 63.

(** ROUND_UP, DIV_ROUND_UP and ROUND_DOWN of round.h on [size_t] operands. *)
Definition ROUND_UP (x step : Z) : Z := u64 (u64 (x + step - 1) / step * step).
Definition DIV_ROUND_UP (x step : Z) : Z := u64 (x + step - 1) / step.
Definition ROUND_DOWN (x step : Z) : Z := u64 (x / step * step).

(** ** Memory representation of integers *)

(** The [n] low bytes of [w], the least significant one first. *)
Fixpoint le_split (n : nat) (w : Z) : list Z :=
  match n with O => [] | S n => w mod 256 :: le_split n (w / 256) end.

Fixpoint le_combine (l : list Z) : Z :=
  match l with [] => 0 | b :: l => b + 256 * le_combine l end.

(** ** Comparison functions of the kernel's lists *)

(** The [list_less_func] contract that list.h leaves implicit: [less] is a
    strict weak order. *)
Class StrictWeak {A : Type} (less : A -> A -> bool) : Prop := {
  sw_irrefl : forall x, less x x = false;
  sw_trans : forall x y z, less x y = true -> less y z = true -> less x z = true;
  sw_negtrans : forall x y z, less x y = false -> less y z = false -> less x z = false
}.

(** Comparing a numeric key is such an order, in both directions. *)
#[export] Instance StrictWeak_key_lt {A : Type} (key : A -> Z) :
  StrictWeak (fun x y => key x <? key y).
Proof. split; intros *; rewrite ?Z.ltb_irrefl, ?Z.ltb_lt, ?Z.ltb_ge; (done || lia). Qed.

#[export] Instance StrictWeak_key_gt {A : Type} (key : A -> Z) :
  StrictWeak (fun x y => key x >? key y).
Proof.
  split; intros *; rewrite ?Z.gtb_ltb, ?Z.ltb_irrefl, ?Z.ltb_lt, ?Z.ltb_ge; (done || lia).
Qed.

#[export] Instance StrictWeak_key_lt' {A : Type} (key : A -> Z) :
  StrictWeak (fun x y => key y <? key x).
Proof. split; intros *; rewrite ?Z.ltb_irrefl, ?Z.ltb_lt, ?Z.ltb_ge; (done || lia). Qed.

(** ** Lemmas *)

Create HintDb pintos.

Section WpRules.
Context {S : Type}.
Implicit Type s : S.

Lemma wp_ret {A} (a : A) (Q : A -> S -> Prop) s : Q a s -> wp (mret a) Q s.
Proof. intros H. by exists a, s. Qed.

Lemma wp_bind {A B} (m : M S A) (f : A -> M S B) Q s :
  wp m (fun a s' => wp (f a) Q s') s -> wp (m ≫= f) Q s.
Proof.
  intros (a & s' & Hm & b & s'' & Hf & HQ). exists b, s''. split; [|done].
  unfold mbind, M_mbind. by rewrite Hm.
Qed.

Lemma wp_get (Q : S -> S -> Prop) s : Q s s -> wp get Q s.
Proof. intros H. by exists s, s. Qed.

Lemma wp_put s' (Q : unit -> S -> Prop) s : Q tt s' -> wp (put s') Q s.
Proof. intros H. by exists tt, s'. Qed.

Lemma wp_gets {A} (f : S -> A) (Q : A -> S -> Prop) s : Q (f s) s -> wp (gets f) Q s.
Proof. intros H. by exists (f s), s. Qed.

Lemma wp_modify (f : S -> S) (Q : unit -> S -> Prop) s : Q tt (f s) -> wp (modify f) Q s.
Proof. intros H. by exists tt, (f s). Qed.

Lemma wp_assert (b : bool) (Q : unit -> S -> Prop) s :
  b = true -> Q tt s -> wp (assertM b) Q s.
Proof. intros -> H. by exists tt, s. Qed.

Lemma wp_lift {A} (o : outcome A) a (Q : A -> S -> Prop) s :
  o = Ok a -> Q a s -> wp (lift o) Q s.
Proof. intros -> H. by exists a, s. Qed.

Lemma wp_mono {A} (m : M S A) (P Q : A -> S -> Prop) s :
  wp m P s -> (forall a s', P a s' -> Q a s') -> wp m Q s.
Proof. intros (a & s' & Hm & HP) HPQ. exists a, s'. auto. Qed.

Lemma wp_if {A} (b : bool) (m1 m2 : M S A) Q s :
  (b = true -> wp m1 Q s) -> (b = false -> wp m2 Q s) -> wp (if b then m1 else m2) Q s.
Proof. destruct b; auto. Qed.

Lemma wpp_ret {A} (a : A) (Q : A -> S -> Prop) s : Q a s -> wpp (mret a) Q s.
Proof. done. Qed.

Lemma wpp_panic {A} (Q : A -> S -> Prop) s : wpp panicM Q s.
Proof. done. Qed.

Lemma wpp_bind {A B} (m : M S A) (f : A -> M S B) Q s :
  wpp m (fun a s' => wpp (f a) Q s') s -> wpp (m ≫= f) Q s.
Proof. unfold wpp, mbind, M_mbind. by destruct (m s) as [[]| | |]. Qed.

(** Reassociating, to use a lemma about a statement and the one before it. *)
Lemma wpp_assoc {A B C} (m : M S A) (f : A -> M S B) (g : B -> M S C) Q s :
  wpp ((m ≫= f) ≫= g) Q s -> wpp (m ≫= fun a => f a ≫= g) Q s.
Proof. unfold wpp, mbind, M_mbind. by destruct (m s) as [[]| | |]. Qed.

Lemma wpp_mono {A} (m : M S A) (P Q : A -> S -> Prop) s :
  wpp m P s -> (forall a s', P a s' -> Q a s') -> wpp m Q s.
Proof. unfold wpp. destruct (m s) as [[]| | |]; auto. Qed.

Lemma wpp_gets {A} (f : S -> A) (Q : A -> S -> Prop) s : Q (f s) s -> wpp (gets f) Q s.
Proof. done. Qed.

Lemma wpp_modify (f : S -> S) (Q : unit -> S -> Prop) s : Q tt (f s) -> wpp (modify f) Q s.
Proof. done. Qed.

Lemma wpp_assert (b : bool) (Q : unit -> S -> Prop) s : (b = true -> Q tt s) -> wpp (assertM b) Q s.
Proof. destruct b; simpl; [intros H; by apply H|done]. Qed.

Lemma wpp_lift {A} (o : outcome A) (Q : A -> S -> Prop) s :
  match o with Ok a => Q a s | Panic => True | Undef | NoFuel => False end -> wpp (lift o) Q s.
Proof. by destruct o. Qed.

Lemma wpp_wp {A} (m : M S A) (Q : A -> S -> Prop) s : wp m Q s -> wpp m Q s.
Proof. intros (a & s' & E & H). unfold wpp. by rewrite E. Qed.

(** What holds of the result that a run gives. *)
Lemma wpp_run {A} (m : M S A) (Q : A -> S -> Prop) s a s' : m s = Ok (a, s') -> wpp m Q s -> Q a s'.
Proof. intros E. unfold wpp. by rewrite E. Qed.

(** Running the first part of a program. *)
Lemma bind_run {A B} (m : M S A) (f : A -> M S B) s a s' : m s = Ok (a, s') -> (m ≫= f) s = f a s'.
Proof. intros H. unfold mbind, M_mbind. by rewrite H. Qed.

Lemma bind_Ok {A B} (m : M S A) (f : A -> M S B) s b s2 :
  (m ≫= f) s = Ok (b, s2) -> exists a s1, m s = Ok (a, s1) /\ f a s1 = Ok (b, s2).
Proof. unfold mbind, M_mbind. destruct (m s) as [[a s1]| | |]; [eauto|done..]. Qed.

Lemma bind_panic {A B} (m : M S A) (f : A -> M S B) s : m s = Panic -> (m ≫= f) s = Panic.
Proof. intros H. unfold mbind, M_mbind. by rewrite H. Qed.
End WpRules.

(** One step of symbolic execution of a [wp] goal. *)
Ltac wp_step :=
  lazymatch goal with
  | |- wp (mbind _ _) _ _ => apply wp_bind
  | |- wp (mret _) _ _ => apply wp_ret
  | |- wp get _ _ => apply wp_get
  | |- wp (put _) _ _ => apply wp_put
  | |- wp (gets _) _ _ => apply wp_gets
  | |- wp (modify _) _ _ => apply wp_modify
  | |- wp (assertM _) _ _ => apply wp_assert
  end.
Ltac wp_steps := repeat (wp_step; cbn beta).

(** The result of a run, to evaluate examples without their final state. *)
Definition outcome_val {S A : Type} (o : outcome (A * S)) : option A :=
  match o with Ok (a, _) => Some a | _ => None end.

Lemma outcome_val_ok {S A} (o : outcome (A * S)) a : outcome_val o = Some a -> exists s, o = Ok (a, s).
Proof. destruct o as [[x s]| | |]; simpl; [intros [= ->]; eauto|done..]. Qed.

(** The steps of a run. *)
Ltac split_run H :=
  repeat (apply bind_Ok in H; let a := fresh "a" in let s := fresh "s" in let E := fresh "E" in
          destruct H as (a & s & E & H); cbn beta in H).

Section MachineInts.
Lemma u64_small z : is_u64 z -> u64 z = z.
Proof. intros H. apply Z.mod_small, H. Qed.

Lemma u32_small z : is_u32 z -> u32 z = z.
Proof. intros H. apply Z.mod_small, H. Qed.

Lemma u8_small z : 0 <= z < 2 ^ 8 -> u8 z = z.
Proof. apply Z.mod_small. Qed.

Lemma s32_small z : is_s32 z -> s32 z = z.
Proof. unfold is_s32, s32. intros H. rewrite Z.mod_small; lia. Qed.

Lemma s64_small z : is_s64 z -> s64 z = z.
Proof. unfold is_s64, s64. intros H. rewrite Z.mod_small; lia. Qed.

Lemma int32_ok z : is_s32 z -> int32 z = Ok z.
Proof.
  unfold is_s32, int32. intros H.
  by rewrite (proj2 (Z.leb_le _ _)), (proj2 (Z.ltb_lt _ _)) by lia.
Qed.

Lemma u64_range z : is_u64 (u64 z).
Proof. apply Z.mod_pos_bound. lia. Qed.

Lemma u32_range z : is_u32 (u32 z).
Proof. apply Z.mod_pos_bound. lia. Qed.

Lemma u8_range z : 0 <= u8 z < 2 ^ 8.
Proof. apply Z.mod_pos_bound. lia. Qed.

Lemma s32_range z : is_s32 (s32 z).
Proof. unfold is_s32, s32. pose proof (Z.mod_pos_bound (z + 2 ^ 31) (2 ^ 32)). lia. Qed.

Lemma s64_range z : is_s64 (s64 z).
Proof. unfold is_s64, s64. pose proof (Z.mod_pos_bound (z + 2 ^ 63) (2 ^ 64)). lia. Qed.
End MachineInts.

#[export] Hint Resolve u64_range u32_range s32_range s64_range : pintos.

Lemma length_le_split n w : length (le_split n w) = n.
Proof. revert w. induction n as [|n IH]; intros w; simpl; [done|]. by rewrite IH. Qed.

Lemma le_combine_split n w : 0 <= w < 256 ^ Z.of_nat n -> le_combine (le_split n w) = w.
Proof.
  revert w. induction n as [|n IH]; intros w Hw; [simpl; change (256 ^ Z.of_nat 0) with 1 in Hw; lia|].
  rewrite Nat2Z.inj_succ, Z.pow_succ_r in Hw by lia. simpl. pose proof (Z.div_mod w 256 ltac:(lia)).
  rewrite IH; [lia|]. split; [apply Z.div_pos; lia|apply Z.div_lt_upper_bound; lia].
Qed.

Lemma le_split_byte n w : Forall (fun b => 0 <= b < 256) (le_split n w).
Proof.
  revert w. induction n as [|n IH]; intros w; constructor; [|apply IH].
  apply Z.mod_pos_bound. lia.
Qed.

Section StrictWeakFacts.
Context {A : Type} (less : A -> A -> bool) `{!StrictWeak less}.

Lemma sw_asym x y : less x y = true -> less y x = false.
Proof.
  intros H. destruct (less y x) eqn:E; [|done].
  by rewrite <-(sw_irrefl x), (sw_trans _ _ _ H E).
Qed.

(** [x < y <= z] gives [x < z]. *)
Lemma sw_lt_le x y z : less x y = true -> less z y = false -> less x z = true.
Proof.
  intros Hxy Hzy. destruct (less x z) eqn:E; [done|].
  by rewrite (sw_negtrans _ _ _ E Hzy) in Hxy.
Qed.

(** [x <= y < z] gives [x < z]. *)
Lemma sw_le_lt x y z : less y x = false -> less y z = true -> less x z = true.
Proof.
  intros Hyx Hyz. destruct (less x z) eqn:E; [done|].
  by rewrite (sw_negtrans _ _ _ Hyx E) in Hyz.
Qed.
End StrictWeakFacts.

(** Membership in explicit lists, from the goal alone or with the hypotheses. *)
Ltac mem :=
  repeat first [ rewrite elem_of_app | rewrite elem_of_cons | rewrite elem_of_nil
               | rewrite list_elem_of_singleton ]; tauto.
Ltac mem_all :=
  repeat match goal with
    | H : context [_ ∈ _ ++ _] |- _ => rewrite elem_of_app in H
    | H : context [_ ∈ _ :: _] |- _ => rewrite elem_of_cons in H
    | H : context [_ ∈ []] |- _ => rewrite elem_of_nil in H
    end; mem.
