(* ===== verification/Interfaces.v ===== *)
(** * The interfaces between the kernel's components

    What a component relies on of the one below it, as classes: the clients'
    theorems are proved against the class, and the file that models the component
    below gives the instance. *)

From S2P Require Import Prelude.

(** ** Open files, as bitmap.c and the memory-mapped files use them *)

(** file_read_at and file_write_at on a state [st] that holds the file: reading
    [size] bytes from an offset gives those that were read, writing the first [size]
    bytes of a buffer the number written. *)
Class FileIO (st : Type) : Type := {
  io_read_at : Z -> Z -> M st (list Z);
  io_write_at : list Z -> Z -> Z -> M st Z
}.

(** Where the file is [ready], a write of a whole buffer is what a later read of as
    many bytes returns. *)
Class FileIOLaws (st : Type) (ready : st -> Prop) `{FileIO st} : Prop := {
  file_write_read data ofs s s' :
    0 <= ofs < 2 ^ 31 -> Z.of_nat (length data) < 2 ^ 31 ->
    ready s ->
    io_write_at data (Z.of_nat (length data)) ofs s = Ok (Z.of_nat (length data), s') ->
    exists s'', io_read_at (Z.of_nat (length data)) ofs s' = Ok (data, s'')
}.

(** A file as a plain sequence of bytes of bounded size, the simplest
    implementation of the interface. *)
Section ByteFile.
Variable limit : nat.

Definition byte_file : Type := list Z.

Definition byte_read_at (size ofs : Z) : M byte_file (list Z) :=
  gets (fun f => take (Z.to_nat size) (drop (Z.to_nat ofs) f)).

Definition byte_write_at (buffer : list Z) (size ofs : Z) : M byte_file Z :=
  let data := take (Z.to_nat size) buffer in
  if bool_decide (Z.to_nat ofs + length data <= limit)%nat
  then modify (fun f => resize (Z.to_nat ofs) 0 f ++ data ++ drop (Z.to_nat ofs + length data) f);;
       mret (Z.of_nat (length data))
  else mret 0.

#[local] Instance byte_fileio : FileIO byte_file := {
  io_read_at := byte_read_at;
  io_write_at := byte_write_at
}.

Lemma byte_fileio_laws : FileIOLaws byte_file (fun _ => True).
Proof.
  split. intros data ofs s s' _ _ _. simpl. unfold byte_write_at, byte_read_at. rewrite Nat2Z.id, firstn_all.
  destruct (bool_decide _).
  - intros [= <-]. eexists. unfold gets. rewrite drop_app_length' by (by rewrite length_resize).
    by rewrite take_app_length.
  - intros [= E <-]. destruct data; [|simpl in E; lia]. by eexists.
Qed.
End ByteFile.

(** ** Sets of elements, as the page tables use hash tables *)

(** A table [T] of elements that are compared by a key: inserting gives back an
    element with the same key, if there is one, and leaves the table alone then;
    deleting gives back what it took out. *)
Class ElemSet (A T : Type) : Type := {
  es_insert : T -> A -> outcome (option A * T);
  es_find : T -> A -> outcome (option A);
  es_delete : T -> A -> outcome (option A * T)
}.

(** [repr t l]: the table [t] holds the elements of [l]; [same] is having the same
    key. A table holds fewer than [2^64 - 1] elements. *)
Class ElemSetLaws (A T : Type) `{ElemSet A T} (same : A -> A -> bool) (repr : T -> list A -> Prop) : Prop := {
  es_distinct t l a b : repr t l -> a ∈ l -> b ∈ l -> same a b = true -> a = b;
  es_insert_ok t l e : repr t l -> Z.of_nat (length l) < 2 ^ 64 - 1 ->
    exists old t' l', es_insert t e = Ok (old, t') /\ repr t' l' /\
      match old with
      | Some x => x ∈ l /\ same x e = true /\ l' ≡ₚ l
      | None => (forall x, x ∈ l -> same x e = false) /\ l' ≡ₚ e :: l
      end;
  es_find_ok t l e : repr t l ->
    exists r, es_find t e = Ok r /\ forall x, r = Some x <-> x ∈ l /\ same x e = true;
  es_delete_ok t l e : repr t l ->
    exists r t' l', es_delete t e = Ok (r, t') /\ repr t' l' /\
      match r with
      | Some x => same x e = true /\ l ≡ₚ x :: l'
      | None => (forall x, x ∈ l -> same x e = false) /\ l' ≡ₚ l
      end
}.
