(* ===== verification/ListSpec.v ===== *)
(** * What lib/kernel/list.c promises, on plain lists

    The functions the pointer code of list.c implements, stated on the sequence
    of elements a kernel list holds; KList.v proves that the pointer code
    computes them, and the files that use kernel lists are written with them. *)

From S2P Require Import Prelude.

Section Spec.
Context {A : Type} (less : A -> A -> bool).

(** [x] does not come after [y]. *)
Definition le_of (x y : A) : Prop := less y x = false.

(** In nondecreasing order. *)
Definition ordered (l : list A) : Prop := StronglySorted le_of l.

(** The insertion of list_insert_ordered: before the first element that [x] is
    less than, so behind every element equal to [x]. *)
Fixpoint insert_ordered (x : A) (l : list A) : list A :=
  match l with
  | [] => [x]
  | y :: l' => if less x y then x :: y :: l' else y :: insert_ordered x l'
  end.

(** The insertion that puts [x] before its equals, from which the stable sort
    is built. *)
Fixpoint insert_before (x : A) (l : list A) : list A :=
  match l with
  | [] => [x]
  | y :: l' => if less y x then y :: insert_before x l' else x :: y :: l'
  end.

(** The stable sort. *)
Definition stable_sort (l : list A) : list A := foldr insert_before [] l.

(** The first maximum and the first minimum, as list_max and list_min choose
    them: [m] is the best element so far. *)
Fixpoint max_from (m : A) (l : list A) : A :=
  match l with
  | [] => m
  | y :: l' => max_from (if less m y then y else m) l'
  end.

Fixpoint min_from (m : A) (l : list A) : A :=
  match l with
  | [] => m
  | y :: l' => min_from (if less y m then y else m) l'
  end.

(** list_unique: the kept elements and the removed ones, in order; [x] is the
    last element kept. *)
Fixpoint unique_from (x : A) (l : list A) : list A * list A :=
  match l with
  | [] => ([], [])
  | y :: l' =>
      if negb (less x y) && negb (less y x)
      then let '(k, d) := unique_from x l' in (k, y :: d)
      else let '(k, d) := unique_from y l' in (y :: k, d)
  end.

Definition unique (l : list A) : list A * list A :=
  match l with
  | [] => ([], [])
  | x :: l' => let '(k, d) := unique_from x l' in (x :: k, d)
  end.

(** ** Facts that hold of any comparison *)

Lemma insert_ordered_perm x l : insert_ordered x l ≡ₚ x :: l.
Proof.
  induction l as [|y l IH]; simpl; [done|].
  destruct (less x y); [done|]. rewrite IH. constructor.
Qed.

Lemma insert_before_perm x l : insert_before x l ≡ₚ x :: l.
Proof.
  induction l as [|y l IH]; simpl; [done|].
  destruct (less y x); [|done]. rewrite IH. constructor.
Qed.

Lemma stable_sort_perm l : stable_sort l ≡ₚ l.
Proof. induction l as [|x l IH]; simpl; [done|]. by rewrite insert_before_perm, IH. Qed.

Lemma stable_sort_cons x l : stable_sort (x :: l) = insert_before x (stable_sort l).
Proof. done. Qed.

Lemma insert_ordered_split x l :
  exists l1 l2, l = l1 ++ l2 /\ insert_ordered x l = l1 ++ x :: l2 /\
    Forall (fun y => less x y = false) l1 /\
    match l2 with [] => True | y :: _ => less x y = true end.
Proof.
  induction l as [|y l (l1 & l2 & -> & E & Hf & Hm)]; simpl.
  - by exists [], [].
  - destruct (less x y) eqn:Exy; [by exists [], (y :: l1 ++ l2)|].
    exists (y :: l1), l2. rewrite E. repeat split; [by constructor|done].
Qed.

Lemma max_from_elem m l : max_from m l ∈ m :: l.
Proof.
  revert m. induction l as [|y l IH]; intros m; simpl; [set_solver|].
  destruct (less m y); [specialize (IH y)|specialize (IH m)];
    rewrite !elem_of_cons in *; tauto.
Qed.

Lemma min_from_elem m l : min_from m l ∈ m :: l.
Proof.
  revert m. induction l as [|y l IH]; intros m; simpl; [set_solver|].
  destruct (less y m); [specialize (IH y)|specialize (IH m)];
    rewrite !elem_of_cons in *; tauto.
Qed.

Lemma unique_from_perm x l : (unique_from x l).1 ++ (unique_from x l).2 ≡ₚ l.
Proof.
  revert x. induction l as [|y l IH]; intros x; simpl; [done|].
  destruct (negb _ && negb _).
  - specialize (IH x). destruct (unique_from x l); simpl in *.
    by rewrite <-Permutation_middle, IH.
  - specialize (IH y). destruct (unique_from y l); simpl in *. by rewrite IH.
Qed.

(** ** Facts that need the order *)

Context `{SW : !StrictWeak less}.

Lemma le_of_trans x y z : le_of x y -> le_of y z -> le_of x z.
Proof. unfold le_of. intros H1 H2. exact (sw_negtrans _ _ _ H2 H1). Qed.

Lemma insert_ordered_ordered x l : ordered l -> ordered (insert_ordered x l).
Proof.
  induction 1 as [|y l Hl IH Hy]; simpl; [by repeat constructor|].
  destruct (less x y) eqn:E.
  - constructor; [by constructor|]. constructor; [by apply sw_asym|].
    eapply Forall_impl; [exact Hy|]. intros z Hz.
    apply le_of_trans with y; [by apply sw_asym|done].
  - constructor; [done|]. rewrite insert_ordered_perm. by constructor.
Qed.

Lemma insert_before_ordered x l : ordered l -> ordered (insert_before x l).
Proof.
  induction 1 as [|y l Hl IH Hy]; simpl; [by repeat constructor|].
  destruct (less y x) eqn:E.
  - constructor; [done|]. rewrite insert_before_perm.
    constructor; [by apply sw_asym|done].
  - constructor; [by constructor|]. constructor; [done|].
    eapply Forall_impl; [exact Hy|]. intros z Hz. by apply le_of_trans with y.
Qed.

Lemma stable_sort_ordered l : ordered (stable_sort l).
Proof.
  induction l as [|x l IH]; simpl; [constructor|by apply insert_before_ordered].
Qed.

(** Sorting an ordered list changes nothing. *)
Lemma stable_sort_id l : ordered l -> stable_sort l = l.
Proof.
  induction 1 as [|y l Hl IH Hy]; simpl; [done|]. rewrite IH.
  destruct Hy as [|z l Hz Hy]; simpl; [done|]. by rewrite Hz.
Qed.

(** Inserting [x] and [y] in either order is the same when one is less. *)
Lemma insert_before_comm x y l :
  less y x = true -> insert_before x (insert_before y l) = insert_before y (insert_before x l).
Proof.
  intros Hyx. pose proof (sw_asym less y x Hyx) as Hxy.
  induction l as [|z l IH]; simpl; [by rewrite Hyx, Hxy|].
  destruct (less z y) eqn:Ezy; simpl.
  - rewrite (sw_trans _ _ _ Ezy Hyx). simpl. rewrite IH.
    by rewrite Ezy.
  - rewrite Hyx. destruct (less z x) eqn:Ezx; simpl.
    + by rewrite ?Ezy.
    + by rewrite ?Hxy, ?Ezy.
Qed.

(** An element less than all of [a] may be inserted before or after them. *)
Lemma insert_before_past b a l :
  Forall (fun x => less b x = true) a ->
  foldr insert_before (insert_before b l) a = insert_before b (foldr insert_before l a).
Proof.
  induction 1 as [|x a Hx _ IH]; simpl; [done|]. rewrite IH. by apply insert_before_comm.
Qed.

(** The head of an ordered list is first in its sort order. *)
Lemma ordered_head_le x l : ordered (x :: l) -> Forall (le_of x) l.
Proof. by inversion 1. Qed.

(** The sort is stable: the elements equal to any [x] keep their order. *)
Definition equiv_to (x y : A) : bool := negb (less x y) && negb (less y x).

Lemma insert_before_stable x z l :
  base.filter (fun y => equiv_to x y) (insert_before z l) =
  base.filter (fun y => equiv_to x y) (z :: l).
Proof.
  induction l as [|y l IH]; simpl; [done|]. destruct (less y z) eqn:E; [|done].
  rewrite !filter_cons, IH, filter_cons.
  destruct (decide (equiv_to x y)) as [Hy|Hy]; destruct (decide (equiv_to x z)) as [Hz|Hz]; try done.
  exfalso. unfold equiv_to in Hy, Hz. apply Is_true_true, andb_true_iff in Hy as [Hy1 Hy2].
  apply Is_true_true, andb_true_iff in Hz as [Hz1 Hz2]. rewrite negb_true_iff in *.
  by rewrite (sw_negtrans _ _ _ Hy2 Hz1) in E.
Qed.

Lemma stable_sort_stable x l :
  base.filter (fun y => equiv_to x y) (stable_sort l) =
  base.filter (fun y => equiv_to x y) l.
Proof.
  induction l as [|z l IH]; simpl; [done|].
  by rewrite insert_before_stable, !filter_cons, IH.
Qed.

Lemma max_from_max m l : Forall (fun y => less (max_from m l) y = false) (m :: l).
Proof.
  revert m. induction l as [|y l IH]; intros m; simpl.
  - repeat constructor. apply sw_irrefl.
  - specialize (IH (if less m y then y else m)).
    apply Forall_cons in IH as [Hh Ht].
    destruct (less m y) eqn:E; repeat constructor; try done.
    + destruct (less (max_from y l) m) eqn:E2; [|done].
      by rewrite (sw_trans _ _ _ E2 E) in Hh.
    + by apply sw_negtrans with m.
Qed.

Lemma min_from_min m l : Forall (fun y => less y (min_from m l) = false) (m :: l).
Proof.
  revert m. induction l as [|y l IH]; intros m; simpl.
  - repeat constructor. apply sw_irrefl.
  - specialize (IH (if less y m then y else m)).
    apply Forall_cons in IH as [Hh Ht].
    destruct (less y m) eqn:E; repeat constructor; try done.
    + destruct (less m (min_from y l)) eqn:E2; [|done].
      by rewrite (sw_trans _ _ _ E E2) in Hh.
    + by apply sw_negtrans with m.
Qed.
End Spec.

#[export] Hint Resolve insert_ordered_ordered insert_before_ordered stable_sort_ordered : pintos.
