(* ===== verification/ListRuns.v ===== *)
(** * The natural merge sort of list_sort, on sequences

    The runs of a sequence, the merge of two runs and one pass of list_sort over
    a sequence, with the facts that make the sort stable and terminating. *)

From S2P Require Import Prelude ListSpec.

(** ** The runs of a sequence *)

Section Runs.
Context (less : Z -> Z -> bool).

(** No element of [l] is less than the one before it, starting from [x]. *)
Fixpoint is_run (x : Z) (l : list Z) : bool :=
  match l with
  | [] => true
  | y :: l' => if less y x then false else is_run y l'
  end.

(** The rest of the run that [x] begins, and what follows the run. *)
Fixpoint run_split (x : Z) (l : list Z) : list Z * list Z :=
  match l with
  | [] => ([], [])
  | y :: l' => if less y x then ([], l) else let '(r, s) := run_split y l' in (y :: r, s)
  end.

(** The number of runs. *)
Fixpoint runs_from (x : Z) (l : list Z) : nat :=
  match l with
  | [] => 1
  | y :: l' => (if less y x then 1 else 0) + runs_from y l'
  end.

Definition runs (l : list Z) : nat := match l with [] => 0 | x :: l' => runs_from x l' end.

(** The stable merge of inplace_merge: the second run goes first only when its
    head is less. *)
Fixpoint merge (a : list Z) : list Z -> list Z :=
  fix merge_b (b : list Z) : list Z :=
    match a, b with
    | [], _ => b
    | _, [] => a
    | x :: a', y :: b' => if less y x then y :: merge_b b' else x :: merge a' b
    end.

(** One pass of list_sort merges neighbouring runs; the number counts the runs
    it outputs. *)
Inductive pass : list Z -> list Z -> nat -> Prop :=
  | pass_nil : pass [] [] 0
  | pass_one x l r : run_split x l = (r, []) -> pass (x :: l) (x :: l) 1
  | pass_two x l r y l' r' l'' o n :
      run_split x l = (r, y :: l') -> run_split y l' = (r', l'') -> pass l'' o n ->
      pass (x :: l) (merge (x :: r) (y :: r') ++ o) (S n).

Lemma run_split_app x l r s : run_split x l = (r, s) -> l = r ++ s.
Proof.
  revert x r s. induction l as [|y l IH]; intros x r s; simpl; [by intros [= <- <-]|].
  destruct (less y x); [by intros [= <- <-]|].
  destruct (run_split y l) as [r0 s0] eqn:E. intros [= <- <-]. by rewrite (IH y r0 s0 E).
Qed.

Lemma run_split_is_run x l r s : run_split x l = (r, s) -> is_run x r = true.
Proof.
  revert x r s. induction l as [|y l IH]; intros x r s; simpl; [by intros [= <- <-]|].
  destruct (less y x) eqn:Eyx; [by intros [= <- <-]|].
  destruct (run_split y l) as [r0 s0] eqn:E. intros [= <- <-]. simpl. rewrite Eyx. eauto.
Qed.

(** A run ends where the next element is less than its last one. *)
Lemma run_split_runs x l r s : run_split x l = (r, s) -> runs_from x l = S (runs s).
Proof.
  revert x r s. induction l as [|y l IH]; intros x r s; simpl; [by intros [= <- <-]|].
  destruct (less y x); [by intros [= <- <-]|].
  destruct (run_split y l) as [r0 s0] eqn:E. intros [= <- <-]. eauto.
Qed.

Lemma runs_from_pos x l : (1 <= runs_from x l)%nat.
Proof.
  revert x. induction l as [|y l IH]; intros x; simpl; [lia|].
  specialize (IH y). destruct (less y x); lia.
Qed.

Lemma is_run_runs x l : is_run x l = true <-> runs_from x l = 1%nat.
Proof.
  revert x. induction l as [|y l IH]; intros x; simpl; [done|].
  pose proof (runs_from_pos y l).
  destruct (less y x); [split; [done|lia]|]. apply IH.
Qed.

Lemma runs_app l l' : (runs (l ++ l') <= runs l + runs l')%nat.
Proof.
  destruct l as [|x l]; [done|]. simpl. revert x. induction l as [|y l IH]; intros x; simpl.
  - destruct l' as [|z l']; simpl; [lia|]. destruct (less z x); lia.
  - specialize (IH y). destruct (less y x); lia.
Qed.

Lemma runs_length l : (runs l <= length l)%nat.
Proof.
  destruct l as [|x l]; simpl; [done|]. revert x. induction l as [|y l IH]; intros x; simpl; [lia|].
  specialize (IH y). destruct (less y x); simpl in *; lia.
Qed.

Lemma merge_nil_r a : merge a [] = a.
Proof. by destruct a. Qed.

Lemma merge_cons x a y b :
  merge (x :: a) (y :: b) =
  if less y x then y :: merge (x :: a) b else x :: merge a (y :: b).
Proof. done. Qed.

Lemma merge_perm a b : merge a b ≡ₚ a ++ b.
Proof.
  revert b. induction a as [|x a IHa]; [by destruct b|].
  induction b as [|y b IHb]; [by rewrite merge_nil_r, (right_id_L [] (++))|].
  rewrite merge_cons. destruct (less y x).
  - rewrite IHb. by rewrite <-Permutation_middle.
  - by rewrite IHa.
Qed.

Lemma pass_length_bound l o n : pass l o n -> (n <= length l)%nat /\ o ≡ₚ l.
Proof.
  induction 1 as [|x l r E|x l r y l' r' l'' o n E E' Hp [IHn IHp]]; [done|simpl; split; [lia|done]|].
  apply run_split_app in E as ->. apply run_split_app in E' as ->. split.
  - simpl. rewrite !length_app. simpl. rewrite length_app. lia.
  - rewrite merge_perm, IHp, <-(assoc_L (++)). done.
Qed.

(** A pass outputs half the runs it found, rounded up. *)
Lemma pass_runs l o n : pass l o n -> (runs l <= 2 * n /\ 2 * n <= runs l + 1)%nat.
Proof.
  induction 1 as [|x l r E|x l r y l' r' l'' o n E E' Hp IH]; simpl; [lia| |].
  - rewrite (run_split_runs _ _ _ _ E). simpl. lia.
  - rewrite (run_split_runs _ _ _ _ E). simpl. rewrite (run_split_runs _ _ _ _ E'). lia.
Qed.

Lemma is_run_ordered x l `{!StrictWeak less} : is_run x l = true <-> ordered less (x :: l).
Proof.
  revert x. induction l as [|y l IH]; intros x; simpl.
  - split; [|done]. by repeat constructor.
  - destruct (less y x) eqn:E.
    + split; [done|]. intros H%ordered_head_le. apply Forall_cons in H as [H _].
      unfold le_of in H. congruence.
    + rewrite IH. split; [|by inversion 1]. intros H. constructor; [done|].
      apply ordered_head_le in H as Hh. constructor; [done|].
      eapply Forall_impl; [exact Hh|]. intros z Hz. eapply le_of_trans; eauto.
Qed.

Context `{SW : !StrictWeak less}.

(** A merge is the insertion of its elements in their old order. *)
Lemma merge_sorts a b z :
  ordered less a -> ordered less b ->
  foldr (insert_before less) z (merge a b) = foldr (insert_before less) z (a ++ b).
Proof.
  revert b. induction a as [|x a IHa]; intros b Ha; [by destruct b|].
  induction b as [|y b IHb]; intros Hb; [by rewrite merge_nil_r, (right_id_L [] (++))|].
  rewrite merge_cons. destruct (less y x) eqn:E.
  - cbn [foldr]. rewrite IHb by (by inversion Hb). rewrite !foldr_app.
    cbn [foldr]. symmetry. apply (insert_before_past less y (x :: a)).
    constructor; [done|]. eapply Forall_impl; [by apply ordered_head_le|].
    intros w Hw. by eapply (sw_lt_le less).
  - cbn [foldr]. rewrite IHa; [done|by inversion Ha|done].
Qed.

Lemma merge_ordered a b : ordered less a -> ordered less b -> ordered less (merge a b).
Proof.
  revert b. induction a as [|x a IHa]; intros b Ha; [by destruct b|].
  induction b as [|y b IHb]; intros Hb; [by rewrite merge_nil_r|].
  rewrite merge_cons. destruct (less y x) eqn:E.
  - inversion Hb; subst. constructor; [by apply IHb|]. rewrite merge_perm.
    apply Forall_app; split; [|done]. apply Forall_cons; split; [by apply sw_asym|].
    eapply Forall_impl; [apply (ordered_head_le less x a Ha)|]. intros w Hw.
    apply le_of_trans with x; [done|by apply sw_asym|done].
  - inversion Ha; subst. constructor; [by apply IHa|]. rewrite merge_perm.
    apply Forall_app; split; [done|]. constructor; [done|].
    eapply Forall_impl; [apply (ordered_head_le less y b Hb)|]. intros w Hw.
    by apply le_of_trans with y.
Qed.

Lemma pass_sorts l o n :
  pass l o n ->
  (forall z, foldr (insert_before less) z o = foldr (insert_before less) z l) /\ (runs o <= n)%nat.
Proof.
  induction 1 as [|x l r E|x l r y l' r' l'' o n E E' Hp [IHs IHr]]; [done| |].
  - split; [done|]. simpl. rewrite (run_split_runs _ _ _ _ E). simpl. lia.
  - pose proof (run_split_is_run _ _ _ _ E) as R. pose proof (run_split_is_run _ _ _ _ E') as R'.
    rewrite is_run_ordered in R, R' by done.
    apply run_split_app in E as ->. apply run_split_app in E' as ->. split.
    + intros z. rewrite foldr_app, merge_sorts, IHs by done. simpl.
      by rewrite !foldr_app; simpl; rewrite foldr_app.
    + pose proof (merge_ordered _ _ R R') as Ho.
      assert (runs (merge (x :: r) (y :: r')) <= 1)%nat.
      { destruct (merge (x :: r) (y :: r')) as [|w m]; [simpl; lia|]. simpl.
        apply is_run_ordered, is_run_runs in Ho; [lia|done]. }
      etransitivity; [apply runs_app|]. lia.
Qed.

(** When at most one run is left the list is sorted. *)
Lemma runs_le1_ordered l : (runs l <= 1)%nat -> ordered less l.
Proof.
  destruct l as [|x l]; simpl; [constructor|]. intros H. apply is_run_ordered; [done|].
  apply is_run_runs. pose proof (runs_from_pos x l). lia.
Qed.

Lemma pass_stable_sort l o n : pass l o n -> stable_sort less o = stable_sort less l.
Proof. intros [H _]%pass_sorts. apply H. Qed.
End Runs.
