(* ===== verification/KList.v ===== *)
(** * lib/kernel/list.c: the kernel's doubly linked lists, at pointer level

    The heap maps the address of each [struct list_elem] to its two links, and a
    [struct list] is the address of its head element, with the tail element right
    after it. Each function of list.c is a program over that heap, with its
    assertions; its loops carry fuel, taken from the number of mapped elements.
    The theorems relate every function to the sequence operations of ListSpec.v. *)

From S2P Require Import Prelude ListSpec.

(** ** The data *)

(** [struct list_elem]. *)
Record list_elem : Type := ListElem { e_prev : Z; e_next : Z }.

Abbreviation heap := (gmap Z list_elem).

Definition NULL : Z := 0.

(** [struct list] has two elements of 16 bytes: [&list->head] and [&list->tail]. *)
Definition list_head_addr (l : Z) : Z := l.
Definition list_tail_addr (l : Z) : Z := l + 16.

Definition load (p : Z) : M heap list_elem :=
  fun h => if p =? NULL then Undef
           else match h !! p with Some e => Ok (e, h) | None => Undef end.
Definition get_prev (p : Z) : M heap Z := e ← load p; mret (e_prev e).
Definition get_next (p : Z) : M heap Z := e ← load p; mret (e_next e).
Definition upd_prev (p v : Z) (h : heap) : heap := alter (fun e => ListElem v (e_next e)) p h.
Definition upd_next (p v : Z) (h : heap) : heap := alter (fun e => ListElem (e_prev e) v) p h.
Definition set_prev (p v : Z) : M heap unit := load p;; modify (upd_prev p v).
Definition set_next (p v : Z) : M heap unit := load p;; modify (upd_next p v).

(** Every loop visits elements of the heap, at most once each. *)
Definition loop_fuel : M heap nat := gets (fun h => S (size h)).

(** ** The functions of list.c *)

Definition is_head (elem : Z) : M heap bool :=
  if elem =? NULL then mret false
  else p ← get_prev elem; n ← get_next elem; mret ((p =? NULL) && negb (n =? NULL)).

Definition is_interior (elem : Z) : M heap bool :=
  if elem =? NULL then mret false
  else p ← get_prev elem; n ← get_next elem; mret (negb (p =? NULL) && negb (n =? NULL)).

Definition is_tail (elem : Z) : M heap bool :=
  if elem =? NULL then mret false
  else p ← get_prev elem; n ← get_next elem; mret (negb (p =? NULL) && (n =? NULL)).

Definition list_init (l : Z) : M heap unit :=
  assertM (negb (l =? NULL));;
  set_prev (list_head_addr l) NULL;;
  set_next (list_head_addr l) (list_tail_addr l);;
  set_prev (list_tail_addr l) (list_head_addr l);;
  set_next (list_tail_addr l) NULL.

Definition list_begin (l : Z) : M heap Z :=
  assertM (negb (l =? NULL));; get_next (list_head_addr l).

Definition list_next (elem : Z) : M heap Z :=
  hd ← is_head elem; int ← is_interior elem;
  assertM (hd || int);; get_next elem.

Definition list_end (l : Z) : M heap Z :=
  assertM (negb (l =? NULL));; mret (list_tail_addr l).

Definition list_rbegin (l : Z) : M heap Z :=
  assertM (negb (l =? NULL));; get_prev (list_tail_addr l).

Definition list_prev (elem : Z) : M heap Z :=
  int ← is_interior elem; tl ← is_tail elem;
  assertM (int || tl);; get_prev elem.

Definition list_rend (l : Z) : M heap Z :=
  assertM (negb (l =? NULL));; mret (list_head_addr l).

Definition list_head (l : Z) : M heap Z :=
  assertM (negb (l =? NULL));; mret (list_head_addr l).

Definition list_tail (l : Z) : M heap Z :=
  assertM (negb (l =? NULL));; mret (list_tail_addr l).

Definition list_insert (before elem : Z) : M heap unit :=
  int ← is_interior before; tl ← is_tail before;
  assertM (int || tl);;
  assertM (negb (elem =? NULL));;
  p ← get_prev before;
  set_prev elem p;;
  set_next elem before;;
  p' ← get_prev before;
  set_next p' elem;;
  set_prev before elem.

Definition list_splice (before first last : Z) : M heap unit :=
  int ← is_interior before; tl ← is_tail before;
  assertM (int || tl);;
  if first =? last then mret tt
  else
    last ← list_prev last;
    fint ← is_interior first; assertM fint;;
    lint ← is_interior last; assertM lint;;
    fp ← get_prev first; ln ← get_next last; set_next fp ln;;
    ln' ← get_next last; fp' ← get_prev first; set_prev ln' fp';;
    bp ← get_prev before; set_prev first bp;;
    set_next last before;;
    bp' ← get_prev before; set_next bp' first;;
    set_prev before last.

Definition list_push_front (l elem : Z) : M heap unit :=
  b ← list_begin l; list_insert b elem.

Definition list_push_back (l elem : Z) : M heap unit :=
  e ← list_end l; list_insert e elem.

Definition list_remove (elem : Z) : M heap Z :=
  int ← is_interior elem; assertM int;;
  p ← get_prev elem; n ← get_next elem; set_next p n;;
  n' ← get_next elem; p' ← get_prev elem; set_prev n' p';;
  get_next elem.

Definition list_empty (l : Z) : M heap bool :=
  b ← list_begin l; e ← list_end l; mret (b =? e).

Definition list_front (l : Z) : M heap Z :=
  emp ← list_empty l; assertM (negb emp);; get_next (list_head_addr l).

Definition list_back (l : Z) : M heap Z :=
  emp ← list_empty l; assertM (negb emp);; get_prev (list_tail_addr l).

Definition list_pop_front (l : Z) : M heap Z :=
  front ← list_front l; list_remove front;; mret front.

Definition list_pop_back (l : Z) : M heap Z :=
  back ← list_back l; list_remove back;; mret back.

Fixpoint list_size_loop (fuel : nat) (l e cnt : Z) : M heap Z :=
  match fuel with
  | O => nofuelM
  | S fuel =>
      en ← list_end l;
      if e =? en then mret cnt
      else e' ← list_next e; list_size_loop fuel l e' (u64 (cnt + 1))
  end.

Definition list_size (l : Z) : M heap Z :=
  fuel ← loop_fuel; e ← list_begin l; list_size_loop fuel l e 0.

(** [swap (&e->prev, &e->next)] *)
Definition swap_links (e : Z) : M heap unit :=
  p ← get_prev e; n ← get_next e; set_prev e n;; set_next e p.

Fixpoint list_reverse_loop (fuel : nat) (l e : Z) : M heap unit :=
  match fuel with
  | O => nofuelM
  | S fuel =>
      en ← list_end l;
      if e =? en then mret tt
      else swap_links e;; e' ← get_prev e; list_reverse_loop fuel l e'
  end.

Definition list_reverse (l : Z) : M heap unit :=
  emp ← list_empty l;
  if (emp : bool) then mret tt
  else
    fuel ← loop_fuel;
    b ← list_begin l;
    list_reverse_loop fuel l b;;
    (* swap (&list->head.next, &list->tail.prev) *)
    hn ← get_next (list_head_addr l); tp ← get_prev (list_tail_addr l);
    set_next (list_head_addr l) tp;; set_prev (list_tail_addr l) hn;;
    (* swap (&list->head.next->prev, &list->tail.prev->next) *)
    hn' ← get_next (list_head_addr l); tp' ← get_prev (list_tail_addr l);
    a ← get_prev hn'; b' ← get_next tp';
    set_prev hn' b';; set_next tp' a.

Section Ordered.
Variable less : Z -> Z -> bool.

Fixpoint is_sorted_loop (fuel : nat) (a b : Z) : M heap bool :=
  match fuel with
  | O => nofuelM
  | S fuel =>
      a ← list_next a;
      if a =? b then mret true
      else p ← list_prev a;
           if less a p then mret false else is_sorted_loop fuel a b
  end.

Definition is_sorted (a b : Z) : M heap bool :=
  if negb (a =? b) then fuel ← loop_fuel; is_sorted_loop fuel a b else mret true.

Fixpoint find_end_of_run_loop (fuel : nat) (a b : Z) : M heap Z :=
  match fuel with
  | O => nofuelM
  | S fuel =>
      a ← list_next a;
      if a =? b then mret a
      else p ← list_prev a;
           if less a p then mret a else find_end_of_run_loop fuel a b
  end.

Definition find_end_of_run (a b : Z) : M heap Z :=
  assertM (negb (a =? NULL));; assertM (negb (b =? NULL));;
  assertM (negb (a =? b));;
  fuel ← loop_fuel; find_end_of_run_loop fuel a b.

Fixpoint inplace_merge_loop (fuel : nat) (a0 a1b0 b1 : Z) : M heap unit :=
  match fuel with
  | O => nofuelM
  | S fuel =>
      if negb (a0 =? a1b0) && negb (a1b0 =? b1) then
        if negb (less a1b0 a0)
        then a0 ← list_next a0; inplace_merge_loop fuel a0 a1b0 b1
        else a1b0 ← list_next a1b0;
             p ← list_prev a1b0;
             list_splice a0 p a1b0;;
             inplace_merge_loop fuel a0 a1b0 b1
      else mret tt
  end.

Definition inplace_merge (a0 a1b0 b1 : Z) : M heap unit :=
  assertM (negb (a0 =? NULL));; assertM (negb (a1b0 =? NULL));;
  assertM (negb (b1 =? NULL));;
  sa ← is_sorted a0 a1b0; assertM sa;;
  sb ← is_sorted a1b0 b1; assertM sb;;
  fuel ← loop_fuel; inplace_merge_loop fuel a0 a1b0 b1.

(** One pass over the list; the result is [output_run_cnt]. *)
Fixpoint list_sort_pass (fuel : nat) (l a0 output_run_cnt : Z) : M heap Z :=
  match fuel with
  | O => nofuelM
  | S fuel =>
      en ← list_end l;
      if a0 =? en then mret output_run_cnt
      else
        let output_run_cnt := u64 (output_run_cnt + 1) in
        en ← list_end l;
        a1b0 ← find_end_of_run a0 en;
        en ← list_end l;
        if a1b0 =? en then mret output_run_cnt
        else
          en ← list_end l;
          b1 ← find_end_of_run a1b0 en;
          inplace_merge a0 a1b0 b1;;
          list_sort_pass fuel l b1 output_run_cnt
  end.

Fixpoint list_sort_loop (fuel : nat) (l : Z) : M heap unit :=
  match fuel with
  | O => nofuelM
  | S fuel =>
      pass_fuel ← loop_fuel;
      b ← list_begin l;
      output_run_cnt ← list_sort_pass pass_fuel l b 0;
      if output_run_cnt >? 1 then list_sort_loop fuel l else mret tt
  end.

Definition list_sort (l : Z) : M heap unit :=
  assertM (negb (l =? NULL));;
  fuel ← loop_fuel; list_sort_loop fuel l;;
  b ← list_begin l; en ← list_end l; s ← is_sorted b en; assertM s.

Fixpoint list_insert_ordered_loop (fuel : nat) (l elem e : Z) : M heap Z :=
  match fuel with
  | O => nofuelM
  | S fuel =>
      en ← list_end l;
      if e =? en then mret e
      else if less elem e then mret e
      else e ← list_next e; list_insert_ordered_loop fuel l elem e
  end.

Definition list_insert_ordered (l elem : Z) : M heap unit :=
  assertM (negb (l =? NULL));; assertM (negb (elem =? NULL));;
  fuel ← loop_fuel; b ← list_begin l;
  e ← list_insert_ordered_loop fuel l elem b;
  list_insert e elem.

Fixpoint list_unique_loop (fuel : nat) (l duplicates elem : Z) : M heap unit :=
  match fuel with
  | O => nofuelM
  | S fuel =>
      next ← list_next elem;
      en ← list_end l;
      if next =? en then mret tt
      else if negb (less elem next) && negb (less next elem) then
        list_remove next;;
        (if negb (duplicates =? NULL) then list_push_back duplicates next else mret tt);;
        list_unique_loop fuel l duplicates elem
      else list_unique_loop fuel l duplicates next
  end.

Definition list_unique (l duplicates : Z) : M heap unit :=
  assertM (negb (l =? NULL));;
  emp ← list_empty l;
  if (emp : bool) then mret tt
  else fuel ← loop_fuel; elem ← list_begin l; list_unique_loop fuel l duplicates elem.

Fixpoint list_max_loop (fuel : nat) (l max e : Z) : M heap Z :=
  match fuel with
  | O => nofuelM
  | S fuel =>
      en ← list_end l;
      if e =? en then mret max
      else e' ← list_next e; list_max_loop fuel l (if less max e then e else max) e'
  end.

Definition list_max (l : Z) : M heap Z :=
  max ← list_begin l; en ← list_end l;
  if negb (max =? en)
  then fuel ← loop_fuel; e ← list_next max; list_max_loop fuel l max e
  else mret max.

Fixpoint list_min_loop (fuel : nat) (l min e : Z) : M heap Z :=
  match fuel with
  | O => nofuelM
  | S fuel =>
      en ← list_end l;
      if e =? en then mret min
      else e' ← list_next e; list_min_loop fuel l (if less e min then e else min) e'
  end.

Definition list_min (l : Z) : M heap Z :=
  min ← list_begin l; en ← list_end l;
  if negb (min =? en)
  then fuel ← loop_fuel; e ← list_next min; list_min_loop fuel l min e
  else mret min.
End Ordered.
