(* ===== verification/KListFacts.v ===== *)
(** * lib/kernel/list.c refines the sequence operations of ListSpec.v

    [list_rep h l xs] says that the kernel list at [l] holds the elements [xs] in
    the heap [h]. Every function of list.c is proved, with total correctness, to
    take a represented list to the representation of the specified result and to
    change no other element. *)

From S2P Require Import Prelude ListSpec KList.

(** ** The representation *)

Definition nxt (h : heap) (p : Z) : option Z := e_next <$> h !! p.
Definition prv (h : heap) (p : Z) : option Z := e_prev <$> h !! p.

(** [p] and [q] point to each other. *)
Definition linked (h : heap) (p q : Z) : Prop := nxt h p = Some q /\ prv h q = Some p.

(** Consecutive elements of [ps] are linked. *)
Fixpoint seg (h : heap) (ps : list Z) : Prop :=
  match ps with
  | p :: (q :: _) as ps' => linked h p q /\ seg h ps'
  | _ => True
  end.

(** The addresses a list occupies. *)
Definition cells (l : Z) (xs : list Z) : list Z :=
  list_head_addr l :: xs ++ [list_tail_addr l].

Definition list_rep (h : heap) (l : Z) (xs : list Z) : Prop :=
  seg h (cells l xs) /\
  prv h (list_head_addr l) = Some NULL /\ nxt h (list_tail_addr l) = Some NULL /\
  NoDup (cells l xs) /\ NULL ∉ cells l xs.

(** [h'] differs from [h] at most at the addresses [ps], and maps the same ones. *)
Definition only_changed (ps : list Z) (h h' : heap) : Prop :=
  (forall p, p ∉ ps -> h' !! p = h !! p) /\ dom h' = dom h.

(** ** Reading and writing links *)

Lemma nxt_upd_next p v h q :
  nxt (upd_next p v h) q = if decide (p = q) then (fun _ => v) <$> nxt h q else nxt h q.
Proof. unfold nxt, upd_next. rewrite lookup_alter. case_decide; [subst|done]. by destruct (h !! q). Qed.

Lemma prv_upd_next p v h q : prv (upd_next p v h) q = prv h q.
Proof. unfold prv, upd_next. rewrite lookup_alter. case_decide; [subst|done]. by destruct (h !! q). Qed.

Lemma prv_upd_prev p v h q :
  prv (upd_prev p v h) q = if decide (p = q) then (fun _ => v) <$> prv h q else prv h q.
Proof. unfold prv, upd_prev. rewrite lookup_alter. case_decide; [subst|done]. by destruct (h !! q). Qed.

Lemma nxt_upd_prev p v h q : nxt (upd_prev p v h) q = nxt h q.
Proof. unfold nxt, upd_prev. rewrite lookup_alter. case_decide; [subst|done]. by destruct (h !! q). Qed.

Lemma nxt_upd_next_ne p v h q : p <> q -> nxt (upd_next p v h) q = nxt h q.
Proof. intros. rewrite nxt_upd_next. by rewrite decide_False. Qed.

Lemma prv_upd_prev_ne p v h q : p <> q -> prv (upd_prev p v h) q = prv h q.
Proof. intros. rewrite prv_upd_prev. by rewrite decide_False. Qed.

Lemma nxt_upd_next_eq p v h w : nxt h p = Some w -> nxt (upd_next p v h) p = Some v.
Proof. intros E. rewrite nxt_upd_next, decide_True by done. by rewrite E. Qed.

Lemma prv_upd_prev_eq p v h w : prv h p = Some w -> prv (upd_prev p v h) p = Some v.
Proof. intros E. rewrite prv_upd_prev, decide_True by done. by rewrite E. Qed.

Lemma nxt_is_Some h p : is_Some (nxt h p) <-> is_Some (h !! p).
Proof. unfold nxt. by rewrite fmap_is_Some. Qed.

Lemma prv_is_Some h p : is_Some (prv h p) <-> is_Some (h !! p).
Proof. unfold prv. by rewrite fmap_is_Some. Qed.

Lemma nxt_prv h p v : nxt h p = Some v -> exists w, prv h p = Some w.
Proof. intros E. destruct (proj2 (prv_is_Some h p)); [apply nxt_is_Some; eauto|eauto]. Qed.

Lemma prv_nxt h p v : prv h p = Some v -> exists w, nxt h p = Some w.
Proof. intros E. destruct (proj2 (nxt_is_Some h p)); [apply prv_is_Some; eauto|eauto]. Qed.

Lemma dom_upd_next p v h : dom (upd_next p v h) = dom h.
Proof. apply dom_alter_L. Qed.

Lemma dom_upd_prev p v h : dom (upd_prev p v h) = dom h.
Proof. apply dom_alter_L. Qed.

(** ** [only_changed] *)

Lemma only_changed_refl ps h : only_changed ps h h.
Proof. by split. Qed.

Lemma only_changed_next ps p v h h' :
  only_changed ps h h' -> p ∈ ps -> only_changed ps h (upd_next p v h').
Proof.
  intros [Hs Hd] Hp. split; [|by rewrite dom_upd_next].
  intros q Hq. unfold upd_next. rewrite lookup_alter_ne; [by apply Hs|]. by intros ->.
Qed.

Lemma only_changed_prev ps p v h h' :
  only_changed ps h h' -> p ∈ ps -> only_changed ps h (upd_prev p v h').
Proof.
  intros [Hs Hd] Hp. split; [|by rewrite dom_upd_prev].
  intros q Hq. unfold upd_prev. rewrite lookup_alter_ne; [by apply Hs|]. by intros ->.
Qed.

Lemma only_changed_trans ps h1 h2 h3 :
  only_changed ps h1 h2 -> only_changed ps h2 h3 -> only_changed ps h1 h3.
Proof.
  intros [H1 D1] [H2 D2]. split; [|by rewrite D2]. intros p Hp. by rewrite H2, H1.
Qed.

Lemma only_changed_mono ps qs h h' :
  only_changed ps h h' -> ps ⊆ qs -> only_changed qs h h'.
Proof. intros [Hs Hd] Hsub. split; [|done]. intros p Hp. apply Hs. set_solver. Qed.

Ltac only_changed_tac :=
  repeat first [ apply only_changed_refl
               | apply only_changed_next; [|set_solver]
               | apply only_changed_prev; [|set_solver] ].

(** ** Segments *)

Lemma seg_app h ps p q qs :
  seg h (ps ++ p :: q :: qs) <-> seg h (ps ++ [p]) /\ linked h p q /\ seg h (q :: qs).
Proof.
  induction ps as [|r ps IH]; [simpl; tauto|].
  destruct ps as [|r' ps]; simpl in *; tauto.
Qed.

Lemma seg_app_mid h ps p qs : seg h (ps ++ p :: qs) <-> seg h (ps ++ [p]) /\ seg h (p :: qs).
Proof. destruct qs as [|q qs]; [simpl; tauto|]. rewrite seg_app. simpl. tauto. Qed.

Lemma seg_nxt h ps p q qs : seg h (ps ++ p :: q :: qs) -> nxt h p = Some q.
Proof. rewrite seg_app. intros (_ & [H _] & _). done. Qed.

Lemma seg_prv h ps p q qs : seg h (ps ++ p :: q :: qs) -> prv h q = Some p.
Proof. rewrite seg_app. intros (_ & [_ H] & _). done. Qed.

(** A segment survives when its inner links do. *)
Lemma seg_frame h h' p ps q :
  seg h (p :: ps ++ [q]) ->
  (forall x, x ∈ p :: ps -> nxt h' x = nxt h x) ->
  (forall x, x ∈ ps ++ [q] -> prv h' x = prv h x) ->
  seg h' (p :: ps ++ [q]).
Proof.
  revert p. induction ps as [|r ps IH]; intros p; simpl; intros Hs Hn Hp.
  - destruct Hs as [[H1 H2] _]. split; [|done]. split.
    + rewrite Hn; [done|set_solver].
    + rewrite Hp; [done|set_solver].
  - destruct Hs as [[H1 H2] Hs]. split; [split|].
    + rewrite Hn; [done|set_solver].
    + rewrite Hp; [done|set_solver].
    + apply IH; [done| |]; intros x Hx; [apply Hn|apply Hp]; set_solver.
Qed.

Lemma seg_same h h' ps :
  seg h ps -> (forall x, x ∈ ps -> h' !! x = h !! x) -> seg h' ps.
Proof.
  intros Hs Hsame. destruct ps as [|p ps]; [done|].
  destruct ps as [|q ps _] using rev_ind; [done|].
  apply seg_frame with h; [done| |]; intros x Hx; unfold nxt, prv; rewrite Hsame; set_solver.
Qed.

Lemma list_rep_same h h' l xs :
  list_rep h l xs -> (forall x, x ∈ cells l xs -> h' !! x = h !! x) -> list_rep h' l xs.
Proof.
  intros (Hs & Hp & Hn & Hnd & Hnull) Hsame.
  split; [by apply seg_same with h|].
  unfold prv, nxt in *. repeat split; try done; rewrite Hsame; try done; unfold cells; set_solver.
Qed.

(** A list whose cells are not among those changed is untouched. *)
Lemma list_rep_frame ps h h' l xs :
  list_rep h l xs -> only_changed ps h h' -> (forall x, x ∈ cells l xs -> x ∉ ps) ->
  list_rep h' l xs.
Proof. intros Hr [Hs _] Hdisj. apply list_rep_same with h; auto. Qed.

(** Versions of [seg_frame] for what lies before and after a change. *)
Lemma seg_frame_l h h' ps p :
  seg h (ps ++ [p]) ->
  (forall x, x ∈ ps -> nxt h' x = nxt h x) ->
  (forall x, x ∈ ps ++ [p] -> prv h' x = prv h x) ->
  seg h' (ps ++ [p]).
Proof.
  destruct ps as [|q ps]; [done|]. intros Hs Hn Hp.
  apply seg_frame with h; [done|exact Hn|]. intros x Hx. apply Hp. simpl. by right.
Qed.

Lemma seg_frame_r h h' q qs :
  seg h (q :: qs) ->
  (forall x, x ∈ q :: qs -> nxt h' x = nxt h x) ->
  (forall x, x ∈ qs -> prv h' x = prv h x) ->
  seg h' (q :: qs).
Proof.
  destruct qs as [|r qs _] using rev_ind; [done|]. intros Hs Hn Hp.
  apply seg_frame with h; [done| |exact Hp]. intros x Hx. apply Hn. set_solver.
Qed.

(** ** Elementary steps *)

Section Steps.
Implicit Types (h : heap) (p q v w : Z).

Lemma wp_get_next h p v Q : p <> NULL -> nxt h p = Some v -> Q v h -> wp (get_next p) Q h.
Proof.
  unfold nxt. intros Hp Hn HQ. destruct (h !! p) as [e|] eqn:E; simplify_eq/=.
  exists (e_next e), h. split; [|done].
  unfold get_next, mbind, M_mbind, load. by rewrite (proj2 (Z.eqb_neq _ _) Hp), E.
Qed.

Lemma wp_get_prev h p v Q : p <> NULL -> prv h p = Some v -> Q v h -> wp (get_prev p) Q h.
Proof.
  unfold prv. intros Hp Hn HQ. destruct (h !! p) as [e|] eqn:E; simplify_eq/=.
  exists (e_prev e), h. split; [|done].
  unfold get_prev, mbind, M_mbind, load. by rewrite (proj2 (Z.eqb_neq _ _) Hp), E.
Qed.

Lemma wp_set_next h p v Q :
  p <> NULL -> is_Some (h !! p) -> Q tt (upd_next p v h) -> wp (set_next p v) Q h.
Proof.
  intros Hp [e He] HQ. exists tt, (upd_next p v h). split; [|done].
  unfold set_next, mbind, M_mbind, load. by rewrite (proj2 (Z.eqb_neq _ _) Hp), He.
Qed.

Lemma wp_set_prev h p v Q :
  p <> NULL -> is_Some (h !! p) -> Q tt (upd_prev p v h) -> wp (set_prev p v) Q h.
Proof.
  intros Hp [e He] HQ. exists tt, (upd_prev p v h). split; [|done].
  unfold set_prev, mbind, M_mbind, load. by rewrite (proj2 (Z.eqb_neq _ _) Hp), He.
Qed.

Lemma wp_links_test (test : Z -> Z -> bool) h p a b Q :
  p <> NULL -> prv h p = Some a -> nxt h p = Some b -> Q (test a b) h ->
  wp (x ← get_prev p; y ← get_next p; mret (test x y)) Q h.
Proof.
  intros Hp Ha Hb HQ. apply wp_bind, wp_get_prev with a; [done..|].
  apply wp_bind, wp_get_next with b; [done..|]. by apply wp_ret.
Qed.

Lemma wp_is_head h p a b Q :
  p <> NULL -> prv h p = Some a -> nxt h p = Some b ->
  Q ((a =? NULL) && negb (b =? NULL)) h -> wp (is_head p) Q h.
Proof.
  intros Hp. unfold is_head. rewrite (proj2 (Z.eqb_neq _ _) Hp).
  by apply (wp_links_test (fun a b => (a =? NULL) && negb (b =? NULL))).
Qed.

Lemma wp_is_interior h p a b Q :
  p <> NULL -> prv h p = Some a -> nxt h p = Some b ->
  Q (negb (a =? NULL) && negb (b =? NULL)) h -> wp (is_interior p) Q h.
Proof.
  intros Hp. unfold is_interior. rewrite (proj2 (Z.eqb_neq _ _) Hp).
  by apply (wp_links_test (fun a b => negb (a =? NULL) && negb (b =? NULL))).
Qed.

Lemma wp_is_tail h p a b Q :
  p <> NULL -> prv h p = Some a -> nxt h p = Some b ->
  Q (negb (a =? NULL) && (b =? NULL)) h -> wp (is_tail p) Q h.
Proof.
  intros Hp. unfold is_tail. rewrite (proj2 (Z.eqb_neq _ _) Hp).
  by apply (wp_links_test (fun a b => negb (a =? NULL) && (b =? NULL))).
Qed.

(** Following a link never trips the assertion of list_next or list_prev. *)
Lemma wp_list_next h p q Q :
  p <> NULL -> q <> NULL -> nxt h p = Some q -> Q q h -> wp (list_next p) Q h.
Proof.
  intros Hp Hq Hn HQ. destruct (nxt_prv h p q Hn) as [a Ha].
  apply wp_bind, wp_is_head with a q; [done..|].
  apply wp_bind, wp_is_interior with a q; [done..|].
  apply wp_bind, wp_assert; [|by apply wp_get_next with q].
  rewrite (proj2 (Z.eqb_neq q _) Hq). by destruct (a =? NULL).
Qed.

Lemma wp_list_prev h p q Q :
  p <> NULL -> q <> NULL -> prv h q = Some p -> Q p h -> wp (list_prev q) Q h.
Proof.
  intros Hp Hq Hv HQ. destruct (prv_nxt h q p Hv) as [b Hb].
  apply wp_bind, wp_is_interior with p b; [done..|].
  apply wp_bind, wp_is_tail with p b; [done..|].
  apply wp_bind, wp_assert; [|by apply wp_get_prev with p].
  rewrite (proj2 (Z.eqb_neq p _) Hp). by destruct (b =? NULL).
Qed.

(** The guard of list_insert and list_splice. *)
Lemma wp_not_head {A} h p q (k : M heap A) Q :
  p <> NULL -> q <> NULL -> prv h q = Some p -> wp k Q h ->
  wp (int ← is_interior q; tl ← is_tail q; assertM (int || tl);; k) Q h.
Proof.
  intros Hp Hq Hv HQ. destruct (prv_nxt h q p Hv) as [b Hb].
  apply wp_bind, wp_is_interior with p b; [done..|].
  apply wp_bind, wp_is_tail with p b; [done..|].
  apply wp_bind, wp_assert; [|done].
  rewrite (proj2 (Z.eqb_neq p _) Hp). by destruct (b =? NULL).
Qed.
End Steps.

(** Settles the links of an updated heap from those of the old one. *)
Ltac heap_simp :=
  repeat first
    [ rewrite prv_upd_next
    | rewrite nxt_upd_prev
    | rewrite nxt_upd_next_ne by congruence
    | rewrite prv_upd_prev_ne by congruence
    | erewrite nxt_upd_next_eq by (heap_simp; eauto)
    | erewrite prv_upd_prev_eq by (heap_simp; eauto) ].

(** Proves that an address is mapped in an updated heap. *)
Lemma mapped_upd_next p v h q : is_Some (h !! q) -> is_Some (upd_next p v h !! q).
Proof. rewrite <-!elem_of_dom, dom_upd_next. done. Qed.

Lemma mapped_upd_prev p v h q : is_Some (h !! q) -> is_Some (upd_prev p v h !! q).
Proof. rewrite <-!elem_of_dom, dom_upd_prev. done. Qed.

Lemma mapped_nxt h p q : nxt h p = Some q -> is_Some (h !! p).
Proof. intros E. apply nxt_is_Some. eauto. Qed.

Lemma mapped_prv h p q : prv h q = Some p -> is_Some (h !! q).
Proof. intros E. apply prv_is_Some. eauto. Qed.

#[export] Hint Resolve mapped_upd_next mapped_upd_prev : pintos.
#[export] Hint Extern 2 (is_Some (_ !! _)) => eapply mapped_nxt; eassumption : pintos.
#[export] Hint Extern 2 (is_Some (_ !! _)) => eapply mapped_prv; eassumption : pintos.

(** ** Insertion between two linked elements *)

Lemma NoDup_between {A} (ps : list A) p q qs :
  NoDup (ps ++ p :: q :: qs) ->
  p <> q /\ (p ∉ ps) /\ (p ∉ qs) /\ (q ∉ ps) /\ (q ∉ qs) /\ (forall x, x ∈ ps -> x ∉ qs).
Proof.
  intros (_ & Hd & Hr)%NoDup_app. apply NoDup_cons in Hr as [Hp Hr].
  apply NoDup_cons in Hr as [Hq _]. repeat split; try set_solver.
Qed.

Lemma wp_list_insert_seg h ps p b bs e Q :
  seg h (ps ++ p :: b :: bs) -> NoDup (ps ++ p :: b :: bs) ->
  NULL ∉ ps ++ p :: b :: bs ->
  e ∉ ps ++ p :: b :: bs -> e <> NULL -> is_Some (h !! e) ->
  (forall h', seg h' (ps ++ p :: e :: b :: bs) -> only_changed [p; e; b] h h' ->
     prv h' p = prv h p -> nxt h' b = nxt h b -> Q tt h') ->
  wp (list_insert b e) Q h.
Proof.
  intros Hs Hnd Hnull He Hen Hem HQ.
  pose proof (seg_nxt _ _ _ _ _ Hs) as Hpn. pose proof (seg_prv _ _ _ _ _ Hs) as Hbp.
  apply NoDup_between in Hnd as (Hpb & Hpps & Hpbs & Hbps & Hbbs & _).
  assert (p <> NULL /\ b <> NULL) as [Hp Hb] by set_solver.
  assert (e <> p /\ e <> b /\ (e ∉ ps) /\ (e ∉ bs)) as (Hep & Heb & Heps & Hebs) by set_solver.
  destruct (proj2 (prv_is_Some h e) Hem) as [ea Hea].
  destruct (proj2 (nxt_is_Some h e) Hem) as [eb Heb'].
  apply wp_not_head with p; [done..|].
  apply wp_bind, wp_assert; [by apply negb_true_iff, Z.eqb_neq|].
  apply wp_bind, wp_get_prev with p; [done..|].
  apply wp_bind, wp_set_prev; [done..|].
  apply wp_bind, wp_set_next; [done|eauto with pintos|].
  apply wp_bind, wp_get_prev with p; [done|by heap_simp|].
  apply wp_bind, wp_set_next; [done|eauto with pintos|].
  apply wp_set_prev; [done|eauto with pintos|].
  apply HQ; [|by only_changed_tac|by heap_simp|by heap_simp].
  apply seg_app in Hs as (Hl & _ & Hr).
  apply seg_app. split; [|split].
  - apply seg_frame_l with h; [done| |]; intros x Hx.
    + assert (x <> p /\ x <> e) by set_solver. destruct_and!. by heap_simp.
    + assert (x <> b /\ x <> e) by set_solver. destruct_and!. by heap_simp.
  - split; by heap_simp.
  - simpl. split; [split; by heap_simp|].
    apply seg_frame_r with h; [done| |]; intros x Hx.
    + assert (x <> p /\ x <> e) by set_solver. destruct_and!. by heap_simp.
    + assert (x <> b /\ x <> e) by set_solver. destruct_and!. by heap_simp.
Qed.

(** ** Represented lists *)

(** The element a cursor in front of [ys] points to. *)
Definition cursor (l : Z) (ys : list Z) : Z := hd (list_tail_addr l) ys.

Lemma cells_app l xs ys :
  cells l (xs ++ ys) = (list_head_addr l :: xs) ++ ys ++ [list_tail_addr l].
Proof. unfold cells. by rewrite <-(assoc_L (++)). Qed.

Lemma cursor_split l ys : exists bs, ys ++ [list_tail_addr l] = cursor l ys :: bs.
Proof. destruct ys as [|y ys]; simpl; eauto. Qed.

Lemma cells_split l xs ys :
  exists ps p bs, cells l (xs ++ ys) = ps ++ p :: cursor l ys :: bs /\
    list_head_addr l :: xs = ps ++ [p] /\ ys ++ [list_tail_addr l] = cursor l ys :: bs.
Proof.
  destruct (cursor_split l ys) as [bs Hbs].
  destruct (exists_last (l := list_head_addr l :: xs)) as (ps & p & E); [done|].
  exists ps, p, bs. rewrite cells_app, E, Hbs, <-(assoc_L (++)). done.
Qed.

Section Rep.
Context (h : heap) (l : Z).

Lemma rep_null xs : list_rep h l xs -> l <> NULL.
Proof. intros (_ & _ & _ & _ & Hn). unfold cells, list_head_addr in Hn. set_solver. Qed.

Lemma rep_nonnull xs x : list_rep h l xs -> x ∈ cells l xs -> x <> NULL.
Proof. intros (_ & _ & _ & _ & Hn) Hx ->. done. Qed.

Lemma rep_cursor_nonnull xs ys : list_rep h l (xs ++ ys) -> cursor l ys <> NULL.
Proof.
  intros Hr. apply (rep_nonnull _ _ Hr). destruct (cells_split l xs ys) as (ps & p & bs & -> & _).
  set_solver.
Qed.

Lemma rep_nxt xs x ys : list_rep h l (xs ++ x :: ys) -> nxt h x = Some (cursor l ys).
Proof.
  intros (Hs & _). unfold cells in Hs.
  assert (list_head_addr l :: (xs ++ x :: ys) ++ [list_tail_addr l]
    = (list_head_addr l :: xs) ++ x :: (ys ++ [list_tail_addr l])) as E by
    (simpl; by rewrite <-(assoc_L (++))).
  rewrite E in Hs. destruct (cursor_split l ys) as [bs Hbs]. rewrite Hbs in Hs.
  by apply seg_nxt in Hs.
Qed.

Lemma rep_prv_cursor xs x ys : list_rep h l (xs ++ x :: ys) -> prv h (cursor l ys) = Some x.
Proof.
  intros (Hs & _). unfold cells in Hs.
  assert (list_head_addr l :: (xs ++ x :: ys) ++ [list_tail_addr l]
    = (list_head_addr l :: xs) ++ x :: (ys ++ [list_tail_addr l])) as E by
    (simpl; by rewrite <-(assoc_L (++))).
  rewrite E in Hs. destruct (cursor_split l ys) as [bs Hbs]. rewrite Hbs in Hs.
  by apply seg_prv in Hs.
Qed.

Lemma rep_head_nxt xs : list_rep h l xs -> nxt h (list_head_addr l) = Some (cursor l xs).
Proof.
  intros (Hs & _). unfold cells in Hs. destruct (cursor_split l xs) as [bs Hbs].
  rewrite Hbs in Hs. by apply (seg_nxt h []) in Hs.
Qed.

Lemma rep_cursor_prv_head xs : list_rep h l xs -> prv h (cursor l xs) = Some (list_head_addr l).
Proof.
  intros (Hs & _). unfold cells in Hs. destruct (cursor_split l xs) as [bs Hbs].
  rewrite Hbs in Hs. by apply (seg_prv h []) in Hs.
Qed.

Lemma rep_tail_not_elem xs : list_rep h l xs -> list_tail_addr l ∉ xs.
Proof. intros (_ & _ & _ & (_ & Hnd)%NoDup_cons & _). apply NoDup_app in Hnd. set_solver. Qed.

Lemma rep_head_not_elem xs : list_rep h l xs -> list_head_addr l ∉ xs.
Proof. intros (_ & _ & _ & (Hnd & _)%NoDup_cons & _). set_solver. Qed.

Lemma rep_NoDup xs : list_rep h l xs -> NoDup xs.
Proof. intros (_ & _ & _ & (_ & Hnd)%NoDup_cons & _). by apply NoDup_app in Hnd as [? _]. Qed.

Lemma rep_mapped xs x : list_rep h l xs -> x ∈ cells l xs -> is_Some (h !! x).
Proof.
  intros Hr Hx. unfold cells in Hx.
  apply elem_of_cons in Hx as [->|[Hx|Hx%list_elem_of_singleton]%elem_of_app].
  - apply mapped_nxt with (cursor l xs). by apply rep_head_nxt.
  - apply list_elem_of_split in Hx as (xs1 & xs2 & ->).
    eapply mapped_nxt, rep_nxt, Hr.
  - subst x. destruct Hr as (_ & _ & Hn & _). by apply mapped_nxt in Hn.
Qed.

(** The heap has more elements than the list: the fuel of a loop suffices. *)
Lemma rep_size xs : list_rep h l xs -> (length xs + 2 <= size h)%nat.
Proof.
  intros Hr. rewrite <-size_dom.
  assert (length xs + 2 = size (list_to_set (cells l xs) : gset Z))%nat as ->.
  - rewrite size_list_to_set; [|by destruct Hr as (_ & _ & _ & Hnd & _)].
    unfold cells. simpl. rewrite length_app. simpl. lia.
  - apply subseteq_size. intros x Hx%elem_of_list_to_set.
    apply elem_of_dom. by apply rep_mapped with xs.
Qed.

Lemma rep_cursor_ne_tail xs x ys :
  list_rep h l (xs ++ x :: ys) -> (x =? list_tail_addr l) = false.
Proof. intros Hr. apply Z.eqb_neq. intros ->. apply rep_tail_not_elem in Hr. set_solver. Qed.

(** *** The accessors *)

Lemma wp_list_begin xs Q : list_rep h l xs -> Q (cursor l xs) h -> wp (list_begin l) Q h.
Proof.
  intros Hr HQ. apply wp_bind, wp_assert.
  - apply negb_true_iff, Z.eqb_neq. by apply rep_null in Hr.
  - apply wp_get_next with (cursor l xs); [|by apply rep_head_nxt|done].
    by apply rep_null in Hr.
Qed.

Lemma wp_list_end xs Q : list_rep h l xs -> Q (list_tail_addr l) h -> wp (list_end l) Q h.
Proof.
  intros Hr HQ. apply wp_bind, wp_assert; [|by apply wp_ret].
  apply negb_true_iff, Z.eqb_neq. by apply rep_null in Hr.
Qed.

Lemma wp_next_cursor xs x ys Q :
  list_rep h l (xs ++ x :: ys) -> Q (cursor l ys) h -> wp (list_next x) Q h.
Proof.
  intros Hr HQ. apply wp_list_next with (cursor l ys); [| |by apply rep_nxt in Hr|done].
  - apply (rep_nonnull _ _ Hr). unfold cells. set_solver.
  - apply rep_cursor_nonnull with (xs ++ [x]). by rewrite <-(assoc_L (++)).
Qed.

Lemma wp_prev_cursor xs x ys Q :
  list_rep h l (xs ++ x :: ys) -> Q x h -> wp (list_prev (cursor l ys)) Q h.
Proof.
  intros Hr HQ. apply wp_list_prev with x; [| |by apply rep_prv_cursor in Hr|done].
  - apply (rep_nonnull _ _ Hr). unfold cells. set_solver.
  - apply rep_cursor_nonnull with (xs ++ [x]). by rewrite <-(assoc_L (++)).
Qed.

Lemma wp_list_empty xs Q :
  list_rep h l xs -> Q (bool_decide (xs = [])) h -> wp (list_empty l) Q h.
Proof.
  intros Hr HQ. apply wp_bind, wp_list_begin with xs; [done|].
  apply wp_bind, wp_list_end with xs; [done|]. apply wp_ret.
  destruct xs as [|x xs]; simpl.
  - by rewrite Z.eqb_refl.
  - by rewrite (rep_cursor_ne_tail [] x xs Hr).
Qed.

(** *** Insertion *)

Lemma wp_insert_cursor xs ys e Q :
  list_rep h l (xs ++ ys) -> e ∉ cells l (xs ++ ys) -> e <> NULL -> is_Some (h !! e) ->
  (forall h', list_rep h' l (xs ++ e :: ys) ->
     only_changed (e :: cells l (xs ++ ys)) h h' -> Q tt h') ->
  wp (list_insert (cursor l ys) e) Q h.
Proof.
  intros (Hs & Hhp & Htn & Hnd & Hnull) He Hen Hem HQ.
  destruct (cells_split l xs ys) as (ps & p & bs & E & Ep & Eb). rewrite E in *.
  apply wp_list_insert_seg with ps p bs; [done..|].
  intros h' Hs' Hoc Hpp Hbn.
  assert (cells l (xs ++ e :: ys) = ps ++ p :: e :: cursor l ys :: bs) as E'.
  { rewrite cells_app, Ep. simpl. by rewrite Eb, <-(assoc_L (++)). }
  apply HQ; [|apply only_changed_mono with [p; e; cursor l ys]; [done|set_solver]].
  destruct Hoc as [Hsame _]. unfold list_rep. rewrite E'.
  split; [done|]. split; [|split; [|split]].
  - destruct ps as [|r ps]; simpl in Ep.
    + assert (list_head_addr l = p) as Hlp by congruence. rewrite Hlp in *. congruence.
    + assert (list_head_addr l = r) as Hlr by congruence. rewrite Hlr in *.
      unfold prv. rewrite Hsame; [done|].
      apply NoDup_cons in Hnd as [Hr _]. set_solver.
  - destruct (decide (list_tail_addr l = cursor l ys)) as [Heq|Hne]; [rewrite <-Heq in Hbn; congruence|].
    unfold nxt. rewrite Hsame; [done|].
    assert (list_tail_addr l ∈ bs) as Hin.
    { assert (list_tail_addr l ∈ cursor l ys :: bs) as Hin by (rewrite <-Eb; set_solver).
      set_solver. }
    apply NoDup_between in Hnd. set_solver.
  - replace (ps ++ p :: e :: cursor l ys :: bs) with ((ps ++ [p]) ++ e :: cursor l ys :: bs)
      by (by rewrite <-(assoc_L (++))).
    rewrite <-Permutation_middle, <-(assoc_L (++)). by constructor.
  - set_solver.
Qed.

Lemma wp_list_push_front xs e Q :
  list_rep h l xs -> e ∉ cells l xs -> e <> NULL -> is_Some (h !! e) ->
  (forall h', list_rep h' l (e :: xs) -> only_changed (e :: cells l xs) h h' -> Q tt h') ->
  wp (list_push_front l e) Q h.
Proof.
  intros Hr He Hen Hem HQ. apply wp_bind, wp_list_begin with xs; [done|].
  by apply (wp_insert_cursor []).
Qed.

Lemma wp_list_push_back xs e Q :
  list_rep h l xs -> e ∉ cells l xs -> e <> NULL -> is_Some (h !! e) ->
  (forall h', list_rep h' l (xs ++ [e]) -> only_changed (e :: cells l xs) h h' -> Q tt h') ->
  wp (list_push_back l e) Q h.
Proof.
  intros Hr He Hen Hem HQ. apply wp_bind, wp_list_end with xs; [done|].
  apply (wp_insert_cursor xs []); rewrite ?(right_id_L [] (++) xs); done.
Qed.
End Rep.

(** ** Removal *)

Lemma seg_join h ps p q qs :
  seg h (ps ++ [p]) -> linked h p q -> seg h (q :: qs) -> seg h (ps ++ p :: q :: qs).
Proof. rewrite seg_app. tauto. Qed.

Lemma wp_list_remove_seg h ps p e q qs Q :
  seg h (ps ++ p :: e :: q :: qs) -> NoDup (ps ++ p :: e :: q :: qs) ->
  NULL ∉ ps ++ p :: e :: q :: qs ->
  (forall h', seg h' (ps ++ p :: q :: qs) -> only_changed [p; q] h h' ->
     prv h' p = prv h p -> nxt h' q = nxt h q -> Q q h') ->
  wp (list_remove e) Q h.
Proof.
  intros Hs Hnd Hnull HQ.
  pose proof (seg_nxt _ _ _ _ _ Hs) as Hpe. pose proof (seg_prv _ _ _ _ _ Hs) as Hep.
  apply seg_app in Hs as (Hl & _ & [[Heq Hqe] Hr]).
  pose proof (NoDup_between _ _ _ _ Hnd) as (Hpne & Hpps & Hpqs & Heps & Heqs & Hdisj).
  assert (p <> q /\ e <> q /\ (q ∉ ps) /\ (q ∉ qs)) as (Hpq & Heq' & Hqps & Hqqs).
  { replace (ps ++ p :: e :: q :: qs) with ((ps ++ [p]) ++ e :: q :: qs) in Hnd
      by (by rewrite <-(assoc_L (++))).
    apply NoDup_between in Hnd. set_solver. }
  assert (p <> NULL /\ e <> NULL /\ q <> NULL) as (Hp & He & Hq) by set_solver.
  apply wp_bind, wp_is_interior with p q; [done..|].
  apply wp_bind, wp_assert.
  { by rewrite (proj2 (Z.eqb_neq p _) Hp), (proj2 (Z.eqb_neq q _) Hq). }
  apply wp_bind, wp_get_prev with p; [done..|].
  apply wp_bind, wp_get_next with q; [done..|].
  apply wp_bind, wp_set_next; [done|eauto with pintos|].
  apply wp_bind, wp_get_next with q; [done|by heap_simp|].
  apply wp_bind, wp_get_prev with p; [done|by heap_simp|].
  apply wp_bind, wp_set_prev; [done|eauto with pintos|].
  apply wp_get_next with q; [done|by heap_simp|].
  apply HQ; [|by only_changed_tac|by heap_simp|by heap_simp].
  apply seg_join.
  - apply seg_frame_l with h; [done| |]; intros x Hx.
    + assert (x <> p) by set_solver. by heap_simp.
    + assert (x <> q) by set_solver. by heap_simp.
  - split; by heap_simp.
  - apply seg_frame_r with h; [done| |]; intros x Hx.
    + assert (x <> p) by set_solver. by heap_simp.
    + assert (x <> q) by set_solver. by heap_simp.
Qed.

(** Transfers a representation to a heap that agrees with the old one on the
    links of the head and the tail that point out of the list. *)
Lemma list_rep_intro h h' l xs ys :
  list_rep h l xs -> seg h' (cells l ys) ->
  prv h' (list_head_addr l) = prv h (list_head_addr l) ->
  nxt h' (list_tail_addr l) = nxt h (list_tail_addr l) ->
  NoDup ys -> ys ⊆ xs -> list_rep h' l ys.
Proof.
  intros (Hs & Hhp & Htn & Hnd & Hnull) Hs' E1 E2 Hnd' Hsub. unfold cells in *.
  split; [done|]. split; [congruence|]. split; [congruence|]. split; [|set_solver].
  apply NoDup_cons in Hnd as [Hh Hnd]. apply NoDup_app in Hnd as (_ & Ht & _).
  apply NoDup_cons. split; [set_solver|]. apply NoDup_app. split_and!; [done|set_solver|].
  apply NoDup_singleton.
Qed.

(** Agreement outside a few cells, or by the links that were not written. *)
Lemma prv_only_changed ps h h' p :
  only_changed ps h h' -> p ∉ ps -> prv h' p = prv h p.
Proof. intros [Hs _] Hp. unfold prv. by rewrite Hs. Qed.

Lemma nxt_only_changed ps h h' p :
  only_changed ps h h' -> p ∉ ps -> nxt h' p = nxt h p.
Proof. intros [Hs _] Hp. unfold nxt. by rewrite Hs. Qed.

(** The two ends of a list keep their outer links when a change touches [p],
    whose [prev] is kept, and [q], whose [next] is kept. *)
Lemma ends_kept l xs ps p q qs h h' :
  cells l xs = ps ++ p :: q :: qs -> NoDup (cells l xs) -> only_changed [p; q] h h' ->
  prv h' p = prv h p -> nxt h' q = nxt h q ->
  prv h' (list_head_addr l) = prv h (list_head_addr l) /\
  nxt h' (list_tail_addr l) = nxt h (list_tail_addr l).
Proof.
  intros E Hnd Hoc Hp Hq. rewrite E in Hnd.
  pose proof (NoDup_between _ _ _ _ Hnd) as (Hpq & Hpps & Hpqs & Hqps & Hqqs & _). split.
  - destruct ps as [|r ps]; simpl in E; unfold cells in E.
    + assert (list_head_addr l = p) as -> by congruence. done.
    + assert (list_head_addr l = r) as -> by congruence.
      apply (prv_only_changed [p; q]); [done|]. set_solver.
  - destruct (decide (list_tail_addr l = q)) as [->|Hne]; [done|].
    apply (nxt_only_changed [p; q]); [done|].
    assert (last (cells l xs) = Some (list_tail_addr l)) as Hlast.
    { unfold cells. by rewrite app_comm_cons, last_snoc. }
    rewrite E, last_app_cons, last_cons_cons in Hlast.
    apply last_Some in Hlast as (zs & Ez).
    assert (list_tail_addr l ∈ q :: qs) as Hin by (rewrite Ez; set_solver).
    set_solver.
Qed.

Section RepRemove.
Context (h : heap) (l : Z).

Lemma wp_list_remove xs e ys Q :
  list_rep h l (xs ++ e :: ys) ->
  (forall h', list_rep h' l (xs ++ ys) -> only_changed (cells l (xs ++ ys)) h h' ->
     Q (cursor l ys) h') ->
  wp (list_remove e) Q h.
Proof.
  intros Hr HQ. pose proof Hr as (Hs & _ & _ & Hnd & Hnull).
  destruct (cells_split l xs (e :: ys)) as (ps & p & bs & E & Ep & Eb).
  simpl in E, Eb. injection Eb as Eb. destruct (cursor_split l ys) as [qs Eqs].
  rewrite Eqs in Eb. subst bs.
  rewrite E in Hs, Hnd, Hnull.
  apply wp_list_remove_seg with ps p (cursor l ys) qs; [done..|].
  intros h' Hs' Hoc Hpp Hqn.
  assert (cells l (xs ++ ys) = ps ++ p :: cursor l ys :: qs) as E'.
  { by rewrite cells_app, Ep, Eqs, <-(assoc_L (++)). }
  assert (NoDup (xs ++ ys)) as Hnd'.
  { apply rep_NoDup in Hr. rewrite <-Permutation_middle in Hr.
    by apply NoDup_cons in Hr as [_ Hr]. }
  assert (NoDup (ps ++ p :: cursor l ys :: qs)) as Hnd''.
  { revert Hnd. rewrite <-!Permutation_middle. rewrite !NoDup_cons. set_solver. }
  rewrite <-E' in Hnd''.
  destruct (ends_kept l (xs ++ ys) ps p (cursor l ys) qs h h') as [K1 K2]; [done..|].
  apply HQ.
  - eapply list_rep_intro; [exact Hr|by rewrite E'|done|done|done|set_solver].
  - apply only_changed_mono with [p; cursor l ys]; [done|]. rewrite E'. set_solver.
Qed.

Lemma wp_list_front x xs Q : list_rep h l (x :: xs) -> Q x h -> wp (list_front l) Q h.
Proof.
  intros Hr HQ. apply wp_bind, wp_list_empty with (x :: xs); [done|].
  apply wp_bind, wp_assert; [done|].
  apply wp_get_next with x; [by apply rep_null in Hr|by apply rep_head_nxt in Hr|done].
Qed.

Lemma wp_list_back xs x Q : list_rep h l (xs ++ [x]) -> Q x h -> wp (list_back l) Q h.
Proof.
  intros Hr HQ. apply wp_bind, wp_list_empty with (xs ++ [x]); [done|].
  apply wp_bind, wp_assert; [by destruct xs|].
  pose proof (rep_prv_cursor _ _ _ _ _ Hr) as Hp.
  apply wp_get_prev with x; [|done..]. apply (rep_cursor_nonnull h l (xs ++ [x]) []).
  by rewrite (right_id_L [] (++)).
Qed.

Lemma wp_list_pop_front x xs Q :
  list_rep h l (x :: xs) ->
  (forall h', list_rep h' l xs -> only_changed (cells l xs) h h' -> Q x h') ->
  wp (list_pop_front l) Q h.
Proof.
  intros Hr HQ. apply wp_bind, wp_list_front with x xs; [done|].
  apply wp_bind, (wp_list_remove [] x xs); [done|].
  intros h' Hr' Hoc. apply wp_ret. by apply HQ.
Qed.

Lemma wp_list_pop_back xs x Q :
  list_rep h l (xs ++ [x]) ->
  (forall h', list_rep h' l xs -> only_changed (cells l xs) h h' -> Q x h') ->
  wp (list_pop_back l) Q h.
Proof.
  intros Hr HQ. apply wp_bind, wp_list_back with xs x; [done|].
  apply wp_bind, (wp_list_remove xs x []); [done|]. rewrite (right_id_L [] (++)).
  intros h' Hr' Hoc. apply wp_ret. by apply HQ.
Qed.

Lemma wp_list_size_loop fuel xs ys cnt Q :
  list_rep h l (xs ++ ys) -> (length ys < fuel)%nat ->
  0 <= cnt -> cnt + Z.of_nat (length ys) < 2 ^ 64 -> Q (cnt + Z.of_nat (length ys)) h ->
  wp (list_size_loop fuel l (cursor l ys) cnt) Q h.
Proof.
  revert xs ys cnt. induction fuel as [|fuel IH]; intros xs ys cnt Hr Hf Hc Hb HQ; [lia|].
  simpl. apply wp_bind, wp_list_end with (xs ++ ys); [done|].
  destruct ys as [|y ys]; simpl in *.
  - rewrite Z.eqb_refl. apply wp_ret. by rewrite Z.add_0_r in HQ.
  - rewrite (rep_cursor_ne_tail _ _ _ _ _ Hr).
    apply wp_bind, (wp_next_cursor h l xs y ys); [done|].
    rewrite u64_small by (unfold is_u64; lia).
    apply (IH (xs ++ [y])); rewrite <-?(assoc_L (++)); try done; try lia.
    by replace (cnt + 1 + Z.of_nat (length ys)) with (cnt + Z.of_nat (S (length ys))) by lia.
Qed.

Lemma wp_list_size xs Q :
  list_rep h l xs -> Z.of_nat (length xs) < 2 ^ 64 -> Q (Z.of_nat (length xs)) h ->
  wp (list_size l) Q h.
Proof.
  intros Hr Hb HQ. apply wp_bind, wp_gets. apply wp_bind, wp_list_begin with xs; [done|].
  apply (wp_list_size_loop _ []); try done; try lia. pose proof (rep_size _ _ _ Hr). lia.
Qed.
End RepRemove.
