(* ===== verification/KListSort.v ===== *)
(** * The ordered operations of lib/kernel/list.c

    list_insert_ordered, list_unique, list_max, list_min and the natural merge
    sort of list_sort, whose in-place merges splice single elements, compute the
    functions of ListSpec.v on the represented sequence. *)

From S2P Require Import Prelude ListSpec KList KListFacts.

(** ** Splicing a run of elements to the left *)

Lemma seg_frame_inner h h' ps qs x y :
  ps = x :: tl ps -> ps = qs ++ [y] ->
  seg h ps ->
  (forall z, z ∈ qs -> nxt h' z = nxt h z) ->
  (forall z, z ∈ tl ps -> prv h' z = prv h z) ->
  seg h' ps.
Proof.
  intros Ex Ey Hs Hn Hp. destruct qs as [|q qs]; subst ps; [done|].
  apply seg_frame with h; [done|exact Hn|exact Hp].
Qed.

Lemma ne_of_notin {A} (x y : A) (l : list A) : x ∈ l -> y ∉ l -> x <> y.
Proof. by intros Hx Hy ->. Qed.

(** The elements a splice rewrites: [p] and [d] around the block [b .. bl] and
    the run [c1 .. cn] that moves before it. *)
Definition splice_heap (p b bl c1 cn d : Z) (h : heap) : heap :=
  upd_prev b cn (upd_next p c1 (upd_next cn b (upd_prev c1 p (upd_prev d bl (upd_next bl d h))))).

Section Splice.
Context (h : heap) (P B C Ds Bs Bi Cs Ci : list Z) (p b bl c1 cn d : Z).
Hypothesis HB1 : B = b :: Bs.
Hypothesis HB2 : B = Bi ++ [bl].
Hypothesis HC1 : C = c1 :: Cs.
Hypothesis HC2 : C = Ci ++ [cn].
Hypothesis Hseg : seg h (P ++ p :: B ++ C ++ d :: Ds).
Hypothesis Hnd : NoDup (P ++ p :: B ++ C ++ d :: Ds).
Hypothesis Hnull : NULL ∉ P ++ p :: B ++ C ++ d :: Ds.
#[local] Abbreviation h' := (splice_heap p b bl c1 cn d h).

Lemma splice_split :
  seg h (P ++ [p]) /\ linked h p b /\ seg h B /\ linked h bl c1 /\ seg h C /\
  linked h cn d /\ seg h (d :: Ds).
Proof.
  pose proof Hseg as Hs. rewrite HB1 in Hs. simpl in Hs. apply seg_app in Hs as (? & ? & Hs).
  rewrite app_comm_cons, <-HB1, HB2, HC1, <-(assoc_L (++)) in Hs. simpl in Hs.
  apply seg_app in Hs as (? & ? & Hs). rewrite <-HB2 in *.
  rewrite app_comm_cons, <-HC1, HC2, <-(assoc_L (++)) in Hs. simpl in Hs.
  apply seg_app in Hs as (? & ? & Hs). rewrite <-HC2 in *. done.
Qed.

Lemma splice_in : b ∈ B /\ bl ∈ B /\ c1 ∈ C /\ cn ∈ C.
Proof.
  split_and!; [rewrite HB1|rewrite HB2|rewrite HC1|rewrite HC2]; set_solver.
Qed.

(** The part each rewritten element belongs to is disjoint from the others. *)
Lemma splice_disjoint :
  ((p ∉ P) /\ (d ∉ P) /\ (p ∉ B) /\ (d ∉ B) /\ (p ∉ C) /\ (d ∉ C)) /\
  (p <> d /\ (p ∉ Ds) /\ (d ∉ Ds) /\ NoDup B /\ NoDup C) /\
  ((forall x, x ∈ B -> x ∉ C) /\ (forall x, x ∈ B -> x ∉ P) /\ (forall x, x ∈ C -> x ∉ P) /\
   (forall x, x ∈ B -> x ∉ Ds) /\ (forall x, x ∈ C -> x ∉ Ds)).
Proof.
  clear HB1 HB2 HC1 HC2 Hseg Hnull.
  apply NoDup_app in Hnd as (_ & H1 & (H2 & H3)%NoDup_cons).
  apply NoDup_app in H3 as (HB & H4 & H5). apply NoDup_app in H5 as (HC & H6 & H7).
  apply NoDup_cons in H7 as [H7 _]. split_and!; try done; set_solver.
Qed.

Lemma splice_notin :
  ((b ∉ C) /\ (bl ∉ C) /\ (c1 ∉ B) /\ (cn ∉ B)) /\
  ((b ∉ P) /\ (bl ∉ P) /\ (c1 ∉ P) /\ (cn ∉ P)) /\
  ((b ∉ Ds) /\ (bl ∉ Ds) /\ (c1 ∉ Ds) /\ (cn ∉ Ds)).
Proof.
  destruct splice_in as (? & ? & ? & ?).
  destruct splice_disjoint as (_ & _ & (HBC & HBP & HCP & HBD & HCD)).
  split_and!; try (by auto); intros ?; by eapply HBC.
Qed.

Lemma splice_nonnull : Forall (fun x => x <> NULL) [p; b; bl; c1; cn; d].
Proof.
  destruct splice_in as (? & ? & ? & ?). repeat constructor; set_solver.
Qed.

Lemma splice_ne :
  (p <> b /\ p <> bl /\ p <> c1 /\ p <> cn /\ p <> d) /\
  (d <> b /\ d <> bl /\ d <> c1 /\ d <> cn) /\
  (b <> c1 /\ b <> cn /\ bl <> c1 /\ bl <> cn).
Proof.
  destruct splice_in as (? & ? & ? & ?). destruct splice_notin as ((? & ? & ? & ?) & _).
  destruct splice_disjoint as ((? & ? & ? & ? & ? & ?) & (? & _) & _).
  split_and!; try done; intros E; rewrite E in *; done.
Qed.

Lemma splice_nxt x : x <> bl -> x <> cn -> x <> p -> nxt h' x = nxt h x.
Proof. intros. unfold splice_heap. by heap_simp. Qed.

Lemma splice_prv x : x <> d -> x <> c1 -> x <> b -> prv h' x = prv h x.
Proof. intros. unfold splice_heap. by heap_simp. Qed.

Lemma splice_links : linked h' p c1 /\ linked h' cn b /\ linked h' bl d.
Proof.
  destruct splice_split as (_ & [? ?] & _ & [? ?] & _ & [? ?] & _).
  destruct splice_ne as ((? & ? & ? & ? & ?) & (? & ? & ? & ?) & (? & ? & ? & ?)).
  unfold splice_heap. repeat split; by heap_simp.
Qed.

(** Inside a block only its last [next] and its first [prev] are rewritten. *)
Lemma splice_seg_B : seg h' B.
Proof.
  destruct splice_split as (_ & _ & SB & _). destruct splice_notin as ((? & ? & ? & ?) & _).
  destruct splice_disjoint as ((? & ? & ? & ? & ? & ?) & (? & ? & ? & NB & _) & _).
  apply seg_frame_inner with h Bi b bl; [by rewrite HB1|done..| |]; intros x Hx.
  - assert (x ∈ B) by (rewrite HB2; mem). rewrite HB2 in NB. apply NoDup_app in NB as (_ & NB & _).
    apply splice_nxt; [|eapply ne_of_notin; eauto..]. intros ->. apply (NB bl); mem.
  - rewrite HB1 in Hx. assert (x ∈ B) by (rewrite HB1; mem). rewrite HB1 in NB.
    apply NoDup_cons in NB as [NB _]. apply splice_prv; [eapply ne_of_notin; eauto..|by intros ->].
Qed.

Lemma splice_seg_C : seg h' C.
Proof.
  destruct splice_split as (_ & _ & _ & _ & SC & _). destruct splice_notin as ((? & ? & ? & ?) & _).
  destruct splice_disjoint as ((? & ? & ? & ? & ? & ?) & (? & ? & ? & _ & NC) & _).
  apply seg_frame_inner with h Ci c1 cn; [by rewrite HC1|done..| |]; intros x Hx.
  - assert (x ∈ C) by (rewrite HC2; mem). rewrite HC2 in NC. apply NoDup_app in NC as (_ & NC & _).
    apply splice_nxt; [eapply ne_of_notin; eauto| |eapply ne_of_notin; eauto].
    intros ->. apply (NC cn); mem.
  - rewrite HC1 in Hx. assert (x ∈ C) by (rewrite HC1; mem). rewrite HC1 in NC.
    apply NoDup_cons in NC as [NC _].
    apply splice_prv; [eapply ne_of_notin; eauto|by intros ->|eapply ne_of_notin; eauto].
Qed.

Lemma splice_seg_ends : seg h' (P ++ [p]) /\ seg h' (d :: Ds).
Proof.
  destruct splice_split as (SP & _ & _ & _ & _ & _ & SD).
  destruct splice_ne as ((? & ? & ? & ? & ?) & (? & ? & ? & ?) & _).
  destruct splice_notin as (_ & (? & ? & ? & ?) & (? & ? & ? & ?)).
  destruct splice_disjoint as ((? & ? & ? & ? & ? & ?) & (? & ? & ? & _) & _). split.
  - apply seg_frame_l with h; [done| |]; intros x Hx.
    + apply splice_nxt; eapply ne_of_notin; eauto.
    + apply elem_of_app in Hx as [Hx|Hx%list_elem_of_singleton];
        apply splice_prv; first [congruence|eapply ne_of_notin; eauto].
  - apply seg_frame_r with h; [done| |]; intros x Hx.
    + apply elem_of_cons in Hx as [->|Hx];
        apply splice_nxt; first [congruence|eapply ne_of_notin; eauto].
    + apply splice_prv; eapply ne_of_notin; eauto.
Qed.

Lemma splice_seg : seg h' (P ++ p :: C ++ B ++ d :: Ds).
Proof.
  destruct splice_links as (L1 & L2 & L3). destruct splice_seg_ends as [S1 S4].
  pose proof splice_seg_B as SB. pose proof splice_seg_C as SC.
  rewrite HC1. simpl. apply seg_join; [done|done|].
  rewrite app_comm_cons, <-HC1, HC2, HB1, <-(assoc_L (++)). simpl.
  apply seg_join; [by rewrite <-HC2|done|].
  rewrite app_comm_cons, <-HB1, HB2, <-(assoc_L (++)). simpl.
  apply seg_join; [by rewrite <-HB2|done|done].
Qed.

(** The run that moves is interior: its two ends have non-null links. *)
Lemma splice_ends :
  (exists x, nxt h c1 = Some x /\ x <> NULL) /\ (exists x, prv h cn = Some x /\ x <> NULL).
Proof.
  destruct splice_split as (_ & _ & _ & [? ?] & SC & [? ?] & _).
  pose proof splice_nonnull as Hnn. rewrite !Forall_cons in Hnn. destruct_and! Hnn.
  split.
  - destruct Cs as [|c2 Cs']; [|exists c2; rewrite HC1 in SC, Hnull; split; [apply SC|set_solver]].
    rewrite HC1 in HC2. destruct Ci as [|? []]; simplify_eq/=. by exists d.
  - destruct Ci as [|z Ci' _] using rev_ind.
    + rewrite HC1 in HC2. simplify_eq/=. by exists bl.
    + rewrite HC2 in SC, Hnull. rewrite <-(assoc_L (++)) in SC. exists z.
      split; [by apply seg_prv in SC|set_solver].
Qed.

Lemma wp_list_splice_seg Q : Q tt h' -> wp (list_splice b c1 d) Q h.
Proof.
  intros HQ. destruct splice_split as (_ & [? ?] & _ & [? ?] & _ & [? ?] & _).
  destruct splice_ne as ((? & ? & ? & ? & ?) & (? & ? & ? & ?) & (? & ? & ? & ?)).
  pose proof splice_nonnull as Hnn. rewrite !Forall_cons in Hnn. destruct_and! Hnn.
  destruct splice_ends as [(c2 & ? & ?) (ci & ? & ?)].
  apply wp_not_head with p; [done..|]. rewrite (proj2 (Z.eqb_neq c1 d)) by done.
  apply wp_bind, wp_list_prev with cn; [done..|].
  apply wp_bind, wp_is_interior with bl c2; [done..|].
  apply wp_bind, wp_assert.
  { by rewrite (proj2 (Z.eqb_neq bl _)), (proj2 (Z.eqb_neq c2 _)). }
  apply wp_bind, wp_is_interior with ci d; [done..|].
  apply wp_bind, wp_assert.
  { by rewrite (proj2 (Z.eqb_neq ci _)), (proj2 (Z.eqb_neq d _)). }
  apply wp_bind, wp_get_prev with bl; [done..|].
  apply wp_bind, wp_get_next with d; [done..|].
  apply wp_bind, wp_set_next; [done|eauto with pintos|].
  apply wp_bind, wp_get_next with d; [done|by heap_simp|].
  apply wp_bind, wp_get_prev with bl; [done|by heap_simp|].
  apply wp_bind, wp_set_prev; [done|eauto with pintos|].
  apply wp_bind, wp_get_prev with p; [done|by heap_simp|].
  apply wp_bind, wp_set_prev; [done|eauto with pintos|].
  apply wp_bind, wp_set_next; [done|eauto 6 with pintos|].
  apply wp_bind, wp_get_prev with p; [done|by heap_simp|].
  apply wp_bind, wp_set_next; [done|eauto 7 with pintos|].
  by apply wp_set_prev; [done|eauto 8 with pintos|].
Qed.
End Splice.

(** The two ends of a list are not among the elements inside it. *)
Lemma rep_head_ne h l xs x : list_rep h l xs -> x ∈ xs ++ [list_tail_addr l] -> list_head_addr l <> x.
Proof. intros (_ & _ & _ & (Hnd & _)%NoDup_cons & _) Hx <-. done. Qed.

Lemma rep_tail_ne h l xs x : list_rep h l xs -> x ∈ list_head_addr l :: xs -> list_tail_addr l <> x.
Proof.
  intros (_ & _ & _ & Hnd & _) Hx <-. unfold cells in Hnd. rewrite app_comm_cons in Hnd.
  apply NoDup_app in Hnd as (_ & Hnd & _). apply (Hnd (list_tail_addr l)); [done|mem].
Qed.

Lemma cursor_in l D : cursor l D ∈ D ++ [list_tail_addr l].
Proof. destruct (cursor_split l D) as [bs ->]. mem. Qed.

(** A represented list after a run of its elements has moved to the left. *)
Lemma wp_splice_rep h l A b Bs c Cs D Q :
  list_rep h l (A ++ (b :: Bs) ++ (c :: Cs) ++ D) ->
  (forall h', list_rep h' l (A ++ (c :: Cs) ++ (b :: Bs) ++ D) ->
     only_changed (cells l (A ++ (b :: Bs) ++ (c :: Cs) ++ D)) h h' -> Q tt h') ->
  wp (list_splice b c (cursor l D)) Q h.
Proof.
  intros Hr HQ. pose proof Hr as (Hs & _ & _ & Hnd & Hnull).
  destruct (exists_last (l := b :: Bs)) as (Bi & bl & EB); [done|].
  destruct (exists_last (l := c :: Cs)) as (Ci & cn & EC); [done|].
  destruct (exists_last (l := list_head_addr l :: A)) as (P & p & EP); [done|].
  destruct (cursor_split l D) as [Ds ED]. pose proof (cursor_in l D) as Hd.
  assert (forall X Y, cells l (A ++ X ++ Y ++ D) = P ++ p :: X ++ Y ++ cursor l D :: Ds) as Ecells.
  { intros X Y. by rewrite cells_app, EP, <-ED, <-!(assoc_L (++)). }
  assert (bl ∈ b :: Bs) as Hbl by (rewrite EB; mem).
  assert (cn ∈ c :: Cs) as Hcn by (rewrite EC; mem).
  assert (p ∈ list_head_addr l :: A) as Hp by (rewrite EP; mem).
  rewrite Ecells in Hs, Hnd, Hnull.
  eapply wp_list_splice_seg; [reflexivity|exact EB|reflexivity|exact EC|done..|].
  apply HQ.
  - eapply list_rep_intro; [exact Hr| | | | |].
    + rewrite Ecells. eapply splice_seg; [reflexivity|exact EB|reflexivity|exact EC|done..].
    + apply splice_prv; apply (rep_head_ne h l _ _ Hr); mem_all.
    + apply splice_nxt; apply (rep_tail_ne h l _ _ Hr); mem_all.
    + rewrite (Permutation_app_swap_app (c :: Cs) (b :: Bs) D). by apply rep_NoDup in Hr.
    + intros x. mem_all.
  - unfold cells, splice_heap.
    repeat first [apply only_changed_refl | apply only_changed_next | apply only_changed_prev];
      mem_all.
Qed.

