(* ===== verification/KListOrdered.v ===== *)
(** * The ordered operations of lib/kernel/list.c

    is_sorted, find_end_of_run, inplace_merge, list_sort, list_insert_ordered,
    list_unique, list_max, list_min and list_reverse compute the functions of
    ListSpec.v and ListRuns.v on the represented sequence. *)

From S2P Require Import Prelude ListSpec ListRuns KList KListFacts KListSort.

Lemma only_changed_size ps h h' : only_changed ps h h' -> size h' = size h.
Proof. intros [_ Hd]. by rewrite <-!size_dom, Hd. Qed.

Lemma cells_perm l xs ys : xs ≡ₚ ys -> cells l xs ⊆ cells l ys.
Proof. intros E x. unfold cells. rewrite !elem_of_cons, !elem_of_app, E. done. Qed.

Section Cursors.
Context (h : heap) (l : Z).

Lemma rep_cursor_ne X x R Y : list_rep h l (X ++ x :: R ++ Y) -> (x =? cursor l Y) = false.
Proof.
  intros Hr. apply Z.eqb_neq. intros E. destruct Y as [|y Y]; simpl in E.
  - rewrite (right_id_L [] (++)) in Hr. apply rep_tail_not_elem in Hr. apply Hr. subst x. mem.
  - apply rep_NoDup in Hr. apply NoDup_app in Hr as (_ & _ & [Hx _]%NoDup_cons).
    apply Hx. subst x. mem.
Qed.

Lemma rep_elem_nonnull X x R : list_rep h l (X ++ x :: R) -> (x =? NULL) = false.
Proof.
  intros Hr. apply Z.eqb_neq. eapply rep_nonnull; [exact Hr|]. unfold cells. mem.
Qed.

Lemma rep_cursor_null X Y : list_rep h l (X ++ Y) -> (cursor l Y =? NULL) = false.
Proof. intros Hr. apply Z.eqb_neq. by apply rep_cursor_nonnull in Hr. Qed.

(** Fuel taken from the heap exceeds the length of the list. *)
Lemma wp_loop_fuel xs Q :
  list_rep h l xs -> (forall fuel, (length xs < fuel)%nat -> (fuel = S (size h)) -> Q fuel h) ->
  wp loop_fuel Q h.
Proof. intros Hr HQ. apply wp_gets, HQ; [|done]. pose proof (rep_size _ _ _ Hr). lia. Qed.
End Cursors.

Section OrderedOps.
Context (less : Z -> Z -> bool).

(** ** Runs *)

Lemma wp_is_sorted_loop h l X x R Y fuel Q :
  list_rep h l (X ++ x :: R ++ Y) -> (length R < fuel)%nat -> Q (is_run less x R) h ->
  wp (is_sorted_loop less fuel x (cursor l Y)) Q h.
Proof.
  revert X x fuel. induction R as [|y R IH]; intros X x [|fuel] Hr Hf HQ; simpl in *; try lia.
  - apply wp_bind, (wp_next_cursor h l X x Y); [done|]. rewrite Z.eqb_refl. by apply wp_ret.
  - apply wp_bind, (wp_next_cursor h l X x (y :: R ++ Y)); [done|]. simpl.
    rewrite (rep_cursor_ne h l (X ++ [x]) y R Y) by (by rewrite <-(assoc_L (++))).
    apply wp_bind, (wp_prev_cursor h l X x (y :: R ++ Y)); [done|].
    destruct (less y x); [by apply wp_ret|].
    apply (IH (X ++ [x])); [by rewrite <-(assoc_L (++))|lia|done].
Qed.

Lemma wp_is_sorted h l X x R Y Q :
  list_rep h l (X ++ x :: R ++ Y) -> Q (is_run less x R) h ->
  wp (is_sorted less x (cursor l Y)) Q h.
Proof.
  intros Hr HQ. unfold is_sorted. rewrite (rep_cursor_ne h l X x R Y) by done. simpl.
  apply wp_bind, (wp_loop_fuel h l (X ++ x :: R ++ Y)); [done|].
  intros fuel Hf _. apply (wp_is_sorted_loop h l X x R Y); [done| |done].
  rewrite length_app in Hf. simpl in Hf. rewrite length_app in Hf. lia.
Qed.

Lemma wp_find_end_of_run_loop h l X x R Y r s fuel Q :
  list_rep h l (X ++ x :: R ++ Y) -> run_split less x R = (r, s) -> (length R < fuel)%nat ->
  Q (cursor l (s ++ Y)) h ->
  wp (find_end_of_run_loop less fuel x (cursor l Y)) Q h.
Proof.
  revert X x r s fuel.
  induction R as [|y R IH]; intros X x r s [|fuel] Hr Hs Hf HQ; simpl in *; try lia.
  - injection Hs as <- <-. apply wp_bind, (wp_next_cursor h l X x Y); [done|].
    rewrite Z.eqb_refl. by apply wp_ret.
  - apply wp_bind, (wp_next_cursor h l X x (y :: R ++ Y)); [done|]. simpl.
    rewrite (rep_cursor_ne h l (X ++ [x]) y R Y) by (by rewrite <-(assoc_L (++))).
    apply wp_bind, (wp_prev_cursor h l X x (y :: R ++ Y)); [done|].
    destruct (less y x); [injection Hs as <- <-; by apply wp_ret|].
    destruct (run_split less y R) as [r0 s0] eqn:E. injection Hs as <- <-.
    apply (IH (X ++ [x]) y r0 s0); [by rewrite <-(assoc_L (++))|done|lia|done].
Qed.

Lemma wp_find_end_of_run h l X x R Y r s Q :
  list_rep h l (X ++ x :: R ++ Y) -> run_split less x R = (r, s) ->
  Q (cursor l (s ++ Y)) h ->
  wp (find_end_of_run less x (cursor l Y)) Q h.
Proof.
  intros Hr Hs HQ. unfold find_end_of_run.
  apply wp_bind, wp_assert; [by rewrite (rep_elem_nonnull h l X x (R ++ Y))|].
  apply wp_bind, wp_assert.
  { rewrite (rep_cursor_null h l (X ++ x :: R) Y); [done|by rewrite <-(assoc_L (++))]. }
  apply wp_bind, wp_assert; [by rewrite (rep_cursor_ne h l X x R Y)|].
  apply wp_bind, (wp_loop_fuel h l (X ++ x :: R ++ Y)); [done|]. intros fuel Hf _.
  eapply (wp_find_end_of_run_loop h l X x R Y); [done|exact Hs| |done].
  rewrite length_app in Hf. simpl in Hf. rewrite length_app in Hf. lia.
Qed.

(** ** The in-place merge *)

Lemma wp_inplace_merge_loop h l X A B Y fuel Q :
  list_rep h l (X ++ A ++ B ++ Y) -> (length A + length B < fuel)%nat ->
  (forall h', list_rep h' l (X ++ merge less A B ++ Y) ->
     only_changed (cells l (X ++ A ++ B ++ Y)) h h' -> Q tt h') ->
  wp (inplace_merge_loop less fuel (cursor l (A ++ B ++ Y)) (cursor l (B ++ Y)) (cursor l Y)) Q h.
Proof.
  revert h X A B. induction fuel as [|fuel IH]; intros h X A B Hr Hf HQ; [lia|]. simpl.
  destruct A as [|x A]; simpl; [rewrite Z.eqb_refl; simpl; apply wp_ret;
    apply HQ; [destruct B; exact Hr|apply only_changed_refl]|].
  rewrite (rep_cursor_ne h l X x A (B ++ Y)) by done. simpl.
  destruct B as [|y B]; simpl; [rewrite Z.eqb_refl; simpl; apply wp_ret, HQ;
    [exact Hr|apply only_changed_refl]|].
  rewrite (rep_cursor_ne h l (X ++ x :: A) y B Y) by (by rewrite <-(assoc_L (++))). simpl.
  simpl in HQ. destruct (less y x) eqn:E; simpl.
  - apply wp_bind, (wp_next_cursor h l (X ++ x :: A) y (B ++ Y)); [by rewrite <-(assoc_L (++))|].
    apply wp_bind, (wp_prev_cursor h l (X ++ x :: A) y (B ++ Y)); [by rewrite <-(assoc_L (++))|].
    apply wp_bind, (wp_splice_rep h l X x A y [] (B ++ Y)); [done|]. intros h1 Hr1 Hc1.
    apply (IH h1 (X ++ [y]) (x :: A) B); [by rewrite <-!(assoc_L (++))|simpl in *; lia|].
    rewrite <-!(assoc_L (++)). intros h2 Hr2 Hc2. apply HQ; [exact Hr2|].
    eapply only_changed_trans; [exact Hc1|]. eapply only_changed_mono; [exact Hc2|].
    apply cells_perm. simpl. rewrite <-(Permutation_middle A). f_equiv. constructor.
  - apply wp_bind, (wp_next_cursor h l X x (A ++ (y :: B) ++ Y)); [done|].
    apply (IH h (X ++ [x]) A (y :: B)); rewrite <-?(assoc_L (++)); [done|simpl in *; lia|].
    intros h' Hr' Hc'. by apply HQ.
Qed.

Lemma wp_inplace_merge h l X x A y B Y Q :
  list_rep h l (X ++ (x :: A) ++ (y :: B) ++ Y) ->
  is_run less x A = true -> is_run less y B = true ->
  (forall h', list_rep h' l (X ++ merge less (x :: A) (y :: B) ++ Y) ->
     only_changed (cells l (X ++ (x :: A) ++ (y :: B) ++ Y)) h h' -> Q tt h') ->
  wp (inplace_merge less x y (cursor l Y)) Q h.
Proof.
  intros Hr HA HB HQ. unfold inplace_merge.
  assert (list_rep h l ((X ++ x :: A) ++ y :: B ++ Y)) as Hr' by (by rewrite <-(assoc_L (++))).
  apply wp_bind, wp_assert; [by rewrite (rep_elem_nonnull h l X x (A ++ (y :: B) ++ Y))|].
  apply wp_bind, wp_assert; [by rewrite (rep_elem_nonnull h l (X ++ x :: A) y (B ++ Y))|].
  apply wp_bind, wp_assert.
  { rewrite (rep_cursor_null h l ((X ++ x :: A) ++ y :: B) Y); [done|by rewrite <-(assoc_L (++))]. }
  apply wp_bind, (wp_is_sorted h l X x A ((y :: B) ++ Y)); [done|].
  apply wp_bind, wp_assert; [done|].
  apply wp_bind, (wp_is_sorted h l (X ++ x :: A) y B Y); [done|].
  apply wp_bind, wp_assert; [done|].
  apply wp_bind, (wp_loop_fuel h l (X ++ (x :: A) ++ (y :: B) ++ Y)); [done|]. intros fuel Hf _.
  apply (wp_inplace_merge_loop h l X (x :: A) (y :: B) Y); [done| |done].
  rewrite !length_app in Hf. lia.
Qed.

(** ** list_sort *)

Lemma wp_list_sort_pass h l X L cnt fuel Q :
  list_rep h l (X ++ L) -> (length L < fuel)%nat ->
  0 <= cnt -> cnt + Z.of_nat (length L) < 2 ^ 64 ->
  (forall h' o n, pass less L o n -> list_rep h' l (X ++ o) ->
     only_changed (cells l (X ++ L)) h h' -> Q (cnt + Z.of_nat n) h') ->
  wp (list_sort_pass less fuel l (cursor l L) cnt) Q h.
Proof.
  revert h X L cnt. induction fuel as [|fuel IH]; intros h X L cnt Hr Hf Hc Hb HQ; [lia|]. simpl.
  apply wp_bind, (wp_list_end h l (X ++ L)); [done|].
  destruct L as [|x L]; simpl.
  { rewrite Z.eqb_refl. apply wp_ret. replace cnt with (cnt + Z.of_nat 0) by lia.
    by apply HQ with []; [constructor| |apply only_changed_refl]. }
  assert (list_rep h l (X ++ x :: L ++ [])) as Hr' by (by rewrite (right_id_L [] (++))).
  rewrite (rep_cursor_ne h l X x L [] Hr' : (x =? list_tail_addr l) = false).
  apply wp_bind, (wp_list_end h l (X ++ x :: L)); [done|].
  destruct (run_split less x L) as [r s] eqn:E.
  apply wp_bind, (wp_find_end_of_run h l X x L [] r s); [done|done|].
  rewrite (right_id_L [] (++)).
  apply wp_bind, (wp_list_end h l (X ++ x :: L)); [done|]. simpl in Hb, Hf.
  rewrite u64_small by (unfold is_u64; lia).
  destruct s as [|y s]; simpl.
  { rewrite Z.eqb_refl. apply wp_ret. apply (HQ h (x :: L) 1%nat);
      [by econstructor|done|apply only_changed_refl]. }
  pose proof (run_split_app _ _ _ _ _ E) as ->.
  assert (list_rep h l ((X ++ x :: r) ++ y :: s ++ [])) as Hr2
    by (rewrite (right_id_L [] (++)), <-(assoc_L (++)); exact Hr).
  rewrite (rep_cursor_ne h l (X ++ x :: r) y s [] Hr2 : (y =? list_tail_addr l) = false).
  apply wp_bind, (wp_list_end h l (X ++ x :: r ++ y :: s)); [done|].
  destruct (run_split less y s) as [r' s'] eqn:E'.
  apply wp_bind, (wp_find_end_of_run h l (X ++ x :: r) y s [] r' s'); [done|done|].
  rewrite (right_id_L [] (++)). pose proof (run_split_app _ _ _ _ _ E') as ->.
  apply wp_bind, (wp_inplace_merge h l X x r y r' s');
    [exact Hr|by eapply run_split_is_run|by eapply run_split_is_run|].
  intros h1 Hr1 Hc1.
  apply (IH h1 (X ++ merge less (x :: r) (y :: r')) s').
  - by rewrite <-(assoc_L (++)).
  - rewrite !length_app in Hf. simpl in Hf. rewrite length_app in Hf. lia.
  - lia.
  - rewrite !length_app in Hb. simpl in Hb. rewrite length_app in Hb. lia.
  - rewrite <-(assoc_L (++)). intros h2 o n Hp Hr3 Hc2.
    replace (cnt + 1 + Z.of_nat n) with (cnt + Z.of_nat (S n)) by lia.
    apply (HQ h2 (merge less (x :: r) (y :: r') ++ o)).
    + by econstructor.
    + by rewrite <-(assoc_L (++)) in Hr3.
    + eapply only_changed_trans; [exact Hc1|]. eapply only_changed_mono; [exact Hc2|].
      apply cells_perm. by rewrite merge_perm, <-(assoc_L (++)).
Qed.

Context `{SW : !StrictWeak less}.

Lemma wp_list_sort_loop h l L fuel Q :
  list_rep h l L -> (runs less L < fuel)%nat -> Z.of_nat (length L) < 2 ^ 64 ->
  (forall h', list_rep h' l (stable_sort less L) -> only_changed (cells l L) h h' -> Q tt h') ->
  wp (list_sort_loop less fuel l) Q h.
Proof.
  revert h L. induction fuel as [|fuel IH]; intros h L Hr Hf Hb HQ; [lia|]. simpl.
  apply wp_bind, (wp_loop_fuel h l L); [done|]. intros pf Hpf _.
  apply wp_bind, (wp_list_begin h l L); [done|].
  apply wp_bind, (wp_list_sort_pass h l [] L 0); [done|lia|lia|lia|]. simpl.
  intros h1 o n Hp Hr1 Hc1. rewrite Z.gtb_ltb, Z.add_0_l.
  pose proof (pass_runs less L o n Hp). pose proof (pass_length_bound less L o n Hp) as [Hl Hperm].
  pose proof (pass_sorts less L o n Hp) as [_ Hro].
  destruct (Z.ltb_spec 1 (Z.of_nat n)).
  - apply IH with o; [done|lia|by rewrite Hperm|]. intros h2 Hr2 Hc2.
    rewrite (pass_stable_sort less L o n Hp) in Hr2. apply HQ; [done|].
    eapply only_changed_trans; [exact Hc1|]. eapply only_changed_mono; [exact Hc2|].
    by apply cells_perm.
  - apply wp_ret. apply HQ; [|done]. rewrite <-(pass_stable_sort less L o n Hp).
    rewrite stable_sort_id; [done|]. apply (runs_le1_ordered less). lia.
Qed.

(** list_sort is the stable sort; it terminates without an assertion firing. *)
Lemma wp_list_sort h l L Q :
  list_rep h l L -> Z.of_nat (length L) < 2 ^ 64 ->
  (forall h', list_rep h' l (stable_sort less L) -> only_changed (cells l L) h h' -> Q tt h') ->
  wp (list_sort less l) Q h.
Proof.
  intros Hr Hb HQ. apply wp_bind, wp_assert.
  { apply negb_true_iff, Z.eqb_neq. by apply rep_null in Hr. }
  apply wp_bind, (wp_loop_fuel h l L); [done|]. intros fuel Hf _.
  pose proof (runs_length less L).
  apply wp_bind, (wp_list_sort_loop h l L); [done|lia|done|]. intros h' Hr' Hc.
  apply wp_bind, (wp_list_begin h' l (stable_sort less L)); [done|].
  apply wp_bind, (wp_list_end h' l (stable_sort less L)); [done|].
  pose proof (stable_sort_ordered less L) as Ho. apply wp_bind.
  destruct (stable_sort less L) as [|x S] eqn:E; simpl.
  - unfold is_sorted. rewrite Z.eqb_refl. simpl. apply wp_ret, wp_assert; [done|]. by apply HQ.
  - apply (wp_is_sorted h' l [] x S []); [by rewrite (right_id_L [] (++))|].
    apply wp_assert; [by apply is_run_ordered|by apply HQ].
Qed.
End OrderedOps.

Section Scans.
Context (less : Z -> Z -> bool).

(** ** list_insert_ordered, list_max and list_min *)

Lemma wp_list_insert_ordered_loop h l X R e fuel Q :
  list_rep h l (X ++ R) -> (length R < fuel)%nat ->
  (forall R1 R2, R = R1 ++ R2 -> insert_ordered less e R = R1 ++ e :: R2 -> Q (cursor l R2) h) ->
  wp (list_insert_ordered_loop less fuel l e (cursor l R)) Q h.
Proof.
  revert X R Q. induction fuel as [|fuel IH]; intros X R Q Hr Hf HQ; [lia|]. simpl.
  apply wp_bind, (wp_list_end h l (X ++ R)); [done|].
  destruct R as [|y R]; simpl.
  { rewrite Z.eqb_refl. apply wp_ret. by apply (HQ [] []). }
  rewrite (rep_cursor_ne_tail h l X y R Hr). simpl in HQ.
  destruct (less e y); [apply wp_ret; by apply (HQ [] (y :: R))|].
  apply wp_bind, (wp_next_cursor h l X y R); [done|].
  apply (IH (X ++ [y])); [by rewrite <-(assoc_L (++))|simpl in Hf; lia|].
  intros R1 R2 -> E. apply (HQ (y :: R1) R2); [done|]. by rewrite E.
Qed.

Lemma wp_list_insert_ordered h l xs e Q :
  list_rep h l xs -> e ∉ cells l xs -> e <> NULL -> is_Some (h !! e) ->
  (forall h', list_rep h' l (insert_ordered less e xs) ->
     only_changed (e :: cells l xs) h h' -> Q tt h') ->
  wp (list_insert_ordered less l e) Q h.
Proof.
  intros Hr He Hen Hem HQ.
  apply wp_bind, wp_assert; [apply negb_true_iff, Z.eqb_neq; by apply rep_null in Hr|].
  apply wp_bind, wp_assert; [by apply negb_true_iff, Z.eqb_neq|].
  apply wp_bind, (wp_loop_fuel h l xs); [done|]. intros fuel Hf _.
  apply wp_bind, (wp_list_begin h l xs); [done|].
  apply wp_bind, (wp_list_insert_ordered_loop h l [] xs e); [done|lia|]. intros R1 R2 -> E.
  apply (wp_insert_cursor h l R1 R2); [done..|]. by rewrite <-E.
Qed.

Lemma wp_list_max_loop h l X R m fuel Q :
  list_rep h l (X ++ R) -> (length R < fuel)%nat -> Q (max_from less m R) h ->
  wp (list_max_loop less fuel l m (cursor l R)) Q h.
Proof.
  revert X R m. induction fuel as [|fuel IH]; intros X R m Hr Hf HQ; [lia|]. simpl.
  apply wp_bind, (wp_list_end h l (X ++ R)); [done|].
  destruct R as [|y R]; simpl; [rewrite Z.eqb_refl; by apply wp_ret|].
  rewrite (rep_cursor_ne_tail h l X y R Hr).
  apply wp_bind, (wp_next_cursor h l X y R); [done|].
  apply (IH (X ++ [y])); [by rewrite <-(assoc_L (++))|simpl in Hf; lia|done].
Qed.

Lemma wp_list_min_loop h l X R m fuel Q :
  list_rep h l (X ++ R) -> (length R < fuel)%nat -> Q (min_from less m R) h ->
  wp (list_min_loop less fuel l m (cursor l R)) Q h.
Proof.
  revert X R m. induction fuel as [|fuel IH]; intros X R m Hr Hf HQ; [lia|]. simpl.
  apply wp_bind, (wp_list_end h l (X ++ R)); [done|].
  destruct R as [|y R]; simpl; [rewrite Z.eqb_refl; by apply wp_ret|].
  rewrite (rep_cursor_ne_tail h l X y R Hr).
  apply wp_bind, (wp_next_cursor h l X y R); [done|].
  apply (IH (X ++ [y])); [by rewrite <-(assoc_L (++))|simpl in Hf; lia|done].
Qed.

(** The extremum of an empty list is the list's end. *)
Lemma wp_list_max h l xs Q :
  list_rep h l xs ->
  Q (match xs with [] => list_tail_addr l | x :: R => max_from less x R end) h ->
  wp (list_max less l) Q h.
Proof.
  intros Hr HQ. apply wp_bind, (wp_list_begin h l xs); [done|].
  apply wp_bind, (wp_list_end h l xs); [done|].
  destruct xs as [|x R]; simpl; [rewrite Z.eqb_refl; by apply wp_ret|].
  rewrite (rep_cursor_ne_tail h l [] x R Hr).
  apply wp_bind, (wp_loop_fuel h l (x :: R)); [done|]. intros fuel Hf _.
  apply wp_bind, (wp_next_cursor h l [] x R); [done|].
  apply (wp_list_max_loop h l [x] R); [done|simpl in Hf; lia|done].
Qed.

Lemma wp_list_min h l xs Q :
  list_rep h l xs ->
  Q (match xs with [] => list_tail_addr l | x :: R => min_from less x R end) h ->
  wp (list_min less l) Q h.
Proof.
  intros Hr HQ. apply wp_bind, (wp_list_begin h l xs); [done|].
  apply wp_bind, (wp_list_end h l xs); [done|].
  destruct xs as [|x R]; simpl; [rewrite Z.eqb_refl; by apply wp_ret|].
  rewrite (rep_cursor_ne_tail h l [] x R Hr).
  apply wp_bind, (wp_loop_fuel h l (x :: R)); [done|]. intros fuel Hf _.
  apply wp_bind, (wp_next_cursor h l [] x R); [done|].
  apply (wp_list_min_loop h l [x] R); [done|simpl in Hf; lia|done].
Qed.

(** ** list_unique *)

(** Where removed duplicates go: nowhere for a null list. *)
Definition dups_rep (h : heap) (d : Z) (ds : list Z) : Prop := d = NULL \/ list_rep h d ds.

Lemma app_snoc_cons {A} (X : list A) x Y : (X ++ [x]) ++ Y = X ++ x :: Y.
Proof. by rewrite <-(assoc_L (++)). Qed.

Lemma cells_middle l X y R : cells l (X ++ y :: R) ≡ₚ y :: cells l (X ++ R).
Proof. unfold cells. rewrite <-(Permutation_middle X R y). simpl. apply perm_swap. Qed.

Lemma cells_skip l X x y R : cells l (X ++ x :: y :: R) ≡ₚ y :: cells l (X ++ x :: R).
Proof.
  replace (X ++ x :: y :: R) with ((X ++ [x]) ++ y :: R) by (by rewrite <-(assoc_L (++))).
  by rewrite cells_middle, <-(assoc_L (++)).
Qed.

Lemma rep_removed_notin h l X y R : list_rep h l (X ++ y :: R) -> y ∉ cells l (X ++ R).
Proof.
  intros (_ & _ & _ & Hnd & _). rewrite cells_middle in Hnd. by apply NoDup_cons in Hnd as [Hn _].
Qed.

(** Sequencing is associative. *)
Lemma wp_assoc {S A B C} (m : M S A) (f : A -> M S B) (g : B -> M S C) Q s :
  wp ((m ≫= f) ≫= g) Q s -> wp (m ≫= fun a => f a ≫= g) Q s.
Proof.
  unfold wp, mbind, M_mbind. by destruct (m s) as [[a s']| | |].
Qed.

Lemma wp_list_unique_step h l d X y R ds Q :
  list_rep h l (X ++ y :: R) -> dups_rep h d ds ->
  (d <> NULL -> forall z, z ∈ cells d ds -> z ∉ cells l (X ++ y :: R)) ->
  (forall h', list_rep h' l (X ++ R) -> dups_rep h' d (ds ++ [y]) ->
     only_changed (cells l (X ++ y :: R) ++ cells d ds) h h' -> Q tt h') ->
  wp (list_remove y;; if negb (d =? NULL) then list_push_back d y else mret tt) Q h.
Proof.
  intros Hr Hd Hdis HQ. apply wp_bind, (wp_list_remove h l X y R); [done|].
  intros h1 Hr1 Hc1.
  assert (y ∈ cells l (X ++ y :: R)) as Hy by (unfold cells; mem).
  assert (cells l (X ++ R) ⊆ cells l (X ++ y :: R)) as Hsub.
  { intros z Hz. rewrite cells_middle. mem. }
  destruct (Z.eqb_spec d NULL) as [->|Hne]; simpl.
  { apply wp_ret, HQ; [done|by left|]. eapply only_changed_mono; [exact Hc1|].
    intros z Hz. apply elem_of_app. auto. }
  specialize (Hdis Hne). destruct Hd as [?|Hd]; [done|].
  assert (list_rep h1 d ds) as Hd1.
  { eapply list_rep_frame; [exact Hd|exact Hc1|]. intros z Hz Hz'. apply (Hdis z); auto. }
  apply (wp_list_push_back h1 d ds); [done| | | |].
  - intros Hy'. by apply (Hdis y).
  - by apply (rep_nonnull h l (X ++ y :: R)).
  - apply elem_of_dom. destruct Hc1 as [_ ->]. apply elem_of_dom. by apply (rep_mapped h l (X ++ y :: R)).
  - intros h2 Hr2 Hc2. apply HQ; [|by right|].
    + eapply list_rep_frame; [exact Hr1|exact Hc2|]. intros z Hz' [->|Hz]%elem_of_cons.
      * by apply (rep_removed_notin h l X y R).
      * apply (Hdis z); auto.
    + eapply only_changed_trans; eapply only_changed_mono; [exact Hc1| |exact Hc2|].
      * intros z Hz. apply elem_of_app. auto.
      * intros z [->|Hz]%elem_of_cons; apply elem_of_app; auto.
Qed.

Lemma wp_list_unique_loop h l d X x R ds fuel Q :
  list_rep h l (X ++ x :: R) -> (length R < fuel)%nat -> dups_rep h d ds ->
  (d <> NULL -> forall z, z ∈ cells d ds -> z ∉ cells l (X ++ x :: R)) ->
  (forall h', list_rep h' l (X ++ x :: (unique_from less x R).1) ->
     dups_rep h' d (ds ++ (unique_from less x R).2) ->
     only_changed (cells l (X ++ x :: R) ++ cells d ds) h h' -> Q tt h') ->
  wp (list_unique_loop less fuel l d x) Q h.
Proof.
  revert h X x R ds. induction fuel as [|fuel IH]; intros h X x R ds Hr Hf Hd Hdis HQ; [lia|]. simpl.
  apply wp_bind, (wp_next_cursor h l X x R); [done|].
  apply wp_bind, (wp_list_end h l (X ++ x :: R)); [done|].
  destruct R as [|y R]; simpl.
  { rewrite Z.eqb_refl. apply wp_ret. apply HQ; [done| |apply only_changed_refl].
    simpl. by rewrite (right_id_L [] (++)). }
  assert (list_rep h l ((X ++ [x]) ++ y :: R)) as Hr' by (by rewrite <-(assoc_L (++))).
  rewrite (rep_cursor_ne_tail h l (X ++ [x]) y R Hr'). cbn [unique_from] in HQ.
  destruct (negb (less x y) && negb (less y x)).
  - apply (wp_assoc _ _ _ _), (wp_bind _ _ _ _), (wp_list_unique_step h l d (X ++ [x]) y R ds); [done|done| |].
    { by rewrite <-(assoc_L (++)). }
    intros h1 Hr1 Hd1 Hc1. rewrite !app_snoc_cons in Hr1, Hc1.
    destruct (unique_from less x R) as [k dd] eqn:E. cbn [fst snd] in HQ.
    apply (IH h1 X x R (ds ++ [y])); [done|simpl in Hf; lia|done| |].
    + intros Hne z Hz Hz'. rewrite cells_middle, (right_id_L [] (++)) in Hz.
      assert (cells l (X ++ x :: R) ⊆ cells l (X ++ x :: y :: R)) as Hsub
        by (intros w; rewrite (cells_skip l X x y R), elem_of_cons; tauto).
      apply elem_of_cons in Hz as [->|Hz]; [|by apply (Hdis Hne z); auto].
      apply (rep_removed_notin h l (X ++ [x]) y R); [done|by rewrite <-(assoc_L (++))].
    + rewrite E. intros h2 Hr2 Hd2 Hc2. rewrite <-(assoc_L (++)) in Hd2. apply HQ; [done|done|].
      eapply only_changed_trans; [exact Hc1|]. eapply only_changed_mono; [exact Hc2|].
      intros z. rewrite !elem_of_app, (cells_skip l X x y R), (cells_middle d ds y []), (right_id_L [] (++)).
      rewrite !elem_of_cons. tauto.
  - destruct (unique_from less y R) as [k dd] eqn:E. cbn [fst snd] in HQ.
    apply (IH h (X ++ [x]) y R ds); [done|simpl in Hf; lia|done|by rewrite <-!(assoc_L (++))|].
    intros h'. rewrite E, <-!(assoc_L (++)). apply HQ.
Qed.

Lemma wp_list_unique h l d xs ds Q :
  list_rep h l xs -> dups_rep h d ds ->
  (d <> NULL -> forall z, z ∈ cells d ds -> z ∉ cells l xs) ->
  (forall h', list_rep h' l (unique less xs).1 -> dups_rep h' d (ds ++ (unique less xs).2) ->
     only_changed (cells l xs ++ cells d ds) h h' -> Q tt h') ->
  wp (list_unique less l d) Q h.
Proof.
  intros Hr Hd Hdis HQ.
  apply wp_bind, wp_assert; [apply negb_true_iff, Z.eqb_neq; by apply rep_null in Hr|].
  apply wp_bind, (wp_list_empty h l xs); [done|].
  destruct xs as [|x R]; cbn [unique] in HQ.
  { apply wp_ret, HQ; [done|cbn [snd]; by rewrite (right_id_L [] (++))|apply only_changed_refl]. }
  rewrite bool_decide_eq_false_2 by done.
  apply wp_bind, (wp_loop_fuel h l (x :: R)); [done|]. intros fuel Hf _.
  apply wp_bind, (wp_list_begin h l (x :: R)); [done|].
  destruct (unique_from less x R) as [k dd] eqn:E.
  apply (wp_list_unique_loop h l d [] x R ds); [done|simpl in Hf; lia|done|done|].
  rewrite E. exact HQ.
Qed.
End Scans.

(** ** list_reverse *)

Section Reverse.

Lemma seg_intro h ps :
  (forall A p q B, ps = A ++ p :: q :: B -> linked h p q) -> seg h ps.
Proof.
  induction ps as [|p ps IH]; intros H; [done|]. destruct ps as [|q ps]; [done|].
  split; [by apply (H [] p q ps)|]. apply IH. intros A p' q' B E. apply (H (p :: A) p' q' B).
  by rewrite E.
Qed.

Lemma seg_linked h A p q B : seg h (A ++ p :: q :: B) -> linked h p q.
Proof. intros Hs. split; [by eapply seg_nxt|by eapply seg_prv]. Qed.

Lemma rep_inner_linked h l xs C q p D :
  list_rep h l xs -> xs = C ++ q :: p :: D -> linked h q p.
Proof.
  intros (Hs & _) ->. apply (seg_linked h (list_head_addr l :: C) q p (D ++ [list_tail_addr l])).
  unfold cells in Hs. by rewrite <-(assoc_L (++)) in Hs.
Qed.

(** The elements [es] have exchanged their links. *)
Definition swapped (es : list Z) (h h' : heap) : Prop :=
  only_changed es h h' /\
  forall e, e ∈ es -> nxt h' e = prv h e /\ prv h' e = nxt h e.

Lemma swapped_nil h : swapped [] h h.
Proof. split; [apply only_changed_refl|]. by intros e ?%elem_of_nil. Qed.

Lemma swapped_step es h h' e p n :
  swapped es h h' -> e ∉ es -> prv h e = Some p -> nxt h e = Some n ->
  swapped (es ++ [e]) h (upd_next e p (upd_prev e n h')).
Proof.
  intros [Hc Hsw] He Hp Hn. split.
  - apply only_changed_next; [|mem]. apply only_changed_prev; [|mem].
    eapply only_changed_mono; [exact Hc|]. intros x. rewrite elem_of_app. auto.
  - intros x [Hx|Hx%list_elem_of_singleton]%elem_of_app.
    + assert (e <> x) by (by intros ->).
      rewrite nxt_upd_next_ne, prv_upd_next, nxt_upd_prev, prv_upd_prev_ne by done. by apply Hsw.
    + subst x. rewrite <-(nxt_only_changed _ _ _ _ Hc He) in Hn.
      rewrite <-(prv_only_changed _ _ _ _ Hc He) in Hp. rewrite prv_upd_next.
      rewrite <-(nxt_only_changed _ _ _ _ Hc He), <-(prv_only_changed _ _ _ _ Hc He), Hp, Hn.
      split; [apply nxt_upd_next_eq with n; by rewrite nxt_upd_prev|by apply prv_upd_prev_eq with p].
Qed.

Lemma wp_swap_links h e p n Q :
  e <> NULL -> prv h e = Some p -> nxt h e = Some n ->
  Q tt (upd_next e p (upd_prev e n h)) -> wp (swap_links e) Q h.
Proof.
  intros He Hp Hn HQ. apply wp_bind, wp_get_prev with p; [done|done|].
  apply wp_bind, wp_get_next with n; [done|done|].
  apply wp_bind, wp_set_prev; [done|eauto using mapped_nxt|].
  apply wp_set_next; [done|apply mapped_upd_prev; eauto using mapped_nxt|done].
Qed.

(** The links of an element inside a represented list. *)
Lemma rep_links h l X e R :
  list_rep h l (X ++ e :: R) -> exists p, prv h e = Some p /\ nxt h e = Some (cursor l R).
Proof.
  intros Hr. apply rep_nxt in Hr. destruct (nxt_prv _ _ _ Hr) as [p Hp]. eauto.
Qed.

Lemma wp_list_reverse_loop h l X R h1 fuel Q :
  list_rep h l (X ++ R) -> swapped X h h1 -> (length R < fuel)%nat ->
  (forall h', swapped (X ++ R) h h' -> Q tt h') ->
  wp (list_reverse_loop fuel l (cursor l R)) Q h1.
Proof.
  revert X R h1. induction fuel as [|fuel IH]; intros X R h1 Hr Hsw Hf HQ; [lia|]. simpl.
  apply wp_bind. apply wp_bind, wp_assert.
  { apply negb_true_iff, Z.eqb_neq. by apply rep_null in Hr. }
  apply wp_ret. destruct R as [|e R]; simpl.
  { rewrite Z.eqb_refl. apply wp_ret, HQ. by rewrite (right_id_L [] (++)). }
  rewrite (rep_cursor_ne_tail h l X e R Hr).
  destruct (rep_links h l X e R Hr) as (p & Hp & Hn).
  assert (e ∉ X) as He.
  { apply rep_NoDup, NoDup_app in Hr as (_ & Hd & _). intros Hx. apply (Hd e Hx). mem. }
  pose proof (rep_elem_nonnull h l X e R Hr) as Hnull%Z.eqb_neq.
  pose proof Hsw as [Hc _].
  apply wp_bind, wp_swap_links with p (cursor l R);
    [done|by rewrite (prv_only_changed X h)|by rewrite (nxt_only_changed X h)|].
  pose proof (swapped_step X h h1 e p (cursor l R) Hsw He Hp Hn) as Hsw2.
  apply wp_bind, wp_get_prev with (cursor l R); [done| |].
  { destruct Hsw2 as [_ Hsw2]. rewrite <-Hn. apply Hsw2. mem. }
  apply (IH (X ++ [e]) R); rewrite ?app_snoc_cons; [done|done|simpl in Hf; lia|done].
Qed.

(** The links after the ends have been exchanged: [x] was the first element and
    [z] the last one. *)
Definition ends_swapped (hd tl x z : Z) (h : heap) : heap :=
  upd_next x tl (upd_prev z hd (upd_prev tl x (upd_next hd z h))).

Lemma ends_swapped_links hd tl x z h :
  is_Some (h !! hd) -> is_Some (h !! tl) -> is_Some (h !! x) -> is_Some (h !! z) ->
  hd <> x -> tl <> z ->
  let h2 := ends_swapped hd tl x z h in
  linked h2 hd z /\ linked h2 x tl /\
  (forall y, y <> x -> y <> hd -> nxt h2 y = nxt h y) /\
  (forall y, y <> z -> y <> tl -> prv h2 y = prv h y).
Proof.
  intros [nh Hh]%nxt_is_Some [pt Ht]%prv_is_Some [nx Hx]%nxt_is_Some [pz Hz]%prv_is_Some H1 H2.
  unfold ends_swapped. split_and!; [split| split|intros y ? ?|intros y ? ?]; by heap_simp.
Qed.

Lemma seg_ends h hd tl z x us ws ys :
  ys = z :: us -> ys = ws ++ [x] -> linked h hd z -> linked h x tl -> seg h ys ->
  seg h (hd :: ys ++ [tl]).
Proof.
  intros E1 E2 L1 L2 Hs.
  assert (seg h (ys ++ [tl])) as Hs'.
  { rewrite E2, app_snoc_cons. rewrite E2 in Hs. by apply seg_app. }
  rewrite E1 in *. by split.
Qed.

(** Of two neighbours, the right one is not the first and the left one not the
    last. *)
Lemma NoDup_neighbours (xs ws vs C D : list Z) x z q p :
  NoDup xs -> xs = x :: ws -> xs = vs ++ [z] -> xs = C ++ q :: p :: D -> p <> x /\ q <> z.
Proof.
  intros Hnd E1 E2 E. split; intros ->.
  - rewrite E in E1. destruct C as [|c C]; injection E1 as -> <-; rewrite E in Hnd; simpl in Hnd;
      apply NoDup_cons in Hnd as [Hn _]; apply Hn; mem.
  - destruct (exists_last (l := p :: D)) as (D' & d & ED); [done|].
    rewrite ED in E. replace (C ++ z :: D' ++ [d]) with ((C ++ z :: D') ++ [d]) in E
      by (by rewrite <-(assoc_L (++))).
    rewrite E2 in E. apply app_inj_tail in E as [-> ->]. rewrite E2 in Hnd.
    apply NoDup_app in Hnd as (_ & Hd & _). apply (Hd d); mem.
Qed.

Lemma swapped_seg_rev h h1 l xs x z ws vs :
  list_rep h l xs -> swapped xs h h1 -> xs = x :: ws -> xs = vs ++ [z] ->
  list_rep (ends_swapped (list_head_addr l) (list_tail_addr l) x z h1) l (rev xs).
Proof.
  intros Hr [Hc Hsw] Ex Ez. pose proof (rep_NoDup h l xs Hr) as Hnd.
  pose proof (rep_head_not_elem h l xs Hr) as Hhd. pose proof (rep_tail_not_elem h l xs Hr) as Htl.
  assert (x ∈ xs) as Hx by (rewrite Ex; mem). assert (z ∈ xs) as Hz by (rewrite Ez; mem).
  pose proof (rep_head_ne h l xs (list_tail_addr l) Hr ltac:(mem)) as Hht.
  assert (forall y, y ∈ cells l xs -> is_Some (h1 !! y)) as Hm.
  { intros y Hy. apply elem_of_dom. destruct Hc as [_ ->]. apply elem_of_dom. by apply (rep_mapped h l xs). }
  destruct (ends_swapped_links (list_head_addr l) (list_tail_addr l) x z h1)
    as (Lz & Lx & Hn & Hp); try (apply Hm; unfold cells; mem); try (by intros <-).
  eapply list_rep_intro; [exact Hr| | | | |].
  - apply seg_ends with z x (rev vs) (rev ws);
      [by rewrite Ez, rev_app_distr|by rewrite Ex|done|done|].
    apply seg_intro. intros A p q B E.
    assert (xs = rev B ++ q :: p :: rev A) as E'.
    { rewrite <-(rev_involutive xs), E, rev_app_distr. simpl. by rewrite <-!(assoc_L (++)). }
    destruct (NoDup_neighbours xs ws vs (rev B) (rev A) x z q p Hnd Ex Ez E') as [Hpx Hqz].
    assert (p ∈ xs /\ q ∈ xs) as [Hpi Hqi] by (rewrite E'; split; mem).
    destruct (rep_inner_linked h l xs (rev B) q p (rev A) Hr E') as [L1 L2].
    split; [rewrite Hn by (done || by intros ->)|rewrite Hp by (done || by intros ->)].
    + rewrite (proj1 (Hsw p Hpi)). done.
    + rewrite (proj2 (Hsw q Hqi)). done.
  - rewrite Hp; [by apply (prv_only_changed xs)|by intros <-|done].
  - rewrite Hn; [by apply (nxt_only_changed xs)|by intros <-|done].
  - by rewrite <-Permutation_rev.
  - intros y. by rewrite <-Permutation_rev.
Qed.

Lemma wp_list_reverse h l xs Q :
  list_rep h l xs ->
  (forall h', list_rep h' l (rev xs) -> only_changed (cells l xs) h h' -> Q tt h') ->
  wp (list_reverse l) Q h.
Proof.
  intros Hr HQ. apply wp_bind, (wp_list_empty h l xs); [done|].
  destruct xs as [|x ws] eqn:Ex; [apply wp_ret, HQ; [done|apply only_changed_refl]|].
  rewrite bool_decide_eq_false_2 by done. rewrite <-Ex in *.
  destruct (exists_last (l := xs)) as (vs & z & Ez); [by rewrite Ex|].
  apply wp_bind, (wp_loop_fuel h l xs); [done|]. intros fuel Hf _.
  apply wp_bind, (wp_list_begin h l xs); [done|].
  apply wp_bind, (wp_list_reverse_loop h l [] xs h); [done|apply swapped_nil|done|].
  simpl. intros h1 Hsw. pose proof (swapped_seg_rev h h1 l xs x z ws vs Hr Hsw Ex Ez) as Hr2.
  destruct Hsw as [Hc Hsw].
  pose proof (rep_null h l xs Hr) as Hl0.
  assert (forall y, y ∈ cells l xs -> y <> NULL /\ is_Some (h1 !! y)) as Hm.
  { intros y Hy. split; [apply (rep_nonnull h l xs); done|]. apply elem_of_dom. destruct Hc as [_ ->].
    apply elem_of_dom. by apply (rep_mapped h l xs). }
  assert (x ∈ xs) as Hx by (rewrite Ex; mem). assert (z ∈ xs) as Hz by (rewrite Ez; mem).
  destruct (Hm x) as [Hx0 Hxm]; [unfold cells; mem|].
  destruct (Hm z) as [Hz0 Hzm]; [unfold cells; mem|].
  destruct (Hm (list_head_addr l)) as [Hh0 Hhm]; [unfold cells; mem|].
  destruct (Hm (list_tail_addr l)) as [Ht0 Htm]; [unfold cells; mem|].
  pose proof (rep_head_not_elem h l xs Hr) as Hhd. pose proof (rep_tail_not_elem h l xs Hr) as Htl.
  assert (nxt h1 (list_head_addr l) = Some x) as Hn1.
  { rewrite (nxt_only_changed xs h) by done. rewrite (rep_head_nxt h l xs) by done. by rewrite Ex. }
  assert (prv h1 (list_tail_addr l) = Some z) as Hp1.
  { rewrite (prv_only_changed xs h) by done. apply (rep_prv_cursor h l vs z []). by rewrite <-Ez. }
  assert (prv h1 z = Some (list_tail_addr l)) as Hpz.
  { rewrite (proj2 (Hsw z Hz)). apply (rep_nxt h l vs z []). by rewrite <-Ez. }
  assert (nxt h1 x = Some (list_head_addr l)) as Hnx.
  { rewrite (proj1 (Hsw x Hx)). pose proof (rep_cursor_prv_head h l xs Hr) as Hp. by rewrite Ex in Hp. }
  assert (x <> list_head_addr l /\ z <> list_tail_addr l) as [Hxh Hzt] by (by split; intros E; rewrite E in *).
  apply wp_bind, wp_get_next with x; [done|done|].
  apply wp_bind, wp_get_prev with z; [done|done|].
  apply wp_bind, wp_set_next; [done|done|].
  apply wp_bind, wp_set_prev; [done|by apply mapped_upd_next|].
  apply wp_bind, wp_get_next with z; [done|by heap_simp|].
  apply wp_bind, wp_get_prev with x; [done|by heap_simp|].
  apply wp_bind, wp_get_prev with (list_tail_addr l); [done|by heap_simp|].
  apply wp_bind, wp_get_next with (list_head_addr l); [done|by heap_simp|].
  apply wp_bind, wp_set_prev; [done|by apply mapped_upd_prev, mapped_upd_next|].
  apply wp_set_next; [done|by apply mapped_upd_prev, mapped_upd_prev, mapped_upd_next|].
  apply HQ; [done|].
  repeat first [apply only_changed_next; [|unfold cells; mem] | apply only_changed_prev; [|unfold cells; mem]].
  eapply only_changed_mono; [exact Hc|]. intros y Hy. unfold cells. mem.
Qed.
End Reverse.
