(* ===== verification/KListTheorems.v ===== *)
(** * What lib/kernel/list.c guarantees

    The properties of the list operations the rest of the kernel is built on,
    each with an instance on a concrete heap. *)

From S2P Require Import Prelude ListSpec ListRuns KList KListFacts KListSort KListOrdered.

(** A freshly initialised list is empty. *)
Lemma wp_list_init h l Q :
  l <> NULL -> list_tail_addr l <> NULL ->
  is_Some (h !! list_head_addr l) -> is_Some (h !! list_tail_addr l) ->
  (forall h', list_rep h' l [] -> only_changed (cells l []) h h' -> Q tt h') ->
  wp (list_init l) Q h.
Proof.
  intros Hl Ht Hhm Htm HQ.
  assert (list_head_addr l <> list_tail_addr l) as Hne by (unfold list_head_addr, list_tail_addr; lia).
  assert (list_head_addr l <> NULL) as Hh by done.
  assert (is_Some (nxt h (list_head_addr l))) as [nh Hnh] by by apply nxt_is_Some.
  assert (is_Some (prv h (list_head_addr l))) as [ph Hph] by by apply prv_is_Some.
  assert (is_Some (nxt h (list_tail_addr l))) as [nt Hnt] by by apply nxt_is_Some.
  assert (is_Some (prv h (list_tail_addr l))) as [pt Hpt] by by apply prv_is_Some.
  apply wp_bind, wp_assert; [by apply negb_true_iff, Z.eqb_neq|].
  apply wp_bind, wp_set_prev; [done|done|].
  apply wp_bind, wp_set_next; [done|by apply mapped_upd_prev|].
  apply wp_bind, wp_set_prev; [done|by apply mapped_upd_next, mapped_upd_prev|].
  apply wp_set_next; [done|by apply mapped_upd_prev, mapped_upd_next, mapped_upd_prev|].
  apply HQ.
  - unfold list_rep, cells. simpl. unfold linked. split_and!; try done; try by heap_simp.
    + apply NoDup_cons. split; [|apply NoDup_singleton]. by rewrite list_elem_of_singleton.
    + rewrite elem_of_cons, list_elem_of_singleton. intuition congruence.
  - repeat first [apply only_changed_refl | apply only_changed_next | apply only_changed_prev];
      unfold cells; mem.
Qed.

(** A heap with a list at address 4096 of elements placed at [xs]. *)
Definition example_heap (xs : list Z) : heap :=
  let h0 : heap := list_to_map ((fun a => (a, ListElem 0 0)) <$> 4096 :: 4112 :: xs) in
  match (list_init 4096;; (fix go ys := match ys with
         | [] => mret tt | y :: ys => list_push_back 4096 y;; go ys end) xs) h0 with
  | Ok (_, h) => h
  | _ => ∅
  end.

(** Decides [list_rep] on concrete heaps. *)
Ltac concrete_rep :=
  unfold list_rep, cells; split_and!;
  first [vm_compute; repeat split; reflexivity
        |refine (bool_decide_eq_true_1 _ _); vm_compute; reflexivity].

(** C35: list_sort terminates without panicking and leaves the list's elements in
    nondecreasing order, as a permutation in which elements that compare equal
    keep their order; it rewrites only the list's own links. *)
Theorem list_sort_stable (less : Z -> Z -> bool) (SW : StrictWeak less) h l xs
  (Hr : list_rep h l xs) (Hlen : Z.of_nat (length xs) < 2 ^ 64) :
  exists h' ys, list_sort less l h = Ok (tt, h') /\ list_rep h' l ys /\
    ordered less ys /\ ys ≡ₚ xs /\
    (forall x, filter (fun y => equiv_to less x y) ys = filter (fun y => equiv_to less x y) xs) /\
    only_changed (cells l xs) h h'.
Proof.
  destruct (wp_list_sort less h l xs (fun _ h' => list_rep h' l (stable_sort less xs) /\
    only_changed (cells l xs) h h')) as ([] & h' & E & Hr' & Hc); [done|done|done|].
  exists h', (stable_sort less xs). split_and!; [done|done|apply stable_sort_ordered; done| | |done].
  - apply stable_sort_perm.
  - intros x. by apply stable_sort_stable.
Qed.

Lemma list_sort_stable_witness :
  let less x y := x / 100 <? y / 100 in
  let xs := [530; 210; 540; 100; 220; 500] in
  list_rep (example_heap xs) 4096 xs /\
  exists h' ys, list_sort less 4096 (example_heap xs) = Ok (tt, h') /\ list_rep h' 4096 ys /\
    ordered less ys /\ ys ≡ₚ xs.
Proof.
  assert (list_rep (example_heap [530; 210; 540; 100; 220; 500]) 4096 [530; 210; 540; 100; 220; 500])
    as Hr by concrete_rep.
  split; [exact Hr|].
  destruct (list_sort_stable (fun x y => x / 100 <? y / 100) (StrictWeak_key_lt (fun x => x / 100))
    _ 4096 _ Hr) as (h' & ys & E & Hr' & Ho & Hp & _); [reflexivity|].
  exists h', ys. auto.
Defined.

(** List_insert_ordered puts the element into a sorted list behind every
    element it is not less than, so that the list stays sorted, and touches only
    the list's links and the new element's. *)
Theorem list_insert_ordered_sorted (less : Z -> Z -> bool) (SW : StrictWeak less) h l xs e
  (Hr : list_rep h l xs) (Ho : ordered less xs)
  (He : e ∉ cells l xs) (Hnull : e <> NULL) (Hm : is_Some (h !! e)) :
  exists h' l1 l2, list_insert_ordered less l e h = Ok (tt, h') /\
    xs = l1 ++ l2 /\ list_rep h' l (l1 ++ e :: l2) /\ ordered less (l1 ++ e :: l2) /\
    Forall (fun y => less e y = false) l1 /\ Forall (fun y => less e y = true) l2 /\
    only_changed (e :: cells l xs) h h'.
Proof.
  destruct (wp_list_insert_ordered less h l xs e (fun _ h' =>
    list_rep h' l (insert_ordered less e xs) /\ only_changed (e :: cells l xs) h h'))
    as ([] & h' & E & Hr' & Hc); [done..|].
  pose proof (insert_ordered_ordered less e xs Ho) as Ho'.
  destruct (insert_ordered_split less e xs) as (l1 & l2 & -> & E2 & Hl1 & Hl2).
  rewrite E2 in *. exists h', l1, l2. split_and!; try done.
  destruct l2 as [|y l2]; [constructor|]. constructor; [done|].
  apply StronglySorted_app_1_r in Ho.
  apply ordered_head_le in Ho. eapply Forall_impl; [exact Ho|].
  intros z Hz. by eapply (sw_lt_le less).
Qed.

Lemma list_insert_ordered_sorted_witness :
  let less x y := y / 100 <? x / 100 in
  let h := <[700 := ListElem 0 0]> (example_heap [830; 710; 440]) in
  exists h' l1 l2, list_insert_ordered less 4096 700 h = Ok (tt, h') /\
    [830; 710; 440] = l1 ++ l2 /\ list_rep h' 4096 (l1 ++ 700 :: l2).
Proof.
  destruct (list_insert_ordered_sorted (fun x y => y / 100 <? x / 100)
    (StrictWeak_key_lt' (fun x => x / 100))
    (<[700 := ListElem 0 0]> (example_heap [830; 710; 440])) 4096 [830; 710; 440] 700)
    as (h' & l1 & l2 & H1 & H2 & H3 & _).
  - concrete_rep.
  - repeat constructor.
  - refine (bool_decide_eq_true_1 _ _); vm_compute; reflexivity.
  - discriminate.
  - vm_compute. eauto.
  - exists h', l1, l2. auto.
Defined.

(** List_unique keeps the first of every run of adjacent equal elements and
    moves the others, in order, to the end of the list of duplicates, or just
    drops them when there is none. *)
Theorem list_unique_splits (less : Z -> Z -> bool) h l d xs ds
  (Hr : list_rep h l xs) (Hd : d = NULL \/ list_rep h d ds)
  (Hdis : d <> NULL -> forall z, z ∈ cells d ds -> z ∉ cells l xs) :
  exists h', list_unique less l d h = Ok (tt, h') /\
    list_rep h' l (unique less xs).1 /\ (d = NULL \/ list_rep h' d (ds ++ (unique less xs).2)) /\
    only_changed (cells l xs ++ cells d ds) h h'.
Proof.
  destruct (wp_list_unique less h l d xs ds (fun _ h' => list_rep h' l (unique less xs).1 /\
    dups_rep h' d (ds ++ (unique less xs).2) /\ only_changed (cells l xs ++ cells d ds) h h'))
    as ([] & h' & E & H); [done|done|done|auto|]. by exists h'.
Qed.

Lemma list_unique_splits_witness :
  exists h', list_unique (fun x y => x / 100 <? y / 100) 4096 NULL
      (example_heap [110; 120; 210; 130; 310; 320; 330]) = Ok (tt, h') /\
    list_rep h' 4096 [110; 210; 130; 310].
Proof.
  destruct (list_unique_splits (fun x y => x / 100 <? y / 100)
    (example_heap [110; 120; 210; 130; 310; 320; 330]) 4096 NULL
    [110; 120; 210; 130; 310; 320; 330] []) as (h' & E & Hr & _).
  - concrete_rep.
  - by left.
  - intros []. reflexivity.
  - exists h'. split; [exact E|exact Hr].
Defined.

(** List_reverse reverses the sequence the list holds. *)
Theorem list_reverse_reverses h l xs (Hr : list_rep h l xs) :
  exists h', list_reverse l h = Ok (tt, h') /\ list_rep h' l (rev xs) /\
    only_changed (cells l xs) h h'.
Proof.
  destruct (wp_list_reverse h l xs (fun _ h' => list_rep h' l (rev xs) /\
    only_changed (cells l xs) h h')) as ([] & h' & E & H); [done|auto|]. by exists h'.
Qed.

Lemma list_reverse_reverses_witness :
  exists h', list_reverse 4096 (example_heap [10; 20; 30]) = Ok (tt, h') /\
    list_rep h' 4096 [30; 20; 10].
Proof.
  destruct (list_reverse_reverses (example_heap [10; 20; 30]) 4096 [10; 20; 30])
    as (h' & E & Hr & _); [concrete_rep|]. exists h'. split; [exact E|exact Hr].
Defined.

(** List_remove takes an element out of the middle of a list and returns its
    successor, and list_insert in front of that successor puts it back. *)
Theorem list_remove_insert h l xs e ys (Hr : list_rep h l (xs ++ e :: ys)) :
  exists h1 next h2, list_remove e h = Ok (next, h1) /\ list_rep h1 l (xs ++ ys) /\
    next = hd (list_tail_addr l) ys /\
    list_insert next e h1 = Ok (tt, h2) /\ list_rep h2 l (xs ++ e :: ys).
Proof.
  destruct (wp_list_remove h l xs e ys (fun n h1 => n = cursor l ys /\
    list_rep h1 l (xs ++ ys) /\ only_changed (cells l (xs ++ ys)) h h1))
    as (n & h1 & E1 & -> & Hr1 & Hc); [done|auto|].
  assert (e ∈ cells l (xs ++ e :: ys)) as He by (unfold cells; mem).
  destruct (wp_insert_cursor h1 l xs ys e (fun _ h2 => list_rep h2 l (xs ++ e :: ys)))
    as ([] & h2 & E2 & Hr2).
  - done.
  - by apply rep_removed_notin with h.
  - by apply (rep_nonnull h l (xs ++ e :: ys)).
  - apply elem_of_dom. destruct Hc as [_ ->]. apply elem_of_dom.
    by apply (rep_mapped h l (xs ++ e :: ys)).
  - done.
  - by exists h1, (cursor l ys), h2.
Qed.

Lemma list_remove_insert_witness :
  exists h1 next h2, list_remove 20 (example_heap [10; 20; 30]) = Ok (next, h1) /\
    list_rep h1 4096 [10; 30] /\ list_insert next 20 h1 = Ok (tt, h2) /\
    list_rep h2 4096 [10; 20; 30].
Proof.
  destruct (list_remove_insert (example_heap [10; 20; 30]) 4096 [10] 20 [30])
    as (h1 & n & h2 & E1 & R1 & _ & E2 & R2); [concrete_rep|]. exists h1, n, h2. split_and!; [exact E1|exact R1|exact E2|exact R2].
Defined.
