(* ===== verification/Arith64.v ===== *)
(** * lib/arithmetic.c: 64-bit division and remainder from 32-bit division

    Each function of the file on [Z] values of its operand widths, with the
    divide error of the DIVL instruction as [Panic]. *)

From S2P Require Import Prelude.

(** ** The functions of arithmetic.c *)

(** The DIVL instruction traps when the divisor is zero or the quotient needs
    more than 32 bits. *)
Definition divl (n d : Z) : outcome Z :=
  if d =? 0 then Panic
  else if n / d <? 2 ^ 32 then Ok (n / d) else Panic.

(** One [if] of nlz: at most [bound] means [k] more leading zeros. *)
Definition nlz_step (bound k : Z) (nx : Z * Z) : Z * Z :=
  let '(n, x) := nx in
  if x <=? bound then (n + k, u32 (Z.shiftl x k)) else (n, x).

Definition nlz (x : Z) : Z :=
  let '(n, x) :=
    nlz_step 0x3FFFFFFF 2 (nlz_step 0x0FFFFFFF 4
      (nlz_step 0x00FFFFFF 8 (nlz_step 0x0000FFFF 16 (0, x)))) in
  if x <=? 0x7FFFFFFF then n + 1 else n.

Definition udiv64 (n d : Z) : outcome Z :=
  if Z.shiftr d 32 =? 0 then
    let b := 2 ^ 32 in
    let n1 := u32 (Z.shiftr n 32) in
    let n0 := u32 n in
    let d0 := u32 d in
    if d0 =? 0 then Panic
    else
      q ← divl (u64 (b * (n1 mod d0) + n0)) d0;
      mret (u64 (q + b * (n1 / d0)))
  else if n <? d then mret 0
  else
    let d1 := u32 (Z.shiftr d 32) in
    let s := nlz d1 in
    q0 ← divl (Z.shiftr n 1) (u32 (Z.shiftr (u64 (Z.shiftl d s)) 32));
    let q := Z.shiftr q0 (31 - s) in
    mret (if u64 (n - u64 (u64 (q - 1) * d)) <? d then u64 (q - 1) else q).

(** The remainder is returned in 32 bits. *)
Definition umod64 (n d : Z) : outcome Z :=
  q ← udiv64 n d; mret (u32 (u64 (n - u64 (d * q)))).

Definition sdiv64 (n d : Z) : outcome Z :=
  let n_abs := if n >=? 0 then u64 n else u64 (- u64 n) in
  let d_abs := if d >=? 0 then u64 d else u64 (- u64 d) in
  q_abs ← udiv64 n_abs d_abs;
  mret (if Bool.eqb (n <? 0) (d <? 0) then s64 q_abs else s64 (- s64 q_abs)).

Definition smod64 (n d : Z) : outcome Z :=
  q ← sdiv64 n d; mret (s32 (s64 (n - s64 (d * q)))).

(** The entry points that GCC calls. *)
Definition __divdi3 (n d : Z) : outcome Z := sdiv64 n d.
Definition __moddi3 (n d : Z) : outcome Z := smod64 n d.
Definition __udivdi3 (n d : Z) : outcome Z := udiv64 n d.
Definition __umoddi3 (n d : Z) : outcome Z := umod64 n d.

(** ** Leading zeros *)

(** [x] is [x0] shifted by [n], with its highest bit among the top [32 - m]. *)
Definition shifted (x0 m : Z) (nx : Z * Z) : Prop :=
  nx.2 = x0 * 2 ^ nx.1 /\ 0 <= nx.1 /\ 2 ^ m <= nx.2 < 2 ^ 32.

Lemma shift_step x0 k n x :
  0 < k <= 16 -> shifted x0 (32 - 2 * k) (n, x) -> x < 2 ^ (32 - k) ->
  shifted x0 (32 - k) (n + k, x * 2 ^ k).
Proof.
  unfold shifted; simpl. intros Hk (-> & Hn & Hlo & Hhi) Hx.
  rewrite Z.pow_add_r by lia. split; [lia|]. split; [lia|].
  replace (32 - k) with (32 - 2 * k + k) at 1 by lia.
  replace (2 ^ 32) with (2 ^ (32 - k) * 2 ^ k) by (rewrite <-Z.pow_add_r by lia; f_equal; lia).
  rewrite Z.pow_add_r by lia.
  split; [apply Z.mul_le_mono_nonneg_r|apply Z.mul_lt_mono_pos_r]; lia.
Qed.

Lemma nlz_step_shifted x0 bound k nx :
  0 < k <= 16 -> bound = 2 ^ (32 - k) - 1 ->
  shifted x0 (32 - 2 * k) nx -> shifted x0 (32 - k) (nlz_step bound k nx).
Proof.
  intros Hk -> H. destruct nx as [n x]. unfold nlz_step. destruct (Z.leb_spec x (2 ^ (32 - k) - 1)).
  - pose proof (shift_step x0 k n x Hk H ltac:(lia)) as H'.
    rewrite Z.shiftl_mul_pow2 by lia. rewrite u32_small; [exact H'|].
    destruct H' as (_ & _ & Hlo & Hhi). unfold is_u32. simpl in *.
    assert (0 < 2 ^ (32 - k)) by lia. lia.
  - destruct H as (H1 & H2 & H3). repeat split; simpl in *; try done; lia.
Qed.

(** nlz moves the highest set bit to bit 31. *)
Lemma nlz_spec x : 0 < x < 2 ^ 32 -> 0 <= nlz x <= 31 /\ 2 ^ 31 <= x * 2 ^ nlz x < 2 ^ 32.
Proof.
  intros Hx. unfold nlz.
  assert (shifted x 0 (0, x)) as H by (repeat split; simpl; lia).
  apply (nlz_step_shifted x 0x0000FFFF 16) in H; [|lia|reflexivity].
  apply (nlz_step_shifted x 0x00FFFFFF 8) in H; [|lia|reflexivity].
  apply (nlz_step_shifted x 0x0FFFFFFF 4) in H; [|lia|reflexivity].
  apply (nlz_step_shifted x 0x3FFFFFFF 2) in H; [|lia|reflexivity].
  destruct (nlz_step _ _ _) as [n y].
  assert (shifted x 31 (if y <=? 0x7FFFFFFF then (n + 1, y * 2 ^ 1) else (n, y))) as H'.
  { destruct (Z.leb_spec y 0x7FFFFFFF); [by apply shift_step; [lia|exact H|lia]|].
    destruct H as (H1 & H2 & H3). repeat split; simpl in *; try done; lia. }
  assert (exists m z, (if y <=? 2147483647 then n + 1 else n) = m /\ shifted x 31 (m, z))
    as (m & z & -> & Hm & Hm0 & Hz).
  { destruct (y <=? 2147483647); eauto. }
  simpl in *. subst z. split; [|lia]. split; [lia|].
  destruct (Z.le_gt_cases m 31) as [?|Hgt]; [done|].
  assert (2 ^ 32 <= 2 ^ m) by (apply Z.pow_le_mono_r; lia). nia.
Qed.

(** ** The unsigned quotient *)

(** A quotient by a truncated divisor is at most one too large. *)
Lemma quotient_estimate n d s :
  0 <= s <= 31 -> 2 ^ (63 - s) <= d < 2 ^ (64 - s) -> d <= n < 2 ^ 64 ->
  let d' := d / 2 ^ (32 - s) * 2 ^ (32 - s) in
  n / d <= n / d' <= n / d + 1.
Proof.
  intros Hs Hd Hn d'.
  set (c := 2 ^ (32 - s)) in *. assert (0 < c) as Hc by (unfold c; lia).
  assert (2 ^ (63 - s) = 2 ^ 31 * c) as E1 by (unfold c; rewrite <-Z.pow_add_r by lia; f_equal; lia).
  assert (2 ^ (64 - s) = 2 ^ 32 * c) as E2 by (unfold c; rewrite <-Z.pow_add_r by lia; f_equal; lia).
  assert (2 ^ (s + 1) * c = 2 ^ 33) as E3 by (unfold c; rewrite <-Z.pow_add_r by lia; f_equal; lia).
  rewrite E1, E2 in Hd.
  pose proof (Z.div_mod d c ltac:(lia)) as Ed. pose proof (Z.mod_pos_bound d c Hc) as Hm.
  assert (d = d' + d mod c) as Ed' by (unfold d'; lia).
  assert (2 ^ 31 * c <= d') as Hd' by (unfold d'; pose proof (Z.div_le_lower_bound d c (2 ^ 31) Hc); nia).
  assert (0 < d') by nia. split; [apply Z.div_le_compat_l; lia|].
  set (k := n / d). set (q := n / d').
  pose proof (Z.div_mod n d ltac:(lia)) as En. pose proof (Z.mod_pos_bound n d ltac:(lia)).
  pose proof (Z.div_mod n d' ltac:(lia)) as En'. pose proof (Z.mod_pos_bound n d' ltac:(lia)).
  fold k in En. fold q in En'.
  destruct (Z.le_gt_cases q (k + 1)) as [?|Hgt]; [done|exfalso].
  assert (1 <= k) by (unfold k; apply Z.div_le_lower_bound; lia).
  assert ((k + 2) * d' <= n) as Hk by nia.
  assert (n <= (k + 1) * d - 1) by nia.
  assert (d' <= (k + 1) * (d mod c) - 1) as Hd1 by nia.
  assert (k + 2 < 2 ^ (s + 1)) as Hk2.
  { apply (Z.mul_lt_mono_pos_r (2 ^ 31 * c)); [lia|].
    replace (2 ^ (s + 1) * (2 ^ 31 * c)) with (2 ^ 31 * (2 ^ (s + 1) * c)) by ring.
    rewrite E3. apply Z.le_lt_trans with n; [|lia]. etransitivity; [|exact Hk].
    apply Z.mul_le_mono_nonneg_l; lia. }
  assert (2 ^ s * c = 2 ^ 32) as E4 by (unfold c; rewrite <-Z.pow_add_r by lia; f_equal; lia).
  assert (2 ^ (s + 1) = 2 * 2 ^ s) as E5 by (rewrite Z.pow_add_r by lia; lia).
  assert ((k + 1) * (d mod c) <= (2 ^ (s + 1) - 2) * (c - 1)) as Hd2
    by (apply Z.mul_le_mono_nonneg; lia).
  rewrite E5 in Hd2.
  replace ((2 * 2 ^ s - 2) * (c - 1)) with (2 * (2 ^ s * c) - 2 * 2 ^ s - 2 * c + 2) in Hd2 by ring.
  rewrite E4 in Hd2.
  assert (2 <= c) by (unfold c; change 2 with (2 ^ 1) at 1; apply Z.pow_le_mono_r; lia).
  destruct (Z.le_gt_cases 4 c); [lia|].
  assert (c = 2 \/ c = 3) as [Ec|Ec] by lia; rewrite Ec in *; lia.
Qed.

Lemma divl_ok n d : 0 < d -> n / d < 2 ^ 32 -> divl n d = Ok (n / d).
Proof.
  intros Hd Hq. unfold divl. destruct (Z.eqb_spec d 0); [lia|].
  by destruct (Z.ltb_spec (n / d) (2 ^ 32)); [|lia].
Qed.

Lemma udiv64_small n d : is_u64 n -> 0 < d < 2 ^ 32 -> udiv64 n d = Ok (n / d).
Proof.
  unfold is_u64. intros Hn Hd. unfold udiv64.
  rewrite !Z.shiftr_div_pow2, (Z.div_small d) by lia. simpl Z.eqb. cbv iota.
  rewrite (u32_small d) by (unfold is_u32; lia).
  set (n1 := n / 2 ^ 32). assert (0 <= n1 < 2 ^ 32) as Hn1
    by (unfold n1; split; [apply Z.div_pos|apply Z.div_lt_upper_bound]; lia).
  rewrite (u32_small n1) by (unfold is_u32; lia).
  assert (u32 n = n - 2 ^ 32 * n1) as ->
    by (unfold u32, n1; pose proof (Z.div_mod n (2 ^ 32)); lia).
  pose proof (Z.div_mod n (2 ^ 32) ltac:(lia)) as En. pose proof (Z.mod_pos_bound n (2 ^ 32) ltac:(lia)).
  fold n1 in En.
  pose proof (Z.div_mod n1 d ltac:(lia)) as E1. pose proof (Z.mod_pos_bound n1 d ltac:(lia)).
  set (r := n1 mod d) in *. set (k := n1 / d) in *.
  assert (0 <= k) by (unfold k; apply Z.div_pos; lia).
  rewrite u64_small by (unfold is_u64; nia).
  destruct (Z.eqb_spec d 0); [lia|].
  assert (n / d = (2 ^ 32 * r + (n - 2 ^ 32 * n1)) / d + 2 ^ 32 * k) as E.
  { rewrite <-Z.div_add by lia. f_equal. rewrite E1 at 1. lia. }
  assert ((2 ^ 32 * r + (n - 2 ^ 32 * n1)) / d < 2 ^ 32) by (apply Z.div_lt_upper_bound; nia).
  rewrite divl_ok by (done || lia). rewrite E. simpl.
  assert (0 <= n / d <= n) by (split; [apply Z.div_pos; lia|apply Z.div_le_upper_bound; nia]).
  unfold mret, outcome_mret. by rewrite u64_small by (unfold is_u64; lia).
Qed.

(** nlz normalizes a 64-bit divisor whose high half is not zero. *)
Lemma normalized_bounds d s :
  0 <= s <= 31 -> 2 ^ 32 <= d -> 2 ^ 31 <= d / 2 ^ 32 * 2 ^ s < 2 ^ 32 ->
  2 ^ (63 - s) <= d < 2 ^ (64 - s).
Proof.
  intros Hs Hd [Hlo Hhi].
  pose proof (Z.div_mod d (2 ^ 32) ltac:(lia)). pose proof (Z.mod_pos_bound d (2 ^ 32) ltac:(lia)).
  assert (2 ^ (31 - s) * 2 ^ s = 2 ^ 31) as E1 by (rewrite <-Z.pow_add_r by lia; f_equal; lia).
  assert (2 ^ (32 - s) * 2 ^ s = 2 ^ 32) as E2 by (rewrite <-Z.pow_add_r by lia; f_equal; lia).
  replace (63 - s) with (31 - s + 32) by lia. replace (64 - s) with (32 - s + 32) by lia.
  rewrite !Z.pow_add_r by lia.
  assert (2 ^ (31 - s) <= d / 2 ^ 32) by (apply (Z.mul_le_mono_pos_r _ _ (2 ^ s)); lia).
  assert (d / 2 ^ 32 < 2 ^ (32 - s)) by (apply (Z.mul_lt_mono_pos_r (2 ^ s)); lia).
  lia.
Qed.

Lemma divisor_top_range d s :
  0 <= s <= 31 -> 2 ^ (63 - s) <= d < 2 ^ (64 - s) -> 2 ^ 31 <= d / 2 ^ (32 - s) < 2 ^ 32.
Proof.
  intros Hs [Hlo Hhi].
  assert (2 ^ (63 - s) = 2 ^ (32 - s) * 2 ^ 31) as E1 by (rewrite <-Z.pow_add_r by lia; f_equal; lia).
  assert (2 ^ (64 - s) = 2 ^ (32 - s) * 2 ^ 32) as E2 by (rewrite <-Z.pow_add_r by lia; f_equal; lia).
  split; [apply Z.div_le_lower_bound|apply Z.div_lt_upper_bound]; lia.
Qed.

Lemma divisor_top d s :
  0 <= s <= 31 -> 2 ^ (63 - s) <= d < 2 ^ (64 - s) ->
  u32 (Z.shiftr (u64 (Z.shiftl d s)) 32) = d / 2 ^ (32 - s).
Proof.
  intros Hs Hd. pose proof (divisor_top_range d s Hs Hd) as Hv.
  rewrite Z.shiftl_mul_pow2 by lia.
  assert (2 ^ (64 - s) * 2 ^ s = 2 ^ 64) as E2 by (rewrite <-Z.pow_add_r by lia; f_equal; lia).
  rewrite u64_small by (unfold is_u64; split; [apply Z.mul_nonneg_nonneg; lia|rewrite <-E2; apply Z.mul_lt_mono_pos_r; lia]).
  rewrite Z.shiftr_div_pow2 by lia.
  replace (2 ^ 32) with (2 ^ (32 - s) * 2 ^ s) by (rewrite <-Z.pow_add_r by lia; f_equal; lia).
  rewrite Z.div_mul_cancel_r by lia. apply u32_small. unfold is_u32. lia.
Qed.

(** The estimate, one too large or not, is corrected. *)
Lemma udiv64_fixup n d q :
  is_u64 n -> 0 < d <= n -> n / d <= q <= n / d + 1 ->
  (mret (if u64 (n - u64 (u64 (q - 1) * d)) <? d then u64 (q - 1) else q) : outcome Z) = Ok (n / d).
Proof.
  unfold is_u64. intros Hn Hd Hq. set (k := n / d) in *.
  pose proof (Z.div_mod n d ltac:(lia)) as En. pose proof (Z.mod_pos_bound n d ltac:(lia)) as Hr.
  fold k in En. assert (1 <= k) by (unfold k; apply Z.div_le_lower_bound; lia).
  assert (k <= n) by nia.
  assert (q = k \/ q = k + 1) as [->| ->] by lia;
    rewrite (u64_small (_ - 1)) by (unfold is_u64; lia);
    rewrite (u64_small (_ * d)) by (unfold is_u64; nia);
    rewrite u64_small by (unfold is_u64; nia).
  - destruct (Z.ltb_spec (n - (k - 1) * d) d); [nia|done].
  - replace (k + 1 - 1) with k by lia. destruct (Z.ltb_spec (n - k * d) d); [done|nia].
Qed.

Lemma udiv64_large n d : is_u64 n -> 2 ^ 32 <= d < 2 ^ 64 -> udiv64 n d = Ok (n / d).
Proof.
  unfold is_u64. intros Hn Hd. unfold udiv64.
  assert (0 < Z.shiftr d 32 < 2 ^ 32) as Hd1
    by (rewrite Z.shiftr_div_pow2 by lia; split;
        [apply Z.div_str_pos; lia|apply Z.div_lt_upper_bound; lia]).
  destruct (Z.eqb_spec (Z.shiftr d 32) 0); [lia|].
  destruct (Z.ltb_spec n d); [by rewrite Z.div_small by lia|].
  rewrite (u32_small (Z.shiftr d 32)) by (unfold is_u32; lia).
  destruct (nlz_spec (Z.shiftr d 32) Hd1) as [Hs Hn1]. set (s := nlz (Z.shiftr d 32)) in *.
  rewrite Z.shiftr_div_pow2 in Hn1 by lia.
  assert (2 ^ (63 - s) <= d < 2 ^ (64 - s)) as Hds by (apply normalized_bounds; lia).
  pose proof (quotient_estimate n d s ltac:(lia) Hds ltac:(lia)) as Hq. simpl in Hq.
  rewrite (divisor_top d s) by lia.
  set (v := d / 2 ^ (32 - s)) in *.
  assert (2 ^ 31 <= v < 2 ^ 32) as Hv by (apply divisor_top_range; lia).
  rewrite Z.shiftr_div_pow2 by lia.
  assert (n / 2 ^ 1 / v < 2 ^ 32) as Hfit.
  { apply Z.div_lt_upper_bound; [lia|]. apply Z.div_lt_upper_bound; [lia|]. nia. }
  rewrite divl_ok by lia. simpl.
  rewrite Z.shiftr_div_pow2 by lia.
  assert (n / 2 ^ 1 / v / 2 ^ (31 - s) = n / (v * 2 ^ (32 - s))) as ->.
  { rewrite !Z.div_div by lia. f_equal.
    replace (32 - s) with (1 + (31 - s)) by lia. rewrite (Z.pow_add_r 2 1 (31 - s)) by lia. ring. }
  apply (udiv64_fixup n d (n / (v * 2 ^ (32 - s)))); [exact Hn|lia|lia].
Qed.

(** ** The theorems *)

(** C36: udiv64 computes the quotient of any two 64-bit numbers, for every nonzero
    divisor: its two uses of DIVL never trap; a zero divisor traps. *)
Theorem udiv64_correct n d (Hn : is_u64 n) (Hd : is_u64 d) :
  udiv64 n d = if d =? 0 then Panic else Ok (n / d).
Proof.
  unfold is_u64 in *. destruct (Z.eqb_spec d 0) as [->|?].
  - unfold udiv64. simpl. done.
  - destruct (Z.lt_ge_cases d (2 ^ 32)); [apply udiv64_small|apply udiv64_large];
      unfold is_u64; lia.
Qed.

Lemma udiv64_correct_witness :
  udiv64 0xFFFFFFFFFFFFFFFF 0x100000001 = Ok 0xFFFFFFFF /\ udiv64 5 0 = Panic.
Proof.
  split.
  - rewrite udiv64_correct by (unfold is_u64; lia). vm_compute. reflexivity.
  - rewrite udiv64_correct by (unfold is_u64; lia). reflexivity.
Defined.

Lemma udiv64_spec n d : is_u64 n -> 0 < d < 2 ^ 64 -> udiv64 n d = Ok (n / d).
Proof.
  intros Hn Hd. destruct (Z.lt_ge_cases d (2 ^ 32)); [apply udiv64_small|apply udiv64_large]; done || lia.
Qed.

Lemma s64_of_mod a b : (a - b) mod 2 ^ 64 = 0 -> s64 a = s64 b.
Proof.
  intros H. unfold s64. f_equal.
  apply Z.mod_divide in H as [k Hk]; [|lia]. replace (a + 2 ^ 63) with (b + 2 ^ 63 + k * 2 ^ 64) by lia.
  by rewrite Z_mod_plus_full.
Qed.

Lemma s64_mod z : exists k, s64 z = z + k * 2 ^ 64.
Proof.
  unfold s64. pose proof (Z.div_mod (z + 2 ^ 63) (2 ^ 64) ltac:(lia)).
  exists (- ((z + 2 ^ 63) / 2 ^ 64)). lia.
Qed.

(** The remainder of the wrapped quotient. *)
Lemma s64_rem n d :
  is_s64 n -> is_s64 d -> d <> 0 -> s64 (n - s64 (d * s64 (Z.quot n d))) = Z.rem n d.
Proof.
  unfold is_s64. intros Hn Hd Hd0.
  destruct (s64_mod (Z.quot n d)) as [k1 E1]. destruct (s64_mod (d * s64 (Z.quot n d))) as [k2 E2].
  pose proof (Z.quot_rem n d Hd0) as Eq. pose proof (Z.rem_bound_abs n d Hd0) as Hr.
  rewrite <-(s64_small (Z.rem n d)) by (unfold is_s64; lia).
  apply s64_of_mod. rewrite E2, E1.
  replace (n - (d * (Z.quot n d + k1 * 2 ^ 64) + k2 * 2 ^ 64) - Z.rem n d)
    with ((- d * k1 - k2) * 2 ^ 64) by lia.
  apply Z_mod_mult.
Qed.

Lemma sdiv64_spec n d : is_s64 n -> is_s64 d -> d <> 0 -> sdiv64 n d = Ok (s64 (Z.quot n d)).
Proof.
  unfold is_s64. intros Hn Hd Hd0. unfold sdiv64.
  assert (forall z, - 2 ^ 63 <= z < 2 ^ 63 ->
    (if z >=? 0 then u64 z else u64 (- u64 z)) = Z.abs z) as Habs.
  { intros z Hz. rewrite Z.geb_leb. destruct (Z.leb_spec 0 z).
    - rewrite u64_small by (unfold is_u64; lia). lia.
    - unfold u64. rewrite <-(Z_mod_plus_full z 1), (Z.mod_small (z + _)) by lia.
      rewrite <-(Z_mod_plus_full _ 1), Z.mod_small by lia. lia. }
  rewrite !Habs by done. rewrite udiv64_spec by (unfold is_u64; lia). simpl.
  assert (0 <= Z.abs n / Z.abs d <= 2 ^ 63) as Hr.
  { split; [apply Z.div_pos; lia|]. apply Z.div_le_upper_bound; nia. }
  rewrite Z.quot_div by done. set (q := Z.abs n / Z.abs d) in *.
  unfold mret, outcome_mret. f_equal.
  destruct (Z.eq_dec n 0) as [->|Hn0]; [by destruct (0 <? 0), (d <? 0)|].
  assert (s64 (- s64 q) = s64 (- q)) as Hopp.
  { destruct (Z.eq_dec q (2 ^ 63)) as [->|]; [done|]. by rewrite (s64_small q) by (unfold is_s64; lia). }
  destruct (Z.ltb_spec n 0), (Z.ltb_spec d 0); simpl;
    rewrite ?(Z.sgn_neg n), ?(Z.sgn_neg d), ?(Z.sgn_pos n), ?(Z.sgn_pos d) by lia;
    rewrite ?Hopp; f_equal; lia.
Qed.

(** sdiv64 truncates toward zero, as C division does; only the quotient of
    the least number by -1 wraps around. umod64 and smod64 return the remainder
    cut to 32 bits, so that they are exact just when it fits. *)
Theorem signed_and_remainders n d (Hd : d <> 0) :
  (is_s64 n -> is_s64 d -> sdiv64 n d = Ok (s64 (Z.quot n d)) /\
     smod64 n d = Ok (s32 (Z.rem n d))) /\
  (is_u64 n -> is_u64 d -> umod64 n d = Ok (u32 (n mod d)) /\
     (umod64 n d = Ok (n mod d) <-> n mod d < 2 ^ 32)).
Proof.
  split.
  - intros Hn Hd'. pose proof (sdiv64_spec n d Hn Hd' Hd) as E. split; [done|].
    unfold smod64. rewrite E. simpl. unfold mret, outcome_mret. f_equal.
    rewrite s64_rem by done. done.
  - intros Hn Hd'. unfold is_u64 in *. unfold umod64. rewrite udiv64_spec by (done || lia). simpl.
    pose proof (Z.div_mod n d ltac:(lia)) as En. pose proof (Z.mod_pos_bound n d ltac:(lia)).
    assert (0 <= d * (n / d) <= n) by (pose proof (Z.div_pos n d ltac:(lia) ltac:(lia)); nia).
    rewrite (u64_small (d * _)), u64_small by (unfold is_u64; lia).
    replace (n - d * (n / d)) with (n mod d) by lia. split; [done|].
    unfold mret, outcome_mret. split; [|intros; by rewrite u32_small by (unfold is_u32; lia)].
    intros E. injection E as E. pose proof (u32_range (n mod d)) as Hr. unfold is_u32 in Hr. lia.
Qed.

Lemma signed_and_remainders_witness :
  sdiv64 (-7) 2 = Ok (-3) /\ smod64 (-7) 2 = Ok (-1) /\
  umod64 0x500000001 0x600000000 = Ok 1 /\ 0x500000001 mod 0x600000000 = 0x500000001.
Proof.
  destruct (signed_and_remainders (-7) 2 ltac:(lia)) as [H _].
  destruct (H ltac:(unfold is_s64; lia) ltac:(unfold is_s64; lia)) as [E1 E2].
  destruct (signed_and_remainders 0x500000001 0x600000000 ltac:(lia)) as [_ H'].
  destruct (H' ltac:(unfold is_u64; lia) ltac:(unfold is_u64; lia)) as [E3 _].
  split; [exact E1|]. split; [exact E2|]. split; [exact E3|reflexivity].
Defined.
