(* ===== verification/FixedPoint.v ===== *)
(** * threads/fixed-point.c: 17.14 fixed-point arithmetic

    Each function on 32-bit [int]s: an overflow is undefined, a division by zero
    traps, and the two 64-bit products are cut to [int] on return. *)

From S2P Require Import Prelude.

(** ** The functions of fixed-point.c *)

Definition F : Z := Z.shiftl 1 14.

(** Division of [int]s: zero divisors and the quotient that does not fit trap. *)
Definition int_div (x y : Z) : outcome Z :=
  if y =? 0 then Panic else let q := Z.quot x y in if q <? 2 ^ 31 then Ok q else Panic.

Definition int_to_fp (n : Z) : outcome Z := int32 (n * F).
Definition fp_to_int (x : Z) : outcome Z := int_div x F.
Definition fp_to_int_round (x : Z) : outcome Z :=
  if x >=? 0 then y ← int32 (x + F / 2); int_div y F
  else y ← int32 (x - F / 2); int_div y F.
Definition add_fp (x y : Z) : outcome Z := int32 (x + y).
Definition sub_fp (x y : Z) : outcome Z := int32 (x - y).
Definition add_fp_int (x n : Z) : outcome Z := y ← int32 (n * F); int32 (x + y).
Definition sub_fp_int (x n : Z) : outcome Z := y ← int32 (n * F); int32 (x - y).
Definition mul_fp (x y : Z) : outcome Z := mret (s32 (Z.quot (x * y) F)).
Definition mul_fp_int (x n : Z) : outcome Z := int32 (x * n).
Definition div_fp (x y : Z) : outcome Z :=
  if y =? 0 then Panic else mret (s32 (Z.quot (x * F) y)).
Definition div_fp_int (x n : Z) : outcome Z := int_div x n.

(** ** Lemmas *)

Lemma F_eq : F = 16384.
Proof. reflexivity. Qed.

(** Truncating quotients by a positive number are monotone. *)
Lemma quot_le a b c : 0 < c -> a <= b -> Z.quot a c <= Z.quot b c.
Proof. intros. apply Z.quot_le_mono; lia. Qed.

Lemma quot_bounds x c : 0 < c ->
  (0 <= x -> c * Z.quot x c <= x < c * Z.quot x c + c) /\
  (x <= 0 -> c * Z.quot x c - c < x <= c * Z.quot x c).
Proof.
  intros Hc. pose proof (Z.quot_rem x c ltac:(lia)) as E.
  pose proof (Z.rem_bound_pos x c) as Hp.
  pose proof (Z.rem_bound_pos (- x) c) as Hn. rewrite Z.rem_opp_l in Hn by lia.
  split; intros Hx; [specialize (Hp Hx Hc)|specialize (Hn ltac:(lia) Hc)]; lia.
Qed.

Lemma int_div_ok x y : is_s32 x -> 0 < y -> int_div x y = Ok (Z.quot x y).
Proof.
  unfold is_s32, int_div. intros Hx Hy. destruct (Z.eqb_spec y 0); [lia|].
  destruct (quot_bounds x y Hy) as [H1 H2].
  assert (Z.quot x y < 2 ^ 31) by (destruct (Z.le_gt_cases 0 x); [specialize (H1 ltac:(lia))|specialize (H2 ltac:(lia))]; nia).
  by rewrite (proj2 (Z.ltb_lt _ _)) by lia.
Qed.

Lemma mul_fp_ok x y :
  is_s32 (Z.quot (x * y) F) -> mul_fp x y = Ok (Z.quot (x * y) F).
Proof. intros H. unfold mul_fp. by rewrite s32_small. Qed.

Lemma div_fp_ok x y :
  y <> 0 -> is_s32 (Z.quot (x * F) y) -> div_fp x y = Ok (Z.quot (x * F) y).
Proof. intros Hy H. unfold div_fp. destruct (Z.eqb_spec y 0); [done|]. by rewrite s32_small. Qed.

(** ** The theorem *)

(** Conversion to fixed point and back is the identity on the integers the
    format represents; fp_to_int truncates toward zero, whatever the sign, and
    fp_to_int_round gives a nearest integer. *)
Theorem conversions (n x : Z)
  (Hn : - 2 ^ 17 < n < 2 ^ 17) (Hx : - 2 ^ 31 + 2 ^ 13 <= x < 2 ^ 31 - 2 ^ 13) :
  (fp ← int_to_fp n; fp_to_int fp) = Ok n /\ (fp ← int_to_fp n; fp_to_int_round fp) = Ok n /\
  fp_to_int x = Ok (Z.quot x F) /\
  exists r, fp_to_int_round x = Ok r /\ 2 * Z.abs (r * F - x) <= F.
Proof.
  unfold int_to_fp, fp_to_int, fp_to_int_round. rewrite F_eq. change (16384 / 2) with 8192.
  rewrite int32_ok by (unfold is_s32; lia). simpl.
  split_and!.
  - rewrite int_div_ok by (unfold is_s32; lia). by rewrite Z.quot_mul.
  - rewrite Z.geb_leb. destruct (Z.leb_spec 0 (n * 16384)); cbv iota; rewrite int32_ok by (unfold is_s32; lia); simpl;
      rewrite int_div_ok by (unfold is_s32; lia); f_equal;
      [destruct (quot_bounds (n * 16384 + 8192) 16384) as [H1 _]; [lia|]; specialize (H1 ltac:(lia))
      |destruct (quot_bounds (n * 16384 - 8192) 16384) as [_ H2]; [lia|]; specialize (H2 ltac:(lia))]; lia.
  - by rewrite int_div_ok by (unfold is_s32; lia).
  - rewrite Z.geb_leb. destruct (Z.leb_spec 0 x); cbv iota; rewrite int32_ok by (unfold is_s32; lia); simpl;
      rewrite int_div_ok by (unfold is_s32; lia); eexists; (split; [reflexivity|]);
      [destruct (quot_bounds (x + 8192) 16384) as [H1 _]; [lia|]; specialize (H1 ltac:(lia))
      |destruct (quot_bounds (x - 8192) 16384) as [_ H2]; [lia|]; specialize (H2 ltac:(lia))]; lia.
Qed.

Lemma conversions_witness :
  (fp ← int_to_fp (-5); fp_to_int fp) = Ok (-5) /\
  fp_to_int (-40960) = Ok (-2) /\ exists r, fp_to_int_round (-40960) = Ok r /\ 2 * Z.abs (r * F - (-40960)) <= F.
Proof.
  destruct (conversions (-5) (-40960) ltac:(lia) ltac:(lia)) as (H1 & _ & H2 & r & H3 & H4).
  split; [exact H1|]. split; [exact H2|]. exists r. split; [exact H3|exact H4].
Defined.
