(* ===== verification/Bitmap.v ===== *)
(** * lib/kernel/bitmap.c: arrays of bits packed in 64-bit words

    The operations on the packed words, with their assertions; [bit b i] is the
    bit a client sees at index [i]. The theorems describe every operation by its
    effect on those bits. *)

From S2P Require Import Prelude Interfaces.

(** ** The data *)

(** [struct bitmap]: the number of bits and the words that hold them. *)
Record bitmap : Type := Bitmap { bit_cnt : Z; bits : list Z }.

Definition ELEM_BITS : Z := 64.
Definition BITMAP_ERROR : Z := SIZE_MAX.

Definition elem_idx (bit_idx : Z) : Z := bit_idx / ELEM_BITS.
Definition bit_mask (bit_idx : Z) : Z := u64 (Z.shiftl 1 (bit_idx mod ELEM_BITS)).
Definition elem_cnt (bit_cnt : Z) : Z := DIV_ROUND_UP bit_cnt ELEM_BITS.
Definition byte_cnt (bit_cnt : Z) : Z := u64 (8 * elem_cnt bit_cnt).
Definition last_mask (b : bitmap) : Z :=
  let last_bits := bit_cnt b mod ELEM_BITS in
  if negb (last_bits =? 0) then u64 (Z.shiftl 1 last_bits - 1) else u64 (-1).

(** [b->bits[i]] *)
Definition get_word (b : bitmap) (i : Z) : outcome Z := from_option_ub (bits b !! Z.to_nat i).
Definition update_word (f : Z -> Z) (b : bitmap) (i : Z) : outcome bitmap :=
  w ← get_word b i; mret (Bitmap (bit_cnt b) (<[Z.to_nat i := f w]> (bits b))).

(** ** The operations of bitmap.c *)

Definition bitmap_size (b : bitmap) : Z := bit_cnt b.

Definition bitmap_mark (b : bitmap) (bit_idx : Z) : outcome bitmap :=
  update_word (fun w => Z.lor w (bit_mask bit_idx)) b (elem_idx bit_idx).

Definition bitmap_reset (b : bitmap) (bit_idx : Z) : outcome bitmap :=
  update_word (fun w => Z.land w (u64 (Z.lnot (bit_mask bit_idx)))) b (elem_idx bit_idx).

Definition bitmap_flip (b : bitmap) (bit_idx : Z) : outcome bitmap :=
  update_word (fun w => Z.lxor w (bit_mask bit_idx)) b (elem_idx bit_idx).

Definition bitmap_set (b : bitmap) (idx : Z) (value : bool) : outcome bitmap :=
  ASSERT (idx <? bit_cnt b);;
  if value then bitmap_mark b idx else bitmap_reset b idx.

Definition bitmap_test (b : bitmap) (idx : Z) : outcome bool :=
  ASSERT (idx <? bit_cnt b);;
  w ← get_word b (elem_idx idx);
  mret (negb (Z.land w (bit_mask idx) =? 0)).

(** The loops over [cnt] bits; [n] is the number of iterations left. *)
Fixpoint set_multiple_loop (n : nat) (b : bitmap) (start i : Z) (value : bool) : outcome bitmap :=
  match n with
  | O => mret b
  | S n => b' ← bitmap_set b (u64 (start + i)) value; set_multiple_loop n b' start (i + 1) value
  end.

Definition bitmap_set_multiple (b : bitmap) (start cnt : Z) (value : bool) : outcome bitmap :=
  ASSERT (start <=? bit_cnt b);;
  ASSERT (u64 (start + cnt) <=? bit_cnt b);;
  set_multiple_loop (Z.to_nat cnt) b start 0 value.

Definition bitmap_set_all (b : bitmap) (value : bool) : outcome bitmap :=
  bitmap_set_multiple b 0 (bitmap_size b) value.

Fixpoint count_loop (n : nat) (b : bitmap) (start i : Z) (value : bool) (value_cnt : Z) : outcome Z :=
  match n with
  | O => mret value_cnt
  | S n =>
      t ← bitmap_test b (u64 (start + i));
      count_loop n b start (i + 1) value
        (if Bool.eqb t value then u64 (value_cnt + 1) else value_cnt)
  end.

Definition bitmap_count (b : bitmap) (start cnt : Z) (value : bool) : outcome Z :=
  ASSERT (start <=? bit_cnt b);;
  ASSERT (u64 (start + cnt) <=? bit_cnt b);;
  count_loop (Z.to_nat cnt) b start 0 value 0.

Fixpoint contains_loop (n : nat) (b : bitmap) (start i : Z) (value : bool) : outcome bool :=
  match n with
  | O => mret false
  | S n =>
      t ← bitmap_test b (u64 (start + i));
      if Bool.eqb t value then mret true else contains_loop n b start (i + 1) value
  end.

Definition bitmap_contains (b : bitmap) (start cnt : Z) (value : bool) : outcome bool :=
  ASSERT (start <=? bit_cnt b);;
  ASSERT (u64 (start + cnt) <=? bit_cnt b);;
  contains_loop (Z.to_nat cnt) b start 0 value.

Definition bitmap_any (b : bitmap) (start cnt : Z) : outcome bool := bitmap_contains b start cnt true.
Definition bitmap_none (b : bitmap) (start cnt : Z) : outcome bool :=
  t ← bitmap_contains b start cnt true; mret (negb t).
Definition bitmap_all (b : bitmap) (start cnt : Z) : outcome bool :=
  t ← bitmap_contains b start cnt false; mret (negb t).

Fixpoint scan_loop (fuel : nat) (b : bitmap) (i last cnt : Z) (value : bool) : outcome Z :=
  match fuel with
  | O => NoFuel
  | S fuel =>
      if i <=? last then
        t ← bitmap_contains b i cnt (negb value);
        if negb t then mret i else scan_loop fuel b (u64 (i + 1)) last cnt value
      else mret BITMAP_ERROR
  end.

(** The loop runs from [start] to [last], and once more to leave. *)
Definition bitmap_scan (b : bitmap) (start cnt : Z) (value : bool) : outcome Z :=
  ASSERT (start <=? bit_cnt b);;
  if cnt <=? bit_cnt b then
    let last := bit_cnt b - cnt in
    scan_loop (S (Z.to_nat (last + 1 - start))) b start last cnt value
  else mret BITMAP_ERROR.

Definition bitmap_scan_and_flip (b : bitmap) (start cnt : Z) (value : bool) : outcome (Z * bitmap) :=
  idx ← bitmap_scan b start cnt value;
  if negb (idx =? BITMAP_ERROR)
  then b' ← bitmap_set_multiple b idx cnt (negb value); mret (idx, b')
  else mret (idx, b).

(** ** Creation *)

(** [sizeof (struct bitmap)] is 16. *)
Definition bitmap_buf_size (bit_cnt : Z) : Z := u64 (16 + byte_cnt bit_cnt).

(** The bits live in the caller's block, behind the structure; [garbage] is what
    that memory holds. *)
Definition bitmap_create_in_buf (bit_cnt block_size : Z) (garbage : list Z) : outcome bitmap :=
  ASSERT (block_size >=? bitmap_buf_size bit_cnt);;
  bitmap_set_all (Bitmap bit_cnt garbage) false.

(** [malloc1] and [malloc2] tell whether the two allocations succeed, and
    [garbage] is the contents of the second one. *)
Definition bitmap_create (bit_cnt : Z) (malloc1 malloc2 : bool) (garbage : list Z) :
  outcome (option bitmap) :=
  if malloc1 then
    if malloc2 || (bit_cnt =? 0)
    then b ← bitmap_set_all (Bitmap bit_cnt garbage) false; mret (Some b)
    else mret None
  else mret None.

(** ** Storage in a file *)

Definition bitmap_file_size (b : bitmap) : Z := byte_cnt (bit_cnt b).

Definition word_bytes (ws : list Z) : list Z := ws ≫= le_split 8.

(** The words whose memory holds the bytes [l]. *)
Fixpoint bytes_words (n : nat) (l : list Z) : list Z :=
  match n with O => [] | S n => le_combine (take 8 l) :: bytes_words n (drop 8 l) end.

(** The words after the bytes [data] have been read over their beginning. *)
Definition overlay (data : list Z) (ws : list Z) : list Z :=
  bytes_words (length ws) (data ++ drop (length data) (word_bytes ws)).

Section FileStorage.
Context {st : Type} `{FileIO st}.

Definition bitmap_read (b : bitmap) : M st (bool * bitmap) :=
  if bit_cnt b >? 0 then
    let size := s32 (byte_cnt (bit_cnt b)) in
    data ← io_read_at size 0;
    let success := Z.of_nat (length data) =? size in
    let b := Bitmap (bit_cnt b) (overlay data (bits b)) in
    b ← lift (update_word (fun w => Z.land w (last_mask b)) b (elem_cnt (bit_cnt b) - 1));
    mret (success, b)
  else mret (true, b).

Definition bitmap_write (b : bitmap) : M st bool :=
  let size := s32 (byte_cnt (bit_cnt b)) in
  n ← io_write_at (word_bytes (bits b)) size 0;
  mret (n =? size).
End FileStorage.

(** ** What a client sees *)

(** The bit at index [i]. *)
Definition bit (b : bitmap) (i : Z) : bool :=
  Z.testbit (nth (Z.to_nat (i / 64)) (bits b) 0) (i mod 64).

(** A well-formed bitmap: its words are there, and no index is BITMAP_ERROR. *)
Definition bitmap_wf (b : bitmap) : Prop :=
  0 <= bit_cnt b < 2 ^ 32 - 1 /\ Z.of_nat (length (bits b)) = elem_cnt (bit_cnt b) /\
  Forall is_u64 (bits b).

Definition all_bits (b : bitmap) (start cnt : Z) (value : bool) : Prop :=
  forall i, start <= i < start + cnt -> bit b i = value.

(** [b'] is [b] with the bits of a range set to [value]. *)
Definition bits_set (b : bitmap) (start cnt : Z) (value : bool) (b' : bitmap) : Prop :=
  bit_cnt b' = bit_cnt b /\ bitmap_wf b' /\
  forall i, 0 <= i -> bit b' i = if (start <=? i) && (i <? start + cnt) then value else bit b i.

(** ** Words *)

Lemma elem_cnt_eq n : 0 <= n < 2 ^ 62 -> elem_cnt n = (n + 63) / 64.
Proof.
  intros Hn. unfold elem_cnt, DIV_ROUND_UP, ELEM_BITS.
  rewrite u64_small by (unfold is_u64; lia). f_equal. lia.
Qed.

Lemma word_in_range b i :
  bitmap_wf b -> 0 <= i < bit_cnt b -> (Z.to_nat (i / 64) < length (bits b))%nat.
Proof.
  intros (Hc & Hl & _) Hi. rewrite elem_cnt_eq in Hl by lia.
  assert (i / 64 < (bit_cnt b + 63) / 64).
  { pose proof (Z.div_mod i 64 ltac:(lia)). pose proof (Z.mod_pos_bound i 64 ltac:(lia)).
    apply Z.lt_le_trans with (i / 64 + 1); [lia|]. apply Z.div_le_lower_bound; lia. }
  assert (0 <= i / 64) by (apply Z.div_pos; lia). lia.
Qed.

Lemma get_word_ok b i :
  bitmap_wf b -> 0 <= i < bit_cnt b ->
  exists w, get_word b (elem_idx i) = Ok w /\ bits b !! Z.to_nat (i / 64) = Some w /\
    nth (Z.to_nat (i / 64)) (bits b) 0 = w /\ is_u64 w.
Proof.
  intros Hwf Hi. pose proof (word_in_range b i Hwf Hi) as Hr.
  destruct (lookup_lt_is_Some_2 _ _ Hr) as [w Hw]. exists w.
  unfold get_word, elem_idx, ELEM_BITS. rewrite Hw. split_and!; [done|done|by apply nth_lookup_Some|].
  destruct Hwf as (_ & _ & Hf). by eapply Forall_lookup_1.
Qed.

Lemma bit_mask_eq i : 0 <= i -> bit_mask i = 2 ^ (i mod 64).
Proof.
  intros Hi. unfold bit_mask, ELEM_BITS. pose proof (Z.mod_pos_bound i 64 ltac:(lia)).
  rewrite Z.shiftl_1_l. apply u64_small. split; [lia|]. apply Z.pow_lt_mono_r; lia.
Qed.

Lemma bit_mask_testbit i j : 0 <= i -> 0 <= j -> Z.testbit (bit_mask i) j = (j =? i mod 64).
Proof.
  intros Hi Hj. rewrite bit_mask_eq by done. pose proof (Z.mod_pos_bound i 64 ltac:(lia)).
  destruct (Z.eqb_spec j (i mod 64)) as [->|Hne].
  - rewrite Z.pow2_bits_true by lia. done.
  - rewrite Z.pow2_bits_false by lia. done.
Qed.

(** Two 64-bit numbers with the same bits. *)
Lemma u64_of_bits w : 0 <= w -> (forall j, 64 <= j -> Z.testbit w j = false) -> is_u64 w.
Proof.
  intros Hw Hb. split; [done|]. destruct (Z.eq_dec w 0) as [->|Hw0]; [lia|].
  destruct (Z.lt_ge_cases w (2 ^ 64)) as [?|Hge]; [done|exfalso].
  assert (64 <= Z.log2 w) by (apply Z.log2_le_pow2; lia).
  specialize (Hb (Z.log2 w) ltac:(done)). rewrite Z.bit_log2 in Hb by lia. done.
Qed.

Lemma u64_high_bits w j : is_u64 w -> 64 <= j -> Z.testbit w j = false.
Proof.
  intros [H0 H1] Hj. destruct (Z.eq_dec w 0) as [->|?]; [apply Z.bits_0|].
  apply Z.bits_above_log2; [done|]. apply Z.lt_le_trans with 64; [|done].
  apply Z.log2_lt_pow2; lia.
Qed.

(** ** Single bits *)

Lemma update_word_ok f (v : bool -> bool) b i :
  bitmap_wf b -> 0 <= i < bit_cnt b ->
  (forall w, is_u64 w -> is_u64 (f w) /\
     forall k, 0 <= k < 64 -> Z.testbit (f w) k = if k =? i mod 64 then v (Z.testbit w k) else Z.testbit w k) ->
  exists b', update_word f b (elem_idx i) = Ok b' /\ bit_cnt b' = bit_cnt b /\ bitmap_wf b' /\
    forall j, 0 <= j -> bit b' j = if j =? i then v (bit b i) else bit b j.
Proof.
  intros Hwf Hi Hf. destruct (get_word_ok b i Hwf Hi) as (w & Hg & Hw & Hn & Hu).
  destruct (Hf w Hu) as [Hfu Hfb]. unfold update_word. rewrite Hg. simpl.
  eexists; split; [reflexivity|]. simpl. split; [done|].
  destruct Hwf as (Hc & Hl & Hall). split.
  { split_and!; simpl; [lia|lia|by rewrite length_insert|]. by apply Forall_insert. }
  intros j Hj. unfold bit at 1. simpl. unfold elem_idx, ELEM_BITS.
  pose proof (Z.mod_pos_bound j 64 ltac:(lia)).
  assert (Z.to_nat (i / 64) < length (bits b))%nat as Hlt by by eapply lookup_lt_Some.
  destruct (Z.eqb_spec j i) as [->|Hne].
  - rewrite (nth_lookup_Some _ _ _ (f w)) by (by apply list_lookup_insert_eq).
    rewrite Hfb, Z.eqb_refl by lia. unfold bit. by rewrite Hn.
  - destruct (decide (j / 64 = i / 64)) as [E|E].
    + rewrite E, (nth_lookup_Some _ _ _ (f w)) by (by apply list_lookup_insert_eq).
      rewrite Hfb by lia. destruct (Z.eqb_spec (j mod 64) (i mod 64)) as [E'|_].
      { exfalso. apply Hne. rewrite (Z.div_mod j 64), (Z.div_mod i 64), E, E' by lia. done. }
      unfold bit. by rewrite E, Hn.
    + unfold bit. f_equal. rewrite !nth_lookup. f_equal. apply list_lookup_insert_ne.
      pose proof (Z.div_pos j 64). pose proof (Z.div_pos i 64). lia.
Qed.

Lemma bitmap_mark_ok b i :
  bitmap_wf b -> 0 <= i < bit_cnt b ->
  exists b', bitmap_mark b i = Ok b' /\ bit_cnt b' = bit_cnt b /\ bitmap_wf b' /\
    forall j, 0 <= j -> bit b' j = if j =? i then true else bit b j.
Proof.
  intros Hwf Hi. apply (update_word_ok _ (fun _ => true)); [done|done|]. intros w Hw. split.
  - apply u64_of_bits; [apply Z.lor_nonneg; split; [by destruct Hw|]; rewrite bit_mask_eq by lia; lia|].
    intros j Hj. rewrite Z.lor_spec, bit_mask_testbit, (u64_high_bits w) by (done || lia).
    pose proof (Z.mod_pos_bound i 64 ltac:(lia)). simpl. apply Z.eqb_neq. lia.
  - intros k Hk. rewrite Z.lor_spec, bit_mask_testbit by lia.
    destruct (k =? i mod 64); [apply orb_true_r|apply orb_false_r].
Qed.

Lemma lnot_mask_testbit i k : 0 <= i -> 0 <= k < 64 ->
  Z.testbit (u64 (Z.lnot (bit_mask i))) k = negb (k =? i mod 64).
Proof.
  intros Hi Hk. unfold u64. rewrite Z.mod_pow2_bits_low, Z.lnot_spec, bit_mask_testbit by lia. done.
Qed.

Lemma bitmap_reset_ok b i :
  bitmap_wf b -> 0 <= i < bit_cnt b ->
  exists b', bitmap_reset b i = Ok b' /\ bit_cnt b' = bit_cnt b /\ bitmap_wf b' /\
    forall j, 0 <= j -> bit b' j = if j =? i then false else bit b j.
Proof.
  intros Hwf Hi. apply (update_word_ok _ (fun _ => false)); [done|done|]. intros w Hw. split.
  - apply u64_of_bits; [apply Z.land_nonneg; left; by destruct Hw|].
    intros j Hj. by rewrite Z.land_spec, (u64_high_bits w).
  - intros k Hk. rewrite Z.land_spec, lnot_mask_testbit by lia.
    destruct (k =? i mod 64); simpl; [apply andb_false_r|apply andb_true_r].
Qed.

Lemma bitmap_flip_ok b i :
  bitmap_wf b -> 0 <= i < bit_cnt b ->
  exists b', bitmap_flip b i = Ok b' /\ bit_cnt b' = bit_cnt b /\ bitmap_wf b' /\
    forall j, 0 <= j -> bit b' j = if j =? i then negb (bit b i) else bit b j.
Proof.
  intros Hwf Hi. apply (update_word_ok _ negb); [done|done|]. intros w Hw. split.
  - apply u64_of_bits; [apply Z.lxor_nonneg; rewrite bit_mask_eq by lia; destruct Hw; lia|].
    intros j Hj. rewrite Z.lxor_spec, bit_mask_testbit, (u64_high_bits w) by (done || lia).
    pose proof (Z.mod_pos_bound i 64 ltac:(lia)). simpl. apply Z.eqb_neq. lia.
  - intros k Hk. rewrite Z.lxor_spec, bit_mask_testbit by lia.
    destruct (k =? i mod 64), (Z.testbit w k); done.
Qed.

Lemma bitmap_set_ok b i v :
  bitmap_wf b -> 0 <= i < bit_cnt b ->
  exists b', bitmap_set b i v = Ok b' /\ bit_cnt b' = bit_cnt b /\ bitmap_wf b' /\
    forall j, 0 <= j -> bit b' j = if j =? i then v else bit b j.
Proof.
  intros Hwf Hi. unfold bitmap_set. rewrite (proj2 (Z.ltb_lt _ _)) by lia. simpl.
  destruct v; [by apply bitmap_mark_ok|by apply bitmap_reset_ok].
Qed.

Lemma bitmap_test_ok b i : bitmap_wf b -> 0 <= i < bit_cnt b -> bitmap_test b i = Ok (bit b i).
Proof.
  intros Hwf Hi. unfold bitmap_test. rewrite (proj2 (Z.ltb_lt _ _)) by lia. simpl.
  destruct (get_word_ok b i Hwf Hi) as (w & -> & _ & Hn & Hu). simpl. unfold bit. rewrite Hn.
  unfold mret, outcome_mret. f_equal. rewrite bit_mask_eq by lia.
  pose proof (Z.mod_pos_bound i 64 ltac:(lia)).
  destruct (Z.testbit w (i mod 64)) eqn:E.
  - apply negb_true_iff, Z.eqb_neq. intros E0. apply (f_equal (fun z => Z.testbit z (i mod 64))) in E0.
    by rewrite Z.land_spec, E, Z.pow2_bits_true, Z.bits_0 in E0 by lia.
  - apply negb_false_iff, Z.eqb_eq. apply Z.bits_inj'. intros k Hk.
    rewrite Z.land_spec, Z.bits_0. destruct (Z.eq_dec k (i mod 64)) as [->|]; [by rewrite E|].
    rewrite Z.pow2_bits_false by lia. apply andb_false_r.
Qed.

(** ** Ranges of bits *)

Lemma set_multiple_ok n b start i value :
  bitmap_wf b -> 0 <= start -> 0 <= i -> start + i + Z.of_nat n <= bit_cnt b ->
  exists b', set_multiple_loop n b start i value = Ok b' /\ bits_set b (start + i) (Z.of_nat n) value b'.
Proof.
  revert b i. induction n as [|n IH]; intros b i Hwf Hs Hi Hb.
  - exists b. split; [done|]. split; [done|]. split; [done|]. intros j Hj.
    by destruct (Z.leb_spec (start + i) j), (Z.ltb_spec j (start + i + Z.of_nat 0)); try lia.
  - cbn [set_multiple_loop]. pose proof Hwf as (Hc & _).
    rewrite u64_small by (unfold is_u64; lia).
    destruct (bitmap_set_ok b (start + i) value) as (b1 & -> & E1 & Hwf1 & Hb1); [done|lia|]. simpl.
    destruct (IH b1 (i + 1)) as (b2 & -> & E2 & Hwf2 & Hb2); [done|lia|lia|lia|].
    exists b2. split; [done|]. split; [congruence|]. split; [done|]. intros j Hj.
    rewrite Hb2, Hb1 by done.
    destruct (Z.eqb_spec j (start + i)), (Z.leb_spec (start + i) j), (Z.leb_spec (start + (i + 1)) j),
      (Z.ltb_spec j (start + (i + 1) + Z.of_nat n)), (Z.ltb_spec j (start + i + Z.of_nat (S n)));
      simpl; try done; lia.
Qed.

Lemma range_asserts b start cnt {A} (m : outcome A) :
  bitmap_wf b -> 0 <= start -> 0 <= cnt -> start + cnt <= bit_cnt b ->
  (ASSERT (start <=? bit_cnt b);; ASSERT (u64 (start + cnt) <=? bit_cnt b);; m) = m.
Proof.
  intros (Hc & _) Hs Hn Hb. rewrite u64_small by (unfold is_u64; lia).
  rewrite !(proj2 (Z.leb_le _ _)) by lia. done.
Qed.

Lemma bitmap_set_multiple_ok b start cnt value :
  bitmap_wf b -> 0 <= start -> 0 <= cnt -> start + cnt <= bit_cnt b ->
  exists b', bitmap_set_multiple b start cnt value = Ok b' /\ bits_set b start cnt value b'.
Proof.
  intros Hwf Hs Hn Hb. unfold bitmap_set_multiple. rewrite range_asserts by done.
  destruct (set_multiple_ok (Z.to_nat cnt) b start 0 value) as (b' & E & H); [done|lia|lia|lia|].
  exists b'. split; [done|]. by rewrite Z2Nat.id, Z.add_0_r in H by lia.
Qed.

(** The number of bits equal to [value] among [cnt] bits from [start] on. *)
Fixpoint count_bits (b : bitmap) (start : Z) (n : nat) (value : bool) : Z :=
  match n with
  | O => 0
  | S n => (if Bool.eqb (bit b start) value then 1 else 0) + count_bits b (start + 1) n value
  end.

Lemma count_bits_bounds b start n value : 0 <= count_bits b start n value <= Z.of_nat n.
Proof.
  revert start. induction n as [|n IH]; intros start; simpl count_bits; [lia|].
  specialize (IH (start + 1)). destruct (Bool.eqb _ _); lia.
Qed.

Lemma count_loop_ok n b start i value c :
  bitmap_wf b -> 0 <= start -> 0 <= i -> start + i + Z.of_nat n <= bit_cnt b ->
  0 <= c -> c + Z.of_nat n < 2 ^ 64 ->
  count_loop n b start i value c = Ok (c + count_bits b (start + i) n value).
Proof.
  revert i c. induction n as [|n IH]; intros i c Hwf Hs Hi Hb Hc Hn; cbn [count_loop count_bits].
  - by rewrite Z.add_0_r.
  - pose proof Hwf as (Hcnt & _). rewrite (u64_small (start + i)) by (unfold is_u64; lia).
    rewrite bitmap_test_ok by (done || lia). simpl mbind.
    destruct (Bool.eqb (bit b (start + i)) value).
    + rewrite u64_small by (unfold is_u64; lia). rewrite IH by (done || lia). f_equal.
      rewrite <-(Z.add_assoc start). lia.
    + rewrite IH by (done || lia). f_equal. rewrite <-(Z.add_assoc start). lia.
Qed.

Lemma bitmap_count_ok b start cnt value :
  bitmap_wf b -> 0 <= start -> 0 <= cnt -> start + cnt <= bit_cnt b ->
  bitmap_count b start cnt value = Ok (count_bits b start (Z.to_nat cnt) value).
Proof.
  intros Hwf Hs Hn Hb. unfold bitmap_count. rewrite range_asserts by done. pose proof Hwf as (Hc & _).
  rewrite (count_loop_ok _ b start 0) by (done || lia). by rewrite Z.add_0_r.
Qed.

Lemma contains_loop_ok n b start i value :
  bitmap_wf b -> 0 <= start -> 0 <= i -> start + i + Z.of_nat n <= bit_cnt b ->
  exists t, contains_loop n b start i value = Ok t /\
    (t = false <-> all_bits b (start + i) (Z.of_nat n) (negb value)).
Proof.
  revert i. induction n as [|n IH]; intros i Hwf Hs Hi Hb; cbn [contains_loop].
  - exists false. split; [done|]. split; [|done]. intros _ j Hj. lia.
  - pose proof Hwf as (Hcnt & _). rewrite u64_small by (unfold is_u64; lia).
    rewrite bitmap_test_ok by (done || lia). simpl mbind.
    destruct (Bool.eqb (bit b (start + i)) value) eqn:E.
    + exists true. split; [done|]. split; [done|]. intros H. specialize (H (start + i) ltac:(lia)).
      apply eqb_prop in E. rewrite E in H. by destruct value.
    + destruct (IH (i + 1)) as (t & -> & Ht); [done|lia|lia|lia|]. exists t. split; [done|].
      rewrite Ht. apply eqb_false_iff in E. split; intros H j Hj.
      * destruct (Z.eq_dec j (start + i)) as [->|]; [by destruct (bit b (start + i)), value|].
        apply H. lia.
      * apply H. lia.
Qed.

Lemma bitmap_contains_ok b start cnt value :
  bitmap_wf b -> 0 <= start -> 0 <= cnt -> start + cnt <= bit_cnt b ->
  exists t, bitmap_contains b start cnt value = Ok t /\
    (t = false <-> all_bits b start cnt (negb value)).
Proof.
  intros Hwf Hs Hn Hb. unfold bitmap_contains. rewrite range_asserts by done.
  destruct (contains_loop_ok (Z.to_nat cnt) b start 0 value) as (t & -> & Ht); [done|lia|lia|lia|].
  exists t. split; [done|]. by rewrite Z2Nat.id, Z.add_0_r in Ht by lia.
Qed.

Lemma scan_loop_ok fuel b i last cnt value :
  bitmap_wf b -> 0 <= i -> 0 <= cnt -> last + cnt = bit_cnt b -> (Z.to_nat (last + 1 - i) < fuel)%nat ->
  exists idx, scan_loop fuel b i last cnt value = Ok idx /\
    ((idx = BITMAP_ERROR /\ forall j, i <= j <= last -> ~ all_bits b j cnt value) \/
     (i <= idx <= last /\ all_bits b idx cnt value /\
      forall j, i <= j < idx -> ~ all_bits b j cnt value)).
Proof.
  revert i. induction fuel as [|fuel IH]; intros i Hwf Hi Hn Hl Hf; [lia|]. cbn [scan_loop].
  pose proof Hwf as (Hcnt & _). destruct (Z.leb_spec i last).
  2:{ exists BITMAP_ERROR. split; [done|]. left. split; [done|]. intros j Hj. lia. }
  destruct (bitmap_contains_ok b i cnt (negb value)) as (t & -> & Ht); [done|lia|lia|lia|].
  rewrite negb_involutive in Ht. simpl mbind. destruct t; simpl negb; cbv iota.
  - assert (~ all_bits b i cnt value) as Hno by (rewrite <-Ht; done).
    rewrite u64_small by (unfold is_u64; lia).
    destruct (IH (i + 1)) as (idx & -> & [[-> H']|(Hr & Ha & H')]); [done|lia|lia|lia|lia| |];
      eexists; (split; [reflexivity|]); [left|right].
    + split; [done|]. intros j Hj. destruct (Z.eq_dec j i) as [->|]; [done|]. apply H'. lia.
    + split; [lia|]. split; [done|]. intros j Hj. destruct (Z.eq_dec j i) as [->|]; [done|]. apply H'. lia.
  - exists i. split; [done|]. right. split; [lia|]. split; [by apply Ht|]. intros j Hj. lia.
Qed.

Lemma bitmap_scan_ok b start cnt value :
  bitmap_wf b -> 0 <= start <= bit_cnt b -> 0 <= cnt ->
  exists idx, bitmap_scan b start cnt value = Ok idx /\
    ((idx = BITMAP_ERROR /\ forall j, start <= j -> j + cnt <= bit_cnt b -> ~ all_bits b j cnt value) \/
     (start <= idx /\ idx + cnt <= bit_cnt b /\ all_bits b idx cnt value /\
      forall j, start <= j < idx -> ~ all_bits b j cnt value)).
Proof.
  intros Hwf Hs Hn. unfold bitmap_scan. rewrite (proj2 (Z.leb_le start (bit_cnt b))) by lia. simpl.
  destruct (Z.leb_spec cnt (bit_cnt b)).
  - destruct (scan_loop_ok (S (Z.to_nat (bit_cnt b - cnt + 1 - start))) b start (bit_cnt b - cnt) cnt value)
      as (idx & E & [[-> H']|(Hr & Ha & H')]); [done|lia|lia|lia|lia| |];
      eexists; (split; [exact E|]); [left|right].
    + split; [done|]. intros j Hj Hj'. apply H'. lia.
    + split_and!; try done; lia.
  - exists BITMAP_ERROR. split; [done|]. left. split; [done|]. intros j Hj Hj'. lia.
Qed.

(** ** Storage *)

Lemma length_word_bytes ws : length (word_bytes ws) = (8 * length ws)%nat.
Proof.
  induction ws as [|w ws IH]; [done|]. unfold word_bytes in *. cbn [mbind list_bind].
  rewrite length_app, length_le_split, IH. simpl. lia.
Qed.

Lemma bytes_words_bytes ws : Forall is_u64 ws -> bytes_words (length ws) (word_bytes ws) = ws.
Proof.
  induction 1 as [|w ws Hw _ IH]; [done|]. unfold word_bytes in *. cbn [mbind list_bind length bytes_words].
  rewrite take_app_length', drop_app_length' by (by rewrite length_le_split).
  rewrite le_combine_split by (unfold is_u64 in Hw; simpl; lia). by rewrite IH.
Qed.

(** Reading the bytes of other words over as many words gives those words. *)
Lemma overlay_full ws ws' :
  length ws = length ws' -> Forall is_u64 ws -> overlay (word_bytes ws) ws' = ws.
Proof.
  intros Hl Hf. unfold overlay. rewrite drop_ge by (rewrite !length_word_bytes; lia).
  rewrite (right_id_L [] (++)), <-Hl. by apply bytes_words_bytes.
Qed.

Lemma last_mask_testbit b k :
  0 <= k < 64 -> Z.testbit (last_mask b) k = (bit_cnt b mod 64 =? 0) || (k <? bit_cnt b mod 64).
Proof.
  intros Hk. unfold last_mask, ELEM_BITS. pose proof (Z.mod_pos_bound (bit_cnt b) 64 ltac:(lia)).
  destruct (Z.eqb_spec (bit_cnt b mod 64) 0) as [E|E]; simpl.
  - unfold u64. rewrite Z.mod_pow2_bits_low by lia. by rewrite Z.bits_m1 by lia.
  - unfold u64. rewrite Z.mod_pow2_bits_low, Z.shiftl_1_l by lia.
    replace (2 ^ _ - 1) with (Z.ones (bit_cnt b mod 64)) by (rewrite Z.ones_equiv; lia).
    destruct (Z.ltb_spec k (bit_cnt b mod 64)); [by rewrite Z.ones_spec_low by lia|by rewrite Z.ones_spec_high by lia].
Qed.

(** Masking the last word keeps the bits of the bitmap. *)
Lemma mask_last_ok b :
  bitmap_wf b -> 0 < bit_cnt b ->
  exists b', update_word (fun w => Z.land w (last_mask b)) b (elem_cnt (bit_cnt b) - 1) = Ok b' /\
    bit_cnt b' = bit_cnt b /\ bitmap_wf b' /\ forall i, 0 <= i < bit_cnt b -> bit b' i = bit b i.
Proof.
  intros Hwf Hpos. pose proof Hwf as (Hc & Hl & Hf). pose proof Hl as Hl'.
  rewrite elem_cnt_eq in Hl' by lia.
  assert (1 <= (bit_cnt b + 63) / 64) by (apply Z.div_le_lower_bound; lia).
  rewrite elem_cnt_eq by lia. set (k := (bit_cnt b + 63) / 64 - 1) in *.
  assert (Z.to_nat k < length (bits b))%nat as Hk by lia.
  destruct (lookup_lt_is_Some_2 _ _ Hk) as [w Hw].
  assert (is_u64 w) as Hu by (by eapply Forall_lookup_1).
  unfold update_word, get_word. rewrite Hw. simpl. eexists. split; [reflexivity|]. simpl.
  split; [done|]. split.
  { split_and!; simpl; [lia|lia|by rewrite length_insert|]. apply Forall_insert; [done|].
    apply u64_of_bits; [apply Z.land_nonneg; left; by destruct Hu|].
    intros j Hj. by rewrite Z.land_spec, (u64_high_bits w). }
  intros i Hi. unfold bit. simpl. pose proof (Z.mod_pos_bound i 64 ltac:(lia)).
  destruct (decide (i / 64 = k)) as [E|E].
  - rewrite E, (nth_lookup_Some _ _ _ (Z.land w (last_mask b))) by (by apply list_lookup_insert_eq).
    rewrite (nth_lookup_Some _ _ _ w) by done. rewrite Z.land_spec, last_mask_testbit by lia.
    replace (_ || _) with true; [apply andb_true_r|]. symmetry. apply orb_true_iff.
    destruct (Z.eq_dec (bit_cnt b mod 64) 0) as [->|Hne]; [by left|right].
    apply Z.ltb_lt. pose proof (Z.div_mod (bit_cnt b) 64 ltac:(lia)). pose proof (Z.div_mod i 64 ltac:(lia)).
    pose proof (Z.mod_pos_bound (bit_cnt b) 64 ltac:(lia)).
    assert (bit_cnt b / 64 + 1 <= (bit_cnt b + 63) / 64) by (apply Z.div_le_lower_bound; lia). lia.
  - f_equal. rewrite !nth_lookup. f_equal. apply list_lookup_insert_ne.
    assert (0 <= i / 64) by (apply Z.div_pos; lia). lia.
Qed.

(** The bytes of a bitmap, which fit an off_t. *)
Lemma byte_cnt_eq b :
  bitmap_wf b -> byte_cnt (bit_cnt b) = Z.of_nat (length (word_bytes (bits b))) /\
    Z.of_nat (length (word_bytes (bits b))) < 2 ^ 31.
Proof.
  intros (Hc & Hl & _). rewrite length_word_bytes.
  assert (0 <= elem_cnt (bit_cnt b) <= 2 ^ 26) as He.
  { rewrite elem_cnt_eq by lia. split; [apply Z.div_pos; lia|apply Z.lt_succ_r, Z.div_lt_upper_bound; lia]. }
  unfold byte_cnt. rewrite u64_small by (unfold is_u64; lia). lia.
Qed.

(** The flip of a group that the scan found. *)
Lemma bitmap_scan_and_flip_ok b start cnt value :
  bitmap_wf b -> 0 <= start <= bit_cnt b -> 0 <= cnt ->
  exists idx b', bitmap_scan_and_flip b start cnt value = Ok (idx, b') /\
    ((idx = BITMAP_ERROR /\ b' = b /\
      forall j, start <= j -> j + cnt <= bit_cnt b -> ~ all_bits b j cnt value) \/
     (start <= idx /\ idx + cnt <= bit_cnt b /\ all_bits b idx cnt value /\
      (forall j, start <= j < idx -> ~ all_bits b j cnt value) /\
      bits_set b idx cnt (negb value) b')).
Proof.
  intros Hwf Hs Hn. unfold bitmap_scan_and_flip. pose proof Hwf as (Hc & _).
  destruct (bitmap_scan_ok b start cnt value Hwf Hs Hn) as (idx & -> & [[-> H]|(H1 & H2 & H3 & H4)]).
  - exists BITMAP_ERROR, b. split; [done|]. by left.
  - simpl. destruct (Z.eqb_spec idx BITMAP_ERROR) as [->|_]; [unfold BITMAP_ERROR, SIZE_MAX in H2; lia|]. simpl.
    destruct (bitmap_set_multiple_ok b idx cnt (negb value)) as (b' & -> & Hb'); [done|lia|lia|lia|].
    exists idx, b'. split; [done|]. right. auto 10.
Qed.

(** Whether a whole range is set. *)
Lemma bitmap_all_ok b start cnt :
  bitmap_wf b -> 0 <= start -> 0 <= cnt -> start + cnt <= bit_cnt b ->
  exists t, bitmap_all b start cnt = Ok t /\ (t = true <-> all_bits b start cnt true).
Proof.
  intros Hwf Hs Hn Hend. unfold bitmap_all.
  destruct (bitmap_contains_ok b start cnt false Hwf Hs Hn Hend) as (t & -> & Ht). simpl.
  exists (negb t). split; [done|]. rewrite negb_true_iff. exact Ht.
Qed.

(** ** The theorems *)

(** Bitmap_scan_and_flip finds the first group of [cnt] consecutive bits equal
    to [value] at or after [start], inverts exactly these and returns its index;
    without such a group it returns BITMAP_ERROR and changes nothing. *)
Theorem scan_and_flip_first b start cnt value
  (Hwf : bitmap_wf b) (Hs : 0 <= start <= bit_cnt b) (Hn : 0 <= cnt) :
  exists idx b', bitmap_scan_and_flip b start cnt value = Ok (idx, b') /\
    ((idx = BITMAP_ERROR /\ b' = b /\
      forall j, start <= j -> j + cnt <= bit_cnt b -> ~ all_bits b j cnt value) \/
     (start <= idx /\ idx + cnt <= bit_cnt b /\ all_bits b idx cnt value /\
      (forall j, start <= j < idx -> ~ all_bits b j cnt value) /\
      bits_set b idx cnt (negb value) b')).
Proof. by apply bitmap_scan_and_flip_ok. Qed.

Definition example_bitmap : bitmap := Bitmap 70 [0xFFFFFFFFFFFFFF0F; 0x3].

Lemma example_bitmap_wf : bitmap_wf example_bitmap.
Proof.
  unfold bitmap_wf. simpl. split_and!; [lia|lia|reflexivity|]. repeat constructor; lia.
Qed.

Lemma scan_and_flip_first_witness :
  exists b', bitmap_scan_and_flip example_bitmap 3 3 false = Ok (4, b') /\
    bits_set example_bitmap 4 3 true b'.
Proof.
  destruct (scan_and_flip_first example_bitmap 3 3 false example_bitmap_wf) as (idx & b' & E & H);
    [simpl; lia|lia|].
  assert (idx = 4) as -> by (vm_compute in E; congruence).
  exists b'. split; [exact E|]. destruct H as [[H _]|(_ & _ & _ & _ & H)]; [discriminate H|exact H].
Defined.

(** The single-bit and range operations act on the addressed bits and on no
    others, and the queries report those bits: bitmap_test, bitmap_count and
    bitmap_all agree with the bits, and the asserts reject what is outside. *)
Theorem bitmap_operations b (Hwf : bitmap_wf b) :
  (forall i v, 0 <= i < bit_cnt b -> exists b', bitmap_set b i v = Ok b' /\ bits_set b i 1 v b' /\
     bitmap_test b' i = Ok v) /\
  (forall i, bit_cnt b <= i < 2 ^ 64 -> bitmap_test b i = Panic /\ forall v, bitmap_set b i v = Panic) /\
  (forall start cnt v, 0 <= start -> 0 <= cnt -> start + cnt <= bit_cnt b ->
     (exists b', bitmap_set_multiple b start cnt v = Ok b' /\ bits_set b start cnt v b') /\
     bitmap_count b start cnt v = Ok (count_bits b start (Z.to_nat cnt) v) /\
     exists t, bitmap_all b start cnt = Ok t /\ (t = true <-> all_bits b start cnt true)).
Proof.
  split_and!.
  - intros i v Hi. destruct (bitmap_set_ok b i v Hwf Hi) as (b' & E & Ec & Hwf' & Hb). exists b'.
    split_and!; [done|split_and!; try done|].
    + intros j Hj. rewrite Hb by done.
      destruct (Z.eqb_spec j i), (Z.leb_spec i j), (Z.ltb_spec j (i + 1)); simpl; done || lia.
    + rewrite bitmap_test_ok, Hb, Z.eqb_refl by (done || lia). done.
  - intros i Hi. unfold bitmap_test, bitmap_set. rewrite (proj2 (Z.ltb_ge _ _)) by lia. done.
  - intros start cnt v Hs Hn Hb. split; [by apply bitmap_set_multiple_ok|].
    split; [by apply bitmap_count_ok|]. unfold bitmap_all.
    destruct (bitmap_contains_ok b start cnt false) as (t & -> & Ht); [done..|]. simpl.
    exists (negb t). split; [done|]. rewrite <-Ht. by destruct t.
Qed.

Lemma bitmap_operations_witness :
  exists b', bitmap_set example_bitmap 69 true = Ok b' /\ bitmap_test b' 69 = Ok true /\
    bitmap_test example_bitmap 70 = Panic.
Proof.
  destruct (bitmap_operations example_bitmap example_bitmap_wf) as (H1 & H2 & _).
  destruct (H1 69 true ltac:(simpl; lia)) as (b' & E & _ & T). exists b'.
  split; [exact E|]. split; [exact T|]. exact (proj1 (H2 70 ltac:(simpl; lia))).
Defined.

(** C37: a bitmap written to a file and read back into a bitmap of the same size,
    as the free map of the file system is, has the same bits; stray bits of the
    last word are cleared. *)
Theorem bitmap_file_roundtrip {st} `{FileIOLaws st ready} b b0 (s s' : st)
  (Hwf : bitmap_wf b) (Hwf0 : bitmap_wf b0) (Hsize : bit_cnt b0 = bit_cnt b)
  (Hready : ready s) (Hw : bitmap_write b s = Ok (true, s')) :
  exists b' s'', bitmap_read b0 s' = Ok ((true, b'), s'') /\ bit_cnt b' = bit_cnt b /\
    bitmap_wf b' /\ forall i, 0 <= i < bit_cnt b -> bit b' i = bit b i.
Proof.
  pose proof Hwf as (Hc & Hl & Hf). pose proof Hwf0 as (Hc0 & Hl0 & Hf0). rewrite Hsize in Hl0.
  destruct (byte_cnt_eq b Hwf) as [Hbc Hlt].
  unfold bitmap_write in Hw. unfold bitmap_read. rewrite Hsize, Z.gtb_ltb.
  rewrite s32_small, Hbc in Hw by (unfold is_s32; lia). rewrite s32_small, Hbc by (unfold is_s32; lia).
  apply bind_Ok in Hw as (n & s1 & Ew & E). injection E as Hn ->. apply Z.eqb_eq in Hn. subst n.
  destruct (file_write_read (word_bytes (bits b)) 0 s s' ltac:(lia) Hlt Hready Ew) as (s2 & Er).
  destruct (Z.ltb_spec 0 (bit_cnt b)).
  2:{ exists b0, s'. split_and!; [done|done|done|]. intros i Hi. lia. }
  rewrite (bind_run _ _ _ _ _ Er), overlay_full, Z.eqb_refl by (done || lia).
  replace (last_mask _) with (last_mask b) by done.
  destruct (mask_last_ok b Hwf) as (b' & E & Hm1 & Hm2 & Hm3); [done|].
  destruct b as [c bs]; simpl in *. unfold lift, mbind, M_mbind. rewrite E. by exists b', s2.
Qed.

Lemma bitmap_file_roundtrip_witness :
  let io := byte_fileio 4096 in
  let b0 := Bitmap 70 [0; 0] in
  exists s' b' s'', bitmap_write example_bitmap [] = Ok (true, s') /\
    bitmap_read b0 s' = Ok ((true, b'), s'') /\ forall i, 0 <= i < 70 -> bit b' i = bit example_bitmap i.
Proof.
  set (io := byte_fileio 4096). set (L := byte_fileio_laws 4096).
  assert (bitmap_wf (Bitmap 70 [0; 0])) as Hwf0.
  { unfold bitmap_wf. simpl. split_and!; [lia|lia|reflexivity|]. repeat constructor; lia. }
  assert (exists s', bitmap_write example_bitmap ([] : byte_file) = Ok (true, s')) as [s' Ew]
    by (apply outcome_val_ok; vm_compute; reflexivity).
  destruct (bitmap_file_roundtrip example_bitmap (Bitmap 70 [0; 0]) [] s' example_bitmap_wf Hwf0
    eq_refl I Ew) as (b' & s'' & E & _ & _ & Hb).
  exists s', b', s''. split; [exact Ew|]. split; [exact E|exact Hb].
Defined.
