(* ===== verification/CString.v ===== *)
(** * lib/string.c: memory blocks and strings

    The functions of string.c over a byte-addressed memory. Characters are kept
    as unsigned bytes: the conversions between [char] and [int] in the source
    only compare for equality, except in strcmp and memcmp, which compare
    unsigned values as here. Loops over strings carry fuel, taken from the size
    of the memory; loops over counted blocks recurse on the count. *)

From S2P Require Import Prelude.

(** ** Memory *)

Abbreviation mem_t := (gmap Z Z).

Definition null : Z := 0.

Definition ld (p : Z) : M mem_t Z :=
  fun m => match m !! p with Some b => Ok (b, m) | None => Undef end.
Definition st (p v : Z) : M mem_t unit :=
  fun m => match m !! p with Some _ => Ok (tt, <[p := v]> m) | None => Undef end.

Definition str_fuel : M mem_t nat := gets (fun m => S (size m)).

(** [ASSERT (p != NULL || size == 0)] *)
Definition assert_block (p size : Z) : M mem_t unit := assertM (negb (p =? null) || (size =? 0)).

(** ** Blocks *)

Fixpoint memcpy_loop (n : nat) (dst src : Z) : M mem_t unit :=
  match n with
  | O => mret tt
  | S n => b ← ld src; st dst b;; memcpy_loop n (dst + 1) (src + 1)
  end.

Definition memcpy (dst src size : Z) : M mem_t Z :=
  assert_block dst size;; assert_block src size;;
  memcpy_loop (Z.to_nat size) dst src;; mret dst.

(** [*--dst = *--src], [n] times. *)
Fixpoint memmove_down_loop (n : nat) (dst src : Z) : M mem_t unit :=
  match n with
  | O => mret tt
  | S n => b ← ld (src - 1); st (dst - 1) b;; memmove_down_loop n (dst - 1) (src - 1)
  end.

(** The result is the local [dst], which the loops have moved. *)
Definition memmove (dst src size : Z) : M mem_t Z :=
  assert_block dst size;; assert_block src size;;
  if dst <? src then
    memcpy_loop (Z.to_nat size) dst src;; mret (dst + size)
  else
    memmove_down_loop (Z.to_nat size) (dst + size) (src + size);; mret dst.

Fixpoint memcmp_loop (n : nat) (a b : Z) : M mem_t Z :=
  match n with
  | O => mret 0
  | S n =>
      x ← ld a; y ← ld b;
      if negb (x =? y) then mret (if x >? y then 1 else -1) else memcmp_loop n (a + 1) (b + 1)
  end.

Definition memcmp (a b size : Z) : M mem_t Z :=
  assert_block a size;; assert_block b size;; memcmp_loop (Z.to_nat size) a b.

Fixpoint memchr_loop (n : nat) (block ch : Z) : M mem_t Z :=
  match n with
  | O => mret null
  | S n => x ← ld block; if x =? ch then mret block else memchr_loop n (block + 1) ch
  end.

Definition memchr (block ch size : Z) : M mem_t Z :=
  assert_block block size;; memchr_loop (Z.to_nat size) block (u8 ch).

Fixpoint memset_loop (n : nat) (dst value : Z) : M mem_t unit :=
  match n with
  | O => mret tt
  | S n => st dst value;; memset_loop n (dst + 1) value
  end.

Definition memset (dst value size : Z) : M mem_t Z :=
  assert_block dst size;; memset_loop (Z.to_nat size) dst (u8 value);; mret dst.

(** ** Strings *)

Fixpoint strcmp_loop (fuel : nat) (a b : Z) : M mem_t Z :=
  match fuel with
  | O => nofuelM
  | S fuel =>
      x ← ld a; y ← ld b;
      if negb (x =? 0) && (x =? y) then strcmp_loop fuel (a + 1) (b + 1)
      else mret (if x <? y then -1 else if x >? y then 1 else 0)
  end.

Definition strcmp (a b : Z) : M mem_t Z :=
  assertM (negb (a =? null));; assertM (negb (b =? null));;
  fuel ← str_fuel; strcmp_loop fuel a b.

Fixpoint strchr_loop (fuel : nat) (string c : Z) : M mem_t Z :=
  match fuel with
  | O => nofuelM
  | S fuel =>
      x ← ld string;
      if x =? c then mret string
      else if x =? 0 then mret null
      else strchr_loop fuel (string + 1) c
  end.

Definition strchr (string c : Z) : M mem_t Z :=
  assertM (negb (string =? null));;
  fuel ← str_fuel; strchr_loop fuel string (u8 c).

(** The scans of strcspn ([found = true]) and strspn ([found = false]). *)
Fixpoint span_loop (fuel : nat) (found : bool) (string set length : Z) : M mem_t Z :=
  match fuel with
  | O => nofuelM
  | S fuel =>
      x ← ld (string + length);
      if x =? 0 then mret length
      else
        p ← strchr set x;
        if Bool.eqb (negb (p =? null)) found then mret length
        else span_loop fuel found string set (u64 (length + 1))
  end.

Definition strcspn (string stop : Z) : M mem_t Z :=
  fuel ← str_fuel; span_loop fuel true string stop 0.
Definition strspn (string skip : Z) : M mem_t Z :=
  fuel ← str_fuel; span_loop fuel false string skip 0.

Fixpoint strpbrk_loop (fuel : nat) (string stop : Z) : M mem_t Z :=
  match fuel with
  | O => nofuelM
  | S fuel =>
      x ← ld string;
      if x =? 0 then mret null
      else
        p ← strchr stop x;
        if negb (p =? null) then mret string else strpbrk_loop fuel (string + 1) stop
  end.

Definition strpbrk (string stop : Z) : M mem_t Z :=
  fuel ← str_fuel; strpbrk_loop fuel string stop.

Fixpoint strrchr_loop (fuel : nat) (string c p : Z) : M mem_t Z :=
  match fuel with
  | O => nofuelM
  | S fuel =>
      x ← ld string;
      if x =? 0 then mret p
      else strrchr_loop fuel (string + 1) c (if x =? c then string else p)
  end.

Definition strrchr (string c : Z) : M mem_t Z :=
  fuel ← str_fuel; strrchr_loop fuel string (u8 c) null.

Fixpoint strlen_loop (fuel : nat) (string p : Z) : M mem_t Z :=
  match fuel with
  | O => nofuelM
  | S fuel =>
      x ← ld p;
      if negb (x =? 0) then strlen_loop fuel string (p + 1) else mret (p - string)
  end.

Definition strlen (string : Z) : M mem_t Z :=
  assertM (negb (string =? null));;
  fuel ← str_fuel; strlen_loop fuel string string.

Fixpoint strnlen_loop (fuel : nat) (string maxlen length : Z) : M mem_t Z :=
  match fuel with
  | O => nofuelM
  | S fuel =>
      x ← ld (string + length);
      if negb (x =? 0) && (length <? maxlen)
      then strnlen_loop fuel string maxlen (u64 (length + 1)) else mret length
  end.

Definition strnlen (string maxlen : Z) : M mem_t Z :=
  fuel ← str_fuel; strnlen_loop fuel string maxlen 0.

(** [n] iterations are left of the loop over the positions of [haystack]. *)
Fixpoint strstr_loop (n : nat) (haystack needle needle_len i : Z) : M mem_t Z :=
  match n with
  | O => mret null
  | S n =>
      c ← memcmp (haystack + i) needle needle_len;
      if c =? 0 then mret (haystack + i) else strstr_loop n haystack needle needle_len (i + 1)
  end.

Definition strstr (haystack needle : Z) : M mem_t Z :=
  haystack_len ← strlen haystack;
  needle_len ← strlen needle;
  if haystack_len >=? needle_len
  then strstr_loop (Z.to_nat (haystack_len - needle_len + 1)) haystack needle needle_len 0
  else mret null.

(** [*save_ptr] is passed in and returned next to the token. The two loops skip
    delimiters, stopping with [None] at the end of the string, and then skip the
    token. *)
Fixpoint strtok_skip (fuel : nat) (s delimiters : Z) : M mem_t (Z * bool) :=
  match fuel with
  | O => nofuelM
  | S fuel =>
      x ← ld s;
      p ← strchr delimiters x;
      if negb (p =? null) then
        if x =? 0 then mret (s, true) else strtok_skip fuel (s + 1) delimiters
      else mret (s, false)
  end.

Fixpoint strtok_token (fuel : nat) (s delimiters : Z) : M mem_t Z :=
  match fuel with
  | O => nofuelM
  | S fuel =>
      x ← ld s;
      p ← strchr delimiters x;
      if p =? null then strtok_token fuel (s + 1) delimiters else mret s
  end.

Definition strtok_r (s delimiters save_ptr : Z) : M mem_t (Z * Z) :=
  assertM (negb (delimiters =? null));;
  let s := if s =? null then save_ptr else s in
  assertM (negb (s =? null));;
  fuel ← str_fuel;
  r ← strtok_skip fuel s delimiters;
  let '(s, at_end) := r : Z * bool in
  if at_end then mret (null, s)
  else
    let token := s in
    s ← strtok_token fuel s delimiters;
    x ← ld s;
    if negb (x =? 0) then st s 0;; mret (token, s + 1) else mret (token, s).

Definition strlcpy (dst src size : Z) : M mem_t Z :=
  assertM (negb (dst =? null));; assertM (negb (src =? null));;
  src_len ← strlen src;
  (if size >? 0 then
     let dst_len := size - 1 in
     let dst_len := if src_len <? dst_len then src_len else dst_len in
     memcpy dst src dst_len;; st (dst + dst_len) 0
   else mret tt);;
  mret src_len.

Definition strlcat (dst src size : Z) : M mem_t Z :=
  assertM (negb (dst =? null));; assertM (negb (src =? null));;
  src_len ← strlen src;
  dst_len ← strlen dst;
  (if (size >? 0) && (dst_len <? size) then
     let copy_cnt := size - dst_len - 1 in
     let copy_cnt := if src_len <? copy_cnt then src_len else copy_cnt in
     memcpy (dst + dst_len) src copy_cnt;; st (dst + dst_len + copy_cnt) 0
   else mret tt);;
  mret (u64 (src_len + dst_len)).

(** ** Contents of memory *)

(** The bytes [l] are at [p]. *)
Definition bytes_at (m : mem_t) (p : Z) (l : list Z) : Prop :=
  forall i b, l !! i = Some b -> m !! (p + Z.of_nat i) = Some b.

(** The string [s] is at [p], which is a proper address. *)
Definition str_at (m : mem_t) (p : Z) (s : list Z) : Prop :=
  0 < p /\ bytes_at m p (s ++ [0]) /\ Forall (fun c => 0 < c < 256) s.

(** [n] bytes at [p] are mapped. *)
Definition mapped (m : mem_t) (p n : Z) : Prop := forall q, p <= q < p + n -> is_Some (m !! q).

(** [m'] is [m] but for the [n] bytes at [p]. *)
Definition same_outside (p n : Z) (m m' : mem_t) : Prop :=
  dom m' = dom m /\ forall q, ~ (p <= q < p + n) -> m' !! q = m !! q.

Lemma bytes_at_nil m p : bytes_at m p [].
Proof. intros i b Hi. by rewrite lookup_nil in Hi. Qed.

Lemma bytes_at_cons m p b l : bytes_at m p (b :: l) <-> m !! p = Some b /\ bytes_at m (p + 1) l.
Proof.
  split.
  - intros H. split; [rewrite <-(Z.add_0_r p); by apply (H 0%nat)|].
    intros i c Hi. rewrite <-(H (S i) c Hi). f_equal. lia.
  - intros [Hb Hl] [|i] c Hi; simpl in Hi.
    + by rewrite Z.add_0_r, Hb.
    + rewrite <-(Hl i c Hi). f_equal. lia.
Qed.

Lemma bytes_at_app m p l l' :
  bytes_at m p (l ++ l') <-> bytes_at m p l /\ bytes_at m (p + Z.of_nat (length l)) l'.
Proof.
  revert p. induction l as [|b l IH]; intros p; simpl app.
  - rewrite Z.add_0_r. split; [intros H; split; [apply bytes_at_nil|done]|by intros [_ ?]].
  - rewrite !bytes_at_cons, IH.
    replace (p + 1 + Z.of_nat (length l)) with (p + Z.of_nat (length (b :: l))) by (simpl length; lia).
    tauto.
Qed.

Lemma bytes_at_ext m m' p l :
  bytes_at m p l -> (forall q, p <= q < p + Z.of_nat (length l) -> m' !! q = m !! q) -> bytes_at m' p l.
Proof.
  intros H Hs i b Hi. apply lookup_lt_Some in Hi as Hlt. rewrite Hs by lia. by apply H.
Qed.

Lemma bytes_at_insert_out m p q v l :
  bytes_at m p l -> q < p \/ p + Z.of_nat (length l) <= q -> bytes_at (<[q := v]> m) p l.
Proof.
  intros H Hq. eapply bytes_at_ext; [exact H|]. intros r Hr. apply lookup_insert_ne. lia.
Qed.

Lemma bytes_at_mapped m p l : bytes_at m p l -> mapped m p (Z.of_nat (length l)).
Proof.
  intros H q Hq. destruct (lookup_lt_is_Some_2 l (Z.to_nat (q - p))) as [b Hb]; [lia|].
  exists b. rewrite <-(H _ _ Hb). f_equal. lia.
Qed.

Lemma bytes_at_size m p l : bytes_at m p l -> (length l <= size m)%nat.
Proof.
  intros H. rewrite <-size_dom.
  set (ps := (fun i => p + Z.of_nat i) <$> seq 0 (length l)).
  assert (length l = size (list_to_set ps : gset Z)) as ->.
  - rewrite size_list_to_set; [by unfold ps; rewrite length_fmap, length_seq|].
    apply NoDup_fmap; [intros i j; lia|apply NoDup_seq].
  - apply subseteq_size. intros q Hq%elem_of_list_to_set.
    apply list_elem_of_fmap in Hq as (i & -> & Hi). apply elem_of_seq in Hi.
    apply elem_of_dom. apply (bytes_at_mapped m p l H). lia.
Qed.

Lemma str_at_cons m p c s : str_at m p (c :: s) -> m !! p = Some c /\ 0 < c < 256 /\ str_at m (p + 1) s.
Proof.
  intros (Hp & Hb & Hc). simpl in Hb. apply bytes_at_cons in Hb as [Hb Hs].
  apply Forall_cons in Hc as [Hc Hs']. split_and!; [done|lia|lia|]. split; [lia|done].
Qed.

Lemma str_at_nil m p : str_at m p [] -> m !! p = Some 0.
Proof. intros (_ & Hb & _). by apply bytes_at_cons in Hb as [Hb _]. Qed.

Lemma str_at_app m p s s' : str_at m p (s ++ s') -> str_at m (p + Z.of_nat (length s)) s'.
Proof.
  intros (Hp & Hb & Hc). rewrite <-(assoc_L (++)) in Hb. apply bytes_at_app in Hb as [_ Hb].
  apply Forall_app in Hc as [_ Hc]. split; [lia|done].
Qed.

Lemma str_at_size m p s : str_at m p s -> (length s < size m)%nat.
Proof. intros (_ & Hb & _). apply bytes_at_size in Hb. rewrite length_app in Hb. simpl in Hb. lia. Qed.

Lemma str_at_insert_out m p q v s :
  str_at m p s -> q < p \/ p + Z.of_nat (length s) < q -> str_at (<[q := v]> m) p s.
Proof.
  intros (Hp & Hb & Hc) Hq. split; [done|]. split; [|done]. apply bytes_at_insert_out; [done|].
  rewrite length_app. simpl. lia.
Qed.

Lemma mapped_insert m p n q v : mapped m p n -> mapped (<[q := v]> m) p n.
Proof. intros H r Hr. destruct (decide (q = r)) as [->|]; simplify_map_eq; eauto. Qed.

Lemma same_outside_refl p n m : same_outside p n m m.
Proof. by split. Qed.

Lemma same_outside_insert p n m q v m' :
  is_Some (m !! q) -> p <= q < p + n -> same_outside p n (<[q := v]> m) m' -> same_outside p n m m'.
Proof.
  intros Hq Hr [Hd Hs]. split.
  - rewrite Hd. apply dom_insert_lookup_L. done.
  - intros r Hout. rewrite Hs by done. apply lookup_insert_ne. lia.
Qed.

Lemma same_outside_mono p n p' n' m m' :
  same_outside p n m m' -> p' <= p -> p + n <= p' + n' -> same_outside p' n' m m'.
Proof. intros [Hd Hs] H1 H2. split; [done|]. intros q Hq. apply Hs. lia. Qed.

Lemma same_outside_trans p n m1 m2 m3 :
  same_outside p n m1 m2 -> same_outside p n m2 m3 -> same_outside p n m1 m3.
Proof. intros [D1 H1] [D2 H2]. split; [congruence|]. intros q Hq. by rewrite H2, H1. Qed.

Lemma same_outside_mapped p n q k m m' : same_outside p n m m' -> mapped m q k -> mapped m' q k.
Proof. intros [Hd _] H r Hr. apply elem_of_dom. rewrite Hd. apply elem_of_dom. by apply H. Qed.

Lemma str_at_outside p n m m' q s :
  same_outside p n m m' -> q + Z.of_nat (length s) < p \/ p + n <= q -> str_at m q s -> str_at m' q s.
Proof.
  intros [_ Hs] Hq (Hp & Hb & Hc). split; [done|]. split; [|done]. eapply bytes_at_ext; [exact Hb|].
  intros r. rewrite length_app. simpl. intros Hr. apply Hs. lia.
Qed.

(** ** Single accesses *)

Lemma wp_ld m p b Q : m !! p = Some b -> Q b m -> wp (ld p) Q m.
Proof. intros E HQ. exists b, m. unfold ld. by rewrite E. Qed.

Lemma wp_st m p v Q : is_Some (m !! p) -> Q tt (<[p := v]> m) -> wp (st p v) Q m.
Proof. intros [b E] HQ. exists tt, (<[p := v]> m). unfold st. by rewrite E. Qed.

Lemma wp_assert_block m p n (Q : unit -> mem_t -> Prop) : 0 < p -> Q tt m -> wp (assert_block p n) Q m.
Proof.
  intros Hp HQ. apply wp_assert; [|done]. unfold null. by destruct (Z.eqb_spec p 0); [lia|].
Qed.

Lemma wp_assert_ptr m p (Q : unit -> mem_t -> Prop) : 0 < p -> Q tt m -> wp (assertM (negb (p =? null))) Q m.
Proof. intros Hp HQ. apply wp_assert; [|done]. unfold null. by destruct (Z.eqb_spec p 0); [lia|]. Qed.

Lemma wp_str_fuel m p s Q :
  str_at m p s -> (forall fuel, (length s < fuel)%nat -> Q fuel m) -> wp str_fuel Q m.
Proof. intros Hs HQ. apply wp_gets, HQ. apply str_at_size in Hs. lia. Qed.

(** ** Copying *)

Lemma wp_memcpy_loop m dst src l Q :
  bytes_at m src l -> mapped m dst (Z.of_nat (length l)) ->
  dst < src \/ src + Z.of_nat (length l) <= dst ->
  (forall m', bytes_at m' dst l -> same_outside dst (Z.of_nat (length l)) m m' -> Q tt m') ->
  wp (memcpy_loop (length l) dst src) Q m.
Proof.
  revert m dst src Q. induction l as [|b l IH]; intros m dst src Q Hs Hm Hd HQ; cbn [memcpy_loop length].
  { apply wp_ret, HQ; [apply bytes_at_nil|apply same_outside_refl]. }
  simpl length in *. apply bytes_at_cons in Hs as [Hb Hs].
  apply wp_bind, wp_ld with b; [done|]. apply wp_bind, wp_st; [apply Hm; lia|].
  apply IH.
  - apply bytes_at_insert_out; [done|lia].
  - apply mapped_insert. intros q Hq. apply Hm. lia.
  - lia.
  - intros m' Hb' Ho. apply HQ.
    + apply bytes_at_cons. split; [|done].
      destruct Ho as [_ Ho]. rewrite Ho by lia. apply lookup_insert_eq.
    + apply same_outside_insert with dst b; [apply Hm; lia|lia|].
      eapply same_outside_mono; [exact Ho|lia|lia].
Qed.

Lemma wp_memmove_down_loop m dst src l Q :
  bytes_at m src l -> mapped m dst (Z.of_nat (length l)) -> src <= dst ->
  (forall m', bytes_at m' dst l -> same_outside dst (Z.of_nat (length l)) m m' -> Q tt m') ->
  wp (memmove_down_loop (length l) (dst + Z.of_nat (length l)) (src + Z.of_nat (length l))) Q m.
Proof.
  revert m Q. induction l as [|b l IH] using rev_ind; intros m Q Hs Hm Hd HQ.
  { apply wp_ret, HQ; [apply bytes_at_nil|apply same_outside_refl]. }
  rewrite length_app in *. simpl length in *. rewrite Nat.add_1_r in *. cbn [memmove_down_loop].
  apply bytes_at_app in Hs as [Hs [Hb _]%bytes_at_cons].
  replace (dst + Z.of_nat (S (length l)) - 1) with (dst + Z.of_nat (length l)) by lia.
  replace (src + Z.of_nat (S (length l)) - 1) with (src + Z.of_nat (length l)) by lia.
  apply wp_bind, wp_ld with b; [done|]. apply wp_bind, wp_st; [apply Hm; lia|].
  apply IH; [apply bytes_at_insert_out; [done|lia]| |done|].
  - apply mapped_insert. intros q Hq. apply Hm. lia.
  - intros m' Hb' Ho. apply HQ.
    + apply bytes_at_app. split; [done|]. apply bytes_at_cons. split; [|apply bytes_at_nil].
      destruct Ho as [_ Ho]. rewrite Ho by lia. apply lookup_insert_eq.
    + apply same_outside_insert with (dst + Z.of_nat (length l)) b; [apply Hm; lia|lia|].
      eapply same_outside_mono; [exact Ho|lia|lia].
Qed.

Lemma wp_memcpy m dst src n l Q :
  0 < dst -> 0 < src -> n = Z.of_nat (length l) ->
  bytes_at m src l -> mapped m dst n -> dst < src \/ src + n <= dst ->
  (forall m', bytes_at m' dst l -> same_outside dst n m m' -> Q dst m') ->
  wp (memcpy dst src n) Q m.
Proof.
  intros Hd0 Hs0 -> Hs Hm Hd HQ. apply wp_bind, wp_assert_block; [done|].
  apply wp_bind, wp_assert_block; [done|]. rewrite Nat2Z.id.
  apply wp_bind, wp_memcpy_loop; [done..|]. intros m' Hb Ho. apply wp_ret. by apply HQ.
Qed.

(** ** Lengths *)

Lemma wp_strlen_loop m string p s fuel Q :
  str_at m p s -> (length s < fuel)%nat -> Q (p + Z.of_nat (length s) - string) m ->
  wp (strlen_loop fuel string p) Q m.
Proof.
  revert p fuel. induction s as [|c s IH]; intros p [|fuel] Hs Hf HQ; cbn [strlen_loop]; simpl in Hf; try lia.
  - apply wp_bind, wp_ld with 0; [by apply str_at_nil|]. simpl. apply wp_ret.
    simpl in HQ. by rewrite Z.add_0_r in HQ.
  - apply str_at_cons in Hs as (Hc & Hr & Hs). apply wp_bind, wp_ld with c; [done|].
    destruct (Z.eqb_spec c 0); [lia|]. simpl. apply IH; [done|lia|].
    by replace (p + 1 + Z.of_nat (length s)) with (p + Z.of_nat (length (c :: s))) by (simpl length; lia).
Qed.

Lemma wp_strlen m p s Q : str_at m p s -> Q (Z.of_nat (length s)) m -> wp (strlen p) Q m.
Proof.
  intros Hs HQ. apply wp_bind, wp_assert_ptr; [by destruct Hs|].
  apply wp_bind, wp_str_fuel with p s; [done|]. intros fuel Hf.
  apply wp_strlen_loop with s; [done|done|].
  by replace (p + Z.of_nat (length s) - p) with (Z.of_nat (length s)) by lia.
Qed.

(** Copying [n] characters of a string, not more than it has, and a terminator. *)
Lemma wp_copy_terminated m dst src s n (Q : unit -> mem_t -> Prop) :
  0 < dst -> str_at m src s -> (n <= length s)%nat -> mapped m dst (Z.of_nat n + 1) ->
  dst + Z.of_nat n < src \/ src + Z.of_nat (length s) < dst ->
  (forall m', str_at m' dst (take n s) -> same_outside dst (Z.of_nat n + 1) m m' -> Q tt m') ->
  wp (memcpy dst src (Z.of_nat n);; st (dst + Z.of_nat n) 0) Q m.
Proof.
  intros Hd Hs Hn Hm Hdis HQ. pose proof Hs as (Hs0 & Hb & Hc).
  assert (length (take n s) = n) as Hln by (rewrite length_take; lia).
  apply wp_bind, wp_memcpy with (take n s); [done|done|by rewrite Hln| | |lia|].
  - rewrite <-(take_drop n s) in Hb. rewrite <-(assoc_L (++)) in Hb. by apply bytes_at_app in Hb as [Hb _].
  - intros q Hq. apply Hm. lia.
  - intros m1 Hb1 Ho1. apply wp_st.
    + eapply same_outside_mapped; [exact Ho1|exact Hm|lia].
    + apply HQ.
      * split; [done|]. split; [|by apply Forall_take]. apply bytes_at_app. rewrite Hln. split.
        -- apply bytes_at_insert_out; [done|lia].
        -- apply bytes_at_cons. split; [apply lookup_insert_eq|apply bytes_at_nil].
      * eapply same_outside_trans; [eapply same_outside_mono; [exact Ho1|lia|lia]|].
        apply same_outside_insert with (dst + Z.of_nat n) 0; [|lia|apply same_outside_refl].
        eapply same_outside_mapped; [exact Ho1|exact Hm|lia].
Qed.

(** A string whose terminator has been overwritten by another string. *)
Lemma str_at_join m m' p s s' :
  str_at m p s -> str_at m' (p + Z.of_nat (length s)) s' ->
  (forall q, p <= q < p + Z.of_nat (length s) -> m' !! q = m !! q) -> str_at m' p (s ++ s').
Proof.
  intros (Hp & Hb & Hc) (_ & Hb' & Hc') Hq. split; [done|]. split; [|by apply Forall_app].
  rewrite <-(assoc_L (++)). apply bytes_at_app. split; [|done].
  apply bytes_at_app in Hb as [Hb _]. by apply bytes_at_ext with m.
Qed.

Lemma take_min {A} (l : list A) n : take (Nat.min n (length l)) l = take n l.
Proof.
  destruct (Nat.le_ge_cases n (length l)); [by rewrite Nat.min_l|].
  rewrite Nat.min_r by done. by rewrite !take_ge.
Qed.

(** ** Searching *)

(** A pointer to the first [c] of [s], or to the terminator. *)
Fixpoint find_char (p : Z) (c : Z) (s : list Z) : Z :=
  match s with
  | [] => if c =? 0 then p else null
  | x :: s => if x =? c then p else find_char (p + 1) c s
  end.

Lemma find_char_null p c s : 0 < p -> find_char p c s = null <-> c ∉ s ++ [0].
Proof.
  unfold null. revert p. induction s as [|x s IH]; intros p Hp; simpl.
  - destruct (Z.eqb_spec c 0) as [->|]; [split; [lia|]; intros H; exfalso; apply H; mem|].
    split; [|done]. intros _. by rewrite list_elem_of_singleton.
  - destruct (Z.eqb_spec x c) as [->|Hne].
    + split; [lia|]. intros H. exfalso. apply H. mem.
    + rewrite IH by lia. rewrite elem_of_cons. split; [intros H [E|E]; [congruence|done]|tauto].
Qed.

Lemma wp_strchr_loop m p c s fuel Q :
  str_at m p s -> (length s < fuel)%nat -> Q (find_char p c s) m -> wp (strchr_loop fuel p c) Q m.
Proof.
  revert p fuel. induction s as [|x s IH]; intros p [|fuel] Hs Hf HQ; cbn [strchr_loop]; simpl in Hf; try lia.
  - apply wp_bind, wp_ld with 0; [by apply str_at_nil|]. rewrite Z.eqb_sym. simpl in HQ.
    destruct (c =? 0); by apply wp_ret.
  - apply str_at_cons in Hs as (Hx & Hr & Hs). apply wp_bind, wp_ld with x; [done|]. simpl in HQ.
    destruct (x =? c); [by apply wp_ret|]. destruct (Z.eqb_spec x 0); [lia|].
    apply IH; [done|lia|done].
Qed.

Lemma wp_strchr m p c s Q :
  str_at m p s -> 0 <= c < 256 -> Q (find_char p c s) m -> wp (strchr p c) Q m.
Proof.
  intros Hs Hc HQ. apply wp_bind, wp_assert_ptr; [by destruct Hs|].
  apply wp_bind, wp_str_fuel with p s; [done|]. intros fuel Hf. rewrite u8_small by done.
  by apply wp_strchr_loop with s.
Qed.

(** ** Tokens *)

(** The longest prefix of characters that satisfy [f], and the rest. *)
Fixpoint span (f : Z -> bool) (s : list Z) : list Z * list Z :=
  match s with
  | [] => ([], [])
  | c :: s' => if f c then let '(a, b) := span f s' in (c :: a, b) else ([], s)
  end.

Lemma span_app f s : (span f s).1 ++ (span f s).2 = s.
Proof.
  induction s as [|c s IH]; simpl; [done|]. destruct (f c); [|done].
  destruct (span f s) as [a b]. simpl in *. by rewrite IH.
Qed.

Definition is_delim (delims : list Z) (c : Z) : bool := bool_decide (c ∈ delims).

(** strchr finds a character of a string just when it is a delimiter. *)
Lemma find_delim d c delims :
  0 < d -> 0 < c -> (find_char d c delims =? null) = negb (is_delim delims c).
Proof.
  intros Hd Hc. unfold is_delim. pose proof (find_char_null d c delims Hd) as H.
  case_bool_decide as Hin; simpl.
  - apply Z.eqb_neq. rewrite H. intros Hn. apply Hn. mem.
  - apply Z.eqb_eq. rewrite H. rewrite elem_of_app, list_elem_of_singleton. intros [?|?]; [done|lia].
Qed.

Lemma find_nul d delims : 0 < d -> (find_char d 0 delims =? null) = false.
Proof. intros Hd. apply Z.eqb_neq. rewrite find_char_null by done. intros H. apply H. mem. Qed.

Lemma wp_strtok_skip m p d delims s fuel Q :
  str_at m p s -> str_at m d delims -> (length s < fuel)%nat ->
  (let '(a, b) := span (is_delim delims) s in
   Q (p + Z.of_nat (length a), bool_decide (b = [])) m) ->
  wp (strtok_skip fuel p d) Q m.
Proof.
  revert p fuel Q. induction s as [|c s IH]; intros p [|fuel] Q Hs Hd Hf HQ; cbn [strtok_skip]; simpl in Hf; try lia.
  - apply wp_bind, wp_ld with 0; [by apply str_at_nil|].
    apply wp_bind, wp_strchr with delims; [done|lia|]. rewrite find_nul by (by destruct Hd).
    simpl. apply wp_ret. simpl in HQ. by rewrite Z.add_0_r in HQ.
  - apply str_at_cons in Hs as (Hc & Hr & Hs). apply wp_bind, wp_ld with c; [done|].
    apply wp_bind, wp_strchr with delims; [done|lia|].
    rewrite find_delim by (destruct Hd; done || lia). rewrite negb_involutive.
    simpl in HQ. destruct (is_delim delims c).
    + destruct (Z.eqb_spec c 0); [lia|]. apply IH; [done|done|lia|].
      destruct (span (is_delim delims) s) as [a b]. simpl length in HQ.
      by replace (p + 1 + Z.of_nat (length a)) with (p + Z.of_nat (S (length a))) by lia.
    + apply wp_ret. simpl in HQ. by rewrite Z.add_0_r in HQ.
Qed.

Lemma wp_strtok_token m p d delims s fuel Q :
  str_at m p s -> str_at m d delims -> (length s < fuel)%nat ->
  Q (p + Z.of_nat (length (span (fun c => negb (is_delim delims c)) s).1)) m ->
  wp (strtok_token fuel p d) Q m.
Proof.
  revert p fuel Q. induction s as [|c s IH]; intros p [|fuel] Q Hs Hd Hf HQ; cbn [strtok_token]; simpl in Hf; try lia.
  - apply wp_bind, wp_ld with 0; [by apply str_at_nil|].
    apply wp_bind, wp_strchr with delims; [done|lia|]. rewrite find_nul by (by destruct Hd).
    apply wp_ret. simpl in HQ. by rewrite Z.add_0_r in HQ.
  - apply str_at_cons in Hs as (Hc & Hr & Hs). apply wp_bind, wp_ld with c; [done|].
    apply wp_bind, wp_strchr with delims; [done|lia|].
    rewrite find_delim by (destruct Hd; done || lia).
    simpl in HQ. destruct (is_delim delims c); simpl in *.
    + apply wp_ret. by rewrite Z.add_0_r in HQ.
    + apply IH; [done|done|lia|]. destruct (span _ s) as [a b]. simpl length in *.
      by replace (p + 1 + Z.of_nat (length a)) with (p + Z.of_nat (S (length a))) by lia.
Qed.

(** What is left after the delimiters begins with a token. *)
Lemma token_nonempty f s skip c rest token rest' :
  span f s = (skip, c :: rest) -> span (fun c => negb (f c)) (c :: rest) = (token, rest') -> token <> [].
Proof.
  intros E1 E2. assert (f c = false) as Hc.
  { revert skip E1. induction s as [|x s IH]; intros skip E1; simpl in E1; [done|].
    destruct (f x) eqn:Ex; [|by injection E1 as _ -> _].
    destruct (span f s) as [a b]. injection E1 as <- ->. by apply (IH a). }
  simpl in E2. rewrite Hc in E2. simpl in E2. destruct (span _ rest). by injection E2 as <- _.
Qed.

(** The end of strtok_r: the character behind the token becomes its terminator. *)
Lemma wp_strtok_finish m tp token rest (Q : Z * Z -> mem_t -> Prop) :
  str_at m tp (token ++ rest) ->
  (forall save m', str_at m' tp token -> str_at m' save (tl rest) ->
     same_outside (tp + Z.of_nat (length token)) 1 m m' -> Q (tp, save) m') ->
  wp (x ← ld (tp + Z.of_nat (length token));
      if negb (x =? 0)
      then st (tp + Z.of_nat (length token)) 0;; mret (tp, tp + Z.of_nat (length token) + 1)
      else mret (tp, tp + Z.of_nat (length token))) Q m.
Proof.
  intros Ht HQ. pose proof (str_at_app _ _ _ _ Ht) as Hr. set (e := tp + Z.of_nat (length token)) in *.
  destruct rest as [|x rest].
  - rewrite (right_id_L [] (++)) in Ht. apply wp_bind, wp_ld with 0; [by apply str_at_nil|].
    apply wp_ret, HQ; [done|done|apply same_outside_refl].
  - apply str_at_cons in Hr as (Hx & Hx0 & Hr). apply wp_bind, wp_ld with x; [done|].
    destruct (Z.eqb_spec x 0); [lia|]. simpl. apply wp_bind, wp_st; [eauto|]. apply wp_ret, HQ.
    + destruct Ht as (Hp & Hb & Hc). apply Forall_app in Hc as [Hc _]. split; [done|]. split; [|done].
      rewrite <-(assoc_L (++)) in Hb. apply bytes_at_app in Hb as [Hb _]. apply bytes_at_app. split.
      * apply bytes_at_insert_out; [done|lia].
      * apply bytes_at_cons. split; [apply lookup_insert_eq|apply bytes_at_nil].
    + apply str_at_insert_out; [done|lia].
    + apply same_outside_insert with e 0; [eauto|lia|apply same_outside_refl].
Qed.

(** ** Comparing *)

Lemma wp_memcmp_loop m a b la lb Q :
  bytes_at m a la -> bytes_at m b lb -> length la = length lb ->
  (forall r, (r = 0 <-> la = lb) -> Q r m) ->
  wp (memcmp_loop (length la) a b) Q m.
Proof.
  revert a b lb Q. induction la as [|x la IH]; intros a b lb Q Ha Hb Hl HQ; destruct lb as [|y lb]; try done;
    cbn [memcmp_loop length].
  - apply wp_ret. by apply HQ.
  - apply bytes_at_cons in Ha as [Hx Ha], Hb as [Hy Hb].
    apply wp_bind, wp_ld with x; [done|]. apply wp_bind, wp_ld with y; [done|].
    destruct (Z.eqb_spec x y) as [->|Hne]; simpl.
    + apply IH with lb; [done|done|by injection Hl|]. intros r Hr. apply HQ. rewrite Hr.
      split; [by intros ->|by intros [= ->]].
    + apply wp_ret, HQ. destruct (x >? y); split; try done; intros [= ? _]; done.
Qed.

Lemma wp_memcmp m a b n la lb Q :
  0 < a -> 0 < b -> bytes_at m a la -> bytes_at m b lb -> n = Z.of_nat (length la) -> length la = length lb ->
  (forall r, (r = 0 <-> la = lb) -> Q r m) ->
  wp (memcmp a b n) Q m.
Proof.
  intros Ha0 Hb0 Ha Hb -> Hl HQ. apply wp_bind, wp_assert_block; [done|].
  apply wp_bind, wp_assert_block; [done|]. rewrite Nat2Z.id. by apply wp_memcmp_loop with lb.
Qed.

(** [needle] occurs in [hay] at position [i]. *)
Definition occurs_at (needle hay : list Z) (i : nat) : Prop :=
  (i + length needle <= length hay)%nat /\ take (length needle) (drop i hay) = needle.

Lemma str_at_bytes m p s i n :
  str_at m p s -> (i + n <= length s)%nat -> bytes_at m (p + Z.of_nat i) (take n (drop i s)).
Proof.
  intros (_ & Hb & _) Hi. rewrite <-(take_drop i s), <-(assoc_L (++)) in Hb.
  apply bytes_at_app in Hb as [_ Hb]. rewrite length_take, Nat.min_l in Hb by lia.
  rewrite <-(take_drop n (drop i s)), <-(assoc_L (++)) in Hb. by apply bytes_at_app in Hb as [Hb _].
Qed.

Lemma wp_strstr_loop m h n hay needle i k Q :
  str_at m h hay -> str_at m n needle -> (i + k + length needle = length hay + 1)%nat ->
  (forall j, (i <= j)%nat -> occurs_at needle hay j ->
     (forall j', (i <= j' < j)%nat -> ~ occurs_at needle hay j') -> Q (h + Z.of_nat j) m) ->
  ((forall j, (i <= j)%nat -> ~ occurs_at needle hay j) -> Q null m) ->
  wp (strstr_loop k h n (Z.of_nat (length needle)) (Z.of_nat i)) Q m.
Proof.
  intros Hh Hn. pose proof Hh as (Hh0 & _). pose proof Hn as (Hn0 & Hnb & _).
  apply bytes_at_app in Hnb as [Hnb _].
  revert i. induction k as [|k IH]; intros i Hi HQ1 HQ2; cbn [strstr_loop].
  { apply wp_ret, HQ2. intros j Hj [Hle _]. lia. }
  assert (length (take (length needle) (drop i hay)) = length needle) as Hl
    by (rewrite length_take, length_drop; lia).
  apply wp_bind, wp_memcmp with (take (length needle) (drop i hay)) needle;
    [lia|done|apply str_at_bytes; [done|lia]|done|by rewrite Hl|done|].
  intros r Hr. assert (r = 0 <-> occurs_at needle hay i) as Hocc
    by (rewrite Hr; unfold occurs_at; split; [intros ?; split; [lia|done]|by intros [_ ?]]).
  destruct (Z.eqb_spec r 0) as [Hr0|Hr0].
  - apply wp_ret, HQ1; [lia|by apply Hocc|]. intros j Hj. lia.
  - assert (~ occurs_at needle hay i) as Hno by tauto.
    replace (Z.of_nat i + 1) with (Z.of_nat (S i)) by lia. apply IH; [lia| |].
    + intros j Hj Ho Hfirst. apply HQ1; [lia|done|]. intros j' Hj'.
      destruct (decide (j' = i)) as [->|]; [done|]. apply Hfirst. lia.
    + intros Hnone. apply HQ2. intros j Hj. destruct (decide (j = i)) as [->|]; [done|]. apply Hnone. lia.
Qed.

(** ** The theorems *)

(** A memory of [len] zero bytes from [base] on, with the bytes [l] at [p]. *)
Definition example_mem (base : Z) (len : nat) (pl : list (Z * list Z)) : mem_t :=
  foldr (fun '(p, l) m => foldr (fun '(i, b) m => <[p + Z.of_nat i := b]> m) m (imap pair l))
    (list_to_map ((fun i => (base + Z.of_nat i, 0)) <$> seq 0 len)) pl.

Lemma bytes_at_forall m p l :
  forallb (fun '(i, b) => bool_decide (m !! (p + Z.of_nat i) = Some b)) (imap pair l) = true ->
  bytes_at m p l.
Proof.
  intros H i b Hi. rewrite forallb_forall in H.
  assert (In (i, b) (imap pair l)) as Hin.
  { apply list_elem_of_In. apply list_elem_of_lookup. exists i. by rewrite list_lookup_imap, Hi. }
  specialize (H _ Hin). simpl in H. by apply bool_decide_eq_true in H.
Qed.

Lemma mapped_forall m p n :
  forallb (fun i => bool_decide (is_Some (m !! (p + Z.of_nat i)))) (seq 0 (Z.to_nat n)) = true ->
  mapped m p n.
Proof.
  intros H q Hq. rewrite forallb_forall in H. specialize (H (Z.to_nat (q - p))).
  rewrite in_seq in H. replace (p + Z.of_nat (Z.to_nat (q - p))) with q in H by lia.
  apply bool_decide_eq_true in H; [done|lia].
Qed.

(** Decides the contents of a concrete memory. *)
Ltac concrete_mem :=
  lazymatch goal with
  | |- bytes_at _ _ _ => apply bytes_at_forall; vm_compute; reflexivity
  | |- mapped _ _ _ => apply mapped_forall; vm_compute; reflexivity
  | |- str_at _ _ _ => split; [lia|split; [apply bytes_at_forall; vm_compute; reflexivity|repeat constructor; lia]]
  end.

(** Memmove copies a block correctly however the two blocks overlap, and
    changes nothing else; what it returns is DST only when DST is not below SRC,
    and the end of the destination block otherwise. *)
Theorem memmove_copies m dst src l
  (Hd : 0 < dst) (Hs : 0 < src) (Hb : bytes_at m src l) (Hm : mapped m dst (Z.of_nat (length l))) :
  exists m', memmove dst src (Z.of_nat (length l)) m =
      Ok (if dst <? src then dst + Z.of_nat (length l) else dst, m') /\
    bytes_at m' dst l /\ same_outside dst (Z.of_nat (length l)) m m'.
Proof.
  destruct (fun H => H : wp (memmove dst src (Z.of_nat (length l)))
    (fun r m' => r = (if dst <? src then dst + Z.of_nat (length l) else dst) /\
       bytes_at m' dst l /\ same_outside dst (Z.of_nat (length l)) m m') m) as (r & m' & E & -> & H1 & H2).
  - apply wp_bind, wp_assert_block; [done|]. apply wp_bind, wp_assert_block; [done|]. rewrite Nat2Z.id.
    destruct (Z.ltb_spec dst src).
    + apply wp_bind, wp_memcpy_loop; [done|done|lia|]. intros m' H1 H2. by apply wp_ret.
    + apply wp_bind, wp_memmove_down_loop; [done|done|done|]. intros m' H1 H2. by apply wp_ret.
  - by exists m'.
Qed.

Lemma memmove_copies_witness :
  let m := example_mem 100 20 [(104, [1; 2; 3; 4])] in
  exists m', memmove 102 104 4 m = Ok (106, m') /\ bytes_at m' 102 [1; 2; 3; 4].
Proof.
  destruct (memmove_copies (example_mem 100 20 [(104, [1; 2; 3; 4])]) 102 104 [1; 2; 3; 4]
    ltac:(lia) ltac:(lia) ltac:(by concrete_mem) ltac:(by concrete_mem)) as (m' & E & Hb & _).
  exists m'. split; [exact E|exact Hb].
Defined.

(** strlcpy and strlcat never write beyond the [size] bytes of their buffer:
    they store the longest prefix that fits with its terminator and return the
    length the result would have had, so that truncation can be detected. *)
Theorem strlcpy_strlcat_bounded m dst src s d size
  (Hd : str_at m dst d) (Hs : str_at m src s) (Hm : mapped m dst size)
  (Hsize : Z.of_nat (length d) < size) (Hlen : Z.of_nat (length s + length d) < 2 ^ 64)
  (Hdis : dst + size <= src \/ src + Z.of_nat (length s) < dst) :
  (exists m', strlcpy dst src size m = Ok (Z.of_nat (length s), m') /\
     str_at m' dst (take (Z.to_nat (size - 1)) s) /\ same_outside dst size m m') /\
  (exists m', strlcat dst src size m = Ok (Z.of_nat (length s + length d), m') /\
     str_at m' dst (take (Z.to_nat (size - 1)) (d ++ s)) /\ same_outside dst size m m').
Proof.
  pose proof Hd as (Hd0 & Hdb & Hdc). pose proof Hs as (Hs0 & _). split.
  - set (n := Nat.min (Z.to_nat (size - 1)) (length s)).
    destruct (fun H => H : wp (strlcpy dst src size) (fun r m' => r = Z.of_nat (length s) /\
       str_at m' dst (take (Z.to_nat (size - 1)) s) /\ same_outside dst size m m') m)
      as (r & m' & E & -> & H); [|by exists m'].
    apply wp_bind, wp_assert_ptr; [done|]. apply wp_bind, wp_assert_ptr; [done|].
    apply wp_bind, wp_strlen with s; [done|]. rewrite (proj2 (Z.gtb_lt size 0)) by lia. cbv zeta iota.
    replace (if Z.of_nat (length s) <? size - 1 then _ else _) with (Z.of_nat n)
      by (destruct (Z.ltb_spec (Z.of_nat (length s)) (size - 1)); lia).
    apply wp_bind, wp_copy_terminated with s; [done|done|lia| |lia|].
    + intros q Hq. apply Hm. lia.
    + intros m' Hs' Ho. apply wp_ret. split; [done|]. split.
      * replace (take (Z.to_nat (size - 1)) s) with (take n s) by (unfold n; by rewrite take_min).
        done.
      * eapply same_outside_mono; [exact Ho|lia|lia].
  - set (n := Nat.min (Z.to_nat (size - 1) - length d) (length s)).
    destruct (fun H => H : wp (strlcat dst src size) (fun r m' => r = Z.of_nat (length s + length d) /\
       str_at m' dst (take (Z.to_nat (size - 1)) (d ++ s)) /\ same_outside dst size m m') m)
      as (r & m' & E & -> & H); [|by exists m'].
    apply wp_bind, wp_assert_ptr; [done|]. apply wp_bind, wp_assert_ptr; [done|].
    apply wp_bind, wp_strlen with s; [done|]. apply wp_bind, wp_strlen with d; [done|].
    rewrite (proj2 (Z.gtb_lt size 0)), (proj2 (Z.ltb_lt _ _)) by lia. simpl andb. cbv zeta iota.
    replace (if Z.of_nat (length s) <? _ then _ else _) with (Z.of_nat n)
      by (destruct (Z.ltb_spec (Z.of_nat (length s)) (size - Z.of_nat (length d) - 1)); lia).
    apply wp_bind, wp_copy_terminated with s; [lia|done|lia| |lia|].
    + intros q Hq. apply Hm. lia.
    + intros m' Hs' Ho. apply wp_ret. split; [rewrite u64_small by (unfold is_u64; lia); lia|]. split.
      * replace (take (Z.to_nat (size - 1)) (d ++ s)) with (d ++ take n s)
          by (unfold n; rewrite take_min, take_app, (take_ge d) by lia; f_equal; f_equal; lia).
        apply (str_at_join m m' dst d (take n s)); [done|done|]. intros q Hq. apply Ho. lia.
      * eapply same_outside_mono; [exact Ho|lia|lia].
Qed.

Lemma strlcpy_strlcat_bounded_witness :
  let m := example_mem 100 100 [(110, [97; 98; 0]); (150, [99; 100; 101; 0])] in
  (exists m', strlcpy 110 150 4 m = Ok (3, m') /\ str_at m' 110 [99; 100; 101]) /\
  (exists m', strlcat 110 150 4 m = Ok (5, m') /\ str_at m' 110 [97; 98; 99]).
Proof.
  destruct (strlcpy_strlcat_bounded (example_mem 100 100 [(110, [97; 98; 0]); (150, [99; 100; 101; 0])])
    110 150 [99; 100; 101] [97; 98] 4 ltac:(concrete_mem) ltac:(concrete_mem) ltac:(concrete_mem)
    ltac:(simpl; lia) ltac:(simpl; lia) ltac:(simpl; lia)) as [(m1 & E1 & H1 & _) (m2 & E2 & H2 & _)].
  split; [exists m1; split; [exact E1|exact H1]|exists m2; split; [exact E2|exact H2]].
Defined.

(** Strtok_r skips the delimiters in front, cuts the longest run of other
    characters off as the token and leaves the saved pointer at what follows it;
    from a string of delimiters only it returns a null pointer and writes
    nothing. *)
Theorem strtok_r_token m p d s delims s0 save
  (Hs : str_at m p s) (Hd : str_at m d delims)
  (Hstart : s0 = p \/ s0 = null /\ save = p) :
  let '(skip, rest) := span (is_delim delims) s in
  let '(token, rest') := span (fun c => negb (is_delim delims c)) rest in
  let tp := p + Z.of_nat (length skip) in
  exists t save' m', strtok_r s0 d save m = Ok ((t, save'), m') /\
    match rest with
    | [] => t = null /\ save' = tp /\ m' = m
    | _ :: _ => t = tp /\ token <> [] /\ str_at m' tp token /\ str_at m' save' (tl rest') /\
        same_outside (tp + Z.of_nat (length token)) 1 m m'
    end.
Proof.
  pose proof Hs as (Hp & _). pose proof Hd as (Hd0 & _).
  destruct (span (is_delim delims) s) as [skip rest] eqn:E1.
  destruct (span _ rest) as [token rest'] eqn:E2.
  set (tp := p + Z.of_nat (length skip)).
  pose proof (span_app (is_delim delims) s) as A1. rewrite E1 in A1. simpl in A1.
  pose proof (span_app (fun c => negb (is_delim delims c)) rest) as A2. rewrite E2 in A2. simpl in A2.
  assert (wp (strtok_r s0 d save) (fun r m' => match rest with
    | [] => r = (null, tp) /\ m' = m
    | _ :: _ => r.1 = tp /\ token <> [] /\ str_at m' tp token /\ str_at m' r.2 (tl rest') /\
        same_outside (tp + Z.of_nat (length token)) 1 m m' end) m) as ([t save'] & m' & E & H).
  2:{ exists t, save', m'. split; [exact E|]. destruct rest; [|exact H].
      destruct H as [H ->]. by injection H as -> ->. }
  unfold strtok_r. apply wp_bind, wp_assert_ptr; [done|]. simpl.
  replace (if s0 =? null then save else s0) with p
    by (unfold null in *; destruct Hstart as [->|[-> ->]]; [by destruct (Z.eqb_spec p 0); [lia|]|done]).
  apply wp_bind, wp_assert_ptr; [done|]. apply wp_bind, wp_str_fuel with p s; [done|]. intros fuel Hf.
  apply wp_bind, wp_strtok_skip with delims s; [done|done|done|]. rewrite E1. fold tp.
  destruct rest as [|c rest]; [by apply wp_ret|]. simpl.
  assert (str_at m tp (c :: rest)) as Ht by (rewrite <-A1 in Hs; by apply str_at_app in Hs).
  assert (token <> []) as Hne by (by apply (token_nonempty (is_delim delims) s skip c rest token rest')).
  apply wp_bind, wp_strtok_token with delims (c :: rest);
    [done|done|rewrite <-A1, length_app in Hf; lia|]. rewrite E2. simpl fst.
  apply (wp_strtok_finish m tp token rest'); [by rewrite A2|].
  intros save' m' H1 H2 H3. simpl. done.
Qed.

Lemma strtok_r_token_witness :
  let m := example_mem 100 100 [(110, [32; 97; 98; 32; 99; 0]); (150, [32; 0])] in
  exists m', strtok_r 110 150 0 m = Ok ((111, 114), m') /\ str_at m' 111 [97; 98] /\ str_at m' 114 [99].
Proof.
  remember (example_mem 100 100 [(110, [32; 97; 98; 32; 99; 0]); (150, [32; 0])]) as m eqn:Em.
  assert (str_at m 110 [32; 97; 98; 32; 99]) as Hs by (rewrite Em; concrete_mem).
  assert (str_at m 150 [32]) as Hd by (rewrite Em; concrete_mem).
  pose proof (strtok_r_token m 110 150 [32; 97; 98; 32; 99] [32] 110 0 Hs Hd (or_introl eq_refl)) as H.
  simpl in H. destruct H as (t & save' & m' & E & Et & _ & H1 & H2 & _). exists m'.
  pose proof (f_equal (fun o => match o with Ok ((_, s), _) => s | _ => 0 end) E) as Es.
  rewrite Em in Es. vm_compute in Es. symmetry in Es.
  rewrite Et, Es in *. split; [exact E|]. split; [exact H1|exact H2].
Defined.

(** Strstr returns the first position at which the needle occurs, and a null
    pointer exactly when it occurs nowhere. *)
Theorem strstr_first m h n hay needle (Hh : str_at m h hay) (Hn : str_at m n needle) :
  exists r, strstr h n m = Ok (r, m) /\
    ((r = null /\ forall j, ~ occurs_at needle hay j) \/
     exists j, r = h + Z.of_nat j /\ occurs_at needle hay j /\
       forall j', (j' < j)%nat -> ~ occurs_at needle hay j').
Proof.
  assert (wp (strstr h n) (fun r m' => m' = m /\
    ((r = null /\ forall j, ~ occurs_at needle hay j) \/
     exists j, r = h + Z.of_nat j /\ occurs_at needle hay j /\
       forall j', (j' < j)%nat -> ~ occurs_at needle hay j')) m) as (r & m' & E & -> & H).
  2:{ exists r. auto. }
  apply wp_bind, wp_strlen with hay; [done|]. apply wp_bind, wp_strlen with needle; [done|].
  rewrite Z.geb_leb. destruct (Z.leb_spec (Z.of_nat (length needle)) (Z.of_nat (length hay))).
  - apply (wp_strstr_loop m h n hay needle 0); [done|done|lia| |].
    + intros j _ Ho Hf. split; [done|]. right. exists j. split; [done|]. split; [done|].
      intros j' Hj'. apply Hf. lia.
    + intros Hnone. split; [done|]. left. split; [done|]. intros j. apply Hnone. lia.
  - apply wp_ret. split; [done|]. left. split; [done|]. intros j [Hj _]. lia.
Qed.

Lemma strstr_first_witness :
  let m := example_mem 100 100 [(110, [97; 97; 98; 97; 98; 0]); (150, [97; 98; 0])] in
  exists r, strstr 110 150 m = Ok (r, m) /\ r = 111.
Proof.
  destruct (strstr_first (example_mem 100 100 [(110, [97; 97; 98; 97; 98; 0]); (150, [97; 98; 0])])
    110 150 [97; 97; 98; 97; 98] [97; 98] ltac:(concrete_mem) ltac:(concrete_mem)) as (r & E & _).
  exists r. split; [exact E|].
  pose proof (f_equal (fun o => match o with Ok (r, _) => r | _ => 0 end) E) as Er.
  vm_compute in Er. exact (eq_sym Er).
Defined.
