(* ===== verification/KState.v ===== *)
(** * The state of the kernel's scheduler

    The data of threads/thread.h, threads/synch.h and devices/timer.c that
    scheduling and synchronisation work on, the interrupt flag, and the record of
    what a thread still has to do in the kernel when it is switched out.

    A uniprocessor kernel interleaves threads only where a thread gives up the
    processor and where an interrupt arrives. A kernel function is therefore a
    program in the state monad that runs until it returns or until [schedule]
    switches to another thread; in the second case its callers leave one [frame]
    each, which names the statements that run when the thread continues. *)

From S2P Require Import Prelude ListSpec.

(** ** Data *)

Inductive thread_status := THREAD_RUNNING | THREAD_READY | THREAD_BLOCKED | THREAD_DYING.
Inductive intr_level := INTR_OFF | INTR_ON.

#[export] Instance thread_status_eq_dec : EqDecision thread_status.
Proof. solve_decision. Defined.
#[export] Instance intr_level_eq_dec : EqDecision intr_level.
Proof. solve_decision. Defined.

(** Threads and locks are known by their addresses; 0 is the null pointer. *)
Definition nullp : Z := 0.

Definition PRI_MIN : Z := 0.
Definition PRI_DEFAULT : Z := 31.
Definition PRI_MAX : Z := 63.
Definition TIME_SLICE : Z := 4.
Definition TIMER_FREQ : Z := 100.
Definition TID_ERROR : Z := -1.

(** [donation] *)
Record donation : Type := Donation { d_priority : Z; d_donor : Z; d_lock : Z }.

(** [struct thread], the members that scheduling uses. [user] tells whether the
    thread has a page table of its own ([pml4 != NULL]). *)
Record thread : Type := Thread {
  tid : Z;
  status : thread_status;
  priority : Z;
  original_priority : Z;
  donations : list donation;
  pending_lock : Z;
  nice : Z;
  recent_cpu : Z;
  children_list : list Z;
  user : bool
}.

(** [struct semaphore] *)
Record semaphore : Type := Semaphore { value : Z; waiters : list Z }.

(** The semaphores: those a client declares, the one inside each lock, the one on
    the stack of a thread that waits for a condition, and the two inside each
    thread, [wait_sema] and [free_sema]. *)
Inductive sema_addr : Type :=
  | SPlain (a : Z) | SLock (l : Z) | SWait (t : Z) | SWaitSema (t : Z) | SFreeSema (t : Z).

#[export] Instance sema_addr_eq_dec : EqDecision sema_addr.
Proof. solve_decision. Defined.
#[export] Instance sema_addr_countable : Countable sema_addr.
Proof.
  refine (inj_countable'
    (fun s => match s with
      | SPlain a => (0%N, a) | SLock l => (1%N, l) | SWait t => (2%N, t)
      | SWaitSema t => (3%N, t) | SFreeSema t => (4%N, t) end)
    (fun x => match x with
      | (0%N, a) => SPlain a | (1%N, l) => SLock l | (2%N, t) => SWait t
      | (3%N, t) => SWaitSema t | (_, t) => SFreeSema t end) _).
  by intros [].
Defined.

(** [block_thread]: a sleeping thread and its wake-up tick. *)
Record block_thread : Type := BlockThread { bt_thread : Z; wakeup_tick : Z }.

(** What is left to do of a kernel function whose thread has been switched out. *)
Inductive frame : Type :=
  | K_start                              (* kernel_thread: before the thread function *)
  | K_thread_yield (old : intr_level)
  | K_sema_down (s : sema_addr) (old : intr_level)
  | K_sema_up (old : intr_level)
  | K_lock_acquire (l : Z)
  | K_lock_release
  | K_cond_wait_down (l t : Z)
  | K_cond_wait_acquire (l : Z)
  | K_cond_broadcast (c l : Z)
  | K_timer_sleep (old : intr_level)
  | K_create_locked (t : Z)              (* allocate_tid, after lock_acquire *)
  | K_create_tid (t tid : Z)             (* thread_create, after allocate_tid *)
  | K_thread_exit                        (* after process_exit *)
  | K_idle
  | K_iret.

(** Whether a kernel function returned, or was cut short because its thread [t]
    was switched out. *)
Inductive ctl : Type := Returned | Switched (t : Z).

(** ** The state *)

Record kstate : Type := KState {
  threads : gmap Z thread;           (* the live [struct thread]s *)
  semas : gmap sema_addr semaphore;
  locks : gmap Z Z;                  (* lock -> holder *)
  conds : gmap Z (list sema_addr);   (* condition -> waiters *)
  kstacks : gmap Z (list frame);     (* thread -> frames, the innermost first *)
  current : Z;                       (* running_thread () *)
  ready_list : list Z;
  idle_thread : Z;
  initial_thread : Z;
  destruction_req : list Z;
  all_list : list Z;
  next_tid : Z;
  thread_ticks : Z;
  idle_ticks : Z;
  kernel_ticks : Z;
  user_ticks : Z;
  thread_mlfqs : bool;
  load_avg : Z;
  level : intr_level;                (* the interrupt flag *)
  in_external_intr : bool;
  yield_on_return : bool;
  ticks : Z;
  block_thread_list : list block_thread;
  closet_tick : Z                    (* NULL, that is 0, for none *)
}.

(** ** Assignments to the members *)

Section Setters.
Implicit Type st : kstate.

Definition set_threads (v : gmap Z thread) st : kstate :=
  KState v (semas st) (locks st) (conds st) (kstacks st) (current st) (ready_list st)
    (idle_thread st) (initial_thread st) (destruction_req st) (all_list st)
    (next_tid st) (thread_ticks st) (idle_ticks st) (kernel_ticks st) (user_ticks st)
    (thread_mlfqs st) (load_avg st) (level st) (in_external_intr st)
    (yield_on_return st) (ticks st) (block_thread_list st) (closet_tick st).

Definition set_semas (v : gmap sema_addr semaphore) st : kstate :=
  KState (threads st) v (locks st) (conds st) (kstacks st) (current st) (ready_list st)
    (idle_thread st) (initial_thread st) (destruction_req st) (all_list st)
    (next_tid st) (thread_ticks st) (idle_ticks st) (kernel_ticks st) (user_ticks st)
    (thread_mlfqs st) (load_avg st) (level st) (in_external_intr st)
    (yield_on_return st) (ticks st) (block_thread_list st) (closet_tick st).

Definition set_locks (v : gmap Z Z) st : kstate :=
  KState (threads st) (semas st) v (conds st) (kstacks st) (current st) (ready_list st)
    (idle_thread st) (initial_thread st) (destruction_req st) (all_list st)
    (next_tid st) (thread_ticks st) (idle_ticks st) (kernel_ticks st) (user_ticks st)
    (thread_mlfqs st) (load_avg st) (level st) (in_external_intr st)
    (yield_on_return st) (ticks st) (block_thread_list st) (closet_tick st).

Definition set_conds (v : gmap Z (list sema_addr)) st : kstate :=
  KState (threads st) (semas st) (locks st) v (kstacks st) (current st) (ready_list st)
    (idle_thread st) (initial_thread st) (destruction_req st) (all_list st)
    (next_tid st) (thread_ticks st) (idle_ticks st) (kernel_ticks st) (user_ticks st)
    (thread_mlfqs st) (load_avg st) (level st) (in_external_intr st)
    (yield_on_return st) (ticks st) (block_thread_list st) (closet_tick st).

Definition set_kstacks (v : gmap Z (list frame)) st : kstate :=
  KState (threads st) (semas st) (locks st) (conds st) v (current st) (ready_list st)
    (idle_thread st) (initial_thread st) (destruction_req st) (all_list st)
    (next_tid st) (thread_ticks st) (idle_ticks st) (kernel_ticks st) (user_ticks st)
    (thread_mlfqs st) (load_avg st) (level st) (in_external_intr st)
    (yield_on_return st) (ticks st) (block_thread_list st) (closet_tick st).

Definition set_current (v : Z) st : kstate :=
  KState (threads st) (semas st) (locks st) (conds st) (kstacks st) v (ready_list st)
    (idle_thread st) (initial_thread st) (destruction_req st) (all_list st)
    (next_tid st) (thread_ticks st) (idle_ticks st) (kernel_ticks st) (user_ticks st)
    (thread_mlfqs st) (load_avg st) (level st) (in_external_intr st)
    (yield_on_return st) (ticks st) (block_thread_list st) (closet_tick st).

Definition set_ready_list (v : list Z) st : kstate :=
  KState (threads st) (semas st) (locks st) (conds st) (kstacks st) (current st) v
    (idle_thread st) (initial_thread st) (destruction_req st) (all_list st)
    (next_tid st) (thread_ticks st) (idle_ticks st) (kernel_ticks st) (user_ticks st)
    (thread_mlfqs st) (load_avg st) (level st) (in_external_intr st)
    (yield_on_return st) (ticks st) (block_thread_list st) (closet_tick st).

Definition set_destruction_req (v : list Z) st : kstate :=
  KState (threads st) (semas st) (locks st) (conds st) (kstacks st) (current st)
    (ready_list st) (idle_thread st) (initial_thread st) v (all_list st) (next_tid st)
    (thread_ticks st) (idle_ticks st) (kernel_ticks st) (user_ticks st)
    (thread_mlfqs st) (load_avg st) (level st) (in_external_intr st)
    (yield_on_return st) (ticks st) (block_thread_list st) (closet_tick st).

Definition set_all_list (v : list Z) st : kstate :=
  KState (threads st) (semas st) (locks st) (conds st) (kstacks st) (current st)
    (ready_list st) (idle_thread st) (initial_thread st) (destruction_req st) v
    (next_tid st) (thread_ticks st) (idle_ticks st) (kernel_ticks st) (user_ticks st)
    (thread_mlfqs st) (load_avg st) (level st) (in_external_intr st)
    (yield_on_return st) (ticks st) (block_thread_list st) (closet_tick st).

Definition set_next_tid (v : Z) st : kstate :=
  KState (threads st) (semas st) (locks st) (conds st) (kstacks st) (current st)
    (ready_list st) (idle_thread st) (initial_thread st) (destruction_req st)
    (all_list st) v (thread_ticks st) (idle_ticks st) (kernel_ticks st) (user_ticks st)
    (thread_mlfqs st) (load_avg st) (level st) (in_external_intr st)
    (yield_on_return st) (ticks st) (block_thread_list st) (closet_tick st).

Definition set_thread_ticks (v : Z) st : kstate :=
  KState (threads st) (semas st) (locks st) (conds st) (kstacks st) (current st)
    (ready_list st) (idle_thread st) (initial_thread st) (destruction_req st)
    (all_list st) (next_tid st) v (idle_ticks st) (kernel_ticks st) (user_ticks st)
    (thread_mlfqs st) (load_avg st) (level st) (in_external_intr st)
    (yield_on_return st) (ticks st) (block_thread_list st) (closet_tick st).

Definition set_idle_ticks (v : Z) st : kstate :=
  KState (threads st) (semas st) (locks st) (conds st) (kstacks st) (current st)
    (ready_list st) (idle_thread st) (initial_thread st) (destruction_req st)
    (all_list st) (next_tid st) (thread_ticks st) v (kernel_ticks st) (user_ticks st)
    (thread_mlfqs st) (load_avg st) (level st) (in_external_intr st)
    (yield_on_return st) (ticks st) (block_thread_list st) (closet_tick st).

Definition set_kernel_ticks (v : Z) st : kstate :=
  KState (threads st) (semas st) (locks st) (conds st) (kstacks st) (current st)
    (ready_list st) (idle_thread st) (initial_thread st) (destruction_req st)
    (all_list st) (next_tid st) (thread_ticks st) (idle_ticks st) v (user_ticks st)
    (thread_mlfqs st) (load_avg st) (level st) (in_external_intr st)
    (yield_on_return st) (ticks st) (block_thread_list st) (closet_tick st).

Definition set_user_ticks (v : Z) st : kstate :=
  KState (threads st) (semas st) (locks st) (conds st) (kstacks st) (current st)
    (ready_list st) (idle_thread st) (initial_thread st) (destruction_req st)
    (all_list st) (next_tid st) (thread_ticks st) (idle_ticks st) (kernel_ticks st) v
    (thread_mlfqs st) (load_avg st) (level st) (in_external_intr st)
    (yield_on_return st) (ticks st) (block_thread_list st) (closet_tick st).

Definition set_load_avg (v : Z) st : kstate :=
  KState (threads st) (semas st) (locks st) (conds st) (kstacks st) (current st)
    (ready_list st) (idle_thread st) (initial_thread st) (destruction_req st)
    (all_list st) (next_tid st) (thread_ticks st) (idle_ticks st) (kernel_ticks st)
    (user_ticks st) (thread_mlfqs st) v (level st) (in_external_intr st)
    (yield_on_return st) (ticks st) (block_thread_list st) (closet_tick st).

Definition set_level (v : intr_level) st : kstate :=
  KState (threads st) (semas st) (locks st) (conds st) (kstacks st) (current st)
    (ready_list st) (idle_thread st) (initial_thread st) (destruction_req st)
    (all_list st) (next_tid st) (thread_ticks st) (idle_ticks st) (kernel_ticks st)
    (user_ticks st) (thread_mlfqs st) (load_avg st) v (in_external_intr st)
    (yield_on_return st) (ticks st) (block_thread_list st) (closet_tick st).

Definition set_in_external_intr (v : bool) st : kstate :=
  KState (threads st) (semas st) (locks st) (conds st) (kstacks st) (current st)
    (ready_list st) (idle_thread st) (initial_thread st) (destruction_req st)
    (all_list st) (next_tid st) (thread_ticks st) (idle_ticks st) (kernel_ticks st)
    (user_ticks st) (thread_mlfqs st) (load_avg st) (level st) v (yield_on_return st)
    (ticks st) (block_thread_list st) (closet_tick st).

Definition set_yield_on_return (v : bool) st : kstate :=
  KState (threads st) (semas st) (locks st) (conds st) (kstacks st) (current st)
    (ready_list st) (idle_thread st) (initial_thread st) (destruction_req st)
    (all_list st) (next_tid st) (thread_ticks st) (idle_ticks st) (kernel_ticks st)
    (user_ticks st) (thread_mlfqs st) (load_avg st) (level st) (in_external_intr st) v
    (ticks st) (block_thread_list st) (closet_tick st).

Definition set_ticks (v : Z) st : kstate :=
  KState (threads st) (semas st) (locks st) (conds st) (kstacks st) (current st)
    (ready_list st) (idle_thread st) (initial_thread st) (destruction_req st)
    (all_list st) (next_tid st) (thread_ticks st) (idle_ticks st) (kernel_ticks st)
    (user_ticks st) (thread_mlfqs st) (load_avg st) (level st) (in_external_intr st)
    (yield_on_return st) v (block_thread_list st) (closet_tick st).

Definition set_block_thread_list (v : list block_thread) st : kstate :=
  KState (threads st) (semas st) (locks st) (conds st) (kstacks st) (current st)
    (ready_list st) (idle_thread st) (initial_thread st) (destruction_req st)
    (all_list st) (next_tid st) (thread_ticks st) (idle_ticks st) (kernel_ticks st)
    (user_ticks st) (thread_mlfqs st) (load_avg st) (level st) (in_external_intr st)
    (yield_on_return st) (ticks st) v (closet_tick st).

Definition set_closet_tick (v : Z) st : kstate :=
  KState (threads st) (semas st) (locks st) (conds st) (kstacks st) (current st)
    (ready_list st) (idle_thread st) (initial_thread st) (destruction_req st)
    (all_list st) (next_tid st) (thread_ticks st) (idle_ticks st) (kernel_ticks st)
    (user_ticks st) (thread_mlfqs st) (load_avg st) (level st) (in_external_intr st)
    (yield_on_return st) (ticks st) (block_thread_list st) v.

Definition set_status (v : thread_status) (t : thread) : thread :=
  Thread (tid t) v (priority t) (original_priority t) (donations t) (pending_lock t) (nice t) (recent_cpu t) (children_list t) (user t).
Definition set_priority (v : Z) (t : thread) : thread :=
  Thread (tid t) (status t) v (original_priority t) (donations t) (pending_lock t) (nice t) (recent_cpu t) (children_list t) (user t).
Definition set_original_priority (v : Z) (t : thread) : thread :=
  Thread (tid t) (status t) (priority t) v (donations t) (pending_lock t) (nice t) (recent_cpu t) (children_list t) (user t).
Definition set_donations (v : list donation) (t : thread) : thread :=
  Thread (tid t) (status t) (priority t) (original_priority t) v (pending_lock t) (nice t) (recent_cpu t) (children_list t) (user t).
Definition set_pending_lock (v : Z) (t : thread) : thread :=
  Thread (tid t) (status t) (priority t) (original_priority t) (donations t) v (nice t) (recent_cpu t) (children_list t) (user t).
Definition set_nice (v : Z) (t : thread) : thread :=
  Thread (tid t) (status t) (priority t) (original_priority t) (donations t) (pending_lock t) v (recent_cpu t) (children_list t) (user t).
Definition set_recent_cpu (v : Z) (t : thread) : thread :=
  Thread (tid t) (status t) (priority t) (original_priority t) (donations t) (pending_lock t) (nice t) v (children_list t) (user t).
Definition set_children_list (v : list Z) (t : thread) : thread :=
  Thread (tid t) (status t) (priority t) (original_priority t) (donations t) (pending_lock t) (nice t) (recent_cpu t) v (user t).
End Setters.

(** ** Access to the state *)

Abbreviation K := (M kstate).

(** The members of a live thread; a pointer to anything else is not to be
    followed. *)
Definition get_thread (t : Z) : K thread :=
  fun st => match threads st !! t with Some th => Ok (th, st) | None => Undef end.

Definition upd_thread (t : Z) (f : thread -> thread) : K unit :=
  get_thread t;; modify (fun st => set_threads (alter f t (threads st)) st).

Definition get_sema (s : sema_addr) : K semaphore :=
  fun st => match semas st !! s with Some x => Ok (x, st) | None => Undef end.

Definition put_sema (s : sema_addr) (x : semaphore) : K unit :=
  modify (fun st => set_semas (<[s := x]> (semas st)) st).

Definition get_holder (l : Z) : K Z :=
  fun st => match locks st !! l with Some x => Ok (x, st) | None => Undef end.

Definition set_holder (l h : Z) : K unit :=
  modify (fun st => set_locks (<[l := h]> (locks st)) st).

Definition get_cond (c : Z) : K (list sema_addr) :=
  fun st => match conds st !! c with Some x => Ok (x, st) | None => Undef end.

Definition put_cond (c : Z) (ws : list sema_addr) : K unit :=
  modify (fun st => set_conds (<[c := ws]> (conds st)) st).

(** [t->priority] for the elements of a scheduler list, which are live threads. *)
Definition prio (st : kstate) (t : Z) : Z :=
  match threads st !! t with Some th => priority th | None => 0 end.

(** ** Switched-out callers *)

(** [m] is called as the statement before those that [fr] stands for, [k]. *)
Definition push_frame (t : Z) (fr : frame) : K unit :=
  modify (fun st => set_kstacks (<[t := default [] (kstacks st !! t) ++ [fr]]> (kstacks st)) st).

Definition call (m : K ctl) (fr : frame) (k : K ctl) : K ctl :=
  c ← m;
  match c with
  | Returned => k
  | Switched t => push_frame t fr;; mret (Switched t)
  end.

(** ** threads/interrupt.c *)

Definition intr_get_level : K intr_level := gets level.
Definition intr_context : K bool := gets in_external_intr.

Definition intr_enable : K intr_level :=
  old ← intr_get_level; c ← intr_context;
  assertM (negb c);; modify (set_level INTR_ON);; mret old.

Definition intr_disable : K intr_level :=
  old ← intr_get_level; modify (set_level INTR_OFF);; mret old.

Definition intr_set_level (l : intr_level) : K intr_level :=
  match l with INTR_ON => intr_enable | INTR_OFF => intr_disable end.

Definition intr_yield_on_return : K unit :=
  c ← intr_context; assertM c;; modify (set_yield_on_return true).
