(* ===== verification/Thread.v ===== *)
(** * threads/thread.c: the scheduler

    Choosing, switching, blocking, unblocking and yielding threads, priorities,
    and the priorities of the multi-level feedback queue scheduler. *)

From S2P Require Import Prelude ListSpec FixedPoint KState.

(** ** Threads *)

Definition compare_priority (st : kstate) (a b : Z) : bool := prio st a >? prio st b.

Definition is_thread (t : Z) : K bool := gets (fun st => bool_decide (is_Some (threads st !! t))).

(** running_thread () with its checks. *)
Definition thread_current : K Z :=
  t ← gets current; th ← get_thread t;
  assertM (bool_decide (status th = THREAD_RUNNING));; mret t.

Definition thread_tid : K Z := t ← thread_current; th ← get_thread t; mret (tid th).
Definition thread_get_priority : K Z := t ← thread_current; th ← get_thread t; mret (priority th).
Definition thread_get_nice : K Z := t ← thread_current; th ← get_thread t; mret (nice th).

(** [list_insert_ordered (&ready_list, &t->elem, compare_priority, NULL)] *)
Definition ready_insert (t : Z) : K unit :=
  modify (fun st => set_ready_list (insert_ordered (compare_priority st) t (ready_list st)) st).

(** ** Switching *)

Definition next_thread_to_run : K Z :=
  rl ← gets ready_list;
  match rl with
  | [] => gets idle_thread
  | t :: rl => modify (set_ready_list rl);; mret t
  end.

(** Loading the page table of the next thread (process_activate) does not touch
    this state, and thread_launch is the change of [current]. *)
Definition schedule : K ctl :=
  curr ← gets current;
  next ← next_thread_to_run;
  l ← intr_get_level; assertM (bool_decide (l = INTR_OFF));;
  cth ← get_thread curr; assertM (bool_decide (status cth <> THREAD_RUNNING));;
  n ← is_thread next; assertM n;;
  upd_thread next (set_status THREAD_RUNNING);;
  modify (set_thread_ticks 0);;
  if negb (curr =? next) then
    cth ← get_thread curr; init ← gets initial_thread;
    (if bool_decide (status cth = THREAD_DYING) && negb (curr =? init)
     then modify (fun st => set_destruction_req
            (insert_ordered (compare_priority st) curr (destruction_req st)) st)
     else mret tt);;
    modify (set_current next);; mret (Switched curr)
  else mret Returned.

(** Frees the pages of the threads waiting for destruction. *)
Fixpoint destroy_loop (victims : list Z) : K unit :=
  match victims with
  | [] => mret tt
  | victim :: rest =>
      modify (set_destruction_req rest);;
      modify (fun st => set_threads (delete victim (threads st)) st);;
      destroy_loop rest
  end.

Definition do_schedule (s : thread_status) : K ctl :=
  l ← intr_get_level; assertM (bool_decide (l = INTR_OFF));;
  thread_current;;
  victims ← gets destruction_req; destroy_loop victims;;
  cur ← thread_current; upd_thread cur (set_status s);;
  schedule.

Definition thread_block : K ctl :=
  c ← intr_context; assertM (negb c);;
  l ← intr_get_level; assertM (bool_decide (l = INTR_OFF));;
  cur ← thread_current; upd_thread cur (set_status THREAD_BLOCKED);;
  schedule.

Definition thread_unblock (t : Z) : K unit :=
  b ← is_thread t; assertM b;;
  old ← intr_disable;
  th ← get_thread t; assertM (bool_decide (status th = THREAD_BLOCKED));;
  ready_insert t;;
  upd_thread t (set_status THREAD_READY);;
  intr_set_level old;; mret tt.

Definition thread_yield : K ctl :=
  curr ← thread_current;
  c ← intr_context; assertM (negb c);;
  old ← intr_disable;
  idle ← gets idle_thread;
  (if negb (curr =? idle) then ready_insert curr else mret tt);;
  call (do_schedule THREAD_READY) (K_thread_yield old) (intr_set_level old;; mret Returned).

(** ** Priorities *)

Definition compare_cur_next_priority : K ctl :=
  rl ← gets ready_list;
  match rl with
  | [] => mret Returned
  | _ =>
      modify (fun st => set_ready_list (stable_sort (compare_priority st) (ready_list st)) st);;
      rl ← gets ready_list;
      let next := hd nullp rl in
      nth ← get_thread next;
      cur ← thread_current; cth ← get_thread cur;
      if priority nth >? priority cth then
        c ← intr_context;
        if (c : bool) then intr_yield_on_return;; mret Returned else thread_yield
      else mret Returned
  end.

Definition thread_set_priority (new_priority : Z) : K ctl :=
  mlfqs ← gets thread_mlfqs;
  if (mlfqs : bool) then mret Returned
  else
    cur ← thread_current;
    upd_thread cur (set_original_priority new_priority);;
    cth ← get_thread cur;
    (match donations cth with
     | [] => upd_thread cur (set_priority new_priority)
     | d :: _ =>
         let first_priority := d_priority d in
         upd_thread cur (set_priority (if first_priority >? new_priority then first_priority else new_priority))
     end);;
    compare_cur_next_priority.

(** ** The multi-level feedback queue scheduler *)

Definition update_recent_cpu : K unit :=
  cur ← thread_current; cth ← get_thread cur;
  r ← lift (add_fp_int (recent_cpu cth) 1);
  upd_thread cur (set_recent_cpu r).

Definition update_load_avg : K unit :=
  rl ← gets ready_list;
  cur ← thread_current; idle ← gets idle_thread;
  let ready_threads := Z.of_nat (length rl) + (if negb (cur =? idle) then 1 else 0) in
  la ← gets load_avg;
  m ← lift (mul_fp_int la 59);
  term1 ← lift (div_fp_int m 60);
  one ← lift (int_to_fp 1);
  d ← lift (div_fp_int one 60);
  term2 ← lift (mul_fp_int d ready_threads);
  la' ← lift (add_fp term1 term2);
  modify (set_load_avg la').

Definition update_priority (t : Z) : K unit :=
  idle ← gets idle_thread;
  if t =? idle then mret tt
  else
    th ← get_thread t;
    q ← lift (div_fp_int (recent_cpu th) 4);
    r ← lift (fp_to_int_round q);
    n ← lift (int32 (nice th * 2));
    p ← lift (int32 (PRI_MAX - r));
    new_priority ← lift (int32 (p - n));
    let new_priority := if new_priority >? PRI_MAX then PRI_MAX else new_priority in
    let new_priority := if new_priority <? PRI_MIN then PRI_MIN else new_priority in
    upd_thread t (set_priority new_priority).

Fixpoint update_recent_cpu_loop (l : list Z) : K unit :=
  match l with
  | [] => mret tt
  | e :: rest =>
      entry ← get_thread e; idle ← gets idle_thread;
      (if bool_decide (status entry = THREAD_DYING) || (e =? idle) then mret tt
       else
         la ← gets load_avg;
         twice ← lift (mul_fp_int la 2);
         twice' ← lift (mul_fp_int la 2);
         denom ← lift (add_fp_int twice' 1);
         coeff ← lift (div_fp twice denom);
         m ← lift (mul_fp coeff (recent_cpu entry));
         n ← lift (int_to_fp (nice entry));
         r ← lift (add_fp m n);
         upd_thread e (set_recent_cpu r));;
      update_recent_cpu_loop rest
  end.

Definition update_recent_cpu_all : K unit := l ← gets all_list; update_recent_cpu_loop l.

Fixpoint update_priority_loop (l : list Z) : K unit :=
  match l with
  | [] => mret tt
  | e :: rest =>
      entry ← get_thread e; idle ← gets idle_thread;
      (if bool_decide (status entry = THREAD_DYING) || (e =? idle) then mret tt
       else update_priority e);;
      update_priority_loop rest
  end.

Definition update_all_priority : K ctl :=
  l ← gets all_list; update_priority_loop l;; compare_cur_next_priority.

Definition thread_set_nice (n : Z) : K ctl :=
  cur ← thread_current;
  upd_thread cur (set_nice n);;
  update_priority cur;;
  compare_cur_next_priority.

Definition thread_get_load_avg : K Z :=
  la ← gets load_avg; x ← lift (int32 (la * 100)); lift (fp_to_int_round x).

Definition thread_get_recent_cpu : K Z :=
  cur ← thread_current; cth ← get_thread cur;
  x ← lift (int32 (recent_cpu cth * 100)); lift (fp_to_int_round x).

(** ** The end of a thread *)

Definition thread_exit_tail : K ctl :=
  intr_disable;; do_schedule THREAD_DYING.

Section Exit.
(** process_exit of userprog/process.c, which may block. *)
Variable process_exit : K ctl.

Definition thread_exit : K ctl :=
  c ← intr_context; assertM (negb c);;
  call process_exit K_thread_exit thread_exit_tail.
End Exit.

(** One round of the idle thread's loop: interrupts are enabled again when the
    thread continues. *)
Definition idle : K ctl :=
  intr_disable;; call thread_block K_idle (intr_enable;; mret Returned).
