(* ===== verification/Synch.v ===== *)
(** * threads/synch.c: semaphores, locks with priority donation, conditions *)

From S2P Require Import Prelude ListSpec KState Thread.

(** ** Semaphores *)

Definition sema_init (s : sema_addr) (v : Z) : K unit := put_sema s (Semaphore v []).

(** The loop of sema_down. The condition is tested again each time the thread
    continues, by the frame; only when [thread_block] returns at once, with no
    other thread to run, is it tested here, until the fuel runs out. *)
Fixpoint sema_down_loop (fuel : nat) (s : sema_addr) (old : intr_level) : K ctl :=
  match fuel with
  | O => nofuelM
  | S fuel =>
      x ← get_sema s;
      if value x =? 0 then
        cur ← thread_current;
        st ← get;
        put_sema s (Semaphore (value x) (insert_ordered (compare_priority st) cur (waiters x)));;
        call thread_block (K_sema_down s old) (sema_down_loop fuel s old)
      else
        put_sema s (Semaphore (u32 (value x - 1)) (waiters x));;
        intr_set_level old;; mret Returned
  end.

Definition sema_down (s : sema_addr) : K ctl :=
  c ← intr_context; assertM (negb c);;
  old ← intr_disable; sema_down_loop 2 s old.

Definition sema_try_down (s : sema_addr) : K bool :=
  old ← intr_disable;
  x ← get_sema s;
  if value x >? 0 then
    put_sema s (Semaphore (u32 (value x - 1)) (waiters x));; intr_set_level old;; mret true
  else intr_set_level old;; mret false.

Definition sema_up (s : sema_addr) : K ctl :=
  old ← intr_disable;
  x ← get_sema s;
  st ← get;
  (match stable_sort (compare_priority st) (waiters x) with
   | [] => mret tt
   | t :: ws => put_sema s (Semaphore (value x) ws);; thread_unblock t
   end);;
  x ← get_sema s;
  put_sema s (Semaphore (u32 (value x + 1)) (waiters x));;
  call compare_cur_next_priority (K_sema_up old) (intr_set_level old;; mret Returned).

(** ** Locks *)

Definition compare_priority_for_donate (a b : donation) : bool := d_priority a >? d_priority b.

Definition lock_init (l : Z) : K unit := set_holder l nullp;; sema_init (SLock l) 1.

Definition lock_held_by_current_thread (l : Z) : K bool :=
  h ← get_holder l; cur ← thread_current; mret (h =? cur).

Section Memory.
(** Whether malloc finds memory for the donations of this call; a null pointer is
    not tested before it is used. *)
Variable mem_ok : bool.

Definition create_donation (t l : Z) : K donation :=
  if mem_ok then p ← thread_get_priority; mret (Donation p t l) else lift Undef.

(** The chain of holders, each blocked on the next lock. *)
Fixpoint donate_loop (fuel : nat) (cur pending : Z) : K unit :=
  match fuel with
  | O => nofuelM
  | S fuel =>
      if pending =? nullp then mret tt
      else
        holder ← get_holder pending;
        if holder =? nullp then mret tt
        else
          p ← thread_get_priority; hth ← get_thread holder;
          if p <? priority hth then mret tt
          else
            donate ← create_donation cur pending;
            p ← thread_get_priority; hth ← get_thread holder;
            (if priority hth <? p
             then p ← thread_get_priority; upd_thread holder (set_priority p) else mret tt);;
            upd_thread holder (fun th => set_donations
              (insert_ordered compare_priority_for_donate donate (donations th)) th);;
            hth ← get_thread holder;
            (if negb (pending_lock hth =? nullp) then
               x ← get_sema (SLock (pending_lock hth)); st ← get;
               put_sema (SLock (pending_lock hth))
                 (Semaphore (value x) (stable_sort (compare_priority st) (waiters x)))
             else mret tt);;
            donate_loop fuel cur (pending_lock hth)
  end.

(** After sema_down in lock_acquire. *)
Definition lock_acquire_tail (l : Z) : K ctl :=
  cur ← gets current;
  upd_thread cur (set_pending_lock nullp);;
  cur ← thread_current; set_holder l cur;; mret Returned.

Definition lock_acquire (fuel : nat) (l : Z) : K ctl :=
  c ← intr_context; assertM (negb c);;
  held ← lock_held_by_current_thread l; assertM (negb held);;
  cur ← thread_current;
  h ← get_holder l;
  (if negb (h =? nullp) then
     upd_thread cur (set_pending_lock l);;
     donate_loop fuel cur l
   else mret tt);;
  call (sema_down (SLock l)) (K_lock_acquire l) (lock_acquire_tail l).
End Memory.

Definition lock_try_acquire (l : Z) : K bool :=
  held ← lock_held_by_current_thread l; assertM (negb held);;
  success ← sema_try_down (SLock l);
  if (success : bool) then cur ← thread_current; set_holder l cur;; mret true else mret false.

(** The loop removes elements while it walks the list; a removed element keeps
    its link to the next one. *)
Definition remove_donation_for_lock (l : Z) : K unit :=
  cur ← thread_current;
  upd_thread cur (fun th => set_donations (base.filter (fun d => d_lock d <> l) (donations th)) th).

Definition recalc_priority : K unit :=
  cur ← thread_current;
  upd_thread cur (fun th => set_priority (original_priority th) th);;
  cth ← get_thread cur;
  match donations cth with
  | [] => mret tt
  | _ =>
      upd_thread cur (fun th => set_donations (stable_sort compare_priority_for_donate (donations th)) th);;
      cth ← get_thread cur;
      match donations cth with
      | d :: _ => if priority cth <? d_priority d then upd_thread cur (set_priority (d_priority d)) else mret tt
      | [] => lift Undef
      end
  end.

Definition lock_release (l : Z) : K ctl :=
  held ← lock_held_by_current_thread l; assertM held;;
  h ← get_holder l; assertM (negb (h =? nullp));;
  remove_donation_for_lock l;;
  recalc_priority;;
  set_holder l nullp;;
  call (sema_up (SLock l)) K_lock_release compare_cur_next_priority.

(** ** Condition variables *)

Definition cond_init (c : Z) : K unit := put_cond c [].

(** The priority of the first waiter, which decides the order of the elements. *)
Definition compare_priority_for_cond (st : kstate) (a b : sema_addr) : bool :=
  let ws s := match semas st !! s with Some x => waiters x | None => [] end in
  match ws a, ws b with
  | [], _ => false
  | _, [] => true
  | t1 :: _, t2 :: _ => prio st t1 >? prio st t2
  end.

Section CondMemory.
Variable mem_ok : bool.

Definition cond_wait_tail (fuel : nat) (l t : Z) : K ctl :=
  call (sema_down (SWait t)) (K_cond_wait_acquire l) (lock_acquire mem_ok fuel l).

Definition cond_wait (fuel : nat) (c l : Z) : K ctl :=
  ic ← intr_context; assertM (negb ic);;
  held ← lock_held_by_current_thread l; assertM held;;
  cur ← thread_current;
  sema_init (SWait cur) 0;;
  ws ← get_cond c; st ← get;
  put_cond c (insert_ordered (compare_priority_for_cond st) (SWait cur) ws);;
  call (lock_release l) (K_cond_wait_down l cur) (cond_wait_tail fuel l cur).
End CondMemory.

Definition cond_signal (c l : Z) : K ctl :=
  ic ← intr_context; assertM (negb ic);;
  held ← lock_held_by_current_thread l; assertM held;;
  ws ← get_cond c; st ← get;
  match stable_sort (compare_priority_for_cond st) ws with
  | [] => mret Returned
  | s :: rest => put_cond c rest;; sema_up s
  end.

(** Every round removes one waiter. *)
Fixpoint cond_broadcast_loop (fuel : nat) (c l : Z) : K ctl :=
  match fuel with
  | O => nofuelM
  | S fuel =>
      ws ← get_cond c;
      match ws with
      | [] => mret Returned
      | _ => call (cond_signal c l) (K_cond_broadcast c l) (cond_broadcast_loop fuel c l)
      end
  end.

Definition cond_broadcast (c l : Z) : K ctl :=
  ws ← get_cond c; cond_broadcast_loop (S (length ws)) c l.
