(* ===== verification/Timer.v ===== *)
(** * devices/timer.c: ticks and sleeping threads

    The timer interrupt with what it triggers, timer_sleep, and interrupt entry
    and exit (intr_handler of threads/interrupt.c) for the timer's vector. *)

From S2P Require Import Prelude ListSpec FixedPoint KState Thread.

Definition timer_ticks : K Z :=
  old ← intr_disable; t ← gets ticks; intr_set_level old;; mret t.

Definition timer_elapsed (then_ : Z) : K Z := t ← timer_ticks; lift (int64 (t - then_)).

Definition compare_tick (a b : block_thread) : bool := wakeup_tick a <? wakeup_tick b.

(** The pointer returned by malloc is not tested: without memory the assignment
    through it is undefined. *)
Definition timer_sleep (mem_ok : bool) (n : Z) : K ctl :=
  l ← intr_get_level; assertM (bool_decide (l = INTR_ON));;
  cur ← thread_current;
  (if mem_ok then mret tt else lift Undef);;
  now ← timer_ticks;
  wakeup ← lift (int64 (now + n));
  let target := BlockThread cur wakeup in
  old ← intr_disable;
  ct ← gets closet_tick;
  (if (ct =? 0) || (ct >? wakeup_tick target) then modify (set_closet_tick (wakeup_tick target)) else mret tt);;
  modify (fun st => set_block_thread_list (insert_ordered compare_tick target (block_thread_list st)) st);;
  call thread_block (K_timer_sleep old) (intr_set_level old;; mret Returned).

(** Sleeping for [num/denom] seconds; less than a tick is a busy wait, which does
    not touch this state. *)
Definition real_time_sleep (mem_ok : bool) (num denom : Z) : K ctl :=
  n ← lift (int64 (num * TIMER_FREQ));
  let t := Z.quot n denom in
  l ← intr_get_level; assertM (bool_decide (l = INTR_ON));;
  if t >? 0 then timer_sleep mem_ok t
  else assertM (Z.rem denom 1000 =? 0);; mret Returned.

Definition timer_msleep (mem_ok : bool) (ms : Z) : K ctl := real_time_sleep mem_ok ms 1000.
Definition timer_usleep (mem_ok : bool) (us : Z) : K ctl := real_time_sleep mem_ok us (1000 * 1000).
Definition timer_nsleep (mem_ok : bool) (ns : Z) : K ctl := real_time_sleep mem_ok ns (1000 * 1000 * 1000).

(** ** The interrupt *)

Fixpoint wake_up_loop (l : list block_thread) (cur_tick : Z) : K unit :=
  match l with
  | [] => mret tt
  | entry :: next =>
      if wakeup_tick entry <=? cur_tick then
        modify (set_block_thread_list next);;
        thread_unblock (bt_thread entry);;
        wake_up_loop next cur_tick
      else mret tt
  end.

Definition wake_up (cur_tick : Z) : K unit :=
  l ← gets block_thread_list;
  wake_up_loop l cur_tick;;
  l ← gets block_thread_list;
  match l with
  | [] => modify (set_closet_tick 0)
  | entry :: _ => modify (set_closet_tick (wakeup_tick entry))
  end.

(** compare_cur_next_priority in an interrupt handler: it asks for a yield on
    return instead of switching, so it always returns. *)
Definition in_handler (m : K ctl) : K unit :=
  c ← m; match c with Returned => mret tt | Switched _ => panicM end.

Definition mlfqs_on_tick : K unit :=
  update_recent_cpu;;
  t ← timer_ticks;
  (if Z.rem t TIMER_FREQ =? 0 then update_load_avg;; update_recent_cpu_all else mret tt);;
  t ← timer_ticks;
  if Z.rem t 4 =? 0 then in_handler update_all_priority;; in_handler compare_cur_next_priority
  else mret tt.

Definition thread_tick : K unit :=
  t ← thread_current; th ← get_thread t; id ← gets idle_thread;
  (if t =? id then modify (fun st => set_idle_ticks (idle_ticks st + 1) st)
   else if user th then modify (fun st => set_user_ticks (user_ticks st + 1) st)
   else modify (fun st => set_kernel_ticks (kernel_ticks st + 1) st));;
  mlfqs ← gets thread_mlfqs;
  (if (mlfqs : bool) then mlfqs_on_tick else mret tt);;
  modify (fun st => set_thread_ticks (u32 (thread_ticks st + 1)) st);;
  n ← gets thread_ticks;
  if n >=? TIME_SLICE then intr_yield_on_return else mret tt.

Definition timer_interrupt : K unit :=
  modify (fun st => set_ticks (ticks st + 1) st);;
  thread_tick;;
  cur_tick ← timer_ticks;
  ct ← gets closet_tick;
  if negb (ct =? 0) && (cur_tick >=? ct) then wake_up cur_tick else mret tt.

(** intr_handler for an external interrupt whose handler is [handler]. *)
Definition intr_handler (handler : K unit) : K ctl :=
  l ← intr_get_level; assertM (bool_decide (l = INTR_OFF));;
  c ← intr_context; assertM (negb c);;
  modify (set_in_external_intr true);;
  modify (set_yield_on_return false);;
  handler;;
  l ← intr_get_level; assertM (bool_decide (l = INTR_OFF));;
  c ← intr_context; assertM c;;
  modify (set_in_external_intr false);;
  y ← gets yield_on_return;
  if (y : bool) then thread_yield else mret Returned.

(** The processor clears the interrupt flag on entry, which an interrupt gate
    does, and IRETQ restores it. *)
Definition timer_irq : K ctl :=
  modify (set_level INTR_OFF);;
  call (intr_handler timer_interrupt) K_iret (modify (set_level INTR_ON);; mret Returned).
