(* ===== verification/Machine.v ===== *)
(** * Thread creation and the kernel as a whole

    thread_create with allocate_tid, the continuation of switched-out functions,
    and the steps of the machine: the running thread calls a kernel function or
    goes on with one, the idle thread blocks, the timer interrupts. *)

From S2P Require Import Prelude ListSpec FixedPoint KState Thread Synch Timer.

(** ** Creation *)

(** The address of [tid_lock]. *)
Definition tid_lock : Z := 1.

(** Clearing the page leaves the thread no frames. *)
Definition init_thread (t p : Z) : K unit :=
  assertM (negb (t =? nullp));;
  assertM ((PRI_MIN <=? p) && (p <=? PRI_MAX));;
  mlfqs ← gets thread_mlfqs; init ← gets initial_thread;
  nr ← (if (mlfqs : bool) && negb (t =? init)
        then cur ← thread_current; cth ← get_thread cur; mret (nice cth, recent_cpu cth)
        else mret (0, 0));
  let '(n, r) := nr : Z * Z in
  modify (fun st => set_threads
    (<[t := Thread 0 THREAD_BLOCKED p p [] nullp n r [] false]> (threads st)) st);;
  modify (fun st => set_kstacks (<[t := []]> (kstacks st)) st);;
  modify (fun st => set_all_list (all_list st ++ [t]) st);;
  sema_init (SWaitSema t) 0;; sema_init (SFreeSema t) 0.

(** The first part of allocate_tid takes the lock, the second one is this. *)
Definition allocate_tid_tail (t : Z) (k : Z -> K ctl) : K ctl :=
  n ← gets next_tid; modify (set_next_tid (s32 (n + 1)));;
  call (lock_release tid_lock) (K_create_tid t n) (k n).

(** thread_create after allocate_tid. *)
Definition thread_create_tail (t new_tid : Z) : K ctl :=
  upd_thread t (fun th => Thread new_tid (status th) (priority th) (original_priority th)
    (donations th) (pending_lock th) (nice th) (recent_cpu th) (children_list th) (user th));;
  cur ← thread_current;
  upd_thread cur (fun th => set_children_list (children_list th ++ [t]) th);;
  push_frame t K_start;;
  thread_unblock t;;
  st ← get;
  if compare_priority st t cur then thread_yield else mret Returned.

Definition allocate_tid (mem_ok : bool) (fuel : nat) (t : Z) : K ctl :=
  call (lock_acquire mem_ok fuel tid_lock) (K_create_locked t)
    (allocate_tid_tail t (thread_create_tail t)).

(** [t] is the page that palloc_get_page gives, or a null pointer. *)
Definition thread_create (mem_ok : bool) (fuel : nat) (t p : Z) : K ctl :=
  thread_current;;
  if t =? nullp then mret Returned
  else
    init_thread t p;;
    mlfqs ← gets thread_mlfqs;
    (if (mlfqs : bool) then update_priority t else mret tt);;
    allocate_tid mem_ok fuel t.

(** kernel_thread enables interrupts before it calls the thread's function. *)
Definition kernel_thread_start : K ctl := intr_enable;; mret Returned.

(** ** Going on *)

(** The statements a frame stands for. *)
Definition resume_frame (mem_ok : bool) (fuel : nat) (fr : frame) : K ctl :=
  match fr with
  | K_start => kernel_thread_start
  | K_thread_yield old => intr_set_level old;; mret Returned
  | K_sema_down s old => sema_down_loop 2 s old
  | K_sema_up old => intr_set_level old;; mret Returned
  | K_lock_acquire l => lock_acquire_tail l
  | K_lock_release => compare_cur_next_priority
  | K_cond_wait_down l t => cond_wait_tail mem_ok fuel l t
  | K_cond_wait_acquire l => lock_acquire mem_ok fuel l
  | K_cond_broadcast c l => cond_broadcast c l
  | K_timer_sleep old => intr_set_level old;; mret Returned
  | K_create_locked t => allocate_tid_tail t (thread_create_tail t)
  | K_create_tid t n => thread_create_tail t n
  | K_thread_exit => thread_exit_tail
  | K_idle => intr_enable;; mret Returned
  | K_iret => modify (set_level INTR_ON);; mret Returned
  end.

(** The running thread goes on with its innermost frame; if it is switched out
    again its new frames come before the remaining ones. *)
Definition resume (mem_ok : bool) (fuel : nat) : K ctl :=
  cur ← gets current; ks ← gets kstacks;
  match default [] (ks !! cur) with
  | [] => mret Returned
  | fr :: rest =>
      modify (fun st => set_kstacks (<[cur := []]> (kstacks st)) st);;
      c ← resume_frame mem_ok fuel fr;
      modify (fun st => set_kstacks
        (<[cur := default [] (kstacks st !! cur) ++ rest]> (kstacks st)) st);;
      mret c
  end.

(** The kernel functions a thread may call. *)
Inductive call_op : Type :=
  | OpYield
  | OpSemaInit (a v : Z)
  | OpSemaDown (a : Z)
  | OpSemaTryDown (a : Z)
  | OpSemaUp (a : Z)
  | OpLockInit (l : Z)
  | OpLockAcquire (l : Z)
  | OpLockTryAcquire (l : Z)
  | OpLockRelease (l : Z)
  | OpCondInit (c : Z)
  | OpCondWait (c l : Z)
  | OpCondSignal (c l : Z)
  | OpCondBroadcast (c l : Z)
  | OpSetPriority (p : Z)
  | OpSetNice (n : Z)
  | OpSleep (n : Z)
  | OpCreate (t p : Z)
  | OpExit.

Definition run_op (mem_ok : bool) (fuel : nat) (o : call_op) : K ctl :=
  match o with
  | OpYield => thread_yield
  | OpSemaInit a v => sema_init (SPlain a) v;; mret Returned
  | OpSemaDown a => sema_down (SPlain a)
  | OpSemaTryDown a => sema_try_down (SPlain a);; mret Returned
  | OpSemaUp a => sema_up (SPlain a)
  | OpLockInit l => lock_init l;; mret Returned
  | OpLockAcquire l => lock_acquire mem_ok fuel l
  | OpLockTryAcquire l => lock_try_acquire l;; mret Returned
  | OpLockRelease l => lock_release l
  | OpCondInit c => cond_init c;; mret Returned
  | OpCondWait c l => cond_wait mem_ok fuel c l
  | OpCondSignal c l => cond_signal c l
  | OpCondBroadcast c l => cond_broadcast c l
  | OpSetPriority p => thread_set_priority p
  | OpSetNice n => thread_set_nice n
  | OpSleep n => timer_sleep mem_ok n
  | OpCreate t p => thread_create mem_ok fuel t p
  | OpExit => thread_exit (mret Returned)
  end.

(** ** The machine *)

(** The running thread has nothing left to do in the kernel. *)
Definition at_top (st : kstate) : Prop := default [] (kstacks st !! current st) = [].

(** No thread waits for the semaphore, if there is one at that address. *)
Definition unused (st : kstate) (s : sema_addr) : Prop :=
  match semas st !! s with Some x => waiters x = [] | None => True end.

(** What the kernel asks of its callers beyond what it asserts: an object is not
    initialised while it is in use, and palloc_get_page gives a page that is no
    thread's. *)
Definition op_ok (st : kstate) (o : call_op) : Prop :=
  match o with
  | OpSemaInit a _ => unused st (SPlain a)
  | OpLockInit l =>
      unused st (SLock l) /\
      match semas st !! SLock l with Some x => value x = 1 | None => locks st !! l = None end
  | OpCreate t _ =>
      threads st !! t = None /\ default [] (kstacks st !! t) = [] /\
      unused st (SWaitSema t) /\ unused st (SFreeSema t)
  | _ => True
  end.

Inductive kstep : kstate -> kstate -> Prop :=
  | step_call o mem_ok fuel st st' c :
      at_top st -> current st <> idle_thread st -> op_ok st o ->
      run_op mem_ok fuel o st = Ok (c, st') -> kstep st st'
  | step_resume mem_ok fuel st st' c :
      ~ at_top st -> resume mem_ok fuel st = Ok (c, st') -> kstep st st'
  | step_idle st st' c :
      at_top st -> current st = idle_thread st -> idle st = Ok (c, st') -> kstep st st'
  | step_timer st st' c :
      level st = INTR_ON -> timer_irq st = Ok (c, st') -> kstep st st'.

(** A run of calls by the threads, each followed by going on with whatever the
    thread that then runs has left. *)
Fixpoint finish (fuel : nat) (st : kstate) : outcome kstate :=
  match fuel with
  | O => NoFuel
  | S n =>
      match default [] (kstacks st !! current st) with
      | [] => mret st
      | _ => r ← resume true fuel st; finish n r.2
      end
  end.

Fixpoint run_calls (fuel : nat) (os : list call_op) (st : kstate) : outcome kstate :=
  match os with
  | [] => mret st
  | o :: os => r ← run_op true fuel o st; st' ← finish fuel r.2; run_calls fuel os st'
  end.
