(* ===== verification/SchedInv.v ===== *)
(** * The scheduler's invariant

    Which thread is where: the running thread, the ready list and the queues of
    blocked threads partition the threads that are not about to be destroyed.
    The invariant does not depend on the order of the lists, so it is stated up
    to the equivalence [≃] of states that agree on membership, and every kernel
    function preserves it. *)

From S2P Require Import Prelude ListSpec FixedPoint KState Thread Synch Timer Machine.

(** ** Partial correctness *)

(** Whenever [m] returns from [s], [Q] holds. *)
Definition pwp {S A} (m : M S A) (Q : A -> S -> Prop) (s : S) : Prop :=
  forall a s', m s = Ok (a, s') -> Q a s'.

Section PwpRules.
Context {S : Type}.
Implicit Type s : S.

Lemma pwp_ret {A} (a : A) (Q : A -> S -> Prop) s : Q a s -> pwp (mret a) Q s.
Proof. by intros H ? ? [= <- <-]. Qed.

Lemma pwp_bind {A B} (m : M S A) (f : A -> M S B) Q s :
  pwp m (fun a s' => pwp (f a) Q s') s -> pwp (m ≫= f) Q s.
Proof.
  intros H b s'. unfold mbind, M_mbind. destruct (m s) as [[a s1]| | |] eqn:E; [|done..].
  apply (H a s1 E).
Qed.

Lemma pwp_gets {A} (f : S -> A) (Q : A -> S -> Prop) s : Q (f s) s -> pwp (gets f) Q s.
Proof. by intros H ? ? [= <- <-]. Qed.

Lemma pwp_get (Q : S -> S -> Prop) s : Q s s -> pwp get Q s.
Proof. by intros H ? ? [= <- <-]. Qed.

Lemma pwp_modify (f : S -> S) (Q : unit -> S -> Prop) s : Q tt (f s) -> pwp (modify f) Q s.
Proof. by intros H ? ? [= <- <-]. Qed.

Lemma pwp_assert (b : bool) (Q : unit -> S -> Prop) s : (b = true -> Q tt s) -> pwp (assertM b) Q s.
Proof. destruct b; intros H ? ?; [by intros [= <- <-]; apply H|done]. Qed.

Lemma pwp_lift {A} (o : outcome A) (Q : A -> S -> Prop) s :
  (forall a, o = Ok a -> Q a s) -> pwp (lift o) Q s.
Proof. unfold lift. intros H a s'. destruct o; try done. intros [= <- <-]. by apply H. Qed.

Lemma pwp_fail {A} (Q : A -> S -> Prop) s : pwp nofuelM Q s.
Proof. done. Qed.

Lemma pwp_panic {A} (Q : A -> S -> Prop) s : pwp panicM Q s.
Proof. done. Qed.

Lemma pwp_mono {A} (m : M S A) (P Q : A -> S -> Prop) s :
  pwp m P s -> (forall a s', P a s' -> Q a s') -> pwp m Q s.
Proof. intros H HPQ a s' E. apply HPQ, H, E. Qed.

Lemma pwp_use {A} (m : M S A) (Q : A -> S -> Prop) s a s' : m s = Ok (a, s') -> pwp m Q s -> Q a s'.
Proof. intros E H. by apply H. Qed.
End PwpRules.

Lemma pwp_get_thread t Q st :
  (forall th, threads st !! t = Some th -> Q th st) -> pwp (get_thread t) Q st.
Proof. intros H a s'. unfold get_thread. destruct (threads st !! t); [|done]. intros [= <- <-]. auto. Qed.

Lemma pwp_get_sema s Q st :
  (forall x, semas st !! s = Some x -> Q x st) -> pwp (get_sema s) Q st.
Proof. intros H a s'. unfold get_sema. destruct (semas st !! s); [|done]. intros [= <- <-]. auto. Qed.

Lemma pwp_get_holder l Q st :
  (forall x, locks st !! l = Some x -> Q x st) -> pwp (get_holder l) Q st.
Proof. intros H a s'. unfold get_holder. destruct (locks st !! l); [|done]. intros [= <- <-]. auto. Qed.

Lemma pwp_get_cond c Q st :
  (forall x, conds st !! c = Some x -> Q x st) -> pwp (get_cond c) Q st.
Proof. intros H a s'. unfold get_cond. destruct (conds st !! c); [|done]. intros [= <- <-]. auto. Qed.

Lemma pwp_upd_thread t f (Q : unit -> kstate -> Prop) st :
  (forall th, threads st !! t = Some th -> Q tt (set_threads (alter f t (threads st)) st)) ->
  pwp (upd_thread t f) Q st.
Proof. intros H. apply pwp_bind, pwp_get_thread. intros th Hth. apply pwp_modify, H with th, Hth. Qed.

Ltac pwp_step :=
  lazymatch goal with
  | |- pwp (mbind _ _) _ _ => apply pwp_bind
  | |- pwp (mret _) _ _ => apply pwp_ret
  | |- pwp get _ _ => apply pwp_get
  | |- pwp (gets _) _ _ => apply pwp_gets
  | |- pwp intr_get_level _ _ => apply pwp_gets
  | |- pwp intr_context _ _ => apply pwp_gets
  | |- pwp (is_thread _) _ _ => apply pwp_gets
  | |- pwp (modify _) _ _ => apply pwp_modify
  | |- pwp (put_sema _ _) _ _ => apply pwp_modify
  | |- pwp (put_cond _ _) _ _ => apply pwp_modify
  | |- pwp (set_holder _ _) _ _ => apply pwp_modify
  | |- pwp (ready_insert _) _ _ => apply pwp_modify
  | |- pwp nofuelM _ _ => apply pwp_fail
  | |- pwp panicM _ _ => apply pwp_panic
  | |- pwp (assertM _) _ _ => let H := fresh "Ha" in apply pwp_assert; intros H
  | |- pwp (lift _) _ _ => let a := fresh "a" in let H := fresh "Hl" in apply pwp_lift; intros a H
  | |- pwp (get_thread _) _ _ => let th := fresh "th" in let H := fresh "Hth" in apply pwp_get_thread; intros th H
  | |- pwp (get_sema _) _ _ => let x := fresh "x" in let H := fresh "Hx" in apply pwp_get_sema; intros x H
  | |- pwp (get_holder _) _ _ => let x := fresh "h" in let H := fresh "Hh" in apply pwp_get_holder; intros x H
  | |- pwp (get_cond _) _ _ => let x := fresh "ws" in let H := fresh "Hws" in apply pwp_get_cond; intros x H
  | |- pwp (upd_thread _ _) _ _ => let th := fresh "th" in let H := fresh "Hth" in apply pwp_upd_thread; intros th H
  end.
Ltac pwp_steps := repeat (pwp_step; cbn beta).

(** ** Membership *)

Definition status_of (st : kstate) (t : Z) : option thread_status := status <$> threads st !! t.

(** The threads that a thread_create cut short is still to make ready. *)
Definition frame_target (fr : frame) : list Z :=
  match fr with
  | K_create_locked t => [t]
  | K_create_tid t _ => [t]
  | _ => []
  end.

Definition targets (ks : gmap Z (list frame)) : list Z := map_to_list ks ≫= (fun p => p.2 ≫= frame_target).

(** The queues of blocked threads: the waiters of the semaphores, the sleeping
    threads and the threads that are being created. *)
Inductive queue : Type := QSema (s : sema_addr) | QSleep | QCreate.

#[export] Instance queue_eq_dec : EqDecision queue.
Proof. solve_decision. Defined.

Definition queue_list (st : kstate) (q : queue) : list Z :=
  match q with
  | QSema s => match semas st !! s with Some x => waiters x | None => [] end
  | QSleep => bt_thread <$> block_thread_list st
  | QCreate => targets (kstacks st)
  end.

(** Only the thread that waits for a condition uses the semaphore on its stack. *)
Definition wait_ok (s : sema_addr) (t : Z) : Prop :=
  match s with SWait u => u = t | _ => True end.

(** The idle thread leaves no frame from which it could go on to sleep. *)
Definition frame_ok (idle u : Z) (fr : frame) : Prop :=
  match fr with
  | K_sema_down s _ => u <> idle /\ wait_ok s u
  | K_cond_wait_down _ t => u <> idle /\ t = u
  | K_cond_wait_acquire _ | K_thread_exit => u <> idle
  | _ => True
  end.

Definition frames_ok (st : kstate) : Prop :=
  forall u fr, fr ∈ default [] (kstacks st !! u) -> frame_ok (idle_thread st) u fr.

(** States with the same threads in the same places, whatever their order and
    whatever their priorities. *)
Record same_places (st st' : kstate) : Prop := {
  sp_status t : status_of st' t = status_of st t;
  sp_current : current st' = current st;
  sp_idle : idle_thread st' = idle_thread st;
  sp_initial : initial_thread st' = initial_thread st;
  sp_ready : ready_list st' ≡ₚ ready_list st;
  sp_queue q : queue_list st' q ≡ₚ queue_list st q;
  sp_destruction : destruction_req st' ≡ₚ destruction_req st;
  sp_frames : frames_ok st' <-> frames_ok st
}.

Infix "≃" := same_places (at level 70) : type_scope.

#[export] Instance same_places_equiv : Equivalence same_places.
Proof.
  split.
  - intros st. by split.
  - intros st st' []. by split.
  - intros s1 s2 s3 [] []. split; intros; try congruence; etransitivity; eauto.
Qed.

(** ** The invariant *)

(** Everything but the running thread. *)
Record places_ok (st : kstate) : Prop := {
  po_ready_nodup : NoDup (ready_list st);
  po_ready t : t ∈ ready_list st <-> status_of st t = Some THREAD_READY /\ t <> idle_thread st;
  po_queue_nodup q : NoDup (queue_list st q);
  po_queue q t : t ∈ queue_list st q -> status_of st t = Some THREAD_BLOCKED /\ t <> idle_thread st;
  po_queue_once q q' t : t ∈ queue_list st q -> t ∈ queue_list st q' -> q = q';
  po_destruction t : t ∈ destruction_req st -> status_of st t = Some THREAD_DYING;
  po_destruction_nodup : NoDup (destruction_req st);
  po_idle : exists s, status_of st (idle_thread st) = Some s /\ s <> THREAD_DYING;
  po_wait s t : t ∈ queue_list st (QSema s) -> wait_ok s t;
  po_frames : frames_ok st
}.

(** The running thread is the only one with that status. *)
Record sched_inv (st : kstate) : Prop := {
  si_places : places_ok st;
  si_current : status_of st (current st) = Some THREAD_RUNNING;
  si_running t : status_of st t = Some THREAD_RUNNING -> t = current st
}.

#[export] Instance places_ok_proper : Proper (same_places ==> iff) places_ok.
Proof.
  assert (forall st st', st ≃ st' -> places_ok st -> places_ok st') as H.
  { intros st st' E [H1 H2 H3 H4 H5 H6 H6' H7 H8 H9]. destruct E as [Es Ec Ei Ein Er Eq Ed Ex]. split.
    - by rewrite Er.
    - intros t. by rewrite Er, Es, Ei.
    - intros q. by rewrite Eq.
    - intros q t. rewrite Eq, Es, Ei. apply H4.
    - intros q q' t. rewrite !Eq. apply H5.
    - intros t. rewrite Ed, Es. apply H6.
    - by rewrite Ed.
    - setoid_rewrite Es. by rewrite Ei.
    - intros s t. rewrite Eq. apply H8.
    - by apply Ex. }
  intros st st' E. split; [by apply H|]. by apply H; symmetry.
Qed.

#[export] Instance sched_inv_proper : Proper (same_places ==> iff) sched_inv.
Proof.
  assert (forall st st', st ≃ st' -> sched_inv st -> sched_inv st') as H.
  { intros st st' E [H1 H2 H3]. pose proof E as [Es Ec _ _ _ _ _ _]. split.
    - by rewrite <-E.
    - by rewrite Es, Ec.
    - intros t. rewrite Es, Ec. apply H3. }
  intros st st' E. split; [by apply H|]. by apply H; symmetry.
Qed.

Lemma sched_inv_same st st' : sched_inv st -> st ≃ st' -> sched_inv st'.
Proof. intros H E. by rewrite <-E. Qed.

(** ** Changes that move no thread *)

Lemma upd_same st t f th :
  threads st !! t = Some th -> status (f th) = status th ->
  st ≃ set_threads (alter f t (threads st)) st.
Proof.
  intros Ht Hf. split; try done. intros u. unfold status_of. simpl.
  destruct (decide (u = t)) as [->|Hne]; [|by rewrite lookup_alter_ne].
  rewrite lookup_alter_eq, Ht. simpl. by rewrite Hf.
Qed.

Lemma status_of_alter st t s u :
  status_of (set_threads (alter (set_status s) t (threads st)) st) u =
  if decide (u = t) then (fun _ => s) <$> status_of st t else status_of st u.
Proof.
  unfold status_of. simpl. destruct (decide (u = t)) as [->|Hne].
  - rewrite lookup_alter_eq. by destruct (threads st !! t).
  - by rewrite lookup_alter_ne.
Qed.

Lemma queue_put_sema st s x q :
  queue_list (set_semas (<[s := x]> (semas st)) st) q =
  if decide (q = QSema s) then waiters x else queue_list st q.
Proof.
  destruct q as [s'| |]; simpl;
    [|by destruct (decide (QSleep = QSema s))|by destruct (decide (QCreate = QSema s))].
  destruct (decide (s' = s)) as [->|Hne].
  - rewrite lookup_insert_eq. by destruct (decide (QSema s = QSema s)).
  - rewrite lookup_insert_ne by done. by destruct (decide (QSema s' = QSema s)) as [[=]|].
Qed.

Lemma put_sema_same st s v ws x :
  semas st !! s = Some x -> ws ≡ₚ waiters x ->
  st ≃ set_semas (<[s := Semaphore v ws]> (semas st)) st.
Proof.
  intros Hx Hws. split; try done. intros q. rewrite queue_put_sema.
  destruct (decide (q = QSema s)) as [->|]; [|done]. simpl. by rewrite Hx.
Qed.

Lemma sort_ready_same st c : st ≃ set_ready_list (stable_sort c (ready_list st)) st.
Proof. split; try done. simpl. apply stable_sort_perm. Qed.

Ltac same_places_tac := by split.

(** ** Destruction *)

Definition destroyed (st : kstate) : kstate :=
  set_threads (foldl (fun m v => delete v m) (threads st) (destruction_req st)) (set_destruction_req [] st).

Lemma destroy_loop_eq vs st :
  destruction_req st = vs -> destroy_loop vs st = Ok (tt, destroyed st).
Proof.
  revert st. induction vs as [|v vs IH]; intros st Hv; cbn [destroy_loop].
  - destruct st. unfold destroyed. simpl in *. by subst.
  - set (st1 := set_threads (delete v (threads st)) (set_destruction_req vs st)).
    transitivity (destroy_loop vs st1); [done|]. rewrite IH by done.
    destruct st. unfold destroyed, st1. simpl in *. by subst.
Qed.

Lemma lookup_foldl_delete {A} (m : gmap Z A) vs t :
  foldl (fun m v => delete v m) m vs !! t = if decide (t ∈ vs) then None else m !! t.
Proof.
  revert m. induction vs as [|v vs IH]; intros m; simpl; [done|]. rewrite IH.
  destruct (decide (t = v)) as [->|Hne].
  - rewrite (decide_True (P := v ∈ v :: vs)) by mem. case_decide; [done|apply lookup_delete_eq].
  - rewrite lookup_delete_ne by done. destruct (decide (t ∈ vs)), (decide (t ∈ v :: vs)); try done; exfalso; mem_all.
Qed.

Lemma status_of_destroyed st t :
  status_of (destroyed st) t = if decide (t ∈ destruction_req st) then None else status_of st t.
Proof. unfold status_of, destroyed. simpl. rewrite lookup_foldl_delete. by case_decide. Qed.

Lemma destroyed_alive st t s :
  places_ok st -> status_of st t = Some s -> s <> THREAD_DYING -> status_of (destroyed st) t = Some s.
Proof.
  intros Hp Ht Hs. rewrite status_of_destroyed. case_decide as Hd; [|done].
  apply (po_destruction _ Hp) in Hd. congruence.
Qed.

Lemma destroyed_places st : places_ok st -> places_ok (destroyed st).
Proof.
  intros Hp. pose proof Hp as [H1 H2 H3 H4 H5 H6 H6' H7 H8 H9]. split; try done.
  - intros t. simpl. rewrite H2, status_of_destroyed. case_decide as Hd; [|done].
    apply H6 in Hd. split; intros [E ?]; congruence.
  - intros q t Hq. destruct (H4 q t Hq) as [Hs Hi]. split; [|done]. by apply destroyed_alive.
  - intros t. simpl. by intros ?%elem_of_nil.
  - constructor.
  - destruct H7 as (s & Hs & Hne). exists s. split; [|done]. by apply destroyed_alive.
Qed.

(** ** Switching *)

(** The next thread, removed from the ready list, becomes the running one. *)
Lemma sched_inv_run st next rl :
  places_ok st -> (forall t, status_of st t <> Some THREAD_RUNNING) ->
  (ready_list st = next :: rl \/ ready_list st = [] /\ rl = [] /\ next = idle_thread st) ->
  let st1 := set_ready_list rl st in
  forall st', st' ≃ set_current next (set_threads (alter (set_status THREAD_RUNNING) next (threads st1)) st1) ->
  sched_inv st'.
Proof.
  intros [H1 H2 H3 H4 H5 H6 H6' H7 H8 H9] Hno Hnext st1 st' ->.
  assert (exists s, status_of st next = Some s /\ s <> THREAD_DYING /\ forall q, next ∉ queue_list st q) as (s & Hs & Hsd & Hq).
  { destruct Hnext as [E|(_ & _ & ->)].
    - destruct (proj1 (H2 next)) as [Hr Hi]; [rewrite E; mem|]. exists THREAD_READY.
      split_and!; [done|done|]. intros q Hq. apply H4 in Hq as [? _]. congruence.
    - destruct H7 as (s & Hs & Hd). exists s. split_and!; [done|done|]. intros q Hq.
      by apply H4 in Hq as [_ ?]. }
  assert (forall t, status_of (set_current next (set_threads (alter (set_status THREAD_RUNNING) next (threads st1)) st1)) t =
    if decide (t = next) then Some THREAD_RUNNING else status_of st t) as Hst.
  { intros t. transitivity (status_of (set_threads (alter (set_status THREAD_RUNNING) next (threads st1)) st1) t); [done|].
    rewrite status_of_alter. destruct (decide (t = next)); [|done]. unfold status_of in *. simpl. by rewrite Hs. }
  split; [split| |].
  - simpl. destruct Hnext as [E|(_ & -> & _)]; [|constructor]. rewrite E in H1. by apply NoDup_cons in H1 as [_ H1].
  - intros t. rewrite Hst. simpl. destruct Hnext as [E|(E & -> & ->)].
    + rewrite E in H1. apply NoDup_cons in H1 as [Hn1 _]. specialize (H2 t). rewrite E, elem_of_cons in H2.
      destruct (decide (t = next)) as [->|Hne]; [split; [done|by intros [? _]]|]. rewrite <-H2. tauto.
    + specialize (H2 t). rewrite E in H2. destruct (decide (t = idle_thread st)) as [->|]; [split; [by intros ?%elem_of_nil|by intros [? _]]|done].
  - done.
  - intros q t Hq'. rewrite Hst. destruct (H4 q t Hq') as [? ?].
    destruct (decide (t = next)) as [->|]; [by destruct (Hq q)|done].
  - done.
  - intros t Ht. rewrite Hst. apply H6 in Ht. destruct (decide (t = next)) as [->|]; [congruence|done].
  - done.
  - destruct H7 as (s' & Hs' & Hd'). setoid_rewrite Hst. simpl.
    case_decide; [by exists THREAD_RUNNING|by exists s'].
  - done.
  - done.
  - rewrite Hst. simpl. by destruct (decide (next = next)).
  - intros t. rewrite Hst. simpl. destruct (decide (t = next)); [done|]. intros E. by destruct (Hno t).
Qed.

Lemma sched_inv_add_destruction st t ds :
  sched_inv st -> status_of st t = Some THREAD_DYING -> t ∉ destruction_req st ->
  ds ≡ₚ t :: destruction_req st -> sched_inv (set_destruction_req ds st).
Proof.
  intros [[H1 H2 H3 H4 H5 H6 H6' H7 H8 H9] Hc Hr] Ht Hn Hds. split; [split; try done| |]; try done.
  - intros u Hu. change (status_of st u = Some THREAD_DYING). simpl in Hu.
    rewrite Hds, elem_of_cons in Hu. destruct Hu as [->|Hu]; [done|by apply H6].
  - simpl. rewrite Hds. by constructor.
Qed.

(** What holds when [schedule] is called: nothing runs, and the thread that gave
    up the processor is already where its new status says. *)
Record leaving (st : kstate) : Prop := {
  lv_places : places_ok st;
  lv_none t : status_of st t <> Some THREAD_RUNNING;
  lv_dying : status_of st (current st) = Some THREAD_DYING -> current st ∉ destruction_req st
}.

Lemma next_thread_eq st :
  next_thread_to_run st =
    Ok (hd (idle_thread st) (ready_list st), set_ready_list (tl (ready_list st)) st).
Proof. destruct st. unfold next_thread_to_run. simpl. by destruct ready_list. Qed.

(** A blocked thread that no queue holds; nothing but thread_unblock ends that. *)
Definition in_hand (st : kstate) (t : Z) : Prop :=
  status_of st t = Some THREAD_BLOCKED /\ t <> idle_thread st /\ forall q, t ∉ queue_list st q.

Definition stable (st st' : kstate) : Prop := forall t, in_hand st t -> in_hand st' t.

Lemma stable_trans s1 s2 s3 : stable s1 s2 -> stable s2 s3 -> stable s1 s3.
Proof. intros H1 H2 t H. auto. Qed.

Lemma same_stable st st' : st ≃ st' -> stable st st'.
Proof.
  intros [Es _ Ei _ _ Eq _ _] t (H1 & H2 & H3). split_and!; [by rewrite Es|by rewrite Ei|].
  intros q. rewrite Eq. apply H3.
Qed.

(** What every kernel function guarantees. *)
Definition good (st st' : kstate) : Prop := sched_inv st' /\ stable st st'.

Lemma good_same st st' st'' : good st st' -> st' ≃ st'' -> good st st''.
Proof.
  intros [H1 H2] E. split; [by rewrite <-E|]. eapply stable_trans; [exact H2|by apply same_stable].
Qed.

Lemma run_stable st next rl :
  places_ok st -> (ready_list st = next :: rl \/ ready_list st = [] /\ rl = [] /\ next = idle_thread st) ->
  stable st (set_current next (set_threads (alter (set_status THREAD_RUNNING) next (threads st)) (set_ready_list rl st))).
Proof.
  intros Hp Hnext t (Hs & Hi & Hq). split_and!; [|done|done].
  assert (t <> next) as Hne.
  { intros ->. destruct Hnext as [E|(_ & _ & ->)]; [|done].
    destruct (proj1 (po_ready _ Hp next)) as [? _]; [rewrite E; mem|congruence]. }
  transitivity (status_of (set_threads (alter (set_status THREAD_RUNNING) next (threads st)) st) t); [done|].
  rewrite status_of_alter. by destruct (decide (t = next)).
Qed.

Lemma pwp_schedule st : leaving st -> pwp schedule (fun _ => good st) st.
Proof.
  intros [Hp Hno Hdy]. unfold schedule. do 2 pwp_step. apply pwp_bind.
  intros next st1. rewrite next_thread_eq. intros [= <- <-].
  set (next := hd _ _). set (st1 := set_ready_list _ st).
  assert (ready_list st = next :: tl (ready_list st) \/
    ready_list st = [] /\ tl (ready_list st) = [] /\ next = idle_thread st) as Hnext.
  { unfold next. destruct (ready_list st); [by right|by left]. }
  pose proof (sched_inv_run st next (tl (ready_list st)) Hp Hno Hnext) as Hrun. simpl in Hrun. fold st1 in Hrun.
  pose proof (run_stable st next _ Hp Hnext) as Hstable. fold st1 in Hstable.
  set (st2 := set_current next (set_threads (alter (set_status THREAD_RUNNING) next (threads st1)) st1)) in *.
  assert (forall st', st' ≃ st2 -> good st st') as Hgood.
  { intros st' E. split; [by apply Hrun|]. apply stable_trans with st2; [exact Hstable|].
    apply same_stable. by symmetry. }
  pwp_steps. destruct (Z.eqb_spec (current st) next) as [E|Hne]; simpl; pwp_steps.
  - apply Hgood. by split.
  - assert (th1 = th) as -> by (simpl in *; rewrite lookup_alter_ne in Hth1 by done; congruence).
    destruct (bool_decide (status th = THREAD_DYING) && _) eqn:Ed; pwp_steps; [|apply Hgood; by split].
    apply andb_prop in Ed as [Ed%bool_decide_eq_true _].
    assert (status_of st (current st) = Some THREAD_DYING) as Hst by (unfold status_of; change (threads st) with (threads st1); rewrite Hth; cbn; congruence).
    assert (good st (set_destruction_req (current st :: destruction_req st) st2)) as Hg.
    { split; [|exact Hstable]. apply (sched_inv_add_destruction st2 (current st)); [by apply Hrun| | |done].
      + transitivity (status_of (set_threads (alter (set_status THREAD_RUNNING) next (threads st1)) st1) (current st));
          [done|]. rewrite status_of_alter. by destruct (decide (current st = next)).
      + by apply Hdy. }
    assert (forall ds, ds ≡ₚ current st :: destruction_req st ->
      good st (set_destruction_req ds st2)) as Hg'.
    { intros ds Hds. apply (good_same _ (set_destruction_req (current st :: destruction_req st) st2)); [done|by split; try exact Hds]. }
    match goal with |- good _ ?s =>
      apply (good_same st (set_destruction_req (destruction_req s) st2)); [apply Hg', insert_ordered_perm|by split] end.
Qed.

#[export] Instance leaving_proper : Proper (same_places ==> iff) leaving.
Proof.
  assert (forall st st', st ≃ st' -> leaving st -> leaving st') as H.
  { intros st st' E [H1 H2 H3]. pose proof E as [Es Ec _ _ _ _ Ed _]. split.
    - by rewrite <-E.
    - intros t. rewrite Es. apply H2.
    - rewrite Es, Ec, Ed. apply H3. }
  intros st st' E. split; [by apply H|]. by apply H; symmetry.
Qed.

(** The current thread with another status. *)
Definition cur_status (s : thread_status) (st : kstate) : kstate :=
  set_threads (alter (set_status s) (current st) (threads st)) st.

Lemma status_of_cur_status s st t :
  status_of (cur_status s st) t = if decide (t = current st) then (fun _ => s) <$> status_of st t else status_of st t.
Proof. unfold cur_status. rewrite status_of_alter. by case_decide; subst. Qed.

Lemma destroyed_cur_status s st :
  current st ∉ destruction_req st -> destroyed (cur_status s st) ≃ cur_status s (destroyed st).
Proof.
  intros Hn. split; try done. intros t.
  rewrite status_of_cur_status, !status_of_destroyed, status_of_cur_status.
  change (current (destroyed st)) with (current st).
  change (destruction_req (cur_status s st)) with (destruction_req st).
  destruct (decide (t = current st)) as [->|]; [|done]. by destruct (decide (current st ∈ destruction_req st)).
Qed.

Lemma destroyed_leaving st : leaving st -> leaving (destroyed st).
Proof.
  intros [H1 H2 H3]. split.
  - by apply destroyed_places.
  - intros t. rewrite status_of_destroyed. by case_decide.
  - intros _. simpl. by intros ?%elem_of_nil.
Qed.

Lemma pwp_thread_current st Q :
  (status_of st (current st) = Some THREAD_RUNNING -> Q (current st) st) -> pwp thread_current Q st.
Proof.
  intros H. unfold thread_current. pwp_steps. apply H. apply bool_decide_eq_true in Ha.
  unfold status_of. rewrite Hth. simpl. by f_equal.
Qed.

Lemma destroyed_stable st : places_ok st -> stable st (destroyed st).
Proof. intros Hp t (Hs & Hi & Hq). split_and!; [by apply destroyed_alive|done|done]. Qed.

Lemma good_trans s1 s2 s3 : stable s1 s2 -> good s2 s3 -> good s1 s3.
Proof. intros H1 [H2 H3]. split; [done|by apply stable_trans with s2]. Qed.

Lemma pwp_do_schedule s st :
  current st ∉ destruction_req st -> leaving (cur_status s st) ->
  pwp (do_schedule s) (fun _ => good (cur_status s st)) st.
Proof.
  intros Hn Hl. unfold do_schedule. pwp_steps. apply pwp_thread_current. intros _. pwp_steps.
  intros [] st1. rewrite destroy_loop_eq by done. intros [= <-]. pwp_steps.
  apply pwp_thread_current. intros _. pwp_steps.
  pose proof (destroyed_cur_status s st Hn) as E.
  eapply pwp_mono; [apply (pwp_schedule (cur_status s (destroyed st)))|].
  - rewrite <-E. by apply destroyed_leaving.
  - intros ? st' Hg. apply good_trans with (destroyed (cur_status s st)).
    + apply destroyed_stable, Hl.
    + eapply good_trans; [by apply same_stable, E|exact Hg].
Qed.

Lemma pwp_thread_block st :
  leaving (cur_status THREAD_BLOCKED st) ->
  pwp thread_block (fun _ => good (cur_status THREAD_BLOCKED st)) st.
Proof.
  intros Hl. unfold thread_block. pwp_steps. apply pwp_thread_current. intros _.
  pwp_steps. by apply pwp_schedule.
Qed.

(** ** Where the current thread goes *)

Lemma current_not_destroyed st : sched_inv st -> current st ∉ destruction_req st.
Proof. intros [Hp Hc _] Hd. apply (po_destruction _ Hp) in Hd. congruence. Qed.

Section Leave.
Context (st : kstate) (Hinv : sched_inv st).

Lemma leaving_none s t : s <> THREAD_RUNNING -> status_of (cur_status s st) t <> Some THREAD_RUNNING.
Proof.
  intros Hs. rewrite status_of_cur_status. pose proof (si_current st Hinv) as Hc. pose proof (si_running st Hinv) as Hr.
  destruct (decide (t = current st)) as [->|Hne]; [rewrite Hc; simpl; congruence|]. intros E. by apply Hr in E.
Qed.

(** The current thread is in no list. *)
Lemma current_nowhere : current st ∉ ready_list st /\ (forall q, current st ∉ queue_list st q).
Proof.
  pose proof (si_places st Hinv) as Hp. pose proof (si_current st Hinv) as Hc. split.
  - intros H. apply (po_ready _ Hp) in H as [H _]. congruence.
  - intros q H. apply (po_queue _ Hp) in H as [H _]. congruence.
Qed.

(** Threads in hand are not the running one and stay in hand. *)
Lemma in_hand_not_current t : in_hand st t -> t <> current st.
Proof. intros (Hs & _) ->. pose proof (si_current st Hinv). congruence. Qed.

Lemma leaving_stable s st' :
  (forall t, status_of st' t = status_of st t) -> current st' = current st ->
  idle_thread st' = idle_thread st ->
  (forall q t, t <> current st -> t ∈ queue_list st' q -> t ∈ queue_list st q) ->
  stable st (cur_status s st').
Proof.
  intros Es Ec Ei Eq t Ht. pose proof (in_hand_not_current t Ht) as Hne. destruct Ht as (Hs & Hi & Hq).
  split_and!.
  - rewrite status_of_cur_status, Ec, Es. by destruct (decide (t = current st)).
  - simpl. by rewrite Ei.
  - intros q Hin. by apply (Hq q), (Eq q t Hne).
Qed.

(** It blocks, in one queue or in none. *)
Lemma leaving_block (qo : option queue) st' :
  (qo <> None -> current st <> idle_thread st) ->
  (forall t, status_of st' t = status_of st t) -> current st' = current st ->
  idle_thread st' = idle_thread st -> ready_list st' ≡ₚ ready_list st ->
  destruction_req st' ≡ₚ destruction_req st ->
  kstacks st' = kstacks st ->
  (forall s, qo = Some (QSema s) -> wait_ok s (current st)) ->
  (forall q, queue_list st' q ≡ₚ if decide (qo = Some q) then current st :: queue_list st q else queue_list st q) ->
  leaving (cur_status THREAD_BLOCKED st').
Proof.
  intros Hidle Es Ec Ei Er Ed Ek Hwait Eq. pose proof (si_places st Hinv) as [H1 H2 H3 H4 H5 H6 H6' H7 H8 H9].
  destruct current_nowhere as [Hnr Hnq]. pose proof (si_current st Hinv) as Hcur.
  assert (forall t, status_of (cur_status THREAD_BLOCKED st') t =
    if decide (t = current st) then Some THREAD_BLOCKED else status_of st t) as Est.
  { intros t. rewrite status_of_cur_status, Ec, Es. case_decide; [subst; by rewrite Hcur|done]. }
  assert (forall q t, t ∈ queue_list (cur_status THREAD_BLOCKED st') q <->
    (qo = Some q /\ t = current st) \/ t ∈ queue_list st q) as Hq.
  { intros q t. change (queue_list (cur_status _ st') q) with (queue_list st' q). rewrite Eq.
    destruct (decide (qo = Some q)); rewrite ?elem_of_cons; naive_solver. }
  split; [split| |].
  - simpl. by rewrite Er.
  - intros t. simpl. rewrite Er, Est, Ei, H2. destruct (decide (t = current st)) as [->|]; [|done].
    split; [intros [? _]; congruence|by intros [? _]].
  - intros q. change (queue_list (cur_status _ st') q) with (queue_list st' q). rewrite Eq.
    destruct (decide (qo = Some q)); [|done]. by constructor.
  - intros q t. rewrite Hq, Est. simpl. rewrite Ei. intros [[E ->]|Ht].
    + destruct (decide (current st = current st)); [|done]. split; [done|]. apply Hidle. congruence.
    + destruct (H4 q t Ht) as [? ?]. by destruct (decide (t = current st)).
  - intros q q' t. rewrite !Hq. intros [[E ->]|Ht] [[E' ?]|Ht']; [congruence| | |by apply (H5 q q' t)].
    + by destruct (Hnq q').
    + subst. by destruct (Hnq q).
  - intros t. simpl. rewrite Ed, Est. intros Ht. apply H6 in Ht.
    destruct (decide (t = current st)) as [->|]; [congruence|done].
  - simpl. by rewrite Ed.
  - simpl. rewrite Ei. setoid_rewrite Est. destruct H7 as (s & Hs & Hd).
    destruct (decide (idle_thread st = current st)); [by exists THREAD_BLOCKED|by exists s].
  - intros s t. rewrite Hq. intros [[E ->]|Ht]; [by apply Hwait|by apply H8].
  - intros u fr. simpl. rewrite Ek, Ei. apply H9.
  - intros t. rewrite Est. destruct (decide (t = current st)); [done|]. intros E. by apply (si_running st Hinv) in E.
  - rewrite Est. simpl. rewrite Ec. by destruct (decide (current st = current st)).
Qed.

(** It becomes ready. *)
Lemma leaving_ready rl :
  rl ≡ₚ (if decide (current st = idle_thread st) then ready_list st else current st :: ready_list st) ->
  leaving (cur_status THREAD_READY (set_ready_list rl st)).
Proof.
  intros Er. pose proof (si_places st Hinv) as [H1 H2 H3 H4 H5 H6 H6' H7 H8 H9].
  destruct current_nowhere as [Hnr Hnq]. pose proof (si_current st Hinv) as Hcur.
  assert (forall t, status_of (cur_status THREAD_READY (set_ready_list rl st)) t =
    if decide (t = current st) then Some THREAD_READY else status_of st t) as Est.
  { intros t. rewrite status_of_cur_status. unfold status_of in *. simpl.
    destruct (decide (t = current st)) as [->|]; [|done]. by rewrite Hcur. }
  split; [split| |].
  - simpl. rewrite Er. case_decide; [done|by constructor].
  - intros t. simpl. rewrite Est, Er. destruct (decide (current st = idle_thread st)) as [E|E].
    + rewrite H2. destruct (decide (t = current st)) as [->|]; [|done]. split; intros [? ?]; congruence.
    + rewrite elem_of_cons, H2. destruct (decide (t = current st)) as [->|]; naive_solver.
  - done.
  - intros q t Ht. rewrite Est. destruct (H4 q t Ht) as [? ?]. destruct (decide (t = current st)) as [->|]; [|done].
    by destruct (Hnq q).
  - done.
  - intros t Ht. rewrite Est. apply H6 in Ht. destruct (decide (t = current st)) as [->|]; [congruence|done].
  - done.
  - simpl. setoid_rewrite Est. destruct H7 as (s & Hs & Hd).
    destruct (decide (idle_thread st = current st)); [by exists THREAD_READY|by exists s].
  - done.
  - done.
  - intros t. rewrite Est. destruct (decide (t = current st)); [done|]. intros E. by apply (si_running st Hinv) in E.
  - rewrite Est. simpl. by destruct (decide (current st = current st)).
Qed.

(** It exits. *)
Lemma leaving_exit : current st <> idle_thread st -> leaving (cur_status THREAD_DYING st).
Proof.
  intros Hi. pose proof (si_places st Hinv) as [H1 H2 H3 H4 H5 H6 H6' H7 H8 H9].
  destruct current_nowhere as [Hnr Hnq]. pose proof (si_current st Hinv) as Hcur.
  assert (forall t, status_of (cur_status THREAD_DYING st) t =
    if decide (t = current st) then Some THREAD_DYING else status_of st t) as Est.
  { intros t. rewrite status_of_cur_status. case_decide; [subst; by rewrite Hcur|done]. }
  split; [split| |]; try done.
  - intros t. simpl. rewrite Est, H2. destruct (decide (t = current st)) as [->|]; [|done].
    split; intros [? ?]; congruence.
  - intros q t Ht. rewrite Est. destruct (H4 q t Ht) as [? ?]. destruct (decide (t = current st)) as [->|]; [|done].
    by destruct (Hnq q).
  - intros t Ht. rewrite Est. apply H6 in Ht. by destruct (decide (t = current st)).
  - simpl. setoid_rewrite Est. destruct H7 as (s & Hs & Hd).
    destruct (decide (idle_thread st = current st)) as [E|]; [congruence|by exists s].
  - intros t. rewrite Est. destruct (decide (t = current st)); [done|]. intros E. by apply (si_running st Hinv) in E.
  - intros _. exact (current_not_destroyed st Hinv).
Qed.
End Leave.

(** ** Functions that keep the invariant *)

(** Functions that read the state only. *)
Definition reads {A} (m : K A) : Prop := forall st a st', m st = Ok (a, st') -> st' = st.

Lemma reads_bind {A B} (m : K A) (f : A -> K B) : reads m -> (forall a, reads (f a)) -> reads (m ≫= f).
Proof.
  intros Hm Hf st b st'. unfold mbind, M_mbind. destruct (m st) as [[a st1]| | |] eqn:E; try done.
  apply Hm in E as ->. apply Hf.
Qed.

Lemma reads_ret {A} (a : A) : reads (mret a).
Proof. by intros st ? ? [= _ <-]. Qed.
Lemma reads_gets {A} (f : kstate -> A) : reads (gets f).
Proof. by intros st ? ? [= _ <-]. Qed.
Lemma reads_get : reads get.
Proof. by intros st ? ? [= _ <-]. Qed.
Lemma reads_assert b : reads (assertM b).
Proof. destruct b; [|done]. by intros st ? ? [= _ <-]. Qed.
Lemma reads_lift {A} (o : outcome A) : reads (lift o).
Proof. destruct o; try done. by intros st ? ? [= _ <-]. Qed.
Lemma reads_panic {A} : reads (A := A) panicM.
Proof. done. Qed.
Lemma reads_nofuel {A} : reads (A := A) nofuelM.
Proof. done. Qed.
Lemma reads_get_thread t : reads (get_thread t).
Proof. intros st a st'. unfold get_thread. destruct (_ !! _); [|done]. by intros [= _ <-]. Qed.
Lemma reads_get_sema s : reads (get_sema s).
Proof. intros st a st'. unfold get_sema. destruct (_ !! _); [|done]. by intros [= _ <-]. Qed.
Lemma reads_get_holder l : reads (get_holder l).
Proof. intros st a st'. unfold get_holder. destruct (_ !! _); [|done]. by intros [= _ <-]. Qed.
Lemma reads_get_cond c : reads (get_cond c).
Proof. intros st a st'. unfold get_cond. destruct (_ !! _); [|done]. by intros [= _ <-]. Qed.

Lemma reads_level : reads intr_get_level.
Proof. apply reads_gets. Qed.
Lemma reads_context : reads intr_context.
Proof. apply reads_gets. Qed.
Lemma reads_is_thread t : reads (is_thread t).
Proof. apply reads_gets. Qed.

Create HintDb reads.
#[export] Hint Resolve reads_level reads_context reads_is_thread reads_bind reads_ret reads_gets reads_get reads_assert reads_lift reads_panic
  reads_nofuel reads_get_thread reads_get_sema reads_get_holder reads_get_cond : reads.

Lemma reads_thread_current : reads thread_current.
Proof. unfold thread_current. eauto 10 with reads. Qed.
Lemma reads_thread_get_priority : reads thread_get_priority.
Proof. unfold thread_get_priority. eauto using reads_thread_current with reads. Qed.
Lemma reads_lock_held l : reads (lock_held_by_current_thread l).
Proof. unfold lock_held_by_current_thread. eauto using reads_thread_current with reads. Qed.

#[export] Hint Resolve reads_thread_current reads_thread_get_priority reads_lock_held : reads.

(** Functions that do not switch: the current thread stays [c], the idle thread [i]. *)
Definition kept (i c : Z) (st st' : kstate) : Prop :=
  good st st' /\ idle_thread st' = i /\ current st' = c.

(** Functions that may switch to another thread. *)
Definition kept_ctl (i c : Z) (r : ctl) (st st' : kstate) : Prop :=
  good st st' /\ idle_thread st' = i /\
  match r with Returned => current st' = c | Switched t => t = c end.

Definition at_thread (i c : Z) (st : kstate) : Prop :=
  sched_inv st /\ idle_thread st = i /\ current st = c.

Definition keeps {A} (i c : Z) (m : K A) : Prop :=
  forall st, at_thread i c st -> pwp m (fun _ => kept i c st) st.

Definition keepsK (i c : Z) (m : K ctl) : Prop :=
  forall st, at_thread i c st -> pwp m (fun r => kept_ctl i c r st) st.

Lemma good_refl st : sched_inv st -> good st st.
Proof. intros H. split; [done|by intros t ?]. Qed.

Lemma kept_of_same i c st st' : at_thread i c st -> st ≃ st' -> kept i c st st'.
Proof.
  intros (H & Hi & Hc) E. pose proof E as [_ Ec Ei _ _ _ _ _]. split_and!; [|congruence..].
  apply good_same with st; [by apply good_refl|done].
Qed.

Lemma kept_refl i c st : at_thread i c st -> kept i c st st.
Proof. intros H. by apply kept_of_same. Qed.

Lemma kept_at i c st st' : kept i c st st' -> at_thread i c st'.
Proof. intros ([H _] & Hi & Hc). done. Qed.

Section KeepsRules.
Context (i c : Z).

Lemma keeps_ret {A} (a : A) : keeps i c (mret a).
Proof. intros st H. apply pwp_ret. by apply kept_refl. Qed.

Lemma keepsK_ret : keepsK i c (mret Returned).
Proof. intros st H. apply pwp_ret. by apply (kept_refl i c st). Qed.

Lemma keeps_bind {A B} (m : K A) (f : A -> K B) :
  keeps i c m -> (forall a, keeps i c (f a)) -> keeps i c (m ≫= f).
Proof.
  intros Hm Hf st H. apply pwp_bind. eapply pwp_mono; [by apply Hm|]. intros a st1 H1.
  eapply pwp_mono; [by apply Hf, (kept_at _ _ st)|]. intros b st2 [H2 ?]. split; [|done].
  apply good_trans with st1; [apply H1|done].
Qed.

Lemma keepsK_bind {A} (m : K A) (f : A -> K ctl) :
  keeps i c m -> (forall a, keepsK i c (f a)) -> keepsK i c (m ≫= f).
Proof.
  intros Hm Hf st H. apply pwp_bind. eapply pwp_mono; [by apply Hm|]. intros a st1 H1.
  eapply pwp_mono; [by apply Hf, (kept_at _ _ st)|]. intros b st2 [H2 ?]. split; [|done].
  apply good_trans with st1; [apply H1|done].
Qed.

Lemma keeps_modify f : (forall st, st ≃ f st) -> keeps i c (modify f).
Proof. intros Hf st H. apply pwp_modify. by apply kept_of_same. Qed.

Lemma keeps_upd t f : (forall th, status (f th) = status th) -> keeps i c (upd_thread t f).
Proof.
  intros Hf st H. apply pwp_upd_thread. intros th Hth. apply kept_of_same; [done|]. by apply upd_same with th.
Qed.

Lemma keeps_reads {A} (m : K A) : reads m -> keeps i c m.
Proof. intros Hm st H a st' E. apply Hm in E as ->. by apply kept_refl. Qed.

(** What the running thread is called. *)
Lemma keepsK_thread_current (f : Z -> K ctl) : keepsK i c (f c) -> keepsK i c (thread_current ≫= f).
Proof.
  intros Hf st H. apply pwp_bind, pwp_thread_current. intros _. destruct H as (? & ? & E).
  rewrite E. by apply Hf.
Qed.

Lemma keeps_thread_current {B} (f : Z -> K B) : keeps i c (f c) -> keeps i c (thread_current ≫= f).
Proof.
  intros Hf st H. apply pwp_bind, pwp_thread_current. intros _. destruct H as (? & ? & E).
  rewrite E. by apply Hf.
Qed.

Lemma keepsK_idle_thread (f : Z -> K ctl) : keepsK i c (f i) -> keepsK i c (gets idle_thread ≫= f).
Proof. intros Hf st H. pwp_steps. destruct H as (? & E & ?). rewrite E. by apply Hf. Qed.
End KeepsRules.

(** ** Frames *)

Lemma targets_insert ks u l : targets (<[u := l]> ks) ≡ₚ (l ≫= frame_target) ++ targets (delete u ks).
Proof.
  unfold targets. rewrite <-insert_delete_eq.
  by rewrite (map_to_list_insert (delete u ks) u l) by apply lookup_delete_eq.
Qed.

Lemma targets_lookup ks u : targets ks ≡ₚ (default [] (ks !! u) ≫= frame_target) ++ targets (delete u ks).
Proof.
  destruct (ks !! u) as [l|] eqn:E; simpl.
  - rewrite <-(insert_id ks u l) at 1 by done. apply targets_insert.
  - by rewrite delete_id.
Qed.

Lemma push_frame_targets st t fr :
  targets (<[t := default [] (kstacks st !! t) ++ [fr]]> (kstacks st)) ≡ₚ frame_target fr ++ targets (kstacks st).
Proof.
  rewrite targets_insert, (targets_lookup (kstacks st) t), bind_app. simpl.
  rewrite (right_id_L [] (++)). solve_Permutation.
Qed.

(** ** Threads that leave or join one queue *)

Record same_but (q : queue) (st st' : kstate) : Prop := {
  sb_status t : status_of st' t = status_of st t;
  sb_current : current st' = current st;
  sb_idle : idle_thread st' = idle_thread st;
  sb_ready : ready_list st' ≡ₚ ready_list st;
  sb_queue q' : q' <> q -> queue_list st' q' ≡ₚ queue_list st q';
  sb_destruction : destruction_req st' ≡ₚ destruction_req st;
  sb_frames : frames_ok st -> frames_ok st'
}.

(** Blocked threads taken out of a queue are in hand. *)
Lemma dequeue q l st st' :
  sched_inv st -> same_but q st st' -> queue_list st q ≡ₚ l ++ queue_list st' q ->
  good st st' /\ NoDup l /\ (forall t, t ∈ l -> in_hand st' t) /\ (forall t, in_hand st t -> t ∉ l).
Proof.
  intros [[H1 H2 H3 H4 H5 H6 H6' H7 H8 H9] Hc Hr] [Es Ec Ei Er Eq Ed Ef] El.
  assert (forall q' t, t ∈ queue_list st' q' -> t ∈ queue_list st q') as Hsub.
  { intros q' t Ht. destruct (decide (q' = q)) as [->|Hne]; [rewrite El; mem|by rewrite <-(Eq q' Hne)]. }
  pose proof (H3 q) as Hnd. rewrite El in Hnd. apply NoDup_app in Hnd as (Hl & Hdisj & Hq).
  split_and!; [split; [split; [split| |]|]| | |].
  - by rewrite Er.
  - intros t. by rewrite Er, Es, Ei.
  - intros q'. destruct (decide (q' = q)) as [->|Hne]; [done|by rewrite (Eq q' Hne)].
  - intros q' t Ht. rewrite Es, Ei. by apply (H4 q'), Hsub.
  - intros q1 q2 t Ht1 Ht2. by apply (H5 q1 q2 t); apply Hsub.
  - intros t. rewrite Ed, Es. apply H6.
  - by rewrite Ed.
  - setoid_rewrite Es. by rewrite Ei.
  - intros s t Ht. by apply H8, Hsub.
  - by apply Ef.
  - by rewrite Es, Ec.
  - intros t. rewrite Es, Ec. apply Hr.
  - intros t (Ht1 & Ht2 & Ht3). split_and!; [by rewrite Es|by rewrite Ei|]. intros q' Hq'. by apply (Ht3 q'), Hsub.
  - done.
  - intros t Ht. assert (t ∈ queue_list st q) as Hin by (rewrite El; mem). split_and!.
    + rewrite Es. by apply (H4 q).
    + rewrite Ei. by apply (H4 q).
    + intros q' Ht'. destruct (decide (q' = q)) as [->|Hne]; [by apply (Hdisj t)|].
      apply Hne. apply (H5 q' q t); [by apply Hsub|done].
  - intros t (_ & _ & Ht3) Hl'. apply (Ht3 q). rewrite El. mem.
Qed.

(** Threads in hand are put into a queue. *)
Lemma enqueue q l st st' :
  sched_inv st -> same_but q st st' -> queue_list st' q ≡ₚ l ++ queue_list st q ->
  NoDup l -> (forall t, t ∈ l -> in_hand st t) -> (forall s t, q = QSema s -> t ∈ l -> wait_ok s t) ->
  sched_inv st' /\ (forall u, u ∉ l -> in_hand st u -> in_hand st' u).
Proof.
  intros [[H1 H2 H3 H4 H5 H6 H6' H7 H8 H9] Hc Hr] [Es Ec Ei Er Eq Ed Ef] El Hnd Hhand Hwait.
  assert (forall q' t, t ∈ queue_list st' q' -> (q' = q /\ t ∈ l) \/ t ∈ queue_list st q') as Hsub.
  { intros q' t. destruct (decide (q' = q)) as [->|Hne]; [rewrite El; mem_all; naive_solver|rewrite (Eq q' Hne); tauto]. }
  split; [split; [split| |]|].
  - by rewrite Er.
  - intros t. by rewrite Er, Es, Ei.
  - intros q'. destruct (decide (q' = q)) as [->|Hne]; [|by rewrite (Eq q' Hne)].
    rewrite El. apply NoDup_app. split_and!; [done| |done]. intros t Ht. by apply (Hhand t Ht).
  - intros q' t. rewrite Es, Ei. intros [[-> Ht]|Ht]%Hsub; [|by apply (H4 q')].
    destruct (Hhand t Ht) as (? & ? & ?). done.
  - intros q1 q2 t [[-> Ht1]|Ht1]%Hsub [[-> Ht2]|Ht2]%Hsub; [done| | |by apply (H5 q1 q2 t)].
    + by destruct (Hhand t Ht1) as (_ & _ & Hn); destruct (Hn q2).
    + by destruct (Hhand t Ht2) as (_ & _ & Hn); destruct (Hn q1).
  - intros t. rewrite Ed, Es. apply H6.
  - by rewrite Ed.
  - setoid_rewrite Es. by rewrite Ei.
  - intros s t [[E Ht]|Ht]%Hsub; [by apply Hwait|by apply H8].
  - by apply Ef.
  - by rewrite Es, Ec.
  - intros t. rewrite Es, Ec. apply Hr.
  - intros u Hu (Hu1 & Hu2 & Hu3). split_and!; [by rewrite Es|by rewrite Ei|].
    intros q' [[-> ?]|Ht]%Hsub; [done|by apply (Hu3 q')].
Qed.

(** A frame is added to the thread that was switched out. *)
Lemma push_frame_frames st t fr :
  frame_ok (idle_thread st) t fr -> frames_ok st ->
  frames_ok (set_kstacks (<[t := default [] (kstacks st !! t) ++ [fr]]> (kstacks st)) st).
Proof.
  intros Hfr H u fr'. simpl. destruct (decide (u = t)) as [->|Hne].
  - rewrite lookup_insert_eq. simpl. rewrite elem_of_app, list_elem_of_singleton. intros [Hin| ->]; [by apply H|done].
  - rewrite lookup_insert_ne by done. apply H.
Qed.

Lemma push_frame_same_but st t fr :
  frame_ok (idle_thread st) t fr ->
  same_but QCreate st (set_kstacks (<[t := default [] (kstacks st !! t) ++ [fr]]> (kstacks st)) st).
Proof.
  intros Hfr. split; try done.
  - intros q Hq. by destruct q.
  - by apply push_frame_frames.
Qed.

(** ** Giving up the processor *)

Lemma pwp_and {S A} (m : M S A) P Q s : pwp m P s -> pwp m Q s -> pwp m (fun a s' => P a s' /\ Q a s') s.
Proof. intros HP HQ a s' E. split; [by apply HP|by apply HQ]. Qed.

Definition switched_from (c i : Z) (r : ctl) (st' : kstate) : Prop :=
  idle_thread st' = i /\ match r with Returned => current st' = c | Switched t => t = c end.

Lemma schedule_switched st :
  pwp schedule (switched_from (current st) (idle_thread st)) st.
Proof.
  unfold schedule. do 2 pwp_step. apply pwp_bind. intros next st1. rewrite next_thread_eq. intros [= <- <-].
  pwp_steps. destruct (Z.eqb_spec (current st) (hd (idle_thread st) (ready_list st))); simpl; pwp_steps; [done|].
  destruct (bool_decide _ && _); pwp_steps; done.
Qed.

Lemma do_schedule_switched s st :
  pwp (do_schedule s) (switched_from (current st) (idle_thread st)) st.
Proof.
  unfold do_schedule. pwp_steps. apply pwp_thread_current. intros _. pwp_steps.
  intros [] st1. rewrite destroy_loop_eq by done. intros [= <-]. pwp_steps.
  apply pwp_thread_current. intros _. pwp_steps.
  eapply pwp_mono; [apply schedule_switched|done].
Qed.

Lemma thread_block_switched st : pwp thread_block (switched_from (current st) (idle_thread st)) st.
Proof. unfold thread_block. pwp_steps. apply pwp_thread_current. intros _. pwp_steps.
  eapply pwp_mono; [apply schedule_switched|done]. Qed.

Section Leaving.
Context (i c : Z) (st0 st : kstate) (Hi : idle_thread st = i) (Hc : current st = c).

Lemma kept_do_schedule s :
  leaving (cur_status s st) -> current st ∉ destruction_req st -> stable st0 (cur_status s st) ->
  pwp (do_schedule s) (fun r => kept_ctl i c r st0) st.
Proof.
  intros Hl Hn Hs. eapply pwp_mono; [apply pwp_and; [by apply pwp_do_schedule|by apply do_schedule_switched]|].
  intros r st' [Hg [Hi' Hr]]. split_and!; [by apply good_trans with (cur_status s st)|congruence|].
  by rewrite Hc in Hr.
Qed.

Lemma kept_thread_block :
  leaving (cur_status THREAD_BLOCKED st) -> stable st0 (cur_status THREAD_BLOCKED st) ->
  pwp thread_block (fun r => kept_ctl i c r st0) st.
Proof.
  intros Hl Hs. eapply pwp_mono; [apply pwp_and; [by apply pwp_thread_block|by apply thread_block_switched]|].
  intros r st' [Hg [Hi' Hr]]. split_and!; [by apply good_trans with (cur_status THREAD_BLOCKED st)|congruence|].
  by rewrite Hc in Hr.
Qed.
End Leaving.

Section Call.
Context (i c : Z) (m : K ctl) (fr : frame) (k : K ctl).
Context (Htarget : frame_target fr = []) (Hok : frame_ok i c fr) (Hk : keepsK i c k).

Lemma pwp_call st0 st :
  pwp m (fun r => kept_ctl i c r st0) st -> pwp (call m fr k) (fun r => kept_ctl i c r st0) st.
Proof.
  intros Hm. unfold call. apply pwp_bind. eapply pwp_mono; [by apply Hm|].
  intros r st1 (Hg & Hi & Hr). destruct r as [|t].
  - eapply pwp_mono; [apply Hk|]. { split_and!; [apply Hg|done|done]. }
    intros r st2 (Hg2 & ?). split; [|done]. apply good_trans with st1; [apply Hg|done].
  - subst t. pwp_steps. unfold push_frame. pwp_steps.
    destruct (dequeue QCreate [] st1 (set_kstacks (<[c:=default [] (kstacks st1 !! c) ++ [fr]]> (kstacks st1)) st1)) as (Hg' & _).
    + apply Hg.
    + apply push_frame_same_but. by rewrite Hi.
    + simpl. by rewrite push_frame_targets, Htarget.
    + split; [|done]. apply good_trans with st1; [apply Hg|done].
Qed.

Lemma keepsK_call : keepsK i c m -> keepsK i c (call m fr k).
Proof. intros Hm st H. by apply pwp_call, Hm. Qed.
End Call.

Create HintDb keeps.

(** One step of a proof that a function keeps the invariant: control structure,
    reads, and assignments that move no thread. *)
Ltac keeps_step :=
  lazymatch goal with
  | |- keeps _ _ (mret _) => apply keeps_ret
  | |- keeps _ _ (mbind _ _) => apply keeps_bind; [|intros ?]
  | |- keeps _ _ (if ?b then _ else _) => destruct b
  | |- keeps _ _ (match ?x with _ => _ end) => destruct x
  | |- keeps _ _ (let _ := _ in _) => cbv zeta
  | |- keeps _ _ (modify _) => apply keeps_modify; intros ?; by split
  | |- keeps _ _ (set_holder _ _) => apply keeps_modify; intros ?; by split
  | |- keeps _ _ (put_cond _ _) => apply keeps_modify; intros ?; by split
  | |- keeps _ _ (upd_thread _ _) => apply keeps_upd; done
  | |- keeps _ _ _ => first [ solve [apply keeps_reads; eauto 10 with reads] | solve [eauto with keeps] ]
  end.
Ltac keeps_tac := repeat (keeps_step; cbn beta).

Lemma keeps_intr_enable i c : keeps i c intr_enable.
Proof. unfold intr_enable. keeps_tac. Qed.
Lemma keeps_intr_disable i c : keeps i c intr_disable.
Proof. unfold intr_disable. keeps_tac. Qed.
#[export] Hint Resolve keeps_intr_enable keeps_intr_disable : keeps.
Lemma keeps_intr_set_level i c l : keeps i c (intr_set_level l).
Proof. unfold intr_set_level. keeps_tac. Qed.
Lemma keeps_intr_yield_on_return i c : keeps i c intr_yield_on_return.
Proof. unfold intr_yield_on_return. keeps_tac. Qed.
#[export] Hint Resolve keeps_intr_set_level keeps_intr_yield_on_return : keeps.

