(* ===== verification/SchedKeeps.v ===== *)
(** * The scheduler's invariant, function by function

    Every function of threads/thread.c, threads/synch.c and devices/timer.c that
    the model has keeps the invariant, whichever way it ends: it returns to its
    caller, or its thread is switched out. *)

From S2P Require Import Prelude ListSpec FixedPoint KState Thread Synch Timer Machine SchedInv.

(** The rules of SchedInv, applied by the shape of the program. *)
Ltac keepsK_step :=
  lazymatch goal with
  | |- keepsK _ _ (mret Returned) => apply keepsK_ret
  | |- keepsK _ _ (thread_current ≫= _) => apply keepsK_thread_current
  | |- keepsK _ _ (gets idle_thread ≫= _) => apply keepsK_idle_thread
  | |- keepsK _ _ (mbind _ _) => apply keepsK_bind; [solve [keeps_tac]|intros ?]
  | |- keepsK _ _ (if ?b then _ else _) => destruct b
  | |- keepsK _ _ (match ?x with _ => _ end) => destruct x
  | |- keepsK _ _ (let _ := _ in _) => cbv zeta
  | |- keepsK _ _ (call _ _ _) => apply keepsK_call; [done|by repeat split| |]
  | |- keepsK _ _ _ => solve [eauto with keeps]
  end.
Ltac keepsK_tac := repeat (keepsK_step; cbn beta).

(** ** threads/thread.c *)

Lemma keepsK_thread_yield i c : keepsK i c thread_yield.
Proof.
  unfold thread_yield. do 3 keepsK_step. keepsK_step. rename a1 into old. keepsK_step. intros st (Hinv & Hi & Hc).
  apply pwp_bind.
  assert (forall rl, rl ≡ₚ (if decide (current st = idle_thread st) then ready_list st else current st :: ready_list st) ->
    pwp (call (do_schedule THREAD_READY) (K_thread_yield old) (intr_set_level old;; mret Returned))
      (λ r, kept_ctl i c r st) (set_ready_list rl st)) as Hgo.
  { intros rl Hrl. apply pwp_call; [done|done|keepsK_tac|]. apply kept_do_schedule; try done.
    - by apply leaving_ready.
    - by apply (current_not_destroyed st).
    - by apply leaving_stable. }
  destruct (Z.eqb_spec c i) as [E|E]; simpl; pwp_steps.
  - specialize (Hgo (ready_list st)). replace (set_ready_list (ready_list st) st) with st in Hgo by (by destruct st).
    apply Hgo. rewrite decide_True; [done|congruence].
  - apply Hgo. rewrite decide_False by congruence. rewrite <-Hc. apply insert_ordered_perm.
Qed.
#[export] Hint Resolve keepsK_thread_yield : keeps.

Lemma keeps_sort_ready i c : keeps i c (modify (fun st => set_ready_list (stable_sort (compare_priority st) (ready_list st)) st)).
Proof. apply keeps_modify. intros st. apply sort_ready_same. Qed.
#[export] Hint Resolve keeps_sort_ready : keeps.

Lemma keepsK_compare_cur_next_priority i c : keepsK i c compare_cur_next_priority.
Proof.
  unfold compare_cur_next_priority. keepsK_step. keepsK_step; [keepsK_tac|].
  apply keepsK_bind; [apply keeps_sort_ready|intros _]. keepsK_tac.
Qed.
#[export] Hint Resolve keepsK_compare_cur_next_priority : keeps.

Lemma keepsK_thread_set_priority i c p : keepsK i c (thread_set_priority p).
Proof. unfold thread_set_priority. keepsK_tac. Qed.

Lemma keeps_update_priority i c t : keeps i c (update_priority t).
Proof. unfold update_priority. keeps_tac. Qed.
#[export] Hint Resolve keepsK_thread_set_priority keeps_update_priority : keeps.

Lemma keepsK_thread_set_nice i c n : keepsK i c (thread_set_nice n).
Proof. unfold thread_set_nice. keepsK_tac. Qed.

Lemma keeps_update_recent_cpu i c : keeps i c update_recent_cpu.
Proof. unfold update_recent_cpu. keeps_tac. Qed.

Lemma keeps_update_load_avg i c : keeps i c update_load_avg.
Proof. unfold update_load_avg. keeps_tac. Qed.

Lemma keeps_update_recent_cpu_all i c : keeps i c update_recent_cpu_all.
Proof.
  assert (forall l, keeps i c (update_recent_cpu_loop l)) as H.
  { induction l as [|e rest IH]; cbn [update_recent_cpu_loop]; keeps_tac; exact IH. }
  unfold update_recent_cpu_all. apply keeps_bind; [keeps_tac|apply H].
Qed.

Lemma keepsK_update_all_priority i c : keepsK i c update_all_priority.
Proof.
  assert (forall l, keeps i c (update_priority_loop l)) as H.
  { induction l as [|e rest IH]; cbn [update_priority_loop]; keeps_tac; exact IH. }
  unfold update_all_priority. keepsK_step. apply keepsK_bind; [apply H|intros _]. keepsK_tac.
Qed.
#[export] Hint Resolve keepsK_thread_set_nice keeps_update_recent_cpu keeps_update_load_avg
  keeps_update_recent_cpu_all keepsK_update_all_priority : keeps.

(** A blocked thread that no queue holds becomes ready. *)
Lemma sched_inv_unblock st t rl :
  sched_inv st -> in_hand st t -> rl ≡ₚ t :: ready_list st ->
  let st' := set_threads (alter (set_status THREAD_READY) t (threads st)) (set_ready_list rl st) in
  sched_inv st' /\ forall u, u <> t -> in_hand st u -> in_hand st' u.
Proof.
  intros Hinv (Hs & Hi & Hq) Hrl st'. pose proof Hinv as [[H1 H2 H3 H4 H5 H6 H6' H7 H8 H9] Hc Hr].
  assert (forall u, status_of st' u = if decide (u = t) then Some THREAD_READY else status_of st u) as Est.
  { intros u. transitivity (status_of (set_threads (alter (set_status THREAD_READY) t (threads st)) st) u); [done|].
    rewrite status_of_alter. case_decide; [by rewrite Hs|done]. }
  assert (t ∉ ready_list st) as Hnr by (intros [? _]%H2; congruence).
  split; [split; [split| |]|].
  - simpl. rewrite Hrl. by constructor.
  - intros u. rewrite Est. simpl. rewrite Hrl, elem_of_cons, H2. destruct (decide (u = t)) as [->|]; naive_solver.
  - done.
  - intros q u Hu. rewrite Est. destruct (decide (u = t)) as [->|]; [by destruct (Hq q)|by apply (H4 q)].
  - done.
  - intros u Hu. rewrite Est. apply H6 in Hu. destruct (decide (u = t)) as [->|]; [congruence|done].
  - done.
  - setoid_rewrite Est. simpl. case_decide; [by exists THREAD_READY|done].
  - done.
  - done.
  - rewrite Est. simpl. destruct (decide (current st = t)) as [<-|]; [congruence|done].
  - intros u. rewrite Est. simpl. case_decide; [done|apply Hr].
  - intros u Hu (? & ? & ?). split_and!; [|done|done]. rewrite Est. by rewrite decide_False.
Qed.

(** Like [kept], but [t] need no longer be in hand. *)
Definition kept_but (t i c : Z) (st st' : kstate) : Prop :=
  at_thread i c st' /\ forall u, u <> t -> in_hand st u -> in_hand st' u.

Lemma kept_but_kept t i c s1 s2 s3 : kept_but t i c s1 s2 -> kept i c s2 s3 -> kept_but t i c s1 s3.
Proof. intros [H1 H2] [[H3 H4] H5]. split; [done|]. intros u Hu H. by apply H4, H2. Qed.

Lemma pwp_thread_unblock i c t st :
  at_thread i c st -> in_hand st t -> pwp (thread_unblock t) (fun _ => kept_but t i c st) st.
Proof.
  intros Hat Hhand. unfold thread_unblock, intr_disable. pwp_steps.
  destruct (sched_inv_unblock (set_level INTR_OFF st) t
    (insert_ordered (compare_priority (set_level INTR_OFF st)) t (ready_list st))) as [Hinv Hoth].
  - by apply (sched_inv_same st); [apply Hat|split].
  - by apply (same_stable st); [split|].
  - apply insert_ordered_perm.
  - match goal with |- pwp _ _ ?s => set (st2 := s) end.
    assert (kept_but t i c st st2) as H2.
    { split; [|exact Hoth]. split; [exact Hinv|apply Hat]. }
    eapply pwp_mono; [apply (keeps_intr_set_level i c _ st2), H2|]. intros ? s' Hk. pwp_steps. by apply (kept_but_kept t i c _ st2).
Qed.

(** After a change that keeps the invariant, a function that does. *)
Lemma kept_then i c st st1 (m : K ctl) :
  kept i c st st1 -> keepsK i c m -> pwp m (fun r => kept_ctl i c r st) st1.
Proof.
  intros H1 Hm. eapply pwp_mono; [apply Hm, (kept_at _ _ _ _ H1)|]. intros r st2 [H2 ?]. split; [|done].
  apply good_trans with st1; [apply H1|done].
Qed.

Lemma kept_trans i c s1 s2 s3 : kept i c s1 s2 -> kept i c s2 s3 -> kept i c s1 s3.
Proof. intros [[_ H1] _] [H2 ?]. split; [|done]. by apply good_trans with s2. Qed.

Lemma kept_then' {A} i c st st1 (m : K A) :
  kept i c st st1 -> keeps i c m -> pwp m (fun _ => kept i c st) st1.
Proof.
  intros H1 Hm. eapply pwp_mono; [apply Hm, (kept_at _ _ _ _ H1)|]. intros r st2 H2. by apply kept_trans with st1.
Qed.

Lemma kept_put_sema i c st s v ws x :
  at_thread i c st -> semas st !! s = Some x -> ws ≡ₚ waiters x ->
  kept i c st (set_semas (<[s := Semaphore v ws]> (semas st)) st).
Proof. intros H Hx Hws. apply kept_of_same; [done|]. by apply put_sema_same with x. Qed.

(** ** threads/synch.c *)

Lemma keepsK_sema_down_loop i c s n old : c <> i -> wait_ok s c -> keepsK i c (sema_down_loop n s old).
Proof.
  intros Hne Hw. revert old. induction n as [|n IH]; intros old; [done|]. cbn [sema_down_loop]. intros st (Hinv & Hi & Hc). pwp_steps.
  destruct (value x =? 0).
  - pwp_steps. apply pwp_thread_current. intros _. pwp_steps.
    set (st1 := set_semas _ st).
    apply pwp_call; [done|by split|apply IH|].
    assert (forall q, queue_list st1 q ≡ₚ if decide (Some (QSema s) = Some q) then current st :: queue_list st q else queue_list st q) as Hq.
    { intros q. unfold st1. rewrite queue_put_sema. destruct (decide (q = QSema s)) as [->|].
      - rewrite decide_True by done. simpl. rewrite Hx. apply insert_ordered_perm.
      - by rewrite decide_False by congruence. }
    apply kept_thread_block; try done.
    + apply (leaving_block st Hinv (Some (QSema s))); try done; [congruence|]. intros ? [= <-]. congruence.
    + apply leaving_stable; try done. intros q t Ht. rewrite Hq. case_decide; [|done].
      rewrite elem_of_cons. tauto.
  - pwp_step. pwp_step. cbn beta. apply kept_then; [by apply kept_put_sema with x|keepsK_tac].
Qed.
#[export] Hint Resolve keepsK_sema_down_loop : keeps.

Lemma keepsK_sema_down i c s : c <> i -> wait_ok s c -> keepsK i c (sema_down s).
Proof. intros Hne Hw. unfold sema_down. keepsK_tac. Qed.

Lemma keeps_sema_try_down i c s : keeps i c (sema_try_down s).
Proof.
  unfold sema_try_down. keeps_step; [keeps_tac|]. intros st Hat. pwp_steps.
  destruct (value x >? 0); [|by apply (keeps_bind i c); [keeps_tac|intros; keeps_tac|]].
  do 2 pwp_step. cbn beta. apply kept_then'; [by apply kept_put_sema with x|keeps_tac].
Qed.

(** The first waiter becomes ready. *)
Lemma keeps_sema_up_wake i c s x ws t st :
  at_thread i c st -> semas st !! s = Some x -> t :: ws ≡ₚ waiters x ->
  pwp (put_sema s (Semaphore (value x) ws);; thread_unblock t) (fun _ => kept i c st) st.
Proof.
  intros Hat Hx Hws. pwp_steps. set (st1 := set_semas _ st).
  assert (forall q, queue_list st1 q = if decide (q = QSema s) then ws else queue_list st q) as Eq.
  { intros q. unfold st1. by rewrite queue_put_sema. }
  destruct (dequeue (QSema s) [t] st st1) as (Hg & _ & Hhand & Hn); [apply Hat| | |].
  - split; try done. intros q Hq. by rewrite Eq, decide_False.
  - rewrite Eq, decide_True by done. simpl. rewrite Hx. by symmetry.
  - eapply pwp_mono; [apply (pwp_thread_unblock i c); [split_and!; [apply Hg|apply Hat..]|apply Hhand; mem]|].
    intros ? s' [Hat' Ho]. split; [split; [apply Hat'|]|apply Hat'].
    intros u Hu. apply Ho; [|by apply Hg]. intros ->. apply (Hn t Hu). mem.
Qed.

Lemma keepsK_sema_up i c s : keepsK i c (sema_up s).
Proof.
  unfold sema_up. keepsK_step. rename a into old. intros st Hat. pwp_steps.
  assert (forall st1, kept i c st st1 -> pwp (x ← get_sema s; put_sema s (Semaphore (u32 (value x + 1)) (waiters x));;
      call compare_cur_next_priority (K_sema_up old) (intr_set_level old;; mret Returned))
    (λ r, kept_ctl i c r st) st1) as Hgo.
  { intros st1 H1. do 4 (pwp_step; cbn beta). apply kept_then; [|keepsK_tac].
    apply kept_trans with st1; [done|]. apply kept_put_sema with x0; [by apply (kept_at _ _ st)|done..]. }
  pose proof (stable_sort_perm (compare_priority st) (waiters x)) as Hp.
  destruct (stable_sort _ _) as [|t ws]; [pwp_step; apply Hgo, kept_refl, Hat|].
  eapply pwp_mono; [by apply keeps_sema_up_wake|]. intros ?. apply Hgo.
Qed.
#[export] Hint Resolve keepsK_sema_down keeps_sema_try_down keepsK_sema_up : keeps.
#[export] Hint Extern 1 (wait_ok _ _) => by simpl : keeps.

Lemma kept_sema_init i c s v st :
  at_thread i c st -> unused st s -> kept i c st (set_semas (<[s := Semaphore v []]> (semas st)) st).
Proof.
  intros Hat Hu. apply kept_of_same; [done|]. split; try done. intros q. rewrite queue_put_sema.
  case_decide as E; [subst|done]. simpl. unfold unused in Hu. by destruct (semas st !! s) as [x|]; [rewrite Hu|].
Qed.

(** The semaphore on the stack of a running thread has no waiters. *)
Lemma wait_sema_unused i c st : at_thread i c st -> unused st (SWait c).
Proof.
  intros (Hinv & _ & Hc). unfold unused. destruct (semas st !! SWait c) as [x|] eqn:E; [|done].
  destruct (waiters x) as [|t ws] eqn:Ew; [done|]. exfalso.
  assert (t ∈ queue_list st (QSema (SWait c))) as Ht by (simpl; rewrite E, Ew; mem).
  pose proof (po_wait _ (si_places _ Hinv) _ _ Ht) as Hw. simpl in Hw. subst t.
  destruct (current_nowhere st Hinv) as [_ Hn]. apply (Hn (QSema (SWait c))). by rewrite Hc.
Qed.

Lemma keeps_sort_waiters i c s :
  keeps i c (x ← get_sema s; st ← get; put_sema s (Semaphore (value x) (stable_sort (compare_priority st) (waiters x)))).
Proof.
  intros st Hat. pwp_steps. apply kept_put_sema with x; [done|done|apply stable_sort_perm].
Qed.

Lemma reads_create_donation mem_ok t l : reads (create_donation mem_ok t l).
Proof. unfold create_donation. destruct mem_ok; eauto with reads. Qed.
#[export] Hint Resolve reads_create_donation : reads.

Lemma keeps_donate_loop i c mem_ok fuel cur l : keeps i c (donate_loop mem_ok fuel cur l).
Proof.
  revert l. induction fuel as [|fuel IH]; intros l; [done|]. cbn [donate_loop].
  repeat first [exact (IH _) | apply keeps_sort_waiters | keeps_step; cbn beta].
Qed.
#[export] Hint Resolve keeps_donate_loop : keeps.

Lemma keepsK_lock_acquire_tail i c l : keepsK i c (lock_acquire_tail l).
Proof. unfold lock_acquire_tail. keepsK_tac. Qed.
#[export] Hint Resolve keepsK_lock_acquire_tail : keeps.

Lemma keepsK_lock_acquire i c mem_ok fuel l : c <> i -> keepsK i c (lock_acquire mem_ok fuel l).
Proof. intros Hne. unfold lock_acquire. keepsK_tac. Qed.

Lemma keeps_lock_try_acquire i c l : keeps i c (lock_try_acquire l).
Proof. unfold lock_try_acquire. keeps_tac. Qed.

Lemma keeps_remove_donation i c l : keeps i c (remove_donation_for_lock l).
Proof. unfold remove_donation_for_lock. keeps_tac. Qed.

Lemma keeps_recalc_priority i c : keeps i c recalc_priority.
Proof. unfold recalc_priority. keeps_tac. Qed.
#[export] Hint Resolve keepsK_lock_acquire keeps_lock_try_acquire keeps_remove_donation keeps_recalc_priority : keeps.

Lemma keepsK_lock_release i c l : keepsK i c (lock_release l).
Proof. unfold lock_release. keepsK_tac. Qed.
#[export] Hint Resolve keepsK_lock_release : keeps.

Lemma keepsK_cond_wait_tail i c mem_ok fuel l : c <> i -> keepsK i c (cond_wait_tail mem_ok fuel l c).
Proof. intros Hne. unfold cond_wait_tail. keepsK_tac; by apply keepsK_sema_down. Qed.
#[export] Hint Resolve keepsK_cond_wait_tail : keeps.

Lemma keepsK_cond_wait i c mem_ok fuel co l : c <> i -> keepsK i c (cond_wait mem_ok fuel co l).
Proof.
  intros Hne. unfold cond_wait. do 5 keepsK_step. intros st Hat. pwp_step. unfold sema_init. pwp_step. cbn beta.
  apply kept_then; [by apply kept_sema_init, (wait_sema_unused i)|]. keepsK_tac.
Qed.

Lemma keepsK_cond_signal i c co l : keepsK i c (cond_signal co l).
Proof. unfold cond_signal. keepsK_tac. Qed.
#[export] Hint Resolve keepsK_cond_wait keepsK_cond_signal : keeps.

Lemma keepsK_cond_broadcast i c co l : keepsK i c (cond_broadcast co l).
Proof.
  assert (forall n, keepsK i c (cond_broadcast_loop n co l)) as H.
  { induction n as [|n IH]; [done|]. cbn [cond_broadcast_loop]. keepsK_tac. }
  unfold cond_broadcast. keepsK_tac.
Qed.

(** ** devices/timer.c *)

Lemma keeps_timer_ticks i c : keeps i c timer_ticks.
Proof. unfold timer_ticks. keeps_tac. Qed.
#[export] Hint Resolve keepsK_cond_broadcast keeps_timer_ticks : keeps.

Lemma keepsK_timer_sleep i c mem_ok n : c <> i -> keepsK i c (timer_sleep mem_ok n).
Proof.
  intros Hne. unfold timer_sleep. do 3 keepsK_step. keepsK_step. keepsK_step. rename a1 into now. keepsK_step. cbv zeta.
  keepsK_step. rename a2 into old. keepsK_step. keepsK_step. intros st (Hinv & Hi & Hc). do 2 pwp_step. cbn beta.
  set (st1 := set_block_thread_list _ st).
  apply pwp_call; [done|done|keepsK_tac|].
  assert (forall q, queue_list st1 q ≡ₚ if decide (Some QSleep = Some q) then current st :: queue_list st q else queue_list st q) as Hq.
  { intros [s| |]; [by rewrite decide_False by congruence| |by rewrite decide_False by congruence].
    rewrite decide_True by done. simpl. rewrite (insert_ordered_perm compare_tick). simpl. by rewrite Hc. }
  apply kept_thread_block; try done.
  - apply (leaving_block st Hinv (Some QSleep)); try done. congruence.
  - apply leaving_stable; try done. intros q t Ht. rewrite Hq. case_decide; [|done].
    rewrite elem_of_cons. tauto.
Qed.

Lemma unblock_sleepers t st :
  pwp (thread_unblock t) (fun _ st' => block_thread_list st' = block_thread_list st) st.
Proof. unfold thread_unblock, intr_disable. pwp_steps. by destruct (level st); simpl; unfold intr_enable, intr_disable; pwp_steps. Qed.

Lemma keeps_wake_up i c cur_tick : keeps i c (wake_up cur_tick).
Proof.
  assert (forall l st, at_thread i c st -> block_thread_list st = l -> pwp (wake_up_loop l cur_tick) (fun _ => kept i c st) st) as H.
  { induction l as [|e next IH]; intros st Hat Hl; cbn [wake_up_loop]; [by apply pwp_ret, kept_refl|].
    destruct (wakeup_tick e <=? cur_tick); [|by apply pwp_ret, kept_refl].
    do 2 pwp_step. cbn beta. set (st1 := set_block_thread_list next st).
    destruct (dequeue QSleep [bt_thread e] st st1) as (Hg & _ & Hhand & Hn); [apply Hat| | |].
    - split; try done. by intros [].
    - simpl. by rewrite Hl.
    - apply pwp_bind. apply pwp_mono with (P := fun _ st2 => kept_but (bt_thread e) i c st1 st2 /\ block_thread_list st2 = next).
      { apply pwp_and; [apply (pwp_thread_unblock i c); [split_and!; [apply Hg|apply Hat..]|apply Hhand; mem]|].
        apply unblock_sleepers. }
      intros _ st2 [[Hat2 Ho] Hl2]. eapply pwp_mono; [by apply (IH st2)|]. intros ? st3 H3.
      apply kept_trans with st2; [|done]. split; [split; [apply Hat2|]|apply Hat2].
      intros u Hu. apply Ho; [|by apply Hg]. intros ->. apply (Hn _ Hu). mem. }
  unfold wake_up. intros st Hat. pwp_steps. eapply pwp_mono; [by apply (H _ st)|]. intros ? st1 H1.
  apply kept_then'; [done|]. keeps_tac.
Qed.

Lemma keeps_in_handler i c m : keepsK i c m -> keeps i c (in_handler m).
Proof.
  intros Hm st Hat. unfold in_handler. apply pwp_bind. eapply pwp_mono; [by apply Hm|].
  intros [|t] st' H; [by apply pwp_ret|done].
Qed.
#[export] Hint Resolve keepsK_timer_sleep keeps_wake_up keeps_in_handler : keeps.

Lemma keeps_mlfqs_on_tick i c : keeps i c mlfqs_on_tick.
Proof. unfold mlfqs_on_tick. keeps_tac. Qed.
#[export] Hint Resolve keeps_mlfqs_on_tick : keeps.

Lemma keeps_thread_tick i c : keeps i c thread_tick.
Proof. unfold thread_tick. keeps_tac. Qed.
#[export] Hint Resolve keeps_thread_tick : keeps.

Lemma keeps_timer_interrupt i c : keeps i c timer_interrupt.
Proof. unfold timer_interrupt. keeps_tac. Qed.
#[export] Hint Resolve keeps_timer_interrupt : keeps.

Lemma keepsK_intr_handler i c h : keeps i c h -> keepsK i c (intr_handler h).
Proof. intros Hh. unfold intr_handler. keepsK_tac. Qed.
#[export] Hint Resolve keepsK_intr_handler : keeps.

Lemma keepsK_timer_irq i c : keepsK i c timer_irq.
Proof. unfold timer_irq. keepsK_tac. Qed.

(** ** Threads that are being created *)

(** Like [keepsK] for a function that has [t] in hand. *)
Definition creates (t i c : Z) (m : K ctl) : Prop :=
  forall st, at_thread i c st -> in_hand st t ->
  pwp m (fun r st' => sched_inv st' /\ (forall u, u <> t -> in_hand st u -> in_hand st' u) /\
    switched_from c i r st') st.

Lemma creates_bind {A} t i c (m : K A) (f : A -> K ctl) :
  keeps i c m -> (forall a, creates t i c (f a)) -> creates t i c (m ≫= f).
Proof.
  intros Hm Hf st Hat Hh. apply pwp_bind. eapply pwp_mono; [by apply Hm|]. intros a st1 H1.
  eapply pwp_mono; [apply Hf; [by apply (kept_at _ _ st)|by apply H1]|].
  intros r st2 (H2 & Ho & Hr). split_and!; [done| |done]. intros u Hu H. apply Ho; [done|by apply H1].
Qed.

Lemma creates_call t i c m fr k :
  frame_target fr = [t] -> frame_ok i c fr -> keepsK i c m -> creates t i c k -> creates t i c (call m fr k).
Proof.
  intros Hfr Hok Hm Hk st Hat Hh. unfold call. apply pwp_bind. eapply pwp_mono; [by apply Hm|].
  intros r st1 (Hg & Hi & Hr). destruct r as [|u].
  - eapply pwp_mono; [apply Hk|]. { split_and!; [apply Hg|done|done]. } { by apply Hg. }
    intros r st2 (H2 & Ho & Hr2). split_and!; [done| |done]. intros u Hu H. apply Ho; [done|by apply Hg].
  - subst u. unfold push_frame. pwp_steps.
    destruct (enqueue QCreate [t] st1 (set_kstacks (<[c:=default [] (kstacks st1 !! c) ++ [fr]]> (kstacks st1)) st1)) as (Hg' & Ho).
    + apply Hg.
    + apply push_frame_same_but. by rewrite Hi.
    + simpl. by rewrite push_frame_targets, Hfr.
    + apply NoDup_singleton.
    + intros u ->%list_elem_of_singleton. by apply Hg.
    + done.
    + split_and!; [done| |done..]. intros u Hu H. apply Ho; [mem_all|by apply Hg].
Qed.

Lemma keeps_push_start i c t : keeps i c (push_frame t K_start).
Proof.
  intros st Hat. unfold push_frame. pwp_steps.
  destruct (dequeue QCreate [] st (set_kstacks (<[t:=default [] (kstacks st !! t) ++ [K_start]]> (kstacks st)) st)) as (Hg & _).
  - apply Hat.
  - by apply push_frame_same_but.
  - simpl. by rewrite push_frame_targets.
  - split; [done|apply Hat].
Qed.
#[export] Hint Resolve keepsK_timer_irq keeps_push_start : keeps.

Lemma creates_tail t i c n : creates t i c (thread_create_tail t n).
Proof.
  unfold thread_create_tail. do 4 (apply creates_bind; [keeps_tac|intros ?]).
  intros st Hat Hh. apply pwp_bind. eapply pwp_mono; [by apply (pwp_thread_unblock i c)|].
  intros ? st1 [Hat1 Ho]. pwp_step. apply pwp_get. 
  assert (keepsK i c (if compare_priority st1 t a0 then thread_yield else mret Returned)) as Hk by keepsK_tac.
  eapply pwp_mono; [by apply Hk|]. intros r st2 (Hg & Hr). split_and!; [apply Hg| |apply Hr..].
  intros u Hu H. by apply Hg, Ho.
Qed.

Lemma creates_allocate_tail t i c : creates t i c (allocate_tid_tail t (thread_create_tail t)).
Proof.
  unfold allocate_tid_tail. do 2 (apply creates_bind; [keeps_tac|intros ?]).
  apply creates_call; [done|done|keepsK_tac|apply creates_tail].
Qed.

Lemma creates_allocate_tid t i c mem_ok fuel : c <> i -> creates t i c (allocate_tid mem_ok fuel t).
Proof.
  intros Hne. unfold allocate_tid. apply creates_call; [done|done|keepsK_tac|apply creates_allocate_tail].
Qed.

(** A page that is no thread's becomes a thread in hand. *)
Lemma sched_inv_new st t th :
  sched_inv st -> threads st !! t = None -> status th = THREAD_BLOCKED ->
  let st' := set_threads (<[t := th]> (threads st)) st in good st st' /\ in_hand st' t.
Proof.
  intros Hinv Ht Hth st'. pose proof Hinv as [[H1 H2 H3 H4 H5 H6 H6' H7 H8 H9] Hc Hr].
  assert (status_of st t = None) as Hn by (unfold status_of; by rewrite Ht).
  assert (forall u, status_of st' u = if decide (u = t) then Some THREAD_BLOCKED else status_of st u) as Est.
  { intros u. unfold status_of, st'. simpl. case_decide; [subst; rewrite lookup_insert_eq; simpl; by rewrite Hth|].
    by rewrite lookup_insert_ne. }
  assert (forall u s, status_of st u = Some s -> status_of st' u = Some s) as Hkeep.
  { intros u s Hs. rewrite Est. rewrite decide_False; [done|congruence]. }
  assert (t <> idle_thread st) as Hi by (destruct H7 as (? & ? & _); congruence).
  assert (forall q, t ∉ queue_list st q) as Hq by (intros q [? _]%H4; congruence).
  split; [split; [split; [split| |]|]|split_and!]; try done.
  - intros u. rewrite Est. simpl. rewrite H2. case_decide; [subst; split; intros [? ?]; congruence|done].
  - intros q u [Hu ?]%H4. split; [by apply Hkeep|done].
  - intros u Hu%H6. by apply Hkeep.
  - destruct H7 as (s & Hs & ?). exists s. split; [by apply Hkeep|done].
  - by apply Hkeep.
  - intros u. rewrite Est. case_decide; [done|apply Hr].
  - intros u (Hu & ? & ?). split_and!; [by apply Hkeep|done|done].
  - rewrite Est. by rewrite decide_True.
Qed.

Lemma clear_stack_same st t :
  default [] (kstacks st !! t) = [] -> st ≃ set_kstacks (<[t := []]> (kstacks st)) st.
Proof.
  intros Ht. assert (forall u, default [] (<[t := []]> (kstacks st) !! u) = default [] (kstacks st !! u)) as E.
  { intros u. destruct (decide (u = t)) as [->|]; [by rewrite lookup_insert_eq, Ht|by rewrite lookup_insert_ne]. }
  split; try done.
  - intros [| |]; try done. simpl. by rewrite targets_insert, (targets_lookup (kstacks st) t), Ht.
  - unfold frames_ok. simpl. by setoid_rewrite E.
Qed.

Lemma init_thread_hand i c t p st :
  at_thread i c st -> threads st !! t = None -> default [] (kstacks st !! t) = [] ->
  unused st (SWaitSema t) -> unused st (SFreeSema t) ->
  pwp (init_thread t p) (fun _ st' => kept i c st st' /\ in_hand st' t) st.
Proof.
  intros Hat Ht Hks Hu1 Hu2. unfold init_thread. do 4 (do 2 pwp_step; cbn beta). pwp_step.
  match goal with |- pwp ?n _ _ => set (m := n) end.
  assert (reads m) as Hm by 
    (unfold m; destruct (thread_mlfqs st && _); [apply reads_bind; [|intros ?; apply reads_bind; intros]|]; eauto with reads).
  intros [n r] st1 E. apply Hm in E as ->.
  set (th := Thread 0 THREAD_BLOCKED p p [] nullp n r [] false).
  destruct (sched_inv_new st t th) as [Hg Hh]; [apply Hat|done|done|].
  set (st1 := set_threads (<[t := th]> (threads st)) st) in *.
  assert (kept i c st st1) as H1 by (split; [done|apply Hat]).
  pose proof (clear_stack_same st1 t Hks) as E2. cbn beta iota. unfold sema_init. pwp_steps.
  fold st1. set (st2 := set_kstacks _ st1) in *. set (st3 := set_all_list _ st2).
  assert (kept i c st st3) as H3.
  { apply kept_trans with st1; [done|]. apply kept_of_same; [by apply (kept_at _ _ st)|]. transitivity st2; [done|by split]. }
  pose proof (kept_sema_init i c (SWaitSema t) 0 st3 (kept_at _ _ _ _ H3) Hu1) as H4.
  set (st4 := set_semas _ st3) in *.
  assert (unused st4 (SFreeSema t)) as Hu2'.
  { unfold unused, st4 in *. simpl. by rewrite lookup_insert_ne. }
  pose proof (kept_sema_init i c (SFreeSema t) 0 st4 (kept_at _ _ _ _ H4) Hu2') as H5.
  split; [by apply kept_trans with st3, kept_trans with st4|].
  apply H5, H4. apply (same_stable st1); [transitivity st2; [done|by split]|done].
Qed.

Lemma keepsK_thread_create i c mem_ok fuel t p st :
  c <> i -> at_thread i c st -> op_ok st (OpCreate t p) ->
  pwp (thread_create mem_ok fuel t p) (fun r => kept_ctl i c r st) st.
Proof.
  intros Hne Hat (Ht & Hks & Hu1 & Hu2). unfold thread_create. apply pwp_bind, pwp_thread_current. intros _.
  destruct (t =? nullp); [apply kept_then; [by apply kept_refl|apply keepsK_ret]|].
  assert (~ in_hand st t) as Hnh. { intros [Hs _]. unfold status_of in Hs. by rewrite Ht in Hs. }
  apply pwp_bind. eapply pwp_mono; [by apply (init_thread_hand i c)|]. intros ? st1 [H1 Hh].
  eapply pwp_mono; [apply (creates_bind t i c _ _); [|intros mlfqs; apply creates_bind; [|intros ?; by apply creates_allocate_tid]| |exact Hh]|].
  - keeps_tac.
  - keeps_tac.
  - by apply (kept_at _ _ st).
  - intros r st2 (H2 & Ho & Hi & Hr). split_and!; [split; [done|]|done|done].
    intros u Hu. apply Ho; [congruence|by apply H1].
Qed.

(** ** The end of a thread, the idle thread *)

Lemma keepsK_thread_exit_tail i c : c <> i -> keepsK i c thread_exit_tail.
Proof.
  intros Hne. unfold thread_exit_tail. keepsK_step. intros st (Hinv & Hi & Hc).
  apply kept_do_schedule; try done.
  - apply leaving_exit; [done|congruence].
  - by apply current_not_destroyed.
  - by apply leaving_stable.
Qed.
#[export] Hint Resolve keepsK_thread_exit_tail : keeps.

Lemma keepsK_thread_exit i c m : c <> i -> keepsK i c m -> keepsK i c (thread_exit m).
Proof. intros Hne Hm. unfold thread_exit. keepsK_tac. Qed.

Lemma keepsK_idle i c : keepsK i c idle.
Proof.
  unfold idle. keepsK_step. intros st (Hinv & Hi & Hc). apply pwp_call; [done|done|keepsK_tac|].
  apply kept_thread_block; try done.
  - apply (leaving_block st Hinv None); done.
  - by apply leaving_stable.
Qed.

(** ** Going on *)

(** Popping the frames of the running thread takes the threads they are to make
    ready in hand; pushing the rest puts those of the rest back. *)
Lemma resume_frame_good mem_ok fuel fr i c st :
  at_thread i c st -> frame_ok i c fr -> (forall t, t ∈ frame_target fr -> in_hand st t) ->
  pwp (resume_frame mem_ok fuel fr) (fun r st' => sched_inv st' /\
    (forall u, u ∉ frame_target fr -> in_hand st u -> in_hand st' u) /\ switched_from c i r st') st.
Proof.
  intros Hat Hok Hh.
  assert (frame_target fr = [] -> keepsK i c (resume_frame mem_ok fuel fr) ->
    pwp (resume_frame mem_ok fuel fr) (fun r st' => sched_inv st' /\
    (forall u, u ∉ frame_target fr -> in_hand st u -> in_hand st' u) /\ switched_from c i r st') st) as Hk.
  { intros -> H. eapply pwp_mono; [by apply H|]. intros r st' (Hg & Hr). split_and!; [apply Hg| |apply Hr..].
    intros u _. apply Hg. }
  assert (forall t m, t ∈ frame_target fr -> creates t i c m -> frame_target fr = [t] ->
    pwp m (fun r st' => sched_inv st' /\
    (forall u, u ∉ frame_target fr -> in_hand st u -> in_hand st' u) /\ switched_from c i r st') st) as Hc.
  { intros t m Hin Hm E. eapply pwp_mono; [by apply Hm, Hh|]. intros r st' (H1 & H2 & H3). split_and!; [done| |apply H3..].
    intros u Hu. apply H2. intros ->. done. }
  destruct fr; simpl in *; try (apply Hk; [done|]).
  all: try (by unfold kernel_thread_start; keepsK_tac).
  - destruct Hok. by apply (keepsK_sema_down_loop i c s 2 old).
  - destruct Hok as [? ->]. by apply keepsK_cond_wait_tail.
  - apply (Hc t); [mem|apply creates_allocate_tail|done].
  - apply (Hc t); [mem|apply creates_tail|done].
Qed.

Lemma sched_inv_resume mem_ok fuel st :
  sched_inv st -> pwp (resume mem_ok fuel) (fun _ => sched_inv) st.
Proof.
  intros Hinv. unfold resume. do 4 (pwp_step; cbn beta). set (c := current st). set (i := idle_thread st).
  destruct (default [] (kstacks st !! c)) as [|fr rest] eqn:Efr; [by apply pwp_ret|].
  assert (forall f, f ∈ fr :: rest -> frame_ok i c f) as Hok.
  { intros f Hf. apply (po_frames _ (si_places _ Hinv)). by rewrite Efr. }
  do 2 pwp_step. cbn beta. set (st1 := set_kstacks _ st).
  set (lr := rest ≫= frame_target).
  assert (targets (kstacks st) ≡ₚ (frame_target fr ++ lr) ++ targets (kstacks st1)) as Et.
  { unfold st1. simpl. rewrite targets_insert, (targets_lookup (kstacks st) c), Efr. done. }
  destruct (dequeue QCreate (frame_target fr ++ lr) st st1) as (Hg & Hnd & Hh & _); [done| |exact Et|].
  { split; try done; [by intros []|]. intros _ u f. simpl. destruct (decide (u = c)) as [->|].
    - rewrite lookup_insert_eq. simpl. by intros ?%elem_of_nil.
    - rewrite lookup_insert_ne by done. apply (po_frames _ (si_places _ Hinv)). }
  apply NoDup_app in Hnd as (_ & Hdisj & Hnd).
  pwp_step. eapply pwp_mono; [apply (resume_frame_good _ _ _ i c)|].
  { split_and!; [apply Hg|done|done]. }
  { apply Hok. mem. }
  { intros t Ht. apply Hh. mem. }
  intros r st2 (H2 & Ho & Hi2 & _). pwp_steps. set (st3 := set_kstacks _ st2).
  apply (enqueue QCreate lr st2 st3); [done| | |done| |done].
  - split; try done; [by intros []|]. intros Hf u f. simpl. destruct (decide (u = c)) as [->|].
    + rewrite lookup_insert_eq. simpl. rewrite elem_of_app. rewrite Hi2. intros [Hin|Hin]; [rewrite <-Hi2; by apply Hf|].
      apply Hok. mem.
    + rewrite lookup_insert_ne by done. apply Hf.
  - simpl. rewrite targets_insert, (targets_lookup (kstacks st2) c), bind_app. fold lr. solve_Permutation.
  - intros t Ht. apply Ho; [|apply Hh; mem]. intros Hf. by apply (Hdisj t).
Qed.
