(* ===== verification/Resched.v ===== *)
(** * Giving up the processor: what runs next

    Total correctness of schedule, thread_yield and compare_cur_next_priority from
    states that satisfy the scheduler's invariant. *)

From S2P Require Import Prelude ListSpec FixedPoint KState Thread Synch Timer Machine SchedInv SchedKeeps.

(** ** Total and partial correctness together *)

Lemma wp_pwp {S A} (m : M S A) P Q s : wp m P s -> pwp m Q s -> wp m (fun a s' => P a s' /\ Q a s') s.
Proof. intros (a & s' & E & HP) HQ. exists a, s'. split; [done|]. split; [done|by apply HQ]. Qed.

Lemma wp_get_thread t th Q st : threads st !! t = Some th -> Q th st -> wp (get_thread t) Q st.
Proof. intros E H. exists th, st. split; [|done]. unfold get_thread. by rewrite E. Qed.

Lemma wp_get_sema s x Q st : semas st !! s = Some x -> Q x st -> wp (get_sema s) Q st.
Proof. intros E H. exists x, st. split; [|done]. unfold get_sema. by rewrite E. Qed.

Lemma wp_get_holder l h Q st : locks st !! l = Some h -> Q h st -> wp (get_holder l) Q st.
Proof. intros E H. exists h, st. split; [|done]. unfold get_holder. by rewrite E. Qed.

Lemma wp_upd_thread t f th (Q : unit -> kstate -> Prop) st :
  threads st !! t = Some th -> Q tt (set_threads (alter f t (threads st)) st) -> wp (upd_thread t f) Q st.
Proof. intros E H. apply wp_bind, (wp_get_thread _ th); [done|]. by apply wp_modify. Qed.

Lemma wp_thread_current Q st :
  status_of st (current st) = Some THREAD_RUNNING -> Q (current st) st -> wp thread_current Q st.
Proof.
  unfold status_of. intros H HQ. destruct (threads st !! current st) as [th|] eqn:E; [|done]. injection H as H.
  unfold thread_current. wp_steps. apply (wp_get_thread _ th); [done|]. wp_steps; [by rewrite H|done].
Qed.

(** One step of a total-correctness goal of the kernel. *)
Ltac kwp_step :=
  lazymatch goal with
  | |- wp (mbind _ _) _ _ => apply wp_bind
  | |- wp (mret _) _ _ => apply wp_ret
  | |- wp get _ _ => apply wp_get
  | |- wp (gets _) _ _ => apply wp_gets
  | |- wp intr_get_level _ _ => apply wp_gets
  | |- wp intr_context _ _ => apply wp_gets
  | |- wp (is_thread _) _ _ => apply wp_gets
  | |- wp (modify _) _ _ => apply wp_modify
  | |- wp (assertM _) _ _ => apply wp_assert
  | |- wp (put_sema _ _) _ _ => apply wp_modify
  | |- wp (put_cond _ _) _ _ => apply wp_modify
  | |- wp (set_holder _ _) _ _ => apply wp_modify
  | |- wp (ready_insert _) _ _ => apply wp_modify
  end.
Ltac kwp_steps := repeat (kwp_step; cbn beta).

Lemma wp_intr_set_level l (Q : intr_level -> kstate -> Prop) st :
  (l = INTR_ON -> in_external_intr st = false) -> Q (level st) (set_level l st) -> wp (intr_set_level l) Q st.
Proof.
  intros Hc HQ. destruct l; unfold intr_set_level, intr_enable, intr_disable; kwp_steps; try done; by rewrite Hc.
Qed.

Lemma wp_intr_disable (Q : intr_level -> kstate -> Prop) st :
  Q (level st) (set_level INTR_OFF st) -> wp intr_disable Q st.
Proof. intros HQ. unfold intr_disable. by kwp_steps. Qed.

(** ** schedule *)

(** The state after the switch to [next]. *)
Definition switched_to (next : Z) (d : list Z) (st : kstate) : kstate :=
  set_current next (set_destruction_req d (set_thread_ticks 0
    (set_threads (alter (set_status THREAD_RUNNING) next (threads st)) (set_ready_list (tl (ready_list st)) st)))).

Lemma wp_schedule st next cth :
  level st = INTR_OFF -> threads st !! current st = Some cth -> status cth <> THREAD_RUNNING ->
  next = hd (idle_thread st) (ready_list st) -> is_Some (threads st !! next) ->
  wp schedule (fun c st' => (exists d, st' = switched_to next d st) /\
    c = if current st =? next then Returned else Switched (current st)) st.
Proof.
  intros Hl Hc Hs Hn [nth Hnth]. unfold schedule. kwp_step. kwp_step. cbn beta. kwp_step.
  eexists _, _. split; [apply next_thread_eq|]. rewrite <-Hn. set (st1 := set_ready_list (tl (ready_list st)) st).
  kwp_steps. { simpl. by rewrite Hl. } apply (wp_get_thread _ cth); [done|]. kwp_steps.
  { by rewrite bool_decide_eq_true. } { by rewrite bool_decide_eq_true; eexists. }
  apply (wp_upd_thread _ _ nth); [done|]. kwp_steps.
  destruct (Z.eqb_spec (current st) next) as [E|E]; simpl; kwp_steps.
  - split; [|done]. exists (destruction_req st). unfold switched_to. rewrite <-E. by destruct st.
  - apply (wp_get_thread _ cth); [simpl; by rewrite lookup_alter_ne|]. kwp_steps.
    destruct (bool_decide _ && _); kwp_steps; (split; [|done]); by eexists.
Qed.

(** ** thread_yield *)

Definition runnable (s : thread_status) : Prop := s = THREAD_READY \/ s = THREAD_RUNNING.

(** What a change of the running thread leaves as it was. *)
Record resched (st : kstate) (c : ctl) (st' : kstate) : Prop := {
  rs_semas : semas st' = semas st;
  rs_locks : locks st' = locks st;
  rs_idle : idle_thread st' = idle_thread st;
  rs_ext : in_external_intr st' = in_external_intr st;
  rs_thread t th : threads st !! t = Some th -> status th <> THREAD_DYING ->
    exists s, threads st' !! t = Some (set_status s th) /\ s <> THREAD_DYING /\
      (t <> idle_thread st -> s = status th \/ runnable s /\ runnable (status th));
  rs_ctl : match c with Returned => current st' = current st | Switched t => t = current st end
}.

Lemma resched_refl st : resched st Returned st.
Proof. split; try done. intros t th Ht Hd. exists (status th). split; [by destruct th|split; [done|by left]]. Qed.

(** The priority of a thread that stays. *)
Lemma resched_prio st c st' t s :
  resched st c st' -> status_of st t = Some s -> s <> THREAD_DYING -> prio st' t = prio st t.
Proof.
  intros H Ht Hs. unfold status_of in Ht. destruct (threads st !! t) as [th|] eqn:E; [|done]. injection Ht as Ht.
  destruct (rs_thread _ _ _ H t th E) as (s' & E' & _); [congruence|]. unfold prio. by rewrite E, E'.
Qed.

Lemma resched_trans s1 s2 c s3 : resched s1 Returned s2 -> resched s2 c s3 -> resched s1 c s3.
Proof.
  intros [] []. split; try congruence; [|destruct c; congruence].
  intros t th Ht Hd. destruct (rs_thread0 t th Ht Hd) as (s & Hs & Hsd & Hr).
  destruct (rs_thread1 t _ Hs Hsd) as (s' & Hs' & Hsd' & Hr').
  exists s'. split_and!; [done|done|]. intros Hne. simpl in Hr'. rewrite rs_idle0 in Hr'. naive_solver.
Qed.

(** The ready list with the running thread in its place, unless that is the idle
    thread. *)
Definition yield_list (st : kstate) : list Z :=
  if current st =? idle_thread st then ready_list st
  else insert_ordered (compare_priority st) (current st) (ready_list st).

Lemma yield_list_in st t : t ∈ yield_list st -> t = current st \/ t ∈ ready_list st.
Proof.
  unfold yield_list. destruct (_ =? _); [by right|].
  rewrite (insert_ordered_perm (compare_priority st)), elem_of_cons. tauto.
Qed.

Lemma sched_inv_status st t : sched_inv st -> t = current st \/ t ∈ ready_list st ->
  exists s, status_of st t = Some s /\ runnable s.
Proof.
  intros Hinv [->|Ht].
  - exists THREAD_RUNNING. split; [apply (si_current _ Hinv)|by right].
  - apply (po_ready _ (si_places _ Hinv)) in Ht as [Ht _]. exists THREAD_READY. split; [done|by left].
Qed.

(** do_schedule, from where thread_yield calls it. *)
Lemma wp_do_schedule_ready st yl next cth :
  sched_inv st -> level st = INTR_OFF -> threads st !! current st = Some cth ->
  next = hd (idle_thread st) yl -> next <> current st \/ True ->
  (exists s, status_of st next = Some s /\ s <> THREAD_DYING) ->
  wp (do_schedule THREAD_READY) (fun c st' =>
      (exists d, st' = switched_to next d (cur_status THREAD_READY (destroyed (set_ready_list yl st)))) /\
      c = if current st =? next then Returned else Switched (current st)) (set_ready_list yl st).
Proof.
  intros Hinv Hl Hc Hn _ (s & Hs & Hd). unfold do_schedule. set (st1 := set_ready_list yl st).
  assert (threads (destroyed st1) !! current st = Some cth) as Hc'.
  { unfold destroyed. simpl. rewrite lookup_foldl_delete, decide_False; [done|by apply current_not_destroyed]. }
  assert (status cth = THREAD_RUNNING) as Hrun.
  { pose proof (si_current _ Hinv) as H. unfold status_of in H. rewrite Hc in H. by injection H. }
  kwp_steps. { by rewrite bool_decide_eq_true. }
  apply wp_thread_current; [apply Hinv|]. kwp_steps. exists tt, (destroyed st1). split; [by apply destroy_loop_eq|].
  kwp_steps. apply wp_thread_current; [unfold status_of; change (current (destroyed st1)) with (current st); by rewrite Hc'; simpl; rewrite Hrun|].
  kwp_step. apply (wp_upd_thread _ _ cth); [done|].
  apply (wp_schedule (cur_status THREAD_READY (destroyed st1)) next (set_status THREAD_READY cth)); try done.
  - change (alter (set_status THREAD_READY) (current st) (threads (destroyed st1)) !! current st = Some (set_status THREAD_READY cth)).
    by rewrite lookup_alter_eq, Hc'.
  - destruct (decide (next = current st)) as [E|E].
    + exists (set_status THREAD_READY cth). rewrite E.
      change (alter (set_status THREAD_READY) (current st) (threads (destroyed st1)) !! current st = Some (set_status THREAD_READY cth)).
      by rewrite lookup_alter_eq, Hc'.
    + unfold cur_status. simpl. rewrite lookup_alter_ne by done. rewrite lookup_foldl_delete, decide_False.
      * unfold status_of in Hs. by destruct (threads st !! next).
      * intros Hin. apply (po_destruction _ (si_places _ Hinv)) in Hin. congruence.
Qed.

Lemma wp_thread_yield st :
  sched_inv st -> in_external_intr st = false ->
  wp thread_yield (fun c st' => resched st c st' /\ sched_inv st' /\
    current st' = hd (idle_thread st) (yield_list st) /\ ready_list st' = tl (yield_list st)) st.
Proof.
  intros Hinv Hext.
  cut (wp thread_yield (fun c st' => resched st c st' /\
    current st' = hd (idle_thread st) (yield_list st) /\ ready_list st' = tl (yield_list st)) st).
  { intros H. eapply wp_mono; [apply (wp_pwp _ _ _ _ H (keepsK_thread_yield (idle_thread st) (current st) st (conj Hinv (conj eq_refl eq_refl))))|].
    intros c st' [(H1 & H2 & H3) [[H4 _] _]]. done. }
  unfold thread_yield. kwp_step. apply wp_thread_current; [apply Hinv|]. kwp_steps; [by rewrite Hext|].
  apply wp_intr_disable. kwp_steps.
  assert (wp (call (do_schedule THREAD_READY) (K_thread_yield (level st)) (intr_set_level (level st);; mret Returned))
    (fun c st' => resched st c st' /\
    current st' = hd (idle_thread st) (yield_list st) /\ ready_list st' = tl (yield_list st))
    (set_ready_list (yield_list st) (set_level INTR_OFF st))) as H.
  { assert (exists s, status_of st (hd (idle_thread st) (yield_list st)) = Some s /\ s <> THREAD_DYING) as Hnext.
    { destruct (yield_list st) as [|t yl] eqn:E; [apply (po_idle _ (si_places _ Hinv))|].
      destruct (sched_inv_status st t) as (s & Hs & [-> | ->]); [done|apply yield_list_in; rewrite E; mem|by eexists..]. }
    pose proof (si_current _ Hinv) as Hcur. unfold status_of in Hcur.
    destruct (threads st !! current st) as [cth|] eqn:Ec; [|done]. injection Hcur as Hcur.
    set (next := hd (idle_thread st) (yield_list st)) in *.
    apply wp_bind. eapply wp_mono; [apply (wp_do_schedule_ready (set_level INTR_OFF st) (yield_list st) next cth); try done|].
    { by apply (sched_inv_same st); [|split]. } { by right. }
    intros c st' [[d ->] ->]. set (st2 := switched_to next d _).
    assert (forall l ks c, match c with Returned => current st2 = current st | Switched t => t = current st end ->
      resched st c (set_level l (set_kstacks ks st2))) as Hre.
    { intros l ks c Hctl. split; try done. intros t th Ht Hd.
      assert (t ∉ destruction_req st) as Hnd.
      { intros Hin. apply (po_destruction _ (si_places _ Hinv)) in Hin. unfold status_of in Hin. rewrite Ht in Hin. by injection Hin. }
      assert (threads (cur_status THREAD_READY (destroyed (set_ready_list (yield_list st) (set_level INTR_OFF st)))) !! t =
        Some (set_status (if decide (t = current st) then THREAD_READY else status th) th)) as Ht1.
      { unfold cur_status. simpl. destruct (decide (t = current st)) as [->|Hne].
        - rewrite lookup_alter_eq, lookup_foldl_delete, decide_False by done. by rewrite Ht.
        - rewrite lookup_alter_ne, lookup_foldl_delete, decide_False by done. rewrite Ht. by destruct th. }
      exists (if decide (t = next) then THREAD_RUNNING else if decide (t = current st) then THREAD_READY else status th).
      split_and!.
      - transitivity (alter (set_status THREAD_RUNNING) next (threads (cur_status THREAD_READY (destroyed (set_ready_list (yield_list st) (set_level INTR_OFF st))))) !! t); [done|].
        destruct (decide (t = next)) as [<-|Hne]; [by rewrite lookup_alter_eq, Ht1|by rewrite lookup_alter_ne].
      - by repeat case_decide.
      - intros Hidle. assert (t = next \/ t = current st -> runnable (status th)) as Hrun.
        { intros Ht'. destruct (sched_inv_status st t Hinv) as (s & Hs & Hr).
          - destruct Ht' as [E| ->]; [|by left]. unfold next in E. apply yield_list_in.
            destruct (yield_list st); simpl in E; [congruence|]. subst. mem.
          - unfold status_of in Hs. rewrite Ht in Hs. by injection Hs as ->. }
        destruct (decide (t = next)); [right; split; [by right|apply Hrun; by left]|].
        destruct (decide (t = current st)); [right; split; [by left|apply Hrun; by right]|by left]. }
    change (current (set_level INTR_OFF st)) with (current st).
    destruct (Z.eqb_spec (current st) next) as [E|E].
    - change (wp (intr_set_level (level st);; mret Returned) (fun c st' => resched st c st' /\
        current st' = hd (idle_thread st) (yield_list st) /\ ready_list st' = tl (yield_list st)) st2).
      kwp_steps. apply wp_intr_set_level; [done|]. kwp_steps. split_and!; [|done..].
      apply (Hre (level st) (kstacks st2)). by rewrite E.
    - kwp_step. unfold push_frame. kwp_steps. split_and!; [|done..].
      match goal with |- resched _ _ (set_kstacks ?k _) => generalize k; intros ks end.
      exact (Hre (level st2) ks (Switched (current st)) eq_refl). }
  unfold yield_list in *. simpl. destruct (current st =? idle_thread st); simpl; kwp_steps.
  - replace (set_level INTR_OFF st) with (set_ready_list (ready_list st) (set_level INTR_OFF st)) by done. exact H.
  - exact H.
Qed.

(** ** compare_cur_next_priority *)

(** No ready thread has a higher priority than the running one. *)
Definition highest_runs (st : kstate) : Prop := forall t, t ∈ ready_list st -> prio st t <= prio st (current st).

#[export] Instance compare_priority_order st : StrictWeak (compare_priority st).
Proof. apply (StrictWeak_key_gt (prio st)). Qed.

Lemma hd_highest st t l u :
  ordered (compare_priority st) (t :: l) -> u ∈ l -> prio st u <= prio st t.
Proof.
  intros Ho Hu. apply (ordered_head_le (compare_priority st)) in Ho. rewrite Forall_forall in Ho. specialize (Ho u Hu).
  unfold le_of, compare_priority in Ho. lia.
Qed.

Lemma resched_prio_in st c st' t : sched_inv st -> resched st c st' -> t = current st \/ t ∈ ready_list st ->
  prio st' t = prio st t.
Proof.
  intros Hinv Hr Ht. destruct (sched_inv_status st t Hinv Ht) as (s & Hs & Hrun).
  apply (resched_prio st c st' t s Hr Hs). destruct Hrun as [-> | ->]; done.
Qed.

(** From an ordered ready list, yielding runs a thread of the highest priority. *)
Lemma yield_highest st c st' :
  sched_inv st -> ordered (compare_priority st) (ready_list st) -> resched st c st' ->
  current st' = hd (idle_thread st) (yield_list st) -> ready_list st' = tl (yield_list st) -> highest_runs st'.
Proof.
  intros Hinv Ho Hr Hc Hl.
  assert (ordered (compare_priority st) (yield_list st)) as Hoy.
  { unfold yield_list. destruct (_ =? _); [done|]. apply (insert_ordered_ordered (compare_priority st)), Ho. }
  pose proof (yield_list_in st) as Hin. intros t Ht. rewrite Hc. rewrite Hl in Ht.
  destruct (yield_list st) as [|y yl] eqn:Ey; simpl in *; [by apply elem_of_nil in Ht|].
  rewrite !(resched_prio_in st c st') by (try done; apply Hin; mem).
  by apply (hd_highest st y yl).
Qed.

Lemma wp_compare_cur_next_priority st :
  sched_inv st -> in_external_intr st = false ->
  wp compare_cur_next_priority (fun c st' => resched st c st' /\ sched_inv st' /\ highest_runs st' /\
    ((forall t, t ∈ ready_list st -> prio st t <= prio st (current st)) -> c = Returned /\ current st' = current st)) st.
Proof.
  intros Hinv Hext. unfold compare_cur_next_priority. kwp_steps.
  destruct (ready_list st) as [|r rl] eqn:Er; [kwp_steps|].
  { split_and!; try done; [apply resched_refl|]. intros t. rewrite Er. by intros ?%elem_of_nil. }
  kwp_steps. simpl. rewrite Er. set (sl := stable_sort (compare_priority st) (r :: rl)).
  set (st1 := set_ready_list sl st).
  assert (sched_inv st1) as Hinv1.
  { unfold st1, sl. rewrite <-Er. apply (sched_inv_same st); [done|apply sort_ready_same]. }
  assert (resched st Returned st1) as Hr1 by (destruct (resched_refl st); by split).
  assert (sl ≡ₚ r :: rl) as Hp by apply stable_sort_perm.
  assert (ordered (compare_priority st1) sl) as Ho by apply (stable_sort_ordered (compare_priority st)).
  destruct sl as [|next sl'] eqn:Esl; [by apply Permutation_nil_cons in Hp|]. simpl.
  assert (forall t, t ∈ r :: rl <-> t ∈ next :: sl') as Hin by (intros t; by rewrite Hp).
  destruct (sched_inv_status st1 next Hinv1) as (s & Hs & _); [right; unfold st1; simpl; mem|].
  unfold status_of in Hs. destruct (threads st1 !! next) as [nth|] eqn:En; [|done].
  apply (wp_get_thread _ nth); [done|]. kwp_step. apply wp_thread_current; [apply Hinv1|]. kwp_step.
  pose proof (si_current _ Hinv1) as Hcur. unfold status_of in Hcur.
  destruct (threads st1 !! current st1) as [cth|] eqn:Ec; [|done].
  apply (wp_get_thread _ cth); [done|].
  assert (prio st1 next = priority nth) as Epn by (unfold prio; by rewrite En).
  assert (prio st1 (current st1) = priority cth) as Epc by (unfold prio; by rewrite Ec).
  destruct (Z.gtb_spec (priority nth) (priority cth)) as [Hgt|Hle].
  - kwp_steps. change (in_external_intr st1) with (in_external_intr st). rewrite Hext.
    eapply wp_mono; [by apply wp_thread_yield|]. intros c st' (Hr & Hi & Hc & Hl). split_and!.
    + by apply resched_trans with st1.
    + done.
    + by apply (yield_highest st1 c).
    + intros Hmax. specialize (Hmax next (proj2 (Hin next) ltac:(mem))).
      change (prio st1 next <= prio st1 (current st1)) in Hmax. lia.
  - kwp_steps. split_and!; [done|done| |done]. intros t Ht. simpl in Ht.
    assert (prio st1 t <= prio st1 next); [|lia]. apply elem_of_cons in Ht as [->|Ht]; [done|].
    by apply (hd_highest st1 next sl').
Qed.

(** ** Waking a thread *)

Definition unblocked (t : Z) (st : kstate) : kstate :=
  set_threads (alter (set_status THREAD_READY) t (threads st))
    (set_ready_list (insert_ordered (compare_priority st) t (ready_list st)) st).

Lemma wp_thread_unblock t st (Q : unit -> kstate -> Prop) :
  status_of st t = Some THREAD_BLOCKED -> (level st = INTR_ON -> in_external_intr st = false) ->
  Q tt (unblocked t st) -> wp (thread_unblock t) Q st.
Proof.
  unfold status_of. intros Hs Hext HQ. destruct (threads st !! t) as [th|] eqn:E; [|done]. injection Hs as Hs.
  unfold thread_unblock. kwp_steps. { rewrite bool_decide_eq_true. by exists th. }
  apply wp_intr_disable. kwp_step. apply (wp_get_thread _ th); [done|]. kwp_steps.
  { by rewrite bool_decide_eq_true. } apply (wp_upd_thread _ _ th); [done|]. kwp_step.
  apply wp_intr_set_level; [done|]. kwp_steps.
  match goal with |- Q tt ?s => replace s with (unblocked t st); [done|] end. by destruct st.
Qed.

Lemma prio_unblocked t st u : prio (unblocked t st) u = prio st u.
Proof.
  unfold prio, unblocked. simpl. destruct (decide (u = t)) as [->|]; [rewrite lookup_alter_eq|by rewrite lookup_alter_ne].
  by destruct (threads st !! t).
Qed.

(** ** Semaphores *)

(** [t] is the waiter of the highest priority that waits longest. *)
Definition first_highest (st : kstate) (t : Z) (ws rest : list Z) : Prop :=
  exists pre post, ws = pre ++ t :: post /\ rest ≡ₚ pre ++ post /\
    Forall (fun u => prio st u < prio st t) pre /\ Forall (fun u => prio st u <= prio st t) post.

Lemma stable_sort_first st ws t rest :
  stable_sort (compare_priority st) ws = t :: rest -> first_highest st t ws rest.
Proof.
  revert t rest. induction ws as [|x ws IH]; intros t rest E; [done|]. rewrite stable_sort_cons in E.
  pose proof (stable_sort_perm (compare_priority st) ws) as Hp.
  destruct (stable_sort (compare_priority st) ws) as [|y l] eqn:El.
  { apply Permutation_nil_l in Hp as <-. injection E as <- <-. by exists [], []. }
  destruct (IH y l eq_refl) as (pre & post & -> & Hl & Hpre & Hpost). clear IH.
  simpl in E. unfold compare_priority at 1 in E.
  destruct (Z.gtb_spec (prio st y) (prio st x)) as [Hlt|Hge]; injection E as <- <-.
  - exists (x :: pre), post. split_and!; [done| |by constructor|done].
    rewrite (insert_before_perm (compare_priority st)), Hl. done.
  - exists [], (pre ++ y :: post). split_and!; [done| |done|].
    + simpl. rewrite Hl. solve_Permutation.
    + rewrite Forall_app, Forall_cons. split_and!; [|lia|]; (eapply Forall_impl; [done|]); simpl; lia.
Qed.

Lemma first_highest_mono st st' t ws rest :
  (forall u, u ∈ ws -> prio st' u = prio st u) -> first_highest st t ws rest -> first_highest st' t ws rest.
Proof.
  intros Hp (pre & post & -> & Hr & H1 & H2). exists pre, post. split_and!; [done|done| |].
  - rewrite Forall_forall in *. intros u Hu. rewrite !Hp by mem. by apply H1.
  - rewrite Forall_forall in *. intros u Hu. rewrite !Hp by mem. by apply H2.
Qed.

(** The outcome of sema_up: one waiter, the first of the highest priority, becomes
    runnable; the value goes up; a thread of the highest priority runs. *)
Record sema_upped (st : kstate) (s : sema_addr) (x : semaphore) (c : ctl) (st' : kstate) : Prop := {
  su_highest : highest_runs st';
  su_thread t th : threads st !! t = Some th -> status th <> THREAD_DYING ->
    exists s, threads st' !! t = Some (set_status s th) /\ s <> THREAD_DYING;
  su_others s' : s' <> s -> semas st' !! s' = semas st !! s';
  su_locks : locks st' = locks st;
  su_idle : idle_thread st' = idle_thread st;
  su_ext : in_external_intr st' = in_external_intr st;
  su_ctl : match c with Returned => current st' = current st | Switched t => t = current st end;
  su_waiters :
    match waiters x with
    | [] => semas st' !! s = Some (Semaphore (u32 (value x + 1)) [])
    | _ => exists t rest, semas st' !! s = Some (Semaphore (u32 (value x + 1)) rest) /\
        first_highest st t (waiters x) rest /\ t <> idle_thread st /\ exists r, status_of st' t = Some r /\ runnable r
    end
}.

Lemma wp_call m fr k (P Q : ctl -> kstate -> Prop) st :
  wp m P st -> (forall st1, P Returned st1 -> wp k Q st1) ->
  (forall t st1 ks, P (Switched t) st1 -> Q (Switched t) (set_kstacks ks st1)) -> wp (call m fr k) Q st.
Proof.
  intros Hm Hk Hs. unfold call. apply wp_bind. eapply wp_mono; [exact Hm|]. intros [|t] st1 H1; [by apply Hk|].
  unfold push_frame. kwp_steps. by apply Hs.
Qed.

(** The running thread gives way to a higher one, in the middle of a function. *)
Lemma wp_call_compare fr st :
  sched_inv st -> in_external_intr st = false -> frame_target fr = [] -> frame_ok (idle_thread st) (current st) fr ->
  forall old, wp (call compare_cur_next_priority fr (intr_set_level old;; mret Returned))
    (fun c st' => resched st c st' /\ sched_inv st' /\ highest_runs st') st.
Proof.
  intros Hinv Hext Hfr Hok old.
  assert (keepsK (idle_thread st) (current st) (call compare_cur_next_priority fr (intr_set_level old;; mret Returned))) as Hk.
  { apply keepsK_call; try done; keepsK_tac. }
  cut (wp (call compare_cur_next_priority fr (intr_set_level old;; mret Returned))
    (fun c st' => resched st c st' /\ highest_runs st') st).
  { intros H. eapply wp_mono; [apply (wp_pwp _ _ _ _ H (Hk st (conj Hinv (conj eq_refl eq_refl))))|].
    intros c st' [(H1 & H2) [[H4 _] _]]. done. }
  eapply wp_call; [by apply wp_compare_cur_next_priority| |].
  - intros st1 (Hr & _ & Hh & _). kwp_step. apply wp_intr_set_level; [by rewrite (rs_ext _ _ _ Hr)|].
    kwp_steps. split; [|done]. destruct Hr. by split.
  - intros t st1 ks (Hr & _ & Hh & _). split; [|done]. destruct Hr. by split.
Qed.

Lemma wp_sema_up s x st :
  sched_inv st -> in_external_intr st = false -> semas st !! s = Some x ->
  wp (sema_up s) (fun c st' => sema_upped st s x c st' /\ sched_inv st') st.
Proof.
  intros Hinv Hext Hx. unfold sema_up. kwp_step. apply wp_intr_disable. kwp_step. apply (wp_get_sema _ x); [done|]. kwp_steps.
  set (st0 := set_level INTR_OFF st). assert (sched_inv st0) as Hinv0 by (by apply (sched_inv_same st); [|split]).
  pose proof (stable_sort_perm (compare_priority st0) (waiters x)) as Hp.
  destruct (stable_sort (compare_priority st0) (waiters x)) as [|t rest] eqn:Es.
  - apply Permutation_nil_l in Hp. kwp_steps. apply (wp_get_sema _ x); [done|]. kwp_steps.
    set (st1 := set_semas _ st0).
    assert (sched_inv st1) as Hinv1.
    { apply (sched_inv_same st0); [done|]. by apply (put_sema_same st0 s _ (waiters x) x). }
    eapply wp_mono; [by apply (wp_call_compare (K_sema_up (level st)) st1)|].
    intros c st' (Hr & Hi & Hh). split; [|done]. split; try done; try apply Hr.
    + intros u th Hu Hd. destruct (rs_thread _ _ _ Hr u th Hu Hd) as (r & H1 & H2 & _). by exists r.
    + intros s' Hs'. rewrite (rs_semas _ _ _ Hr). simpl. by rewrite lookup_insert_ne.
    + rewrite <-Hp. rewrite (rs_semas _ _ _ Hr). simpl. by rewrite lookup_insert_eq, <-Hp.
  - pose proof (stable_sort_first st0 _ _ _ Es) as Hfirst.
    assert (status_of st t = Some THREAD_BLOCKED /\ t <> idle_thread st) as [Ht Hti].
    { apply (po_queue _ (si_places _ Hinv) (QSema s)). simpl. rewrite Hx, <-Hp. mem. }
    set (st1 := unblocked t (set_semas (<[s := Semaphore (value x) rest]> (semas st0)) st0)).
    assert (wp (put_sema s (Semaphore (value x) rest);; thread_unblock t) (fun _ s1 => s1 = st1) st0) as Hwake.
    { kwp_steps. by apply wp_thread_unblock. }
    pose proof (wp_pwp _ _ (fun _ => kept (idle_thread st) (current st) st0) _ Hwake
      (keeps_sema_up_wake (idle_thread st) (current st) s x rest t st0 (conj Hinv0 (conj eq_refl eq_refl)) Hx Hp)) as Hwake'.
    assert (sched_inv st1) as Hinv1 by (destruct Hwake' as (? & ? & _ & -> & [[H _] _]); exact H). clear Hwake'.
    eapply wp_mono; [exact Hwake|]. intros [] s1 ->. clear Hwake.
    assert (semas st1 !! s = Some (Semaphore (value x) rest)) as Hx1 by apply lookup_insert_eq.
    kwp_step. apply (wp_get_sema _ _ _ _ Hx1). kwp_steps. set (st2 := set_semas _ st1).
    assert (sched_inv st2) as Hinv2.
    { apply (sched_inv_same st1); [done|]. by apply (put_sema_same st1 s _ rest (Semaphore (value x) rest)). }
    eapply wp_mono; [by apply (wp_call_compare (K_sema_up (level st)) st2)|].
    intros c st' (Hr & Hi & Hh). split; [|done]. split; try done; try apply Hr.
    + intros u th Hu Hd. set (th' := if decide (u = t) then set_status THREAD_READY th else th).
      assert (threads st2 !! u = Some th') as Hu'.
      { unfold th', st2. simpl. destruct (decide (u = t)) as [->|]; [by rewrite lookup_alter_eq, Hu|by rewrite lookup_alter_ne]. }
      destruct (rs_thread _ _ _ Hr u th' Hu') as (r & H1 & H2 & _); [unfold th'; by case_decide|].
      exists r. split; [|done]. rewrite H1. unfold th'. by case_decide.
    + intros s' Hs'. rewrite (rs_semas _ _ _ Hr). unfold st2. simpl. by rewrite !lookup_insert_ne.
    + destruct (waiters x) as [|w ws] eqn:Ew; [by apply Permutation_nil_r in Hp|]. exists t, rest. split_and!.
      * rewrite (rs_semas _ _ _ Hr). unfold st2. apply lookup_insert_eq.
      * exact Hfirst.
      * done.
      * assert (exists th, threads st2 !! t = Some th /\ status th = THREAD_READY) as (th & Hth & Hrd).
        { unfold status_of in Ht. destruct (threads st !! t) as [th|] eqn:E; [|done].
          exists (set_status THREAD_READY th). split; [|done]. unfold st2. simpl. by rewrite lookup_alter_eq, E. }
        destruct (rs_thread _ _ _ Hr t th Hth) as (r & E & _ & Hrun); [congruence|].
        exists r. unfold status_of. rewrite E. split; [done|].
        destruct (Hrun Hti) as [-> |[H _]]; [left; done|done].
Qed.

Lemma su_prio st s x c st' t r :
  sema_upped st s x c st' -> status_of st t = Some r -> r <> THREAD_DYING -> prio st' t = prio st t.
Proof.
  unfold status_of. intros H Ht Hr. destruct (threads st !! t) as [th|] eqn:E; [|done]. injection Ht as Ht.
  destruct (su_thread _ _ _ _ _ H t th E) as (s' & E' & _); [congruence|]. unfold prio. by rewrite E, E'.
Qed.

(** ** Locks *)

(** The running thread after it has given back the donations for [l]. *)
Definition released (l : Z) (th : thread) : thread :=
  let ds := stable_sort compare_priority_for_donate (base.filter (fun d => d_lock d <> l) (donations th)) in
  set_priority (match ds with [] => original_priority th | d :: _ => Z.max (original_priority th) (d_priority d) end)
    (set_donations ds th).

Lemma upd_thread_wp t th th' f (Q : unit -> kstate -> Prop) st m :
  threads st = <[t := th]> m -> f th = th' -> Q tt (set_threads (<[t := th']> m) st) -> wp (upd_thread t f) Q st.
Proof.
  intros E Hf HQ. apply (wp_upd_thread _ _ th); [by rewrite E, lookup_insert_eq|].
  by rewrite E, alter_insert_eq, Hf.
Qed.

(** The calls that read and change the running thread, when its record is known. *)
Lemma wp_thread_current_at t th (Q : Z -> kstate -> Prop) st m :
  threads st = <[t := th]> m -> current st = t -> status th = THREAD_RUNNING -> Q t st -> wp thread_current Q st.
Proof.
  intros E Hc Hr HQ. subst t. apply wp_thread_current; [|done]. unfold status_of. rewrite E, lookup_insert_eq. simpl. by rewrite Hr.
Qed.

Lemma wp_get_thread_at t th (Q : thread -> kstate -> Prop) st m :
  threads st = <[t := th]> m -> Q th st -> wp (get_thread t) Q st.
Proof. intros E HQ. apply (wp_get_thread _ th); [by rewrite E, lookup_insert_eq|done]. Qed.

Lemma wp_release_donations l st (Q : unit -> kstate -> Prop) :
  sched_inv st -> Q tt (set_threads (alter (released l) (current st) (threads st)) st) ->
  wp (remove_donation_for_lock l;; recalc_priority) Q st.
Proof.
  intros Hinv HQ. pose proof (si_current _ Hinv) as Hc. set (cur := current st) in *.
  unfold status_of in Hc. destruct (threads st !! cur) as [th|] eqn:Eth; [|done]. injection Hc as Hrun.
  assert (threads st = <[cur := th]> (threads st)) as E0 by (by rewrite insert_id).
  assert (alter (released l) cur (threads st) = <[cur := released l th]> (threads st)) as Ef.
  { rewrite E0 at 1. by rewrite alter_insert_eq. }
  rewrite Ef in HQ.
  unfold remove_donation_for_lock, recalc_priority. kwp_steps.
  eapply wp_thread_current_at; [exact E0|done..|]. eapply upd_thread_wp; [exact E0|reflexivity|].
  kwp_step.
  eapply wp_thread_current_at; [reflexivity|done..|]. kwp_step. eapply upd_thread_wp; [reflexivity..|]. kwp_step.
  eapply wp_get_thread_at; [reflexivity|]. simpl. set (ds := base.filter _ _).
  assert (released l th = let ds' := stable_sort compare_priority_for_donate ds in
    set_priority (match ds' with [] => original_priority th | d :: _ => Z.max (original_priority th) (d_priority d) end)
      (set_donations ds' th)) as Er by done.
  rewrite Er in HQ. clearbody ds. destruct ds as [|d0 ds']; [by kwp_steps|]. cbv zeta in HQ.
  pose proof (stable_sort_perm compare_priority_for_donate (d0 :: ds')) as Hp.
  kwp_step. eapply upd_thread_wp; [reflexivity..|]. kwp_step. eapply wp_get_thread_at; [reflexivity|].
  cbn [donations set_donations set_priority priority].
  destruct (stable_sort compare_priority_for_donate (d0 :: ds')) as [|d ds]; [by apply Permutation_nil_cons in Hp|].
  destruct (Z.ltb_spec (original_priority th) (d_priority d)) as [Hlt|Hge].
  - eapply upd_thread_wp; [reflexivity..|]. rewrite Z.max_r in HQ by lia. exact HQ.
  - kwp_steps. rewrite Z.max_l in HQ by lia. exact HQ.
Qed.

(** The state of lock_release when it gives the semaphore back. *)
Definition before_up (l : Z) (st : kstate) : kstate :=
  set_locks (<[l := nullp]> (locks st)) (set_threads (alter (released l) (current st) (threads st)) st).

(** A further choice of the running thread changes nothing. *)
Lemma sema_upped_resched st s x st1 c st' :
  sema_upped st s x Returned st1 -> resched st1 c st' -> highest_runs st' -> sema_upped st s x c st'.
Proof.
  intros H Hr Hh. pose proof H as [H1 H2 H3 H4 H5 H6 H7 H8]. split; try done.
  - intros t th Ht Hd. destruct (H2 t th Ht Hd) as (r & E & Hrd).
    destruct (rs_thread _ _ _ Hr t _ E Hrd) as (r' & E' & Hrd' & _). by exists r'.
  - intros s' Hs'. by rewrite (rs_semas _ _ _ Hr), H3.
  - by rewrite (rs_locks _ _ _ Hr).
  - by rewrite (rs_idle _ _ _ Hr).
  - by rewrite (rs_ext _ _ _ Hr).
  - pose proof (rs_ctl _ _ _ Hr). destruct c; congruence.
  - rewrite (rs_semas _ _ _ Hr). destruct (waiters x) as [|w ws]; [done|].
    destruct H8 as (t & rest & Hx & Hf & Hti & r & Ht & Hrun). exists t, rest. split_and!; [done..|].
    unfold status_of in Ht. destruct (threads st1 !! t) as [th|] eqn:E; [|done]. injection Ht as Ht.
    destruct (rs_thread _ _ _ Hr t th E) as (r' & E' & _ & Hr'); [destruct Hrun as [-> | ->]; congruence|].
    exists r'. unfold status_of. rewrite E'. split; [done|]. rewrite H5 in Hr'.
    destruct (Hr' Hti) as [->|[? _]]; [congruence|done].
Qed.

Lemma wp_lock_release l x st :
  sched_inv st -> in_external_intr st = false -> locks st !! l = Some (current st) -> current st <> nullp ->
  semas st !! SLock l = Some x ->
  wp (lock_release l) (fun c st' => sema_upped (before_up l st) (SLock l) x c st' /\ sched_inv st') st.
Proof.
  intros Hinv Hext Hl Hnull Hx.
  cut (wp (lock_release l) (sema_upped (before_up l st) (SLock l) x) st).
  { intros H. eapply wp_mono; [apply (wp_pwp _ _ _ _ H (keepsK_lock_release (idle_thread st) (current st) l st (conj Hinv (conj eq_refl eq_refl))))|].
    intros c st' [H1 [[H4 _] _]]. done. }
  unfold lock_release, lock_held_by_current_thread. kwp_step. kwp_step.
  apply (wp_get_holder _ (current st)); [done|]. kwp_step. apply wp_thread_current; [apply Hinv|]. kwp_step.
  rewrite Z.eqb_refl. kwp_step. apply wp_assert; [done|]. kwp_step. apply (wp_get_holder _ (current st)); [done|].
  kwp_step. apply wp_assert; [by destruct (Z.eqb_spec (current st) nullp)|].
  set (k := set_holder l nullp;; _).
  assert (wp ((remove_donation_for_lock l;; recalc_priority);; k) (sema_upped (before_up l st) (SLock l) x) st) as H; [|].
  2: { destruct H as (a & s' & E & HQ). exists a, s'. split; [|done]. rewrite <-E. unfold mbind, M_mbind.
    by destruct (remove_donation_for_lock l st) as [[]| | |]. }
  apply wp_bind, wp_release_donations; [done|]. unfold k. do 2 (kwp_step; cbn beta). fold (before_up l st).
  set (st1 := before_up l st).
  assert (sched_inv st1) as Hinv1.
  { pose proof (si_current _ Hinv) as Hc. unfold status_of in Hc. destruct (threads st !! current st) as [th|] eqn:E; [|done].
    apply (sched_inv_same st); [done|]. transitivity (set_threads (alter (released l) (current st) (threads st)) st); [|by split].
    by apply upd_same with th. }
  eapply wp_call; [by apply wp_sema_up| |].
  - intros st2 [Hu Hi]. eapply wp_mono; [apply wp_compare_cur_next_priority; [done|by rewrite (su_ext _ _ _ _ _ Hu)]|].
    intros c st3 (Hr & _ & Hh & _). by apply (sema_upped_resched _ _ _ st2).
  - intros t st2 ks [Hu _]. destruct Hu. by split.
Qed.
