(* ===== verification/SchedTheorems.v ===== *)
(** * Theorems on the scheduler

    The invariant over all runs of the machine. *)

From S2P Require Import Prelude ListSpec FixedPoint KState Thread Synch Timer Machine SchedInv SchedKeeps Resched.

(** ** Every step keeps the invariant *)

Lemma kept_ctl_inv i c m st :
  keepsK i c m -> at_thread i c st -> pwp m (fun _ => sched_inv) st.
Proof. intros Hm Hat. eapply pwp_mono; [by apply Hm|]. intros r st' [[H _] _]. done. Qed.

Lemma run_op_inv mem_ok fuel o st :
  sched_inv st -> current st <> idle_thread st -> op_ok st o ->
  pwp (run_op mem_ok fuel o) (fun _ => sched_inv) st.
Proof.
  intros Hinv Hne Hop. set (c := current st) in *. set (i := idle_thread st) in *.
  assert (at_thread i c st) as Hat by done.
  destruct o; unfold run_op; try (by apply (kept_ctl_inv i c); [keepsK_tac|]).
  - unfold sema_init. pwp_steps. by apply (kept_sema_init i c).
  - destruct Hop as [Hop _]. unfold lock_init, sema_init. pwp_steps.
    apply (kept_sema_init i c (SLock l) 1 (set_locks (<[l:=nullp]> (locks st)) st)); [|done].
    apply (kept_at i c st). apply kept_of_same; [done|by split].
  - apply (kept_ctl_inv i c); [|done]. unfold cond_init. keepsK_tac.
  - eapply pwp_mono; [by apply (keepsK_thread_create i c)|]. intros r st' [[H _] _]. done.
  - apply (kept_ctl_inv i c); [|done]. apply keepsK_thread_exit; [done|]. keepsK_tac.
Qed.

Lemma kstep_inv st st' : sched_inv st -> kstep st st' -> sched_inv st'.
Proof.
  intros Hinv Hs. destruct Hs as [o mem_ok fuel s s' c Htop Hne Hop E|mem_ok fuel s s' c Htop E|s s' c Htop Hc E|s s' c Hl E].
  - refine (pwp_use _ (fun _ => sched_inv) _ _ _ E _). by apply run_op_inv.
  - refine (pwp_use _ (fun _ => sched_inv) _ _ _ E _). by apply sched_inv_resume.
  - refine (pwp_use _ (fun _ => sched_inv) _ _ _ E _). by eapply kept_ctl_inv; [apply keepsK_idle|].
  - refine (pwp_use _ (fun _ => sched_inv) _ _ _ E _). by eapply kept_ctl_inv; [apply keepsK_timer_irq|].
Qed.

(** ** The kernel after thread_start *)

(** Thread 100 is main, 200 the idle thread. *)
Definition boot_state : kstate :=
  KState
    (<[100 := Thread 1 THREAD_RUNNING 31 31 [] nullp 0 0 [200] false]>
     (<[200 := Thread 2 THREAD_BLOCKED 0 0 [] nullp 0 0 [] false]> ∅))
    (<[SLock tid_lock := Semaphore 1 []]> ∅) (<[tid_lock := nullp]> ∅) ∅
    (<[200 := [K_idle]]> ∅)
    100 [] 200 100 [] [100; 200] 3 0 0 0 0 false 0 INTR_ON false false 0 [] 0.

Lemma boot_status t : status_of boot_state t =
  if decide (t = 100) then Some THREAD_RUNNING else if decide (t = 200) then Some THREAD_BLOCKED else None.
Proof.
  unfold status_of, boot_state. simpl. destruct (decide (t = 100)) as [->|]; [done|].
  rewrite lookup_insert_ne by done. destruct (decide (t = 200)) as [->|]; [done|].
  by rewrite lookup_insert_ne.
Qed.

Lemma boot_queues q : queue_list boot_state q = [].
Proof.
  destruct q as [s| |]; try done. simpl. destruct (decide (s = SLock tid_lock)) as [->|]; [done|].
  by rewrite lookup_insert_ne.
Qed.

Lemma boot_inv : sched_inv boot_state.
Proof.
  split; [split| |].
  - constructor.
  - intros t. rewrite boot_status. simpl. split; [by intros ?%elem_of_nil|].
    intros [E ?]. by repeat case_decide.
  - intros q. rewrite boot_queues. constructor.
  - intros q t. rewrite boot_queues. by intros ?%elem_of_nil.
  - intros q q' t. rewrite boot_queues. by intros ?%elem_of_nil.
  - intros t. by intros ?%elem_of_nil.
  - constructor.
  - by exists THREAD_BLOCKED.
  - intros s t. rewrite boot_queues. by intros ?%elem_of_nil.
  - intros u fr. simpl. destruct (decide (u = 200)) as [->|].
    + simpl. intros ->%list_elem_of_singleton. done.
    + rewrite lookup_insert_ne by done. by intros ?%elem_of_nil.
  - done.
  - intros t. rewrite boot_status. by repeat case_decide.
Qed.

(** ** Executing steps *)

#[export] Instance unused_dec st s : Decision (unused st s).
Proof. unfold unused. destruct (semas st !! s); apply _. Defined.

#[export] Instance op_ok_dec st o : Decision (op_ok st o).
Proof. destruct o; unfold op_ok; try apply _. destruct (semas st !! SLock l); apply _. Defined.

#[export] Instance at_top_dec st : Decision (at_top st).
Proof.
  unfold at_top. destruct (default [] (kstacks st !! current st)); [by left|by right].
Defined.

Inductive action : Type := ACall (o : call_op) | AResume | AIdle | ATimer.

Definition final {A} (r : outcome (A * kstate)) : option kstate :=
  match r with Ok (_, st) => Some st | _ => None end.

Definition exec_action (a : action) (st : kstate) : option kstate :=
  match a with
  | ACall o =>
      if bool_decide (at_top st) && bool_decide (current st <> idle_thread st) && bool_decide (op_ok st o)
      then final (run_op true 10 o st) else None
  | AResume => if bool_decide (at_top st) then None else final (resume true 10 st)
  | AIdle => if bool_decide (at_top st) && bool_decide (current st = idle_thread st) then final (idle st) else None
  | ATimer => if bool_decide (level st = INTR_ON) then final (timer_irq st) else None
  end.

Fixpoint exec (l : list action) (st : kstate) : option kstate :=
  match l with
  | [] => Some st
  | a :: l => match exec_action a st with Some st' => exec l st' | None => None end
  end.

Lemma exec_action_step a st st' : exec_action a st = Some st' -> kstep st st'.
Proof.
  destruct a; simpl.
  - destruct (bool_decide (at_top st)) eqn:H1, (bool_decide (current st <> idle_thread st)) eqn:H2,
      (bool_decide (op_ok st o)) eqn:H3; simpl; try done.
    apply bool_decide_eq_true in H1, H2, H3. destruct (run_op true 10 o st) as [[c s]| | |] eqn:E; [|done..].
    intros [= <-]. by eapply step_call.
  - case_bool_decide; [done|]. destruct (resume true 10 st) as [[c s]| | |] eqn:E; [|done..].
    intros [= <-]. by eapply step_resume.
  - destruct (bool_decide (at_top st)) eqn:H1, (bool_decide (current st = idle_thread st)) eqn:H2; simpl; try done.
    apply bool_decide_eq_true in H1, H2. destruct (idle st) as [[c s]| | |] eqn:E; [|done..].
    intros [= <-]. by eapply step_idle.
  - case_bool_decide; [|done]. destruct (timer_irq st) as [[c s]| | |] eqn:E; [|done..].
    intros [= <-]. by eapply step_timer.
Qed.

Lemma exec_rtc l st st' : exec l st = Some st' -> rtc kstep st st'.
Proof.
  revert st. induction l as [|a l IH]; intros st; simpl; [by intros [= ->]|].
  destruct (exec_action a st) as [st1|] eqn:E; [|done]. intros H.
  eapply rtc_l; [by eapply exec_action_step|by apply IH].
Qed.

Lemma exec_default l st st0 : is_Some (exec l st) -> rtc kstep st (default st0 (exec l st)).
Proof. intros [st' E]. rewrite E. by apply (exec_rtc l). Qed.

(** The state after a run from [boot_state], for concrete examples. *)
Definition after (l : list action) : kstate := default boot_state (exec l boot_state).

Lemma rtc_inv st st' : sched_inv st -> rtc kstep st st' -> sched_inv st'.
Proof. intros H Hr. induction Hr as [|s1 s2 s3 Hs _ IH]; [done|]. by apply IH, (kstep_inv s1). Qed.

Lemma after_inv l : sched_inv (after l).
Proof.
  unfold after. destruct (exec l boot_state) as [st|] eqn:E; [|apply boot_inv].
  by apply (rtc_inv boot_state); [apply boot_inv|apply (exec_rtc l)].
Qed.

(** ** The invariant in every reachable state *)

(** C2: whatever kernel functions the threads call, however they are switched
    and whenever the timer interrupts between them, the invariant holds: the
    running thread is the only one with status RUNNING; the ready list holds each
    READY thread but the idle one once; every thread in a semaphore's queue, asleep
    or being created is BLOCKED and in one queue only; the threads that await
    destruction are DYING. *)
Theorem scheduler_invariant st0 st :
  sched_inv st0 -> rtc kstep st0 st ->
  (forall t, status_of st t = Some THREAD_RUNNING <-> t = current st) /\
  NoDup (ready_list st) /\
  (forall t, t ∈ ready_list st <-> status_of st t = Some THREAD_READY /\ t <> idle_thread st) /\
  (forall q, NoDup (queue_list st q)) /\
  (forall q t, t ∈ queue_list st q -> status_of st t = Some THREAD_BLOCKED /\
    forall q', t ∈ queue_list st q' -> q = q') /\
  (forall t, t ∈ destruction_req st -> status_of st t = Some THREAD_DYING).
Proof.
  intros H0 Hr. destruct (rtc_inv _ _ H0 Hr) as [[H1 H2 H3 H4 H5 H6 _ _ _ _] H7 H8].
  split_and!; [|done..| |done].
  - intros t. split; [apply H8|by intros ->].
  - intros q t Ht. split; [by apply (H4 q)|]. intros q' Ht'. by apply (H5 q q' t).
Qed.

(** A thread of higher priority is created, runs and waits for a semaphore. *)
Definition one_waits : list action :=
  [ACall (OpSemaInit 7 0); ACall (OpCreate 300 40); AResume; ACall (OpSemaDown 7); AResume].

Lemma after_rtc l : is_Some (exec l boot_state) -> rtc kstep boot_state (after l).
Proof. apply exec_default. Qed.

Lemma scheduler_invariant_witness :
  rtc kstep boot_state (after one_waits) /\ queue_list (after one_waits) (QSema (SPlain 7)) = [300] /\
  status_of (after one_waits) 300 = Some THREAD_BLOCKED.
Proof.
  assert (rtc kstep boot_state (after one_waits)) as Hr by (apply after_rtc; vm_compute; by eexists).
  assert (queue_list (after one_waits) (QSema (SPlain 7)) = [300]) as Hq by (vm_compute; reflexivity).
  destruct (scheduler_invariant boot_state (after one_waits) boot_inv Hr) as (_ & _ & _ & _ & H & _).
  split_and!; [exact Hr|exact Hq|]. apply (H (QSema (SPlain 7)) 300). rewrite Hq. mem.
Defined.

(** ** Which thread runs *)


(** Two threads of main's priority are ready. *)
Definition equals_ready : list action := [ACall (OpCreate 300 31); ACall (OpCreate 400 31)].

(** Decides that a concrete ready list is sorted. *)
Ltac concrete_order l :=
  let E := fresh in assert (ready_list l = ltac:(let r := eval vm_compute in (ready_list l) in exact r)) as E
    by (vm_compute; reflexivity); rewrite E; repeat constructor; unfold le_of; vm_compute; reflexivity.


(** ** Fairness *)

(** The running thread went on and nothing was scheduled. *)
Definition undisturbed (st st' : kstate) : Prop :=
  sched_inv st' /\ in_external_intr st' = in_external_intr st /\ current st' = current st /\
  idle_thread st' = idle_thread st /\ ready_list st' = ready_list st /\ forall t, prio st' t = prio st t.

(** [n] rounds: whichever thread runs goes on for a while and yields. *)
Inductive yield_rounds : nat -> kstate -> kstate -> Prop :=
  | rounds_none st : yield_rounds 0 st st
  | rounds_more n st st1 c st2 st' :
      undisturbed st st1 -> thread_yield st1 = Ok (c, st2) -> yield_rounds n st2 st' -> yield_rounds (S n) st st'.

(** The running thread and the ready ones have the priority [p]. *)
Record equals (p : Z) (st : kstate) : Prop := {
  eq_inv : sched_inv st;
  eq_ext : in_external_intr st = false;
  eq_busy : current st <> idle_thread st;
  eq_prio t : t = current st \/ t ∈ ready_list st -> prio st t = p
}.

Lemma equals_undisturbed p st st' : undisturbed st st' -> equals p st -> equals p st'.
Proof.
  intros (H1 & H2 & H3 & H4 & H5 & H6) [E1 E2 E3 E4]. split; [done|congruence|congruence|].
  intros t. rewrite H3, H5, H6. apply E4.
Qed.

Lemma yield_list_equals p st : equals p st -> yield_list st = ready_list st ++ [current st].
Proof.
  intros [_ _ Hb Hp]. unfold yield_list. rewrite (proj2 (Z.eqb_neq _ _) Hb).
  destruct (insert_ordered_split (compare_priority st) (current st) (ready_list st)) as (l1 & l2 & E1 & E2 & _ & H2).
  rewrite E2. destruct l2 as [|t l2]; [by rewrite E1, app_nil_r|]. unfold compare_priority in H2.
  rewrite (Hp t), (Hp (current st)) in H2; [lia|by left|right; rewrite E1; mem].
Qed.

(** A round moves the first ready thread to the processor and the running one behind
    the ready threads. *)
Lemma yield_turn p st : equals p st ->
  exists c st', thread_yield st = Ok (c, st') /\ equals p st' /\
    current st' :: ready_list st' = ready_list st ++ [current st].
Proof.
  intros He. pose proof He as [Hinv Hext Hb Hp]. destruct (wp_thread_yield st Hinv Hext) as (c & st' & E & Hr & Hi & Hc & Hl).
  rewrite (yield_list_equals p) in Hc, Hl by done. exists c, st'. split; [done|].
  assert (current st' :: ready_list st' = ready_list st ++ [current st]) as Hlist by (rewrite Hc, Hl; by destruct (ready_list st)).
  assert (forall t, t = current st' \/ t ∈ ready_list st' -> t = current st \/ t ∈ ready_list st) as Hin.
  { intros t Ht. assert (t ∈ current st' :: ready_list st') as Ht' by mem_all. rewrite Hlist in Ht'. mem_all. }
  split; [|done]. split; [done|by rewrite (rs_ext _ _ _ Hr)| |].
  - rewrite (rs_idle _ _ _ Hr). destruct (Hin (current st') (or_introl eq_refl)) as [->|Hrd]; [done|].
    by apply (po_ready _ (si_places _ Hinv)) in Hrd as [_ ?].
  - intros t Ht. apply Hin in Ht. destruct (sched_inv_status st t Hinv Ht) as (s & Hs & Hrun).
    rewrite (resched_prio st c st' t s Hr Hs); [by apply Hp|]. by destruct Hrun as [-> | ->].
Qed.

Lemma yield_rounds_turn p n st : equals p st -> (n <= length (ready_list st))%nat ->
  (exists st', yield_rounds n st st') /\
  forall st', yield_rounds n st st' -> equals p st' /\
    current st' :: ready_list st' = drop n (current st :: ready_list st) ++ take n (current st :: ready_list st).
Proof.
  revert st. induction n as [|n IH]; intros st He Hn.
  - split; [eexists; constructor|]. intros st' H. inversion H; subst. split; [done|]. by rewrite drop_0, app_nil_r.
  - assert (forall st1, undisturbed st st1 -> exists c st2, thread_yield st1 = Ok (c, st2) /\ equals p st2 /\
      current st2 :: ready_list st2 = ready_list st ++ [current st]) as Hround.
    { intros st1 Hu. pose proof (equals_undisturbed _ _ _ Hu He) as He1. destruct (yield_turn p st1 He1) as (c & st2 & E & He2 & Hl).
      destruct Hu as (_ & _ & H3 & _ & H5 & _). exists c, st2. rewrite Hl, H3, H5. done. }
    assert (undisturbed st st) as Hrefl by (destruct He; by split_and!).
    assert (forall st2, equals p st2 -> current st2 :: ready_list st2 = ready_list st ++ [current st] -> (n <= length (ready_list st2))%nat) as Hlen.
    { intros st2 _ Hl. apply (f_equal length) in Hl. simpl in Hl. rewrite length_app in Hl. simpl in Hl. lia. }
    split.
    + destruct (Hround st Hrefl) as (c & st2 & E & He2 & Hl). destruct (IH st2 He2 (Hlen _ He2 Hl)) as [(st' & Hr) _].
      exists st'. by eapply rounds_more.
    + intros st' H. inversion H as [|n' st0 st1 c st2 st3 Hu E Hr]; subst. destruct (Hround st1 Hu) as (c' & st2' & E' & He2 & Hl).
      rewrite E in E'. injection E' as <- <-. destruct (IH st2 He2 (Hlen _ He2 Hl)) as [_ H2]. destruct (H2 st' Hr) as [He' ->].
      split; [done|]. rewrite Hl. simpl. rewrite drop_app_le, take_app_le by lia. rewrite <-app_assoc. done.
Qed.

(** C19: No thread starves among equals. If the running thread and all ready threads
    have the same priority and every thread yields when it runs, the ready thread at
    position [k] of the ready list runs after [k + 1] yields, and every thread can
    make its yield. *)
Theorem yield_starvation_free p st k t (He : equals p st) (Ht : ready_list st !! k = Some t) :
  (exists st', yield_rounds (S k) st st') /\ forall st', yield_rounds (S k) st st' -> current st' = t.
Proof.
  pose proof (lookup_lt_Some _ _ _ Ht) as Hk. destruct (yield_rounds_turn p (S k) st He Hk) as [H1 H2].
  split; [done|]. intros st' Hr. destruct (H2 st' Hr) as [_ E]. simpl in E.
  rewrite (drop_S _ t k Ht) in E. simpl in E. by injection E.
Qed.

Lemma yield_starvation_free_witness :
  exists st', yield_rounds 2 (after equals_ready) st' /\ current st' = 400.
Proof.
  assert (ready_list (after equals_ready) = [300; 400]) as Hl by (vm_compute; reflexivity).
  destruct (yield_starvation_free 31 (after equals_ready) 1 400) as [(st' & H1) H2].
  - split; [apply after_inv|vm_compute; reflexivity|vm_compute; discriminate|].
    intros t. rewrite Hl. change (current (after equals_ready)) with 100. intros [->|Ht]; [vm_compute; reflexivity|].
    apply elem_of_cons in Ht as [->|Ht]; [vm_compute; reflexivity|]. apply list_elem_of_singleton in Ht as ->. vm_compute. reflexivity.
  - rewrite Hl. reflexivity.
  - exists st'. split; [exact H1|by apply H2].
Defined.

(** Thread_set_priority sets the base priority and keeps the effect of
    donations: the priority becomes the larger of the new one and the first
    donation. If that leaves a ready thread with a higher priority, such a thread
    of the highest priority runs at once. *)
Theorem set_priority_keeps_donation st p th :
  sched_inv st -> in_external_intr st = false -> thread_mlfqs st = false ->
  threads st !! current st = Some th ->
  exists c st' th', thread_set_priority p st = Ok (c, st') /\ sched_inv st' /\
    threads st' !! current st = Some th' /\ original_priority th' = p /\ donations th' = donations th /\
    priority th' = match donations th with [] => p | d :: _ => Z.max p (d_priority d) end /\
    (forall t, t ∈ ready_list st' -> prio st' t <= prio st' (current st')) /\
    ((forall t, t ∈ ready_list st -> prio st t <= priority th') -> current st' = current st).
Proof.
  intros Hinv Hext Hm Hth.
  set (th' := set_priority (match donations th with [] => p | d :: _ => Z.max p (d_priority d) end)
    (set_original_priority p th)).
  set (st1 := set_threads (<[current st := th']> (threads st)) st).
  assert (sched_inv st1) as Hinv1.
  { apply (sched_inv_same st); [done|]. unfold st1. replace (<[current st := th']> (threads st)) with (alter (fun _ => th') (current st) (threads st)).
    - by apply upd_same with th.
    - rewrite <-(insert_id (threads st) (current st) th) at 1 by done. by rewrite alter_insert_eq. }
  destruct (wp_compare_cur_next_priority st1 Hinv1 Hext) as (c & st' & E & Hr & Hi & Hh & Hret).
  assert (status th = THREAD_RUNNING) as Hrun.
  { pose proof (si_current _ Hinv) as H. unfold status_of in H. rewrite Hth in H. by injection H. }
  destruct (rs_thread _ _ _ Hr (current st) th') as (s & E' & _); [apply lookup_insert_eq|by simpl; rewrite Hrun|].
  exists c, st', (set_status s th'). split_and!; try done.
  - assert (wp (thread_set_priority p) (fun c' s' => c' = c /\ s' = st') st) as (c' & s' & E2 & -> & ->); [|exact E2].
    assert (threads st = <[current st := th]> (threads st)) as E0 by (by rewrite insert_id).
    unfold thread_set_priority. kwp_steps. rewrite Hm. kwp_step. eapply wp_thread_current_at; [exact E0|done..|].
    kwp_step. eapply upd_thread_wp; [exact E0|reflexivity|]. kwp_step. eapply wp_get_thread_at; [reflexivity|]. kwp_step.
    assert (wp compare_cur_next_priority (fun c' s' => c' = c /\ s' = st') st1) as Hcmp by (by exists c, st').
    destruct th as [? ? ? ? ds]. cbn [donations set_original_priority]. destruct ds as [|d ds].
    + eapply upd_thread_wp; [reflexivity..|]. exact Hcmp.
    + eapply upd_thread_wp; [reflexivity| |exact Hcmp]. unfold th', set_priority. simpl. f_equal.
      destruct (Z.gtb_spec (d_priority d) p); lia.
  - intros Hmax. apply Hret. intros t Ht. destruct (current_nowhere st Hinv) as [Hn _].
    assert (t <> current st) as Hne by (intros ->; done).
    assert (prio st1 t = prio st t) as -> by (unfold prio, st1; simpl; by rewrite lookup_insert_ne).
    assert (prio st1 (current st1) = priority th') as -> by (unfold prio, st1; simpl; by rewrite lookup_insert_eq).
    by apply Hmax.
Qed.

(** Main holds lock 10 and has a donation of 40 from thread 300, which waits for it. *)
Definition donated : list action :=
  [ACall (OpLockInit 10); ACall (OpLockAcquire 10); ACall (OpCreate 300 40); AResume; ACall (OpLockAcquire 10); AResume].

Lemma set_priority_keeps_donation_witness :
  exists c st' th', thread_set_priority 20 (after donated) = Ok (c, st') /\ threads st' !! 100 = Some th' /\
    original_priority th' = 20 /\ priority th' = 40.
Proof.
  set (th := Thread 1 THREAD_RUNNING 40 31 [Donation 40 300 10] nullp 0 0 [200; 300] false).
  destruct (set_priority_keeps_donation (after donated) 20 th) as (c & st' & th' & E & _ & Ht & Ho & _ & Hp & _).
  - apply after_inv.
  - vm_compute. reflexivity.
  - vm_compute. reflexivity.
  - vm_compute. reflexivity.
  - exists c, st', th'. split_and!; [exact E|exact Ht|exact Ho|]. rewrite Hp. vm_compute. reflexivity.
Defined.

(** ** Semaphores and locks *)


(** Threads 300 and 400 of the same priority wait, and main runs. *)
Definition two_wait : list action :=
  [ACall (OpSemaInit 7 0); ACall (OpCreate 300 40); AResume; ACall (OpSemaDown 7); AResume;
   ACall (OpCreate 400 40); AResume; ACall (OpSemaDown 7); AResume].


(** The priority after lock_release is the maximum of what is left. *)
Lemma released_max l th p :
  p = priority (released l th) <->
  (p = original_priority th \/ exists d, d ∈ donations (released l th) /\ p = d_priority d) /\
  original_priority th <= p /\ Forall (fun d => d_priority d <= p) (donations (released l th)).
Proof.
  assert (StrictWeak compare_priority_for_donate) as HS by apply (StrictWeak_key_gt d_priority).
  pose proof (stable_sort_ordered compare_priority_for_donate (filter (fun d => d_lock d <> l) (donations th))) as Ho.
  unfold released. simpl. destruct (stable_sort _ _) as [|d ds].
  { split; [intros ->; split_and!; auto; lia|]. intros ([->|(d & Hd & _)] & _); [done|by apply elem_of_nil in Hd]. }
  apply (ordered_head_le compare_priority_for_donate) in Ho.
  assert (Forall (fun d' => d_priority d' <= d_priority d) (d :: ds)) as Hmax.
  { constructor; [lia|]. eapply Forall_impl; [exact Ho|]. intros e. unfold le_of, compare_priority_for_donate. lia. }
  split.
  - intros ->. split_and!; [|lia|].
    + destruct (Z.max_spec (original_priority th) (d_priority d)) as [[_ ->]|[_ ->]]; [|by left]. right. exists d. split; [mem|done].
    + eapply Forall_impl; [exact Hmax|]. simpl. lia.
  - rewrite Forall_forall in Hmax. intros ([->|(e & He & ->)] & H1 & H2); rewrite Forall_cons in H2; [lia|].
    specialize (Hmax e He). simpl in Hmax. lia.
Qed.


