(* ===== verification/Donation.v ===== *)
(** * Priority donation

    The loop of lock_acquire that hands the priority of the acquiring thread down
    the chain of lock holders. *)

From S2P Require Import Prelude ListSpec FixedPoint KState Thread Synch Timer Machine SchedInv SchedKeeps Resched SchedTheorems.

(** ** The chain *)

(** From lock [l] on, the locks and their holders up to the first free lock, the
    first holder that waits for nothing or the first one whose priority exceeds [p]. *)
Inductive donation_chain (st : kstate) (p : Z) : Z -> list (Z * Z) -> Prop :=
  | chain_none : donation_chain st p nullp []
  | chain_free l : l <> nullp -> locks st !! l = Some nullp -> donation_chain st p l []
  | chain_higher l h th :
      l <> nullp -> locks st !! l = Some h -> h <> nullp -> threads st !! h = Some th -> p < priority th ->
      donation_chain st p l []
  | chain_hold l h th hs :
      l <> nullp -> locks st !! l = Some h -> h <> nullp -> threads st !! h = Some th -> priority th <= p ->
      (pending_lock th <> nullp -> is_Some (semas st !! SLock (pending_lock th))) ->
      donation_chain st p (pending_lock th) hs -> donation_chain st p l ((l, h) :: hs).

(** A holder after a donation of [p] by [donor] for [l]. *)
Definition donee (p donor l : Z) (th : thread) : thread :=
  set_donations (insert_ordered compare_priority_for_donate (Donation p donor l) (donations th)) (set_priority p th).

(** The waiting queues, as multisets, and the values of semaphores stay. *)
Definition same_semas (st st' : kstate) : Prop :=
  forall s x, semas st !! s = Some x -> exists ws, semas st' !! s = Some (Semaphore (value x) ws) /\ ws ≡ₚ waiters x.

Lemma same_semas_refl st : same_semas st st.
Proof. intros s [v ws] E. by exists ws. Qed.

Lemma same_semas_trans s1 s2 s3 : same_semas s1 s2 -> same_semas s2 s3 -> same_semas s1 s3.
Proof.
  intros H1 H2 s x E. destruct (H1 s x E) as (ws & E1 & Hp1). destruct (H2 _ _ E1) as (ws' & E2 & Hp2).
  exists ws'. split; [done|]. by rewrite Hp2.
Qed.

(** Only the chain matters to the loop, not what earlier rounds changed. *)
Lemma donation_chain_frame st st' p l hs :
  donation_chain st p l hs -> locks st' = locks st -> same_semas st st' ->
  (forall h th, threads st !! h = Some th -> threads st' !! h = Some th \/ (h ∉ hs.*2 /\ priority th <= p)) ->
  donation_chain st' p l hs.
Proof.
  intros H Hl Hs. induction H as [|l Hn Hf|l h th Hn Hh H0 Ht Hp|l h th hs Hn Hh H0 Ht Hp Hsem Hc IH]; intros Hth.
  - constructor.
  - apply chain_free; [done|by rewrite Hl].
  - destruct (Hth h th Ht) as [Ht'|[_ ?]]; [|lia]. apply (chain_higher _ _ _ h th); try done. by rewrite Hl.
  - destruct (Hth h th Ht) as [Ht'|[Hn' _]]; [|by destruct Hn'; simpl; mem].
    apply (chain_hold _ _ _ h th); try done.
    + by rewrite Hl.
    + intros Hne. destruct (Hsem Hne) as [x Hx]. destruct (Hs _ _ Hx) as (ws & E & _). by rewrite E.
    + apply IH. intros u thu Hu. destruct (Hth u thu Hu) as [?|[Hn' ?]]; [by left|right].
      split; [|done]. simpl in Hn'. mem_all.
Qed.

(** ** The loop *)

Lemma wp_get_priority st m c cth (Q : Z -> kstate -> Prop) :
  threads st = <[c := cth]> m -> current st = c -> status cth = THREAD_RUNNING -> Q (priority cth) st ->
  wp thread_get_priority Q st.
Proof.
  intros Ht Hc Hr HQ. unfold thread_get_priority. kwp_step. eapply wp_thread_current_at; [exact Ht|done..|].
  kwp_step. eapply wp_get_thread_at; [exact Ht|]. by kwp_step.
Qed.

Record donated_chain (st st' : kstate) (p donor : Z) (hs : list (Z * Z)) : Prop := {
  dc_places : st ≃ st';
  dc_locks : locks st' = locks st;
  dc_semas : same_semas st st';
  dc_donees l h th : (l, h) ∈ hs -> threads st !! h = Some th -> threads st' !! h = Some (donee p donor l th);
  dc_others t : t ∉ hs.*2 -> threads st' !! t = threads st !! t
}.

Lemma wp_donate_loop fuel st cth p l hs :
  donation_chain st p l hs -> sched_inv st -> threads st !! current st = Some cth -> priority cth = p ->
  NoDup hs.*2 -> current st ∉ hs.*2 -> (length hs < fuel)%nat ->
  wp (donate_loop true fuel (current st) l) (fun _ st' => donated_chain st st' p (current st) hs) st.
Proof.
  intros Hc. revert st Hc. revert fuel l. induction hs as [|[l' h] hs IH]; intros fuel l st Hc Hinv Hcur Hp Hnd Hcn Hf.
  all: destruct fuel as [|fuel]; [simpl in Hf; lia|]; cbn [donate_loop].
  all: assert (threads st = <[current st := cth]> (threads st)) as E0 by (by rewrite insert_id).
  all: assert (status cth = THREAD_RUNNING) as Hrun
    by (pose proof (si_current _ Hinv) as H; unfold status_of in H; rewrite Hcur in H; by injection H).
  - assert (donated_chain st st p (current st) []) as Hd.
    { split; try done; [apply same_semas_refl|]. intros ? ? ? Hin. by apply elem_of_nil in Hin. }
    inversion Hc as [|? Hn Hfr|? h th Hn Hh H0 Ht Hlt|]; subst.
    + rewrite Z.eqb_refl. by kwp_step.
    + rewrite (proj2 (Z.eqb_neq _ nullp) Hn). kwp_step. apply (wp_get_holder _ nullp); [done|]. rewrite Z.eqb_refl. by kwp_step.
    + rewrite (proj2 (Z.eqb_neq _ nullp) Hn). kwp_step. apply (wp_get_holder _ h); [done|].
      rewrite (proj2 (Z.eqb_neq _ nullp) H0). kwp_step. eapply wp_get_priority; [exact E0|done..|].
      kwp_step. apply (wp_get_thread _ th); [done|]. rewrite (proj2 (Z.ltb_lt (priority cth) (priority th))) by done. by kwp_step.
  - inversion Hc as [| | |? ? th ? Hn Hh H0 Ht Hle Hsem Hc']; subst.
    simpl in Hnd, Hcn. apply NoDup_cons in Hnd as [Hnh Hnd].
    assert (current st <> h) as Hch by (intros E; apply Hcn; rewrite <-E; mem).
    rewrite (proj2 (Z.eqb_neq _ nullp) Hn). kwp_step. apply (wp_get_holder _ h); [done|].
    rewrite (proj2 (Z.eqb_neq _ nullp) H0). kwp_step. eapply wp_get_priority; [exact E0|done..|].
    kwp_step. apply (wp_get_thread _ th); [done|]. rewrite (proj2 (Z.ltb_ge (priority cth) (priority th))) by done.
    kwp_step. unfold create_donation. kwp_step. eapply wp_get_priority; [exact E0|done..|]. kwp_step.
    kwp_step. eapply wp_get_priority; [exact E0|done..|]. kwp_step. apply (wp_get_thread _ th); [done|]. kwp_step.
    set (p := priority cth) in *. set (th' := donee p (current st) l' th).
    assert (threads st = <[h := th]> (threads st)) as Eh by (by rewrite insert_id).
    assert (forall Q : unit -> kstate -> Prop, Q tt (set_threads (<[h := set_priority p th]> (threads st)) st) ->
      wp (if priority th <? p then p ← thread_get_priority; upd_thread h (set_priority p) else mret tt) Q st) as Hup.
    { intros Q HQ. destruct (Z.ltb_spec (priority th) p) as [Hlt|Hge].
      - kwp_step. eapply wp_get_priority; [exact E0|done..|]. by eapply upd_thread_wp; [exact Eh|reflexivity|].
      - kwp_step. replace (set_priority p th) with th in HQ by (destruct th; unfold set_priority; simpl in *; f_equal; lia).
        rewrite <-Eh in HQ. by destruct st. }
    apply Hup. clear Hup. kwp_step. eapply (upd_thread_wp _ _ th'); [reflexivity|reflexivity|]. kwp_step.
    eapply wp_get_thread_at; [reflexivity|]. kwp_step.
    set (st1 := set_threads (<[h := th']> (threads st)) st).
    change (set_threads _ _) with st1.
    assert (forall Q : unit -> kstate -> Prop,
      (forall ss, same_semas st (set_semas ss st1) -> st1 ≃ set_semas ss st1 -> Q tt (set_semas ss st1)) ->
      wp (if negb (pending_lock th' =? nullp) then
             x ← get_sema (SLock (pending_lock th')); st ← get;
             put_sema (SLock (pending_lock th'))
               (Semaphore (value x) (stable_sort (compare_priority st) (waiters x)))
           else mret tt) Q st1) as Hsort.
    { intros Q HQ. destruct (Z.eqb_spec (pending_lock th') nullp) as [En|En]; simpl.
      - kwp_step. assert (set_semas (semas st) st1 = st1) as E1 by (by destruct st).
        specialize (HQ (semas st)). rewrite E1 in HQ. apply HQ; [exact (same_semas_refl st)|done].
      - destruct (Hsem En) as [x Hx]. kwp_step. apply (wp_get_sema _ x); [done|]. kwp_steps. apply HQ.
        + intros s y Hy. simpl. destruct (decide (s = SLock (pending_lock th))) as [->|].
          * rewrite lookup_insert_eq. eexists. split; [|apply stable_sort_perm]. by simplify_eq.
          * rewrite lookup_insert_ne by done. destruct y as [v ws]. by exists ws.
        + apply (put_sema_same st1 _ _ _ x); [done|apply stable_sort_perm]. }
    apply Hsort. clear Hsort. intros ss Hss Hsame. set (st2 := set_semas ss st1) in *.
    assert (threads st2 = <[h := th']> (threads st)) as Et by done.
    assert (threads st2 !! current st = Some cth) as Hcur2 by (rewrite Et; by rewrite lookup_insert_ne).
    assert (st ≃ st2) as Hplaces.
    { transitivity st1; [|done]. replace st1 with (set_threads (alter (fun _ => th') h (threads st)) st).
      - by apply upd_same with th.
      - unfold st1. rewrite Eh at 1. by rewrite alter_insert_eq. }
    eapply wp_mono; [apply (IH fuel (pending_lock th') st2); try done|].
    + apply (donation_chain_frame st); [exact Hc'|done|exact Hss|].
      intros u thu Hu. rewrite Et. destruct (decide (u = h)) as [->|]; [right; split; [done|congruence]|left].
      by rewrite lookup_insert_ne.
    + by apply (sched_inv_same st).
    + intros Hin. apply Hcn. change (current st2) with (current st) in Hin. mem.
    + simpl in Hf. lia.
    + intros [] st3 [D1 D2 D3 D4 D5]. split.
      * by transitivity st2.
      * by rewrite D2.
      * by apply same_semas_trans with st2.
      * intros l0 h0 th0 [[= -> ->]|Hin]%elem_of_cons Hth0.
        -- rewrite D5, Et, lookup_insert_eq by done. by simplify_eq.
        -- assert (h0 <> h) as Hne by (intros ->; apply Hnh; apply list_elem_of_fmap; by exists (l0, h)).
           apply (D4 l0 h0 th0 Hin). rewrite Et. by rewrite lookup_insert_ne.
      * intros t Hnin. simpl in Hnin. rewrite D5, Et by mem_all. rewrite lookup_insert_ne; [done|]. intros ->. apply Hnin. mem.
Qed.

(** C4: lock_acquire's donation loop reaches the end of the chain of holders and
    leaves every holder on it with the priority of the acquiring thread and one
    more donation, which names the donor and the lock and stands behind the
    donations of the same or a higher priority. No other thread changes, no
    thread moves, and the queues of the locks keep their waiters. *)
Theorem donation_reaches_chain fuel st cth l hs :
  sched_inv st -> threads st !! current st = Some cth ->
  donation_chain st (priority cth) l hs -> NoDup hs.*2 -> current st ∉ hs.*2 -> (length hs < fuel)%nat ->
  exists st', donate_loop true fuel (current st) l st = Ok (tt, st') /\ sched_inv st' /\
    (forall l' h th, (l', h) ∈ hs -> threads st !! h = Some th -> exists ds1 ds2 th',
       threads st' !! h = Some th' /\ priority th' = priority cth /\ original_priority th' = original_priority th /\
       donations th = ds1 ++ ds2 /\ donations th' = ds1 ++ Donation (priority cth) (current st) l' :: ds2 /\
       Forall (fun d => priority cth <= d_priority d) ds1) /\
    (forall t, t ∉ hs.*2 -> threads st' !! t = threads st !! t) /\
    locks st' = locks st /\ ready_list st' ≡ₚ ready_list st /\
    (forall s x, semas st !! s = Some x -> exists ws, semas st' !! s = Some (Semaphore (value x) ws) /\ ws ≡ₚ waiters x).
Proof.
  intros Hinv Hcur Hc Hnd Hcn Hf.
  destruct (wp_donate_loop fuel st cth (priority cth) l hs Hc Hinv Hcur eq_refl Hnd Hcn Hf) as ([] & st' & E & [D1 D2 D3 D4 D5]).
  exists st'. split_and!; try done.
  - by apply (sched_inv_same st).
  - intros l' h th Hin Hth.
    destruct (insert_ordered_split compare_priority_for_donate (Donation (priority cth) (current st) l') (donations th))
      as (ds1 & ds2 & E1 & E2 & H1 & _).
    exists ds1, ds2, (donee (priority cth) (current st) l' th). split_and!; try done; [by apply D4|].
    eapply Forall_impl; [exact H1|]. intros d. unfold compare_priority_for_donate. simpl. lia.
  - apply (sp_ready _ _ D1).
Qed.

(** Main holds lock 10; thread 300 holds lock 11 and waits for 10; thread 400 runs. *)
Definition two_locks : list action :=
  [ACall (OpLockInit 10); ACall (OpLockInit 11); ACall (OpLockAcquire 10);
   ACall (OpCreate 300 35); AResume; ACall (OpLockAcquire 11); ACall (OpLockAcquire 10); AResume;
   ACall (OpCreate 400 40); AResume].

Lemma donation_reaches_chain_witness :
  exists st' th', donate_loop true 3 400 11 (after two_locks) = Ok (tt, st') /\
    threads st' !! 100 = Some th' /\ priority th' = 40.
Proof.
  set (th4 := Thread 4 THREAD_RUNNING 40 40 [] nullp 0 0 [] false).
  set (th3 := Thread 3 THREAD_BLOCKED 35 35 [] 10 0 0 [] false).
  set (th1 := Thread 1 THREAD_READY 35 31 [Donation 35 300 10] nullp 0 0 [200; 300; 400] false).
  assert (threads (after two_locks) !! 100 = Some th1) as H1 by (vm_compute; reflexivity).
  destruct (donation_reaches_chain 3 (after two_locks) th4 11 [(11, 300); (10, 100)]) as (st' & E & _ & Hd & _).
  - apply after_inv.
  - vm_compute. reflexivity.
  - apply (chain_hold _ _ 11 300 th3).
    + discriminate.
    + vm_compute. reflexivity.
    + discriminate.
    + vm_compute. reflexivity.
    + vm_compute. discriminate.
    + intros _. vm_compute. by eexists.
    + apply (chain_hold _ _ 10 100 th1).
      * discriminate.
      * vm_compute. reflexivity.
      * discriminate.
      * exact H1.
      * vm_compute. discriminate.
      * intros H. destruct H. reflexivity.
      * apply chain_none.
  - apply (bool_decide_eq_true_1 (NoDup [300; 100])). vm_compute. reflexivity.
  - apply (bool_decide_eq_true_1 (~ _ ∈ [300; 100])). vm_compute. reflexivity.
  - simpl. lia.
  - destruct (Hd 10 100 th1) as (_ & _ & th' & Ht & Hp & _); [mem|exact H1|].
    exists st', th'. split_and!; [|exact Ht|exact Hp].
    assert (current (after two_locks) = 400) as Ec by (vm_compute; reflexivity). rewrite Ec in E. exact E.
Defined.

(** ** What donation does not reach *)

(** C21: a donation to a thread in the ready list does not move it there: in a
    reachable state, right after a thread of priority 33 has blocked on a lock, a
    thread of priority 32 runs while the lock's holder, whose priority has been
    raised to 33, is ready. *)
Theorem donated_holder_waits :
  exists st t, rtc kstep boot_state st /\ t ∈ ready_list st /\ prio st (current st) < prio st t /\
    exists th d, threads st !! t = Some th /\ d ∈ donations th /\ d_priority d = prio st t /\
      status_of st (d_donor d) = Some THREAD_BLOCKED.
Proof.
  set (run := [ACall (OpLockInit 10); ACall (OpLockAcquire 10); ACall (OpCreate 300 32); AResume;
    ACall (OpCreate 400 33); AResume; ACall (OpLockAcquire 10)]).
  assert (ready_list (after run) = [100]) as Hr by (vm_compute; reflexivity).
  exists (after run), 100. split_and!.
  - apply after_rtc. vm_compute. by eexists.
  - rewrite Hr. mem.
  - vm_compute. reflexivity.
  - exists (Thread 1 THREAD_READY 33 31 [Donation 33 400 10] nullp 0 0 [200; 300] false), (Donation 33 400 10).
    split_and!; [vm_compute; reflexivity|simpl; mem|vm_compute; reflexivity..].
Qed.

Lemma nofuel_bind {A B} (m : K A) (f : A -> K B) st :
  wp m (fun a s => f a s = NoFuel) st -> (m ≫= f) st = NoFuel.
Proof. intros (a & s & E & H). unfold mbind, M_mbind. by rewrite E. Qed.

(** Two threads of the same priority, each waiting for the lock the other holds. *)
Record deadlock (a b la lb : Z) (st : kstate) : Prop := {
  dl_distinct : a <> b /\ a <> nullp /\ b <> nullp /\ la <> nullp /\ lb <> nullp;
  dl_current : current st = b;
  dl_locks : locks st !! la = Some a /\ locks st !! lb = Some b;
  dl_a : exists th, threads st !! a = Some th /\ pending_lock th = lb;
  dl_b : exists th, threads st !! b = Some th /\ pending_lock th = la /\ status th = THREAD_RUNNING;
  dl_prio : prio st a <= prio st b;
  dl_semas : is_Some (semas st !! SLock la) /\ is_Some (semas st !! SLock lb)
}.

(** A round of the loop at lock [l], whose holder waits for [l']. *)
Lemma donate_round n b l h th cth st :
  l <> nullp -> h <> nullp -> current st = b -> locks st !! l = Some h ->
  threads st !! h = Some th -> threads st !! b = Some cth -> status cth = THREAD_RUNNING ->
  priority th <= priority cth -> pending_lock th <> nullp -> is_Some (semas st !! SLock (pending_lock th)) ->
  (forall st', current st' = b -> locks st' = locks st ->
    (forall s, is_Some (semas st !! s) -> is_Some (semas st' !! s)) ->
    threads st' !! h = Some (donee (priority cth) b l th) ->
    (forall t, t <> h -> threads st' !! t = threads st !! t) ->
    donate_loop true n b (pending_lock th) st' = NoFuel) ->
  donate_loop true (S n) b l st = NoFuel.
Proof.
  intros Hl Hh Hc Hlk Hth Hb Hr Hp Hpl [x Hx] Hgo. cbn [donate_loop].
  rewrite (proj2 (Z.eqb_neq _ nullp) Hl). apply nofuel_bind, (wp_get_holder _ h); [done|].
  rewrite (proj2 (Z.eqb_neq _ nullp) Hh).
  assert (threads st = <[b := cth]> (threads st)) as E0 by (by rewrite insert_id).
  assert (threads st = <[h := th]> (threads st)) as Eh by (by rewrite insert_id).
  apply nofuel_bind. eapply wp_get_priority; [exact E0|done..|].
  apply nofuel_bind, (wp_get_thread _ th); [done|]. rewrite (proj2 (Z.ltb_ge _ _) Hp).
  apply nofuel_bind. unfold create_donation. kwp_step. eapply wp_get_priority; [exact E0|done..|]. kwp_step.
  apply nofuel_bind. eapply wp_get_priority; [exact E0|done..|]. apply nofuel_bind, (wp_get_thread _ th); [done|].
  apply nofuel_bind. set (p := priority cth) in *.
  assert (forall Q : unit -> kstate -> Prop, Q tt (set_threads (<[h := set_priority p th]> (threads st)) st) ->
    wp (if priority th <? p then p ← thread_get_priority; upd_thread h (set_priority p) else mret tt) Q st) as Hup.
  { intros Q HQ. destruct (Z.ltb_spec (priority th) p) as [Hlt|Hge].
    - kwp_step. eapply wp_get_priority; [exact E0|done..|]. by eapply upd_thread_wp; [exact Eh|reflexivity|].
    - kwp_step. replace (set_priority p th) with th in HQ by (destruct th; unfold set_priority; simpl in *; f_equal; lia).
      rewrite <-Eh in HQ. by destruct st. }
  apply Hup. clear Hup. apply nofuel_bind. eapply (upd_thread_wp _ _ (donee p b l th)); [reflexivity|reflexivity|].
  apply nofuel_bind. eapply wp_get_thread_at; [reflexivity|]. change (pending_lock (donee p b l th)) with (pending_lock th).
  rewrite (proj2 (Z.eqb_neq _ nullp) Hpl). apply nofuel_bind. cbn [negb]. kwp_step.
  apply (wp_get_sema _ x); [done|]. kwp_steps.
  apply Hgo; try done.
  - intros s [y Hy]. simpl. destruct (decide (s = SLock (pending_lock th))) as [->|]; [rewrite lookup_insert_eq|rewrite lookup_insert_ne by done]; by eexists.
  - apply lookup_insert_eq.
  - intros t Ht. simpl. by rewrite lookup_insert_ne.
Qed.


