(* ===== verification/TimerTheorems.v ===== *)
(** * Theorems on the timer, sleeping threads and the feedback-queue scheduler *)

From S2P Require Import Prelude ListSpec FixedPoint KState Thread Synch Timer Machine SchedInv SchedKeeps Resched SchedTheorems.

(** ** Waking sleepers *)

#[export] Instance compare_tick_order : StrictWeak compare_tick.
Proof. apply (StrictWeak_key_lt wakeup_tick). Qed.

Definition due (T : Z) (e : block_thread) : Prop := wakeup_tick e <= T.

#[export] Instance due_dec T e : Decision (due T e).
Proof. unfold due. apply _. Defined.

Lemma none_due T l e :
  ordered compare_tick (e :: l) -> ~ due T e -> filter (fun x => ~ due T x) (e :: l) = e :: l.
Proof.
  intros Ho He. apply (ordered_head_le compare_tick) in Ho. rewrite filter_cons_True by done. f_equal.
  induction l as [|x l IH]; [done|]. apply Forall_cons in Ho as [Hx Ho].
  rewrite filter_cons_True; [by rewrite IH|]. unfold le_of, compare_tick, due in *. lia.
Qed.

Lemma wp_wake_up_loop T l st :
  block_thread_list st = l -> ordered compare_tick l -> NoDup (bt_thread <$> l) ->
  Forall (fun e => status_of st (bt_thread e) = Some THREAD_BLOCKED) l ->
  (level st = INTR_ON -> in_external_intr st = false) ->
  wp (wake_up_loop l T) (fun _ st' =>
    block_thread_list st' = filter (fun e => ~ due T e) l /\
    (forall t, t ∈ ready_list st' <-> t ∈ ready_list st \/ exists e, e ∈ l /\ due T e /\ bt_thread e = t)) st.
Proof.
  revert st. induction l as [|e l IH]; intros st Hl Ho Hnd Hb Hlev; cbn [wake_up_loop].
  { kwp_step. split; [done|]. intros t. split; [auto|]. intros [?|(e & He & _)]; [done|by apply elem_of_nil in He]. }
  apply Forall_cons in Hb as [He Hb]. simpl in Hnd. apply NoDup_cons in Hnd as [Hn Hnd].
  destruct (Z.leb_spec (wakeup_tick e) T) as [Hle|Hgt].
  - kwp_steps. apply wp_thread_unblock; [done|done|].
    set (st1 := unblocked (bt_thread e) (set_block_thread_list l st)).
    eapply wp_mono; [apply (IH st1); try done|].
    + by apply StronglySorted_inv in Ho as [Ho _].
    + rewrite Forall_forall in *. intros x Hx. unfold st1, unblocked.
      transitivity (status_of (set_threads (alter (set_status THREAD_READY) (bt_thread e) (threads st)) st) (bt_thread x)); [done|].
      rewrite status_of_alter. rewrite decide_False; [by apply Hb|]. intros E. apply Hn.
      apply list_elem_of_fmap. by exists x.
    + intros [] st' [H1 H2]. split.
      * rewrite H1, filter_cons_False; [done|]. intros H. by apply H.
      * intros t. rewrite H2. unfold st1, unblocked. simpl.
        rewrite (insert_ordered_perm (compare_priority _)), elem_of_cons. split.
        -- intros [[->|?]|(x & ? & ? & ?)]; [right; exists e|by left|right; exists x]; (split; [mem|done]).
        -- intros [?|(x & [->|Hx]%elem_of_cons & ? & <-)]; [auto|by left; left|right; by exists x].
  - kwp_step. split; [by rewrite none_due by (unfold due; done || lia)|]. intros t. split; [auto|]. 
    intros [?|(x & Hx & Hd & _)]; [done|]. exfalso. apply elem_of_cons in Hx as [->|Hx]; [unfold due in *; lia|].
    apply (ordered_head_le compare_tick) in Ho. rewrite Forall_forall in Ho. specialize (Ho x Hx).
    unfold le_of, compare_tick, due in *. lia.
Qed.


(** Threads 300 and 400 sleep for 5 and 2 ticks. *)
Definition two_sleep : list action :=
  [ACall (OpCreate 300 40); AResume; ACall (OpSleep 5); AResume; ACall (OpCreate 400 40); AResume; ACall (OpSleep 2); AResume].


(** ** The feedback-queue scheduler *)

(** The rounding of fp_to_int_round, away from zero at a half. *)
Definition round_fp (x : Z) : Z := if 0 <=? x then Z.quot (x + F / 2) F else Z.quot (x - F / 2) F.

(** Update_priority computes 63 - round(recent_cpu / 4) - 2 nice, clamped to
    the 64 priorities, without any overflow of an int as long as nice is at most
    2^29 in absolute value; the idle thread keeps its priority. *)
Theorem update_priority_clamped st t th :
  threads st !! t = Some th -> is_s32 (recent_cpu th) -> - 2 ^ 29 <= nice th <= 2 ^ 29 ->
  exists st', update_priority t st = Ok (tt, st') /\
    (forall u, u <> t -> threads st' !! u = threads st !! u) /\
    exists th', threads st' !! t = Some th' /\ recent_cpu th' = recent_cpu th /\
      (t = idle_thread st -> th' = th) /\
      (t <> idle_thread st ->
        priority th' = Z.max PRI_MIN (Z.min PRI_MAX (PRI_MAX - round_fp (Z.quot (recent_cpu th) 4) - nice th * 2)) /\
        PRI_MIN <= priority th' <= PRI_MAX).
Proof.
  intros Ht Hr Hn. assert (threads st = <[t := th]> (threads st)) as E0 by (by rewrite insert_id).
  cut (wp (update_priority t) (fun _ st' => exists th', threads st' = <[t := th']> (threads st) /\
      recent_cpu th' = recent_cpu th /\ (t = idle_thread st -> th' = th) /\
      (t <> idle_thread st -> priority th' = Z.max PRI_MIN (Z.min PRI_MAX (PRI_MAX - round_fp (Z.quot (recent_cpu th) 4) - nice th * 2)))) st).
  { intros ([] & st' & E & th' & E1 & H1 & H2 & H3). exists st'. split; [done|]. split.
    - intros u Hu. by rewrite E1, lookup_insert_ne.
    - exists th'. split_and!; [by rewrite E1, lookup_insert_eq|done|done|]. intros Hi. rewrite (H3 Hi).
      split; [done|]. unfold PRI_MIN, PRI_MAX. lia. }
  unfold update_priority. kwp_steps. destruct (Z.eqb_spec t (idle_thread st)) as [Ei|Ei].
  { kwp_step. by exists th. }
  kwp_step. apply (wp_get_thread _ th); [done|]. unfold is_s32 in Hr.
  set (q := Z.quot (recent_cpu th) 4). set (r := round_fp q).
  assert (- 2 ^ 29 <= q < 2 ^ 29) as Hq by (unfold q; destruct (quot_bounds (recent_cpu th) 4) as [B1 B2]; lia).
  assert (- 2 ^ 16 < r < 2 ^ 16) as Hr16.
  { unfold r, round_fp. rewrite F_eq. change (16384 / 2) with 8192.
    destruct (Z.leb_spec 0 q); [destruct (quot_bounds (q + 8192) 16384)|destruct (quot_bounds (q - 8192) 16384)]; lia. }
  kwp_step. apply (wp_lift _ q); [apply int_div_ok; [exact Hr|lia]|].
  kwp_step. apply (wp_lift _ r).
  { unfold fp_to_int_round, r, round_fp. rewrite F_eq. change (16384 / 2) with 8192. rewrite Z.geb_leb.
    destruct (0 <=? q); rewrite int32_ok by (unfold is_s32; lia); simpl; rewrite int_div_ok by (unfold is_s32; lia); done. }
  kwp_step. apply (wp_lift _ (nice th * 2)); [apply int32_ok; unfold is_s32; lia|].
  kwp_step. apply (wp_lift _ (PRI_MAX - r)); [apply int32_ok; unfold is_s32, PRI_MAX; lia|].
  kwp_step. apply (wp_lift _ (PRI_MAX - r - nice th * 2)); [apply int32_ok; unfold is_s32, PRI_MAX; lia|]. cbv zeta.
  eapply upd_thread_wp; [exact E0|reflexivity|]. eexists. split_and!; [reflexivity|done|done|]. intros _. simpl.
  set (p := PRI_MAX - r - nice th * 2). unfold PRI_MAX, PRI_MIN in *.
  destruct (Z.gtb_spec p 63); [change (63 <? 0) with false; cbv iota; lia|].
  destruct (Z.ltb_spec p 0); cbv iota; lia.
Qed.

Lemma update_priority_clamped_witness :
  exists st' th', update_priority 100 (set_threads (alter (set_recent_cpu 200000) 100 (threads boot_state)) boot_state) = Ok (tt, st') /\
    threads st' !! 100 = Some th' /\ PRI_MIN <= priority th' <= PRI_MAX.
Proof.
  set (st := set_threads _ _).
  destruct (update_priority_clamped st 100 (Thread 1 THREAD_RUNNING 31 31 [] nullp 0 200000 [200] false)) as (st' & E & _ & th' & H1 & _ & _ & H2).
  - vm_compute. reflexivity.
  - split; vm_compute; [discriminate|reflexivity].
  - split; vm_compute; discriminate.
  - exists st', th'. split_and!; [exact E|exact H1|apply H2; discriminate..].
Defined.

(** Update_load_avg neither overflows nor grows beyond the number of threads
    that are ready or running: from a load average of at most B it computes one of
    at most B when at most B threads are ready, for any B up to 2200. *)
Theorem load_avg_bounded st B :
  sched_inv st -> 0 <= B <= 2200 -> 0 <= load_avg st <= B * F ->
  Z.of_nat (length (ready_list st)) + 1 <= B ->
  exists st', update_load_avg st = Ok (tt, st') /\ 0 <= load_avg st' <= B * F /\
    load_avg st' = Z.quot (load_avg st * 59) 60 +
      273 * (Z.of_nat (length (ready_list st)) + if current st =? idle_thread st then 0 else 1).
Proof.
  intros Hinv HB Hla Hn. rewrite F_eq in *.
  assert (wp update_load_avg (fun _ st' => 0 <= load_avg st' <= B * 16384 /\ load_avg st' = Z.quot (load_avg st * 59) 60 +
      273 * (Z.of_nat (length (ready_list st)) + if current st =? idle_thread st then 0 else 1)) st) as ([] & st' & E & H1 & H2).
  2: { by exists st'. }
  unfold update_load_avg. do 2 (kwp_step; cbn beta). kwp_step. apply wp_thread_current; [apply Hinv|].
  do 3 (kwp_step; cbn beta).
  kwp_step; cbn beta. 
  set (n := Z.of_nat (length (ready_list st)) + (if negb (current st =? idle_thread st) then 1 else 0)).
  assert (0 <= n <= B) as Hnb by (unfold n; destruct (current st =? idle_thread st); simpl; lia).
  destruct (quot_bounds (load_avg st * 59) 60 ltac:(lia)) as [Hq _]. specialize (Hq ltac:(lia)).
  kwp_step. apply (wp_lift _ (load_avg st * 59)); [apply int32_ok; unfold is_s32; lia|].
  kwp_step. apply (wp_lift _ (Z.quot (load_avg st * 59) 60)); [apply int_div_ok; [unfold is_s32; lia|lia]|].
  kwp_step. apply (wp_lift _ 16384); [reflexivity|]. kwp_step. apply (wp_lift _ 273); [reflexivity|].
  kwp_step. apply (wp_lift _ (273 * n)); [apply int32_ok; unfold is_s32; lia|].
  kwp_step. apply (wp_lift _ (Z.quot (load_avg st * 59) 60 + 273 * n)); [apply int32_ok; unfold is_s32; lia|].
  kwp_step. simpl. split; [lia|]. unfold n. by destruct (current st =? idle_thread st).
Qed.

Lemma load_avg_bounded_witness :
  ready_list (after equals_ready) = [300; 400] /\
  exists st', update_load_avg (after equals_ready) = Ok (tt, st') /\ 0 <= load_avg st' <= 3 * F.
Proof.
  assert (ready_list (after equals_ready) = [300; 400]) as Hr by (vm_compute; reflexivity).
  split; [exact Hr|].
  destruct (load_avg_bounded (after equals_ready) 3) as (st' & E & H & _).
  - apply after_inv.
  - lia.
  - assert (load_avg (after equals_ready) = 0) as -> by (vm_compute; reflexivity). rewrite F_eq. lia.
  - rewrite Hr. simpl. lia.
  - exists st'. split; [exact E|exact H].
Defined.

(** The kernel after thread_start with the option -mlfqs. *)
Definition boot_mlfqs : kstate :=
  KState (threads boot_state) (semas boot_state) (locks boot_state) ∅ (kstacks boot_state)
    100 [] 200 100 [] [100; 200] 3 0 0 0 0 true 0 INTR_ON false false 0 [] 0.

(** C34: with -mlfqs the kernel reads freed memory after a thread has exited: its
    page is freed but it stays in all_list, which update_all_priority walks at
    every fourth tick. A reachable state exists, with interrupts enabled, in which
    the timer interrupt has undefined behaviour. *)
Theorem mlfqs_reads_freed_threads :
  exists st, rtc kstep boot_mlfqs st /\ level st = INTR_ON /\ timer_irq st = Undef /\
    exists t, t ∈ all_list st /\ threads st !! t = None.
Proof.
  set (run := [ACall (OpCreate 300 31); AResume; ACall OpExit; AResume; ATimer; ATimer; ATimer; ACall OpYield]).
  exists (default boot_state (exec run boot_mlfqs)). split_and!.
  - apply exec_default. vm_compute. by eexists.
  - vm_compute. reflexivity.
  - vm_compute. reflexivity.
  - exists 300. split; [|vm_compute; reflexivity].
    apply (bool_decide_eq_true_1 (300 ∈ _)). vm_compute. reflexivity.
Qed.
