(* ===== verification/LockInv.v ===== *)
(** * The invariant of the locks

    A lock is a semaphore and a holder, and a thread passes through the semaphore
    before it becomes the holder. For every lock, the semaphore's value, the holder
    and the threads on the way from one to the other add up to one. *)

From S2P Require Import Prelude ListSpec FixedPoint KState Thread Synch Timer Machine SchedInv.

(** ** Counting *)

(** A thread switched out in lock_acquire claims the lock, unless it still waits
    for the semaphore. *)
Definition weight (l : Z) (fr : frame) : Z :=
  match fr with
  | K_lock_acquire l' => if decide (l' = l) then 1 else 0
  | K_sema_down (SLock l') _ => if decide (l' = l) then -1 else 0
  | _ => 0
  end.

Fixpoint stack_weight (l : Z) (s : list frame) : Z :=
  match s with [] => 0 | fr :: s => weight l fr + stack_weight l s end.

Definition sum_weights (l : Z) (ss : list (list frame)) : Z := foldr (fun s n => stack_weight l s + n) 0 ss.

Definition claims (l : Z) (ks : gmap Z (list frame)) : Z := sum_weights l (snd <$> map_to_list ks).

(** Only lock_acquire waits for the semaphore of a lock. *)
Fixpoint stack_ok (s : list frame) : Prop :=
  match s with
  | [] => True
  | fr :: s =>
      stack_ok s /\
      match fr with
      | K_sema_down (SLock l) _ => exists s', s = K_lock_acquire l :: s'
      | _ => True
      end
  end.

Definition neutral (fr : frame) : Prop :=
  match fr with K_lock_acquire _ | K_sema_down (SLock _) _ => False | _ => True end.

Definition not_lock (s : sema_addr) : Prop := match s with SLock _ => False | _ => True end.

Lemma stack_weight_app l s s' : stack_weight l (s ++ s') = stack_weight l s + stack_weight l s'.
Proof. induction s as [|fr s IH]; simpl; lia. Qed.

Lemma stack_ok_app s s' : stack_ok s -> stack_ok s' -> stack_ok (s ++ s').
Proof.
  intros H H'. induction s as [|fr s IH]; simpl; [done|]. destruct H as [H1 H2]. split; [by apply IH|].
  destruct fr; try done. destruct s0; try done. destruct H2 as [r ->]. by exists (r ++ s').
Qed.

Lemma neutral_weight l fr : neutral fr -> weight l fr = 0.
Proof. destruct fr; try done. by destruct s. Qed.

Lemma neutral_ok fr : neutral fr -> stack_ok [fr].
Proof. destruct fr; try done. by destruct s. Qed.

Lemma stack_weight_nonneg l s : stack_ok s -> 0 <= stack_weight l s /\ 0 <= stack_weight l (tl s).
Proof.
  induction s as [|fr s IH]; simpl; [lia|]. intros [H1 H2]. destruct (IH H1) as [I1 I2]. split; [|done].
  destruct fr; simpl; try lia; [|case_decide; lia].
  destruct s0; try lia. destruct H2 as [r ->]. simpl in *. case_decide; lia.
Qed.

Lemma sum_weights_perm l ss ss' : ss ≡ₚ ss' -> sum_weights l ss = sum_weights l ss'.
Proof. induction 1; simpl in *; lia. Qed.

Lemma claims_insert l ks u s : claims l (<[u := s]> ks) = stack_weight l s + claims l (delete u ks).
Proof.
  unfold claims. rewrite <-insert_delete_eq.
  rewrite (sum_weights_perm _ _ (s :: (snd <$> map_to_list (delete u ks)))); [done|].
  by rewrite (map_to_list_insert (delete u ks) u s) by apply lookup_delete_eq.
Qed.

Lemma claims_lookup l ks u : claims l ks = stack_weight l (default [] (ks !! u)) + claims l (delete u ks).
Proof.
  destruct (ks !! u) as [s|] eqn:E; simpl; [|by rewrite delete_id].
  rewrite <-(insert_id ks u s) at 1 by done. apply claims_insert.
Qed.

Lemma claims_update l ks u s :
  claims l (<[u := s]> ks) = claims l ks - stack_weight l (default [] (ks !! u)) + stack_weight l s.
Proof. rewrite claims_insert, (claims_lookup l ks u). lia. Qed.

Definition stacks_ok (ks : gmap Z (list frame)) : Prop := forall u, stack_ok (default [] (ks !! u)).

Lemma stacks_ok_update ks u s : stacks_ok ks -> stack_ok s -> stacks_ok (<[u := s]> ks).
Proof.
  intros H Hs v. destruct (decide (v = u)) as [->|]; [by rewrite lookup_insert_eq|by rewrite lookup_insert_ne].
Qed.

Lemma sum_weights_nonneg l ss : Forall stack_ok ss -> 0 <= sum_weights l ss.
Proof. induction 1 as [|s ss Hs _ IH]; simpl; [lia|]. pose proof (stack_weight_nonneg l s Hs). lia. Qed.

Lemma claims_nonneg l ks : stacks_ok ks -> 0 <= claims l ks.
Proof.
  intros H. apply sum_weights_nonneg, Forall_forall. intros s Hs.
  apply list_elem_of_fmap in Hs as ([u s'] & -> & Hin). apply elem_of_map_to_list in Hin.
  specialize (H u). by rewrite Hin in H.
Qed.

(** ** The invariant *)

(** The holder counts when there is one. *)
Definition held (h : Z) : Z := if decide (h = nullp) then 0 else 1.

(** [o] is a lock whose token the running function has in hand; [ex] are the
    frames of the running thread that it has not come back to yet. *)
Record lock_inv (o : option Z) (ex : list frame) (st : kstate) : Prop := {
  li_lock l : match locks st !! l with
              | Some h => exists x, semas st !! SLock l = Some x /\ 0 <= value x /\
                  value x + held h + claims l (kstacks st) + stack_weight l ex =
                    if decide (o = Some l) then 0 else 1
              | None => semas st !! SLock l = None /\ claims l (kstacks st) + stack_weight l ex = 0 /\ o <> Some l
              end;
  li_stacks : stacks_ok (kstacks st);
  li_ex : stack_ok ex;
  li_conds c ws s : conds st !! c = Some ws -> s ∈ ws -> not_lock s;
  li_null : threads st !! nullp = None
}.

Lemma lock_inv_ext o ex st st' :
  lock_inv o ex st -> locks st' = locks st -> semas st' = semas st -> kstacks st' = kstacks st -> conds st' = conds st ->
  threads st' !! nullp = None -> lock_inv o ex st'.
Proof. intros [H1 H2 H3 H4 _] E1 E2 E3 E4 E5. split; rewrite ?E1, ?E2, ?E3, ?E4; done. Qed.

(** Nothing is left of the token when someone has it in hand. *)
Lemma lock_in_hand l ex st :
  lock_inv (Some l) ex st ->
  exists x, locks st !! l = Some nullp /\ semas st !! SLock l = Some x /\ value x = 0 /\
    claims l (kstacks st) = 0 /\ stack_weight l ex = 0.
Proof.
  intros [H1 H2 H3 _ _]. specialize (H1 l). destruct (locks st !! l) as [h|]; [|by destruct H1 as (_ & _ & ?)].
  destruct H1 as (x & Hx & Hv & He). rewrite decide_True in He by done.
  pose proof (claims_nonneg l _ H2). pose proof (stack_weight_nonneg l ex H3).
  unfold held in He. destruct (decide (h = nullp)) as [->|]; [|lia]. exists x. split_and!; (done || lia).
Qed.

(** A positive value is the whole token. *)
Lemma lock_free l ex o st x :
  lock_inv o ex st -> semas st !! SLock l = Some x -> value x <> 0 ->
  o <> Some l /\ locks st !! l = Some nullp /\ value x = 1 /\ claims l (kstacks st) = 0 /\ stack_weight l ex = 0.
Proof.
  intros [H1 H2 H3 _ _] Hx Hv. specialize (H1 l). destruct (locks st !! l) as [h|]; [|destruct H1; congruence].
  destruct H1 as (x' & Hx' & Hv' & He). simplify_eq.
  pose proof (claims_nonneg l _ H2). pose proof (stack_weight_nonneg l ex H3).
  unfold held in He. destruct (decide (o = Some l)), (decide (h = nullp)) as [->|]; try lia. split_and!; (done || lia).
Qed.

(** A held lock has no token anywhere else. *)
Lemma lock_held l ex o st h :
  lock_inv o ex st -> locks st !! l = Some h -> h <> nullp ->
  o <> Some l /\ exists x, semas st !! SLock l = Some x /\ value x = 0 /\ claims l (kstacks st) = 0 /\ stack_weight l ex = 0.
Proof.
  intros [H1 H2 H3 _ _] Hl Hh. specialize (H1 l). rewrite Hl in H1. destruct H1 as (x & Hx & Hv & He).
  pose proof (claims_nonneg l _ H2). pose proof (stack_weight_nonneg l ex H3).
  unfold held in He. rewrite (decide_False (P := h = nullp)) in He by done.
  destruct (decide (o = Some l)); [lia|]. split; [done|]. exists x. split_and!; (done || lia).
Qed.

(** ** Changes of the state *)

(** The lock semaphores keep their values. *)
Lemma lock_inv_semas o ex st sm :
  lock_inv o ex st -> (forall l, value <$> sm !! SLock l = value <$> semas st !! SLock l) ->
  lock_inv o ex (set_semas sm st).
Proof.
  intros [H1 H2 H3 H4 H5] Hs. split; try done. intros l. specialize (H1 l). specialize (Hs l). simpl.
  destruct (locks st !! l) as [h|].
  - destruct H1 as (x & Hx & Hv & He). rewrite Hx in Hs. destruct (sm !! SLock l) as [y|]; [|done].
    simpl in Hs. injection Hs as Hs. exists y. by rewrite Hs.
  - destruct H1 as (Hx & ?). rewrite Hx in Hs. by destruct (sm !! SLock l).
Qed.

Lemma put_other_sema o ex st s x :
  lock_inv o ex st -> not_lock s -> lock_inv o ex (set_semas (<[s := x]> (semas st)) st).
Proof. intros H Hs. apply lock_inv_semas; [done|]. intros l. rewrite lookup_insert_ne; [done|by intros ->]. Qed.

Lemma put_waiters o ex st s x ws :
  lock_inv o ex st -> semas st !! s = Some x -> lock_inv o ex (set_semas (<[s := Semaphore (value x) ws]> (semas st)) st).
Proof.
  intros H Hx. apply lock_inv_semas; [done|]. intros l. destruct (decide (SLock l = s)) as [<-|].
  - by rewrite lookup_insert_eq, Hx.
  - by rewrite lookup_insert_ne by done.
Qed.

(** Taking the token from the semaphore, and giving it back. *)
Lemma take_token l ex st x ws :
  lock_inv None ex st -> semas st !! SLock l = Some x -> value x <> 0 ->
  lock_inv (Some l) ex (set_semas (<[SLock l := Semaphore (u32 (value x - 1)) ws]> (semas st)) st).
Proof.
  intros H Hx Hv. destruct (lock_free l ex None st x H Hx Hv) as (_ & Hl & E & Hc & He).
  destruct H as [H1 H2 H3 H4 H5]. split; try done. intros l'. specialize (H1 l'). simpl.
  destruct (decide (l' = l)) as [->|Hne].
  - rewrite Hl. exists (Semaphore (u32 (value x - 1)) ws). rewrite lookup_insert_eq, E. split_and!; [done|done|].
    rewrite decide_True by done. cbn [value]. change (u32 (1 - 1)) with 0. unfold held. rewrite decide_True by done. lia.
  - rewrite lookup_insert_ne by congruence. rewrite decide_False by congruence.
    destruct (locks st !! l'); [done|]. destruct H1 as (? & ? & _). split_and!; [done|done|congruence].
Qed.

Lemma give_token l ex st x ws :
  lock_inv (Some l) ex st -> semas st !! SLock l = Some x ->
  lock_inv None ex (set_semas (<[SLock l := Semaphore (u32 (value x + 1)) ws]> (semas st)) st).
Proof.
  intros H Hx. destruct (lock_in_hand l ex st H) as (x' & Hl & Hx' & Hv & Hc & He). simplify_eq.
  destruct H as [H1 H2 H3 H4 H5]. split; try done. intros l'. specialize (H1 l'). simpl.
  destruct (decide (l' = l)) as [->|Hne].
  - rewrite Hl. exists (Semaphore (u32 (value x + 1)) ws). rewrite lookup_insert_eq, Hv. split_and!; [done|done|].
    cbn [value]. change (u32 (0 + 1)) with 1. unfold held. rewrite decide_True by done. lia.
  - rewrite lookup_insert_ne by congruence. rewrite decide_False in H1 by congruence.
    destruct (locks st !! l'); [done|]. destruct H1 as (? & ? & _). split_and!; done.
Qed.

(** Becoming the holder, and no longer being it. *)
Lemma become_holder l ex st h :
  lock_inv (Some l) ex st -> h <> nullp -> lock_inv None ex (set_locks (<[l := h]> (locks st)) st).
Proof.
  intros H Hh. destruct (lock_in_hand l ex st H) as (x & Hl & Hx & Hv & Hc & He).
  destruct H as [H1 H2 H3 H4 H5]. split; try done. intros l'. specialize (H1 l'). simpl.
  destruct (decide (l' = l)) as [->|Hne].
  - rewrite lookup_insert_eq. exists x. unfold held. rewrite (decide_False (P := h = nullp)) by done. split_and!; (done || lia).
  - rewrite lookup_insert_ne by done. rewrite decide_False in H1 by congruence.
    destruct (locks st !! l'); [done|]. destruct H1 as (? & ? & _). split_and!; done.
Qed.

Lemma give_back l ex st h :
  lock_inv None ex st -> locks st !! l = Some h -> h <> nullp ->
  lock_inv (Some l) ex (set_locks (<[l := nullp]> (locks st)) st).
Proof.
  intros H Hl Hh. destruct (lock_held l ex None st h H Hl Hh) as (_ & x & Hx & Hv & Hc & He).
  destruct H as [H1 H2 H3 H4 H5]. split; try done. intros l'. specialize (H1 l'). simpl.
  destruct (decide (l' = l)) as [->|Hne].
  - rewrite lookup_insert_eq. exists x. rewrite decide_True by done. split_and!; [done|lia|].
    unfold held. rewrite decide_True by done. lia.
  - rewrite lookup_insert_ne by done. rewrite decide_False by congruence.
    destruct (locks st !! l'); [done|]. destruct H1 as (? & ? & _). split_and!; [done|done|congruence].
Qed.

(** Frames: neutral ones, and the two that lock_acquire leaves. *)
Lemma push_frames o ex st t frs :
  lock_inv o ex st -> stack_ok frs -> (forall l, stack_weight l frs = 0) ->
  lock_inv o ex (set_kstacks (<[t := default [] (kstacks st !! t) ++ frs]> (kstacks st)) st).
Proof.
  intros [H1 H2 H3 H4 H5] Hok Hw.
  assert (forall l, claims l (<[t := default [] (kstacks st !! t) ++ frs]> (kstacks st)) = claims l (kstacks st)) as Ec.
  { intros l. rewrite claims_update, stack_weight_app, Hw. lia. }
  split; [|by apply stacks_ok_update; [|apply stack_ok_app]|done..].
  intros l. simpl. rewrite Ec. apply H1.
Qed.

(** The frames of the running thread are set aside and put back. *)
Lemma set_aside o st c frs :
  lock_inv o [] st -> default [] (kstacks st !! c) = frs -> lock_inv o frs (set_kstacks (<[c := []]> (kstacks st)) st).
Proof.
  intros [H1 H2 _ H4 H5] <-.
  assert (forall l, claims l (<[c := []]> (kstacks st)) + stack_weight l (default [] (kstacks st !! c)) = claims l (kstacks st) + stack_weight l []) as Ec.
  { intros l. rewrite claims_update. simpl. lia. }
  split; [|by apply stacks_ok_update|apply H2|done..].
  intros l. specialize (H1 l). simpl. destruct (locks st !! l).
  - destruct H1 as (x & Hx & Hv & He). exists x. split_and!; [done|done|]. specialize (Ec l). lia.
  - destruct H1 as (? & He & ?). split_and!; [done| |done]. specialize (Ec l). lia.
Qed.

Lemma put_back o st c frs :
  lock_inv o frs st -> lock_inv o [] (set_kstacks (<[c := default [] (kstacks st !! c) ++ frs]> (kstacks st)) st).
Proof.
  intros [H1 H2 H3 H4 H5].
  assert (forall l, claims l (<[c := default [] (kstacks st !! c) ++ frs]> (kstacks st)) + stack_weight l [] = claims l (kstacks st) + stack_weight l frs) as Ec.
  { intros l. rewrite claims_update, stack_weight_app. simpl. lia. }
  split; [|by apply stacks_ok_update; [|apply stack_ok_app]|done..].
  intros l. specialize (H1 l). simpl. destruct (locks st !! l).
  - destruct H1 as (x & Hx & Hv & He). exists x. split_and!; [done|done|]. specialize (Ec l). simpl in Ec. lia.
  - destruct H1 as (? & He & ?). split_and!; [done| |done]. specialize (Ec l). simpl in Ec. lia.
Qed.

(** The frames set aside change, with the token. *)
Lemma drop_neutral o st fr ex : lock_inv o (fr :: ex) st -> neutral fr -> lock_inv o ex st.
Proof.
  intros [H1 H2 H3 H4 H5] Hn. split; [|done|by destruct H3|done..]. intros l. specialize (H1 l). simpl in H1.
  by rewrite (neutral_weight l fr Hn), Z.add_0_l in H1.
Qed.

Lemma claim_to_hand l st ex : lock_inv None (K_lock_acquire l :: ex) st -> lock_inv (Some l) ex st.
Proof.
  intros [H1 H2 H3 H4 H5]. split; [|done|by destruct H3|done..]. intros l'. specialize (H1 l'). simpl in H1.
  destruct (locks st !! l') as [h|] eqn:El.
  - destruct H1 as (x & Hx & Hv & He). exists x. split_and!; [done|done|]. destruct (decide (l = l')) as [->|Hne].
    + rewrite decide_True by done. lia.
    + rewrite decide_False by congruence. lia.
  - destruct H1 as (Hx & He & _). destruct (decide (l = l')) as [->|Hne].
    + pose proof (claims_nonneg l' _ H2). destruct H3 as [H3 _]. pose proof (stack_weight_nonneg l' ex H3). lia.
    + split_and!; [done|lia|congruence].
Qed.

Lemma hand_to_claim l st ex : lock_inv (Some l) ex st -> lock_inv None (K_lock_acquire l :: ex) st.
Proof.
  intros H. destruct (lock_in_hand l ex st H) as (x & Hl & Hx & Hv & Hc & He).
  destruct H as [H1 H2 H3 H4 H5]. split; [|done|by split|done..]. intros l'. specialize (H1 l'). simpl.
  destruct (locks st !! l') as [h|] eqn:El.
  - destruct H1 as (x' & Hx' & Hv' & He'). exists x'. split_and!; [done|done|]. destruct (decide (l = l')) as [->|Hne].
    + rewrite decide_True in He' by done. lia.
    + rewrite decide_False in He' by congruence. lia.
  - destruct H1 as (? & ? & Ho). split_and!; [done| |done]. destruct (decide (l = l')) as [->|]; [congruence|lia].
Qed.

Lemma drop_waiting o l old st ex :
  lock_inv o (K_sema_down (SLock l) old :: K_lock_acquire l :: ex) st -> lock_inv o ex st.
Proof.
  intros [H1 H2 H3 H4 H5]. split; [|done|by destruct H3 as [[? _] _]|done..]. intros l'. specialize (H1 l'). simpl in H1.
  replace ((if decide (l = l') then -1 else 0) + ((if decide (l = l') then 1 else 0) + stack_weight l' ex)) with (stack_weight l' ex) in H1
    by (destruct (decide (l = l')); lia). done.
Qed.

Lemma add_waiting o l old st ex :
  lock_inv o ex st -> lock_inv o (K_sema_down (SLock l) old :: K_lock_acquire l :: ex) st.
Proof.
  intros [H1 H2 H3 H4 H5]. split; [|done|simpl; split; [by split|by exists ex]|done..]. intros l'. specialize (H1 l'). simpl.
  replace ((if decide (l = l') then -1 else 0) + ((if decide (l = l') then 1 else 0) + stack_weight l' ex)) with (stack_weight l' ex)
    by (destruct (decide (l = l')); lia). done.
Qed.
