(* ===== verification/LockKeeps.v ===== *)
(** * The invariant of the locks, function by function

    Every kernel function of the model keeps the invariant of LockInv.v, and only
    the holder of a lock ends its holding it. *)

From S2P Require Import Prelude ListSpec FixedPoint KState Thread Synch Timer Machine SchedInv LockInv.

(** Locks that another thread than [c] holds are still held by it. *)
Definition others_hold (c : Z) (st st' : kstate) : Prop :=
  forall l t, locks st !! l = Some t -> t <> nullp -> t <> c -> locks st' !! l = Some t.

Lemma others_hold_same c st st' : locks st' = locks st -> others_hold c st st'.
Proof. intros E l t Hl _ _. by rewrite E. Qed.

Lemma others_hold_trans c s1 s2 s3 : others_hold c s1 s2 -> others_hold c s2 s3 -> others_hold c s1 s3.
Proof. intros H1 H2 l t Hl Ht Hc. apply H2; [|done|done]. by apply H1. Qed.

Definition safe (o : option Z) (ex : list frame) (c : Z) (st st' : kstate) : Prop :=
  lock_inv o ex st' /\ others_hold c st st' /\ current st' = c.

Definition safe_ctl (o : option Z) (ex : list frame) (c : Z) (r : ctl) (st st' : kstate) : Prop :=
  lock_inv o ex st' /\ others_hold c st st' /\ match r with Returned => current st' = c | Switched t => t = c end.

(** [m] takes the invariant with the token [o] to the one with [o']. *)
Definition moves {A} (o o' : option Z) (ex : list frame) (c : Z) (m : K A) : Prop :=
  forall st, lock_inv o ex st -> current st = c -> pwp m (fun _ => safe o' ex c st) st.

Definition movesK (o o' : option Z) (ex : list frame) (c : Z) (m : K ctl) : Prop :=
  forall st, lock_inv o ex st -> current st = c -> pwp m (fun r => safe_ctl o' ex c r st) st.

Lemma push_neutral o ex st t fr :
  lock_inv o ex st -> neutral fr ->
  lock_inv o ex (set_kstacks (<[t := default [] (kstacks st !! t) ++ [fr]]> (kstacks st)) st).
Proof.
  intros H Hn. apply push_frames; [done|by apply neutral_ok|]. intros l. simpl. rewrite neutral_weight by done. lia.
Qed.

Section Rules.
Context (o : option Z) (ex : list frame) (c : Z).

Lemma safe_then {A} o1 o2 st st1 (m : K A) :
  safe o1 ex c st st1 -> moves o1 o2 ex c m -> pwp m (fun _ => safe o2 ex c st) st1.
Proof.
  intros (H1 & H2 & H3) Hm. eapply pwp_mono; [by apply Hm|]. intros a st2 (K1 & K2 & K3).
  split_and!; [done|by apply others_hold_trans with st1|done].
Qed.

Lemma safe_thenK o1 o2 st st1 (m : K ctl) :
  safe o1 ex c st st1 -> movesK o1 o2 ex c m -> pwp m (fun r => safe_ctl o2 ex c r st) st1.
Proof.
  intros (H1 & H2 & H3) Hm. eapply pwp_mono; [by apply Hm|]. intros a st2 (K1 & K2 & K3).
  split_and!; [done|by apply others_hold_trans with st1|done].
Qed.

Lemma safe_refl st : lock_inv o ex st -> current st = c -> safe o ex c st st.
Proof. intros H Hc. split_and!; [done|by apply others_hold_same|done]. Qed.

Lemma moves_ret {A} (a : A) : moves o o ex c (mret a).
Proof. intros st H Hc. apply pwp_ret. by apply safe_refl. Qed.

Lemma movesK_ret : movesK o o ex c (mret Returned).
Proof. intros st H Hc. apply pwp_ret. by apply (safe_refl st). Qed.

Lemma moves_bind {A B} o1 o2 (m : K A) (f : A -> K B) :
  moves o o1 ex c m -> (forall a, moves o1 o2 ex c (f a)) -> moves o o2 ex c (m ≫= f).
Proof.
  intros Hm Hf st H Hc. apply pwp_bind. eapply pwp_mono; [by apply Hm|]. intros a st1 H1. by apply (safe_then o1).
Qed.

Lemma movesK_bind {A} o1 o2 (m : K A) (f : A -> K ctl) :
  moves o o1 ex c m -> (forall a, movesK o1 o2 ex c (f a)) -> movesK o o2 ex c (m ≫= f).
Proof.
  intros Hm Hf st H Hc. apply pwp_bind. eapply pwp_mono; [by apply Hm|]. intros a st1 H1. by apply (safe_thenK o1).
Qed.

Lemma moves_reads {A} (m : K A) : reads m -> moves o o ex c m.
Proof. intros Hm st H Hc a st' E. apply Hm in E as ->. by apply safe_refl. Qed.

(** An assignment that touches none of what the invariant speaks of. *)
Lemma moves_modify f :
  (forall st, locks (f st) = locks st /\ semas (f st) = semas st /\ kstacks (f st) = kstacks st /\
     conds (f st) = conds st /\ threads (f st) = threads st /\ current (f st) = current st) ->
  moves o o ex c (modify f).
Proof.
  intros Hf st H Hc. apply pwp_modify. destruct (Hf st) as (E1 & E2 & E3 & E4 & E5 & E6). split_and!.
  - apply lock_inv_ext with st; try done. rewrite E5. apply (li_null _ _ _ H).
  - by apply others_hold_same.
  - congruence.
Qed.

Lemma moves_upd t f : moves o o ex c (upd_thread t f).
Proof.
  intros st H Hc. apply pwp_upd_thread. intros th Hth. split_and!; [|by apply others_hold_same|done].
  apply lock_inv_ext with st; try done. simpl. pose proof (li_null _ _ _ H) as Hn.
  rewrite lookup_alter_ne; [done|]. intros ->. congruence.
Qed.

Lemma moves_put_other s x : not_lock s -> moves o o ex c (put_sema s x).
Proof.
  intros Hs st H Hc. apply pwp_modify. split_and!; [by apply put_other_sema|by apply others_hold_same|done].
Qed.

Lemma moves_put_cond co ws : (forall s, s ∈ ws -> not_lock s) -> moves o o ex c (put_cond co ws).
Proof.
  intros Hws st H Hc. apply pwp_modify. split_and!; [|by apply others_hold_same|done].
  destruct H as [H1 H2 H3 H4 H5]. split; try done. intros co' ws' s. simpl.
  destruct (decide (co' = co)) as [->|]; [rewrite lookup_insert_eq; intros [= <-]; apply Hws|rewrite lookup_insert_ne by done; apply H4].
Qed.

Lemma moves_destroy vs : moves o o ex c (destroy_loop vs).
Proof.
  induction vs as [|v vs IH]; cbn [destroy_loop]; [apply moves_ret|].
  apply moves_bind with o; [by apply moves_modify|intros _]. apply moves_bind with o; [|intros _; exact IH].
  intros st H Hc. apply pwp_modify. split_and!; [|by apply others_hold_same|done].
  apply lock_inv_ext with st; try done. simpl. apply lookup_delete_None. right. apply (li_null _ _ _ H).
Qed.

Lemma moves_push t fr : neutral fr -> moves o o ex c (push_frame t fr).
Proof. intros Hn st H Hc. apply pwp_modify. split_and!; [by apply push_neutral|by apply others_hold_same|done]. Qed.

(** A call that leaves a neutral frame; the called function and what follows it
    may have moved the token before the thread is switched out. *)
Lemma movesK_call o1 m fr k :
  neutral fr -> movesK o o1 ex c m -> movesK o1 o1 ex c k -> movesK o o1 ex c (call m fr k).
Proof.
  intros Hn Hm Hk st H Hc. unfold call. apply pwp_bind. eapply pwp_mono; [by apply Hm|].
  intros [|t] st1 (H1 & H2 & H3).
  - by apply (safe_thenK o1).
  - apply pwp_bind, pwp_modify, pwp_ret. split_and!; [by apply push_neutral|done|done].
Qed.

Lemma moves_in_handler m : movesK o o ex c m -> moves o o ex c (in_handler m).
Proof.
  intros Hm st H Hc. unfold in_handler. apply pwp_bind. eapply pwp_mono; [by apply Hm|].
  intros [|t] st' Hs; [by apply pwp_ret|done].
Qed.
End Rules.

Create HintDb moves.
#[export] Hint Resolve moves_destroy moves_in_handler : moves.

Ltac moves_step :=
  lazymatch goal with
  | |- moves ?o _ _ _ (mbind _ _) => apply moves_bind with o; [|intros ?]
  | |- moves _ _ _ _ (if ?b then _ else _) => destruct b
  | |- moves _ _ _ _ (match ?x with _ => _ end) => destruct x
  | |- moves _ _ _ _ (let _ := _ in _) => cbv zeta
  | |- moves _ _ _ _ (mret _) => apply moves_ret
  | |- moves _ _ _ _ (modify _) => apply moves_modify; by intros ?
  | |- moves _ _ _ _ (ready_insert _) => apply moves_modify; by intros ?
  | |- moves _ _ _ _ (upd_thread _ _) => apply moves_upd
  | |- moves _ _ _ _ (put_sema _ _) => apply moves_put_other; done
  | |- moves _ _ _ _ (sema_init _ _) => apply moves_put_other; done
  | |- moves _ _ _ _ (push_frame _ _) => apply moves_push; done
  | |- moves _ _ _ _ _ => first [ solve [apply moves_reads; eauto 10 with reads] | solve [eauto with moves] ]
  end.
Ltac moves_tac := repeat (moves_step; cbn beta).

Ltac movesK_step :=
  lazymatch goal with
  | |- movesK _ _ _ _ (mret Returned) => apply movesK_ret
  | |- movesK ?o _ _ _ (mbind _ _) => apply movesK_bind with o; [solve [moves_tac]|intros ?]
  | |- movesK _ _ _ _ (if ?b then _ else _) => destruct b
  | |- movesK _ _ _ _ (match ?x with _ => _ end) => destruct x
  | |- movesK _ _ _ _ (let _ := _ in _) => cbv zeta
  | |- movesK _ _ _ _ (call _ _ _) => apply movesK_call; [done| |]
  | |- movesK _ _ _ _ _ => solve [eauto with moves]
  end.
Ltac movesK_tac := repeat (movesK_step; cbn beta).

(** ** threads/interrupt.c and threads/thread.c *)

Section Plain.
Context (o : option Z) (ex : list frame) (c : Z).

Lemma moves_intr_enable : moves o o ex c intr_enable.
Proof. unfold intr_enable. moves_tac. Qed.
Lemma moves_intr_disable : moves o o ex c intr_disable.
Proof. unfold intr_disable. moves_tac. Qed.
Lemma moves_intr_yield_on_return : moves o o ex c intr_yield_on_return.
Proof. unfold intr_yield_on_return. moves_tac. Qed.
Lemma moves_intr_set_level l : moves o o ex c (intr_set_level l).
Proof. destruct l; [apply moves_intr_disable|apply moves_intr_enable]. Qed.
End Plain.
#[export] Hint Resolve moves_intr_enable moves_intr_disable moves_intr_yield_on_return moves_intr_set_level : moves.

(** Leaving the processor to another thread. *)
Lemma movesK_switch o ex c next : movesK o o ex c (modify (set_current next);; mret (Switched c)).
Proof.
  intros st H Hc. pwp_steps. split_and!; [|by apply others_hold_same|done].
  apply lock_inv_ext with st; try done. apply (li_null _ _ _ H).
Qed.

Lemma moves_next_thread o ex c : moves o o ex c next_thread_to_run.
Proof. unfold next_thread_to_run. moves_tac. Qed.
#[export] Hint Resolve moves_next_thread : moves.

Section Thread.
Context (o : option Z) (ex : list frame) (c : Z).

Lemma movesK_schedule : movesK o o ex c schedule.
Proof.
  unfold schedule. intros st H Hc. apply pwp_bind, pwp_gets. rewrite Hc. revert st H Hc.
  change (movesK o o ex c (next ← next_thread_to_run;
    l ← intr_get_level; assertM (bool_decide (l = INTR_OFF));;
    cth ← get_thread c; assertM (bool_decide (status cth <> THREAD_RUNNING));;
    n ← is_thread next; assertM n;;
    upd_thread next (set_status THREAD_RUNNING);;
    modify (set_thread_ticks 0);;
    if negb (c =? next) then
      cth ← get_thread c; init ← gets initial_thread;
      (if bool_decide (status cth = THREAD_DYING) && negb (c =? init)
       then modify (fun st => set_destruction_req
              (insert_ordered (compare_priority st) c (destruction_req st)) st)
       else mret tt);;
      modify (set_current next);; mret (Switched c)
    else mret Returned)).
  repeat first [apply movesK_switch | movesK_step; cbn beta].
Qed.
End Thread.
#[export] Hint Resolve movesK_schedule : moves.

Lemma movesK_do_schedule o ex c s : movesK o o ex c (do_schedule s).
Proof. unfold do_schedule. movesK_tac. Qed.

Lemma movesK_thread_block o ex c : movesK o o ex c thread_block.
Proof. unfold thread_block. movesK_tac. Qed.

Lemma moves_thread_unblock o ex c t : moves o o ex c (thread_unblock t).
Proof. unfold thread_unblock. moves_tac. Qed.
#[export] Hint Resolve movesK_do_schedule movesK_thread_block moves_thread_unblock : moves.

Lemma movesK_thread_yield o ex c : movesK o o ex c thread_yield.
Proof. unfold thread_yield. movesK_tac. Qed.
#[export] Hint Resolve movesK_thread_yield : moves.

Lemma movesK_compare_cur_next_priority o ex c : movesK o o ex c compare_cur_next_priority.
Proof. unfold compare_cur_next_priority. movesK_tac. Qed.
#[export] Hint Resolve movesK_compare_cur_next_priority : moves.

Lemma movesK_thread_set_priority o ex c p : movesK o o ex c (thread_set_priority p).
Proof. unfold thread_set_priority. movesK_tac. Qed.

Lemma moves_update_priority o ex c t : moves o o ex c (update_priority t).
Proof. unfold update_priority. moves_tac. Qed.
#[export] Hint Resolve movesK_thread_set_priority moves_update_priority : moves.

Lemma movesK_thread_set_nice o ex c n : movesK o o ex c (thread_set_nice n).
Proof. unfold thread_set_nice. movesK_tac. Qed.

Lemma moves_update_recent_cpu o ex c : moves o o ex c update_recent_cpu.
Proof. unfold update_recent_cpu. moves_tac. Qed.

Lemma moves_update_load_avg o ex c : moves o o ex c update_load_avg.
Proof. unfold update_load_avg. moves_tac. Qed.

Lemma moves_update_recent_cpu_all o ex c : moves o o ex c update_recent_cpu_all.
Proof.
  assert (forall l, moves o o ex c (update_recent_cpu_loop l)) as H.
  { induction l as [|e rest IH]; cbn [update_recent_cpu_loop]; moves_tac; exact IH. }
  unfold update_recent_cpu_all. moves_step; [moves_tac|apply H].
Qed.

Lemma movesK_update_all_priority o ex c : movesK o o ex c update_all_priority.
Proof.
  assert (forall l, moves o o ex c (update_priority_loop l)) as H.
  { induction l as [|e rest IH]; cbn [update_priority_loop]; moves_tac; exact IH. }
  unfold update_all_priority. movesK_step. apply movesK_bind with o; [apply H|intros _]. movesK_tac.
Qed.
#[export] Hint Resolve movesK_thread_set_nice moves_update_recent_cpu moves_update_load_avg
  moves_update_recent_cpu_all movesK_update_all_priority : moves.

(** ** threads/synch.c: semaphores *)

Lemma moves_sort_waiters o ex c s :
  moves o o ex c (x ← get_sema s; st ← get; put_sema s (Semaphore (value x) (stable_sort (compare_priority st) (waiters x)))).
Proof.
  intros st H Hc. pwp_steps. split_and!; [by apply put_waiters|by apply others_hold_same|done].
Qed.

(** A semaphore that is no lock's. *)
Lemma movesK_sema_down_loop o ex c s n old : not_lock s -> movesK o o ex c (sema_down_loop n s old).
Proof.
  intros Hs. induction n as [|n IH]; [done|]. cbn [sema_down_loop].
  repeat first [exact IH | movesK_step; cbn beta].
Qed.
#[export] Hint Resolve movesK_sema_down_loop : moves.

Lemma movesK_sema_down o ex c s : not_lock s -> movesK o o ex c (sema_down s).
Proof. intros Hs. unfold sema_down. movesK_tac. Qed.

Lemma moves_sema_try_down o ex c s : not_lock s -> moves o o ex c (sema_try_down s).
Proof. intros Hs. unfold sema_try_down. moves_tac. Qed.

(** sema_up gives a token back when its semaphore is a lock's. *)
Inductive gives : sema_addr -> option Z -> option Z -> Prop :=
  | gives_other s o : not_lock s -> gives s o o
  | gives_lock l : gives (SLock l) (Some l) None.

Lemma movesK_sema_up o o' ex c s : gives s o o' -> movesK o o' ex c (sema_up s).
Proof.
  intros Hg. unfold sema_up. movesK_step. rename a into old. intros st H Hc. do 4 (pwp_step; cbn beta).
  assert (movesK o o' ex c (x ← get_sema s; put_sema s (Semaphore (u32 (value x + 1)) (waiters x));;
      call compare_cur_next_priority (K_sema_up old) (intr_set_level old;; mret Returned))) as Hgo.
  { intros st1 H1 Hc1. do 4 (pwp_step; cbn beta). apply (safe_thenK ex c o').
    - split_and!; [|by apply others_hold_same|done]. destruct Hg; [by apply put_other_sema|by apply give_token].
    - movesK_tac. }
  destruct (stable_sort _ _) as [|t ws].
  - do 2 (pwp_step; cbn beta). by apply Hgo.
  - do 3 (pwp_step; cbn beta). eapply pwp_mono.
    { apply (safe_then ex c o o st); [|apply moves_thread_unblock].
      split_and!; [by apply put_waiters|by apply others_hold_same|done]. }
    intros ? st1 H1. by apply (safe_thenK ex c o).
Qed.
#[export] Hint Resolve movesK_sema_down moves_sema_try_down : moves.
#[export] Hint Extern 1 (not_lock _) => exact I : moves.

(** ** threads/synch.c: locks *)

(** What the wait for a lock's semaphore leaves: the token in hand, or the frame of
    a thread that waits for it. *)
Definition waits (l : Z) (ex : list frame) (c : Z) (r : ctl) (st st' : kstate) : Prop :=
  others_hold c st st' /\
  match r with
  | Returned => lock_inv (Some l) ex st' /\ current st' = c
  | Switched t => exists st1 old, t = c /\ lock_inv None ex st1 /\ st' = set_kstacks (<[t := default [] (kstacks st1 !! t) ++ [K_sema_down (SLock l) old]]> (kstacks st1)) st1
  end.

Lemma pwp_sema_down_lock n l old ex c st :
  lock_inv None ex st -> current st = c -> pwp (sema_down_loop n (SLock l) old) (fun r => waits l ex c r st) st.
Proof.
  revert old st. induction n as [|n IH]; intros old st H Hc; [done|]. cbn [sema_down_loop]. pwp_steps.
  destruct (Z.eqb_spec (value x) 0) as [Ev|Ev].
  - apply pwp_bind, pwp_thread_current. intros _. do 4 (pwp_step; cbn beta). unfold call. apply pwp_bind.
    eapply pwp_mono.
    { apply (safe_thenK ex c None None st); [|apply movesK_thread_block].
      split_and!; [by apply put_waiters|by apply others_hold_same|done]. }
    intros [|t] st1 (H1 & H2 & H3).
    + eapply pwp_mono; [by apply IH|]. intros r st2 [K1 K2]. split; [by apply others_hold_trans with st1|done].
    + apply pwp_bind, pwp_modify, pwp_ret. split; [done|]. by exists st1, old.
  - do 2 (pwp_step; cbn beta). apply pwp_bind. eapply pwp_mono.
    { apply (safe_then ex c (Some l) (Some l) st); [|apply moves_intr_set_level].
      split_and!; [by apply take_token|by apply others_hold_same|done]. }
    intros ? st1 (H1 & H2 & H3). by apply pwp_ret.
Qed.

Lemma pwp_sema_down_for_lock l ex c st :
  lock_inv None ex st -> current st = c -> pwp (sema_down (SLock l)) (fun r => waits l ex c r st) st.
Proof.
  intros H Hc. unfold sema_down. apply pwp_bind, pwp_gets, pwp_bind, pwp_assert. intros _.
  apply pwp_bind. eapply pwp_mono; [by apply (moves_intr_disable None ex c)|]. intros old st1 (H1 & H2 & H3).
  eapply pwp_mono; [by apply pwp_sema_down_lock|]. intros r st2 [K1 K2]. split; [by apply others_hold_trans with st1|done].
Qed.

Lemma pwp_try_down_for_lock l ex c st :
  lock_inv None ex st -> current st = c ->
  pwp (sema_try_down (SLock l)) (fun b => safe (if b then Some l else None) ex c st) st.
Proof.
  intros H Hc. unfold sema_try_down. apply pwp_bind. eapply pwp_mono; [by apply (moves_intr_disable None ex c)|].
  intros old st1 Hs. do 2 (pwp_step; cbn beta). destruct (Z.gtb_spec (value x) 0) as [Hv|Hv].
  - do 2 (pwp_step; cbn beta). destruct Hs as (H1 & H2 & H3). apply pwp_bind. eapply pwp_mono.
    { apply (safe_then ex c (Some l) (Some l) st); [|apply moves_intr_set_level].
      split_and!; [apply take_token; (done || lia)|done|done]. }
    intros ? st2 Hs2. by apply pwp_ret.
  - apply pwp_bind. eapply pwp_mono; [by apply (safe_then ex c None None st), moves_intr_set_level|].
    intros ? st2 Hs2. by apply pwp_ret.
Qed.

(** The running thread is a thread. *)
Lemma movesK_as_current o o' ex c (f : Z -> K ctl) :
  (c <> nullp -> movesK o o' ex c (f c)) -> movesK o o' ex c (thread_current ≫= f).
Proof.
  intros Hf st H Hc. apply pwp_bind, pwp_thread_current. intros Hs. rewrite Hc in *. apply Hf; [|done|done].
  intros ->. unfold status_of in Hs. by rewrite (li_null _ _ _ H) in Hs.
Qed.

Lemma moves_as_current {A} o o' ex c (f : Z -> K A) :
  (c <> nullp -> moves o o' ex c (f c)) -> moves o o' ex c (thread_current ≫= f).
Proof.
  intros Hf st H Hc. apply pwp_bind, pwp_thread_current. intros Hs. rewrite Hc in *. apply Hf; [|done|done].
  intros ->. unfold status_of in Hs. by rewrite (li_null _ _ _ H) in Hs.
Qed.

(** A thread with the token in hand becomes the holder. *)
Lemma moves_become_holder l ex c : c <> nullp -> moves (Some l) None ex c (set_holder l c).
Proof.
  intros Hn st H Hc. apply pwp_modify. destruct (lock_in_hand l ex st H) as (x & Hl & _).
  split_and!; [by apply become_holder| |done]. intros l' t Hl' Ht Htc. simpl.
  rewrite lookup_insert_ne; [done|]. intros ->. congruence.
Qed.

Lemma movesK_lock_acquire_tail l ex c : movesK (Some l) None ex c (lock_acquire_tail l).
Proof.
  unfold lock_acquire_tail. movesK_step. movesK_step. apply movesK_as_current. intros Hn.
  apply movesK_bind with None; [by apply moves_become_holder|intros _]. apply movesK_ret.
Qed.

Lemma reads_donation mem_ok t l : reads (create_donation mem_ok t l).
Proof. unfold create_donation. destruct mem_ok; eauto with reads. Qed.
#[export] Hint Resolve reads_donation : reads.

Lemma moves_donate_loop o ex c mem_ok fuel cur l : moves o o ex c (donate_loop mem_ok fuel cur l).
Proof.
  revert l. induction fuel as [|fuel IH]; intros l; [done|]. cbn [donate_loop].
  repeat first [exact (IH _) | apply moves_sort_waiters | moves_step; cbn beta].
Qed.
#[export] Hint Resolve moves_donate_loop : moves.

(** A waiting thread's two frames. *)
Lemma push_waiting ex l old t st1 :
  lock_inv None ex st1 ->
  let st2 := set_kstacks (<[t := default [] (kstacks st1 !! t) ++ [K_sema_down (SLock l) old]]> (kstacks st1)) st1 in
  lock_inv None ex (set_kstacks (<[t := default [] (kstacks st2 !! t) ++ [K_lock_acquire l]]> (kstacks st2)) st2).
Proof.
  intros H st2. simpl. rewrite lookup_insert_eq. simpl. rewrite insert_insert_eq, <-(assoc_L (++)). simpl.
  apply (push_frames None ex st1 t [K_sema_down (SLock l) old; K_lock_acquire l]); [done| |].
  - simpl. split; [by repeat split|by exists []].
  - intros l'. simpl. case_decide; lia.
Qed.

Lemma movesK_lock_acquire ex c mem_ok fuel l : movesK None None ex c (lock_acquire mem_ok fuel l).
Proof.
  unfold lock_acquire. do 7 (movesK_step; cbn beta). intros st H Hc. unfold call. apply pwp_bind.
  eapply pwp_mono; [by apply pwp_sema_down_for_lock|]. intros [|t] st1 [Ho Hr].
  - destruct Hr as [H1 Hc1]. apply (safe_thenK ex c (Some l) None); [by split_and!|apply movesK_lock_acquire_tail].
  - destruct Hr as (st0 & old & -> & H0 & ->). apply pwp_bind, pwp_modify, pwp_ret. split_and!; [|done|done].
    by apply push_waiting.
Qed.

Lemma moves_lock_try_acquire ex c l : moves None None ex c (lock_try_acquire l).
Proof.
  unfold lock_try_acquire. do 2 (moves_step; [moves_tac|]; cbn beta). intros st H Hc. apply pwp_bind.
  eapply pwp_mono; [by apply pwp_try_down_for_lock|]. intros [] st1 Hs; [|by apply pwp_ret].
  apply (safe_then ex c (Some l)); [done|]. apply moves_as_current. intros Hn.
  apply moves_bind with None; [by apply moves_become_holder|intros _]. apply moves_ret.
Qed.

Lemma moves_remove_donation o ex c l : moves o o ex c (remove_donation_for_lock l).
Proof. unfold remove_donation_for_lock. moves_tac. Qed.

Lemma moves_recalc_priority o ex c : moves o o ex c recalc_priority.
Proof. unfold recalc_priority. moves_tac. Qed.
#[export] Hint Resolve movesK_lock_acquire moves_lock_try_acquire moves_remove_donation moves_recalc_priority : moves.

(** Only the holder gets past the assertion. *)
Lemma movesK_lock_release ex c l : movesK None None ex c (lock_release l).
Proof.
  unfold lock_release, lock_held_by_current_thread. intros st H Hc. do 2 (apply pwp_bind). apply pwp_get_holder. intros h Hl.
  apply pwp_bind, pwp_thread_current. intros _. apply pwp_ret, pwp_bind, pwp_assert. intros Eh%Z.eqb_eq.
  do 4 (pwp_step; cbn beta). rewrite Hl in Hh. injection Hh as <-. apply negb_true_iff, Z.eqb_neq in Ha.
  assert (moves None None ex c (remove_donation_for_lock l)) as M1 by moves_tac.
  assert (moves None None ex c recalc_priority) as M2 by moves_tac.
  apply pwp_bind. apply pwp_mono with (P := fun _ st1 => safe None ex c st st1 /\ locks st1 = locks st).
  { apply pwp_and; [by apply M1|]. unfold remove_donation_for_lock. apply pwp_bind, pwp_thread_current. intros _.
    apply pwp_upd_thread. done. }
  intros ? st1 [Hs1 El1]. apply pwp_bind. apply pwp_mono with (P := fun _ st2 => safe None ex c st st2 /\ locks st2 = locks st1).
  { apply pwp_and; [by apply (safe_then ex c None)|]. unfold recalc_priority. apply pwp_bind, pwp_thread_current. intros _.
    pwp_steps. destruct (donations th0); pwp_steps; [done|]. destruct (donations th2); pwp_steps; [done|].
    destruct (priority th2 <? d_priority d0); pwp_steps; done. }
  intros ? st2 [(H2 & Ho2 & Hc2) El2]. do 2 (pwp_step; cbn beta).
  eapply safe_thenK; [|apply movesK_call; [done|by apply (movesK_sema_up (Some l) None), gives_lock|movesK_tac]].
  split_and!; [|intros l' t Hl' Ht Htc; simpl|done].
  - apply (give_back l ex st2 h); [done|congruence|done].
  - rewrite lookup_insert_ne; [by apply Ho2|]. intros ->. congruence.
Qed.
#[export] Hint Resolve movesK_lock_release : moves.

(** ** threads/synch.c: conditions *)

Lemma movesK_cond_wait_tail ex c mem_ok fuel l t : movesK None None ex c (cond_wait_tail mem_ok fuel l t).
Proof. unfold cond_wait_tail. movesK_tac. Qed.
#[export] Hint Resolve movesK_cond_wait_tail : moves.

(** A condition's waiters are no locks' semaphores. *)
Lemma pwp_get_cond_ok o ex c co (Q : list sema_addr -> kstate -> Prop) st :
  lock_inv o ex st -> current st = c -> (forall ws, (forall s, s ∈ ws -> not_lock s) -> Q ws st) ->
  pwp (get_cond co) Q st.
Proof. intros H Hc HQ. apply pwp_get_cond. intros ws Hws. apply HQ. intros s Hs. by apply (li_conds _ _ _ H co ws). Qed.

Lemma movesK_cond_wait ex c mem_ok fuel co l : movesK None None ex c (cond_wait mem_ok fuel co l).
Proof.
  unfold cond_wait. do 6 (movesK_step; cbn beta). intros st H Hc. apply pwp_bind. eapply pwp_get_cond_ok; [done|done|].
  intros ws Hws. do 2 (pwp_step; cbn beta).
  assert (forall ws', ws' ≡ₚ SWait a3 :: ws -> movesK None None ex c
    (put_cond co ws';; call (lock_release l) (K_cond_wait_down l a3) (cond_wait_tail mem_ok fuel l a3))) as Hgo.
  { intros ws' Hp. apply movesK_bind with None; [|intros ?; movesK_tac]. apply moves_put_cond. intros s. rewrite Hp.
    intros [->|Hs]%elem_of_cons; [done|by apply Hws]. }
  by apply Hgo; [apply insert_ordered_perm|..].
Qed.

Lemma movesK_cond_signal ex c co l : movesK None None ex c (cond_signal co l).
Proof.
  unfold cond_signal. do 4 (movesK_step; cbn beta). intros st H Hc. apply pwp_bind. eapply pwp_get_cond_ok; [done|done|].
  intros ws Hws. do 2 (pwp_step; cbn beta).
  pose proof (stable_sort_perm (compare_priority_for_cond st) ws) as Hp.
  destruct (stable_sort _ ws) as [|s rest]; [by apply (movesK_ret None)|].
  assert (forall s', s' ∈ s :: rest -> not_lock s') as Hall by (intros s'; rewrite Hp; apply Hws).
  assert (movesK None None ex c (put_cond co rest;; sema_up s)) as Hgo; [|by apply Hgo].
  apply movesK_bind with None; [apply moves_put_cond; intros s' Hs'; apply Hall; mem|intros _].
  apply movesK_sema_up, gives_other, Hall. mem.
Qed.
#[export] Hint Resolve movesK_cond_wait movesK_cond_signal : moves.

Lemma movesK_cond_broadcast ex c co l : movesK None None ex c (cond_broadcast co l).
Proof.
  assert (forall n, movesK None None ex c (cond_broadcast_loop n co l)) as H.
  { induction n as [|n IH]; [done|]. cbn [cond_broadcast_loop]. movesK_tac. }
  unfold cond_broadcast. movesK_tac.
Qed.
#[export] Hint Resolve movesK_cond_broadcast : moves.

(** ** devices/timer.c *)

Lemma moves_timer_ticks o ex c : moves o o ex c timer_ticks.
Proof. unfold timer_ticks. moves_tac. Qed.
#[export] Hint Resolve moves_timer_ticks : moves.

Lemma movesK_timer_sleep o ex c mem_ok n : movesK o o ex c (timer_sleep mem_ok n).
Proof. unfold timer_sleep. movesK_tac. Qed.

Lemma moves_wake_up o ex c cur_tick : moves o o ex c (wake_up cur_tick).
Proof.
  assert (forall l, moves o o ex c (wake_up_loop l cur_tick)) as H.
  { induction l as [|e next IH]; cbn [wake_up_loop]; moves_tac; exact IH. }
  unfold wake_up. repeat first [apply H | moves_step; cbn beta].
Qed.
#[export] Hint Resolve movesK_timer_sleep moves_wake_up : moves.

Lemma moves_mlfqs_on_tick o ex c : moves o o ex c mlfqs_on_tick.
Proof. unfold mlfqs_on_tick. moves_tac. Qed.
#[export] Hint Resolve moves_mlfqs_on_tick : moves.

Lemma moves_thread_tick o ex c : moves o o ex c thread_tick.
Proof. unfold thread_tick. moves_tac. Qed.
#[export] Hint Resolve moves_thread_tick : moves.

Lemma moves_timer_interrupt o ex c : moves o o ex c timer_interrupt.
Proof. unfold timer_interrupt. moves_tac. Qed.
#[export] Hint Resolve moves_timer_interrupt : moves.

Lemma movesK_timer_irq o ex c : movesK o o ex c timer_irq.
Proof. unfold timer_irq, intr_handler. movesK_tac. Qed.

(** ** Creation, exit and the idle thread *)

Lemma moves_init_thread o ex c t p st :
  lock_inv o ex st -> current st = c -> default [] (kstacks st !! t) = [] ->
  pwp (init_thread t p) (fun _ => safe o ex c st) st.
Proof.
  intros H Hc Ht. unfold init_thread. apply pwp_bind, pwp_assert. intros Hn%negb_true_iff%Z.eqb_neq.
  do 6 (pwp_step; cbn beta). pwp_step.
  match goal with |- pwp ?n _ _ => set (m := n) end.
  assert (reads m) as Hm by 
    (unfold m; destruct (thread_mlfqs st && _); [apply reads_bind; [|intros ?; apply reads_bind; intros]|]; eauto with reads).
  intros [n r] st1 E. apply Hm in E as ->. cbn beta iota. unfold sema_init. pwp_steps.
  split_and!; [|by apply others_hold_same|done].
  apply put_other_sema; [|done]. apply put_other_sema; [|done].
  match goal with |- lock_inv _ _ (set_all_list _ (set_kstacks _ ?s)) => set (st1 := s) end.
  assert (lock_inv o ex st1) as H1.
  { apply lock_inv_ext with st; try done. simpl. rewrite lookup_insert_ne by done. apply (li_null _ _ _ H). }
  pose proof (push_frames o ex st1 t [] H1 I ltac:(done)) as H2. simpl in H2. rewrite Ht in H2.
  apply (lock_inv_ext _ _ _ _ H2); try done. apply (li_null _ _ _ H1).
Qed.

Lemma movesK_create_tail ex c t n : movesK None None ex c (thread_create_tail t n).
Proof. unfold thread_create_tail. movesK_tac. Qed.
#[export] Hint Resolve movesK_create_tail : moves.

Lemma movesK_allocate_tail ex c t : movesK None None ex c (allocate_tid_tail t (thread_create_tail t)).
Proof. unfold allocate_tid_tail. movesK_tac. Qed.
#[export] Hint Resolve movesK_allocate_tail : moves.

Lemma movesK_allocate_tid ex c mem_ok fuel t : movesK None None ex c (allocate_tid mem_ok fuel t).
Proof. unfold allocate_tid. movesK_tac. Qed.
#[export] Hint Resolve movesK_allocate_tid : moves.

Lemma movesK_thread_create ex c mem_ok fuel t p st :
  lock_inv None ex st -> current st = c -> default [] (kstacks st !! t) = [] ->
  pwp (thread_create mem_ok fuel t p) (fun r => safe_ctl None ex c r st) st.
Proof.
  intros H Hc Ht. unfold thread_create. apply pwp_bind, pwp_thread_current. intros _.
  destruct (t =? nullp); [by apply (movesK_ret None)|].
  apply pwp_bind. eapply pwp_mono; [by apply (moves_init_thread None ex c)|]. intros ? st1 Hs.
  apply (safe_thenK ex c None); [done|]. movesK_tac.
Qed.

Lemma movesK_thread_exit_tail o ex c : movesK o o ex c thread_exit_tail.
Proof. unfold thread_exit_tail. movesK_tac. Qed.
#[export] Hint Resolve movesK_thread_exit_tail : moves.

Lemma movesK_thread_exit o ex c m : movesK o o ex c m -> movesK o o ex c (thread_exit m).
Proof. intros Hm. unfold thread_exit. movesK_tac. Qed.

Lemma movesK_idle o ex c : movesK o o ex c idle.
Proof. unfold idle. movesK_tac. Qed.

(** ** Going on *)

Lemma resume_neutral mem_ok fuel ex c fr : neutral fr -> movesK None None ex c (resume_frame mem_ok fuel fr).
Proof.
  intros Hn. destruct fr; simpl in *; try done; try (by movesK_tac).
  unfold kernel_thread_start. movesK_tac.
Qed.

Lemma frame_cases fr : neutral fr \/ (exists l, fr = K_lock_acquire l) \/ (exists l old, fr = K_sema_down (SLock l) old).
Proof. destruct fr; simpl; eauto. destruct s; simpl; eauto. Qed.

(** The frames of the running thread, the first of which goes on. *)
Lemma lock_inv_resume mem_ok fuel st :
  lock_inv None [] st -> pwp (resume mem_ok fuel) (fun _ st' => lock_inv None [] st' /\ others_hold (current st) st st') st.
Proof.
  intros H. unfold resume. do 4 (pwp_step; cbn beta). set (c := current st).
  destruct (default [] (kstacks st !! c)) as [|fr rest] eqn:Efr; [by apply pwp_ret; split; [|apply others_hold_same]|].
  do 2 (pwp_step; cbn beta). pose proof (set_aside None st c _ H Efr) as H1. set (st1 := set_kstacks _ st) in *.
  assert (forall (r : ctl) (st2 : kstate), lock_inv None rest st2 /\ others_hold c st1 st2 ->
    pwp (modify (fun st => set_kstacks (<[c := default [] (kstacks st !! c) ++ rest]> (kstacks st)) st);; mret r : K ctl)
      (fun _ st' => lock_inv None [] st' /\ others_hold c st st') st2) as Hback.
  { intros r st2 [H2 Ho]. pwp_steps. split; [by apply put_back|exact Ho]. }
  pwp_step. destruct (frame_cases fr) as [Hn|[[l ->]|(l & old & ->)]].
  - apply drop_neutral in H1; [|done]. eapply pwp_mono; [by apply resume_neutral|].
    intros r st2 (H2 & Ho & _). by apply Hback.
  - apply claim_to_hand in H1. eapply pwp_mono; [by apply (movesK_lock_acquire_tail l rest c)|].
    intros r st2 (H2 & Ho & _). by apply Hback.
  - assert (exists rest', rest = K_lock_acquire l :: rest') as [rest' ->] by (by destruct (li_ex _ _ _ H1) as [_ ?]).
    apply drop_waiting in H1. eapply pwp_mono; [by apply (pwp_sema_down_lock 2 l old rest' c)|].
    intros [|t] st2 [Ho Hr].
    + destruct Hr as [H2 _]. apply Hback. split; [by apply hand_to_claim|done].
    + destruct Hr as (st0 & old' & -> & H0 & ->). pwp_steps. split; [|exact Ho]. simpl.
      rewrite lookup_insert_eq. simpl. rewrite insert_insert_eq, <-(assoc_L (++)).
      apply (put_back None st0 c (K_sema_down (SLock l) old' :: K_lock_acquire l :: rest')). by apply add_waiting.
Qed.
