(* ===== verification/LockTheorems.v ===== *)
(** * Mutual exclusion

    The invariant of the locks over all runs of the machine. *)

From S2P Require Import Prelude ListSpec FixedPoint KState Thread Synch Timer Machine SchedInv SchedKeeps SchedTheorems LockInv LockKeeps.

Lemma movesK_returned o ex c (m : K unit) : moves o o ex c m -> movesK o o ex c (m;; mret Returned).
Proof. intros Hm. apply movesK_bind with o; [done|intros _; apply movesK_ret]. Qed.

Lemma run_op_locks mem_ok fuel op st :
  lock_inv None [] st -> op_ok st op -> pwp (run_op mem_ok fuel op) (fun r => safe_ctl None [] (current st) r st) st.
Proof.
  intros H Hop. set (c := current st).
  assert (forall m, movesK None None [] c m -> pwp m (fun r => safe_ctl None [] c r st) st) as Hgo by (intros m Hm; by apply Hm).
  destruct op; unfold run_op; try (by apply Hgo; movesK_tac).
  - by apply Hgo, movesK_sema_up, gives_other.
  - destruct Hop as [_ Hop]. unfold lock_init, sema_init. pwp_steps.
    assert (locks st !! l = None \/ locks st !! l = Some nullp) as Hfree.
    { destruct (semas st !! SLock l) as [x|] eqn:Ex; [right|by left].
      by destruct (lock_free l [] None st x H Ex ltac:(lia)) as (_ & ? & _). }
    split_and!; [|intros l' t Hl' Ht _; simpl; rewrite lookup_insert_ne; [done|intros ->; destruct Hfree; congruence]|done].
    destruct H as [H1 H2 H3 H4 H5]. split; try done. intros l'. pose proof (H1 l') as Hl. simpl.
    destruct (decide (l' = l)) as [->|Hne].
    + rewrite !lookup_insert_eq. exists (Semaphore 1 []). split; [done|]. cbn [value]. split; [lia|].
      destruct Hfree as [El|El]; rewrite El in Hl.
      * destruct Hl as (_ & He & _). unfold held. repeat (case_decide; try congruence); simpl in *; lia.
      * destruct Hl as (x & Hx & Hv & He). rewrite Hx in Hop. unfold held in *. repeat (case_decide; try congruence); simpl in *; lia.
    + by rewrite !lookup_insert_ne by congruence.
  - apply Hgo. unfold cond_init. apply movesK_returned, moves_put_cond. by intros s ?%elem_of_nil.
  - destruct Hop as (_ & Hks & _). by apply movesK_thread_create.
  - apply Hgo, movesK_thread_exit, movesK_ret.
Qed.

(** Every step keeps the invariant, and a thread that holds a lock keeps it unless
    the step is its own. *)
Lemma kstep_locks st st' :
  lock_inv None [] st -> kstep st st' -> lock_inv None [] st' /\ others_hold (current st) st st'.
Proof.
  intros H Hs.
  assert (forall m c, pwp m (fun r => safe_ctl None [] (current st) r st) st -> m st = Ok (c, st') -> lock_inv None [] st' /\ others_hold (current st) st st') as Hgo.
  { intros m c Hm E. by destruct (Hm c st' E) as (? & ? & _). }
  destruct Hs as [o mem_ok fuel s s' c Htop Hne Hop E|mem_ok fuel s s' c Htop E|s s' c Htop Hc E|s s' c Hl E].
  - apply (Hgo (run_op mem_ok fuel o) c); [by apply run_op_locks|done].
  - by apply (lock_inv_resume mem_ok fuel s H c).
  - apply (Hgo idle c); [by apply movesK_idle|done].
  - apply (Hgo timer_irq c); [by apply movesK_timer_irq|done].
Qed.

Lemma boot_locks : lock_inv None [] boot_state.
Proof.
  split; try done.
  - intros l. simpl. destruct (decide (l = tid_lock)) as [->|Hne].
    + rewrite lookup_insert_eq. eexists. split; [done|]. split; [done|]. done.
    + rewrite !lookup_insert_ne by congruence. done.
  - intros u. simpl. destruct (decide (u = 200)) as [->|]; [done|]. by rewrite lookup_insert_ne.
Qed.

Lemma reachable_locks st : rtc kstep boot_state st -> lock_inv None [] st.
Proof.
  intros Hr. pose proof boot_locks as H. induction Hr as [|s1 s2 s3 Hs _ IH]; [done|]. apply IH. by apply (kstep_locks s1).
Qed.

(** C1: mutual exclusion. In every reachable state a lock that thread [t] holds
    has no token left in its semaphore, no other thread is about to become its
    holder, and whatever the next step of the machine is, [t] still holds the lock
    after it unless the step is a step of [t] itself. *)
Theorem lock_mutual_exclusion st l t :
  rtc kstep boot_state st -> locks st !! l = Some t -> t <> nullp ->
  (exists x, semas st !! SLock l = Some x /\ value x = 0) /\
  (forall u rest, kstacks st !! u <> Some (K_lock_acquire l :: rest)) /\
  (forall st', kstep st st' -> current st <> t -> locks st' !! l = Some t).
Proof.
  intros Hr Hl Ht. pose proof (reachable_locks st Hr) as H.
  destruct (lock_held l [] None st t H Hl Ht) as (_ & x & Hx & Hv & Hc & _). split_and!.
  - by exists x.
  - intros u rest Hu. rewrite (claims_lookup l (kstacks st) u), Hu in Hc. simpl in Hc.
    pose proof (li_stacks _ _ _ H) as Hok. pose proof (Hok u) as Hsu. rewrite Hu in Hsu. destruct Hsu as [Hsu _].
    pose proof (stack_weight_nonneg l rest Hsu).
    assert (stacks_ok (delete u (kstacks st))) as Hd.
    { intros v. destruct (decide (v = u)) as [->|]; [by rewrite lookup_delete_eq|by rewrite lookup_delete_ne]. }
    pose proof (claims_nonneg l _ Hd). rewrite decide_True in Hc by done. lia.
  - intros st' Hs Hne. by apply (kstep_locks st st' H Hs).
Qed.

(** Main holds lock 50 when a thread of higher priority, 300, takes over and asks
    for it. *)
Definition lock_run : list action :=
  [ACall (OpLockInit 50); ACall (OpLockAcquire 50); ACall (OpCreate 300 40); AResume].

Lemma lock_mutual_exclusion_witness :
  current (after lock_run) = 300 /\
  locks (after lock_run) !! 50 = Some 100 /\
  locks (after (lock_run ++ [ACall (OpLockAcquire 50)])) !! 50 = Some 100 /\
  (forall u rest, kstacks (after lock_run) !! u <> Some (K_lock_acquire 50 :: rest)).
Proof.
  assert (rtc kstep boot_state (after lock_run)) as Hr by (apply after_rtc; vm_compute; by eexists).
  destruct (lock_mutual_exclusion (after lock_run) 50 100 Hr) as (_ & Hno & Hkeep).
  - vm_compute. reflexivity.
  - discriminate.
  - split; [vm_compute; reflexivity|]. split; [vm_compute; reflexivity|]. split; [|exact Hno].
    apply Hkeep; [|vm_compute; discriminate].
    apply (exec_action_step (ACall (OpLockAcquire 50))). vm_compute. reflexivity.
Defined.
