(* ===== verification/Hash.v ===== *)
(** * lib/kernel/hash.c: hash tables

    Chained hash tables over elements that are known by their addresses. The
    chains are the sequences that the lists of KList.v represent. The hash and
    comparison functions of a table are section variables; what malloc gives to
    hash_init and rehash is a parameter of the operations that may call it. *)

From S2P Require Import Prelude ListSpec.

(** ** Hash functions *)

Definition FNV_64_PRIME : Z := 0x00000100000001B3.
Definition FNV_64_BASIS : Z := 0xcbf29ce484222325.

Definition hash_bytes (buf : list Z) : Z :=
  foldl (fun hash b => Z.lxor (u64 (hash * FNV_64_PRIME)) b) FNV_64_BASIS buf.

(** The bytes before the terminator; without one the scan leaves the object. *)
Fixpoint hash_string_loop (hash : Z) (s : list Z) : outcome Z :=
  match s with
  | [] => Undef
  | c :: s => if c =? 0 then Ok hash else hash_string_loop (Z.lxor (u64 (hash * FNV_64_PRIME)) c) s
  end.

Definition hash_string (s : list Z) : outcome Z := hash_string_loop FNV_64_BASIS s.

Definition hash_int (i : Z) : Z := hash_bytes (le_split 4 (u32 i)).

(** ** Powers of two *)

Definition turn_off_least_1bit (x : Z) : Z := Z.land x (u64 (x - 1)).
Definition is_power_of_2 (x : Z) : bool := negb (x =? 0) && (turn_off_least_1bit x =? 0).

Definition MIN_ELEMS_PER_BUCKET : Z := 1.
Definition BEST_ELEMS_PER_BUCKET : Z := 2.
Definition MAX_ELEMS_PER_BUCKET : Z := 4.

(** Clearing one bits until one is left; at most 63 rounds for a [size_t]. *)
Fixpoint power_of_2_loop (fuel : nat) (n : Z) : outcome Z :=
  match fuel with
  | O => NoFuel
  | S fuel => if is_power_of_2 n then Ok n else power_of_2_loop fuel (turn_off_least_1bit n)
  end.

(** ** Tables *)

(** [struct hash]; a failed allocation leaves [buckets] empty. *)
Record htable (A : Type) : Type := HTable {
  elem_cnt : Z;
  bucket_cnt : Z;
  buckets : list (list A)
}.
Arguments HTable {A}.
Arguments elem_cnt {A}.
Arguments bucket_cnt {A}.
Arguments buckets {A}.

Section Table.
Context {A : Type} `{EqDecision A}.
Variable hash : A -> Z.
Variable less : A -> A -> bool.
Implicit Type h : htable A.

(** The bucket's index stands for its address. *)
Definition find_bucket h (e : A) : Z := Z.land (hash e) (u64 (bucket_cnt h - 1)).

Definition bucket_at h (i : Z) : outcome (list A) := from_option_ub (buckets h !! Z.to_nat i).

Fixpoint find_elem (bucket : list A) (e : A) : option A :=
  match bucket with
  | [] => None
  | hi :: bucket => if negb (less hi e) && negb (less e hi) then Some hi else find_elem bucket e
  end.

Definition push_bucket (bs : list (list A)) (i : Z) (e : A) : outcome (list (list A)) :=
  b ← from_option_ub (bs !! Z.to_nat i); Ok (<[Z.to_nat i := e :: b]> bs).

Definition insert_elem h (i : Z) (e : A) : outcome (htable A) :=
  bs ← push_bucket (buckets h) i e; Ok (HTable (u64 (elem_cnt h + 1)) (bucket_cnt h) bs).

(** list_remove takes the element out of the one bucket that holds it. *)
Definition remove_elem h (e : A) : htable A :=
  HTable (u64 (elem_cnt h - 1)) (bucket_cnt h) ((fun b => base.filter (fun x => x <> e) b) <$> buckets h).

(** Moving the elements of one old bucket, and of all of them. *)
Fixpoint move_bucket (new_cnt : Z) (old : list A) (bs : list (list A)) : outcome (list (list A)) :=
  match old with
  | [] => Ok bs
  | e :: old => bs ← push_bucket bs (Z.land (hash e) (u64 (new_cnt - 1))) e; move_bucket new_cnt old bs
  end.

Fixpoint move_buckets (new_cnt : Z) (old : list (list A)) (bs : list (list A)) : outcome (list (list A)) :=
  match old with
  | [] => Ok bs
  | b :: old => bs ← move_bucket new_cnt b bs; move_buckets new_cnt old bs
  end.

Definition rehash (mem_ok : bool) h : outcome (htable A) :=
  let n := elem_cnt h / BEST_ELEMS_PER_BUCKET in
  new_bucket_cnt ← power_of_2_loop 64 (if n <? 4 then 4 else n);
  if new_bucket_cnt =? bucket_cnt h then Ok h
  else if mem_ok then
    bs ← move_buckets new_bucket_cnt (buckets h) (replicate (Z.to_nat new_bucket_cnt) []);
    Ok (HTable (elem_cnt h) new_bucket_cnt bs)
  else Ok h.

(** Every element goes to the destructor, bucket by bucket, front first. *)
Definition hash_clear {S : Type} (destructor : option (A -> S -> S)) h (s : S) : htable A * S :=
  let s := match destructor with
           | Some f => foldl (fun s b => foldl (fun s e => f e s) s b) s (buckets h)
           | None => s
           end in
  (HTable 0 (bucket_cnt h) ((fun _ => []) <$> buckets h), s).

Definition hash_init (mem_ok : bool) : bool * htable A :=
  if mem_ok then (true, (hash_clear None (HTable 0 4 (replicate 4 [])) tt).1)
  else (false, HTable 0 4 []).

(** The buckets are freed afterwards. *)
Definition hash_destroy {S : Type} (destructor : option (A -> S -> S)) h (s : S) : S :=
  match destructor with Some _ => (hash_clear destructor h s).2 | None => s end.

Definition hash_insert (mem_ok : bool) h (new : A) : outcome (option A * htable A) :=
  let i := find_bucket h new in
  b ← bucket_at h i;
  let old := find_elem b new in
  h ← match old with None => insert_elem h i new | Some _ => Ok h end;
  h ← rehash mem_ok h;
  Ok (old, h).

Definition hash_replace (mem_ok : bool) h (new : A) : outcome (option A * htable A) :=
  let i := find_bucket h new in
  b ← bucket_at h i;
  let old := find_elem b new in
  let h := match old with Some x => remove_elem h x | None => h end in
  h ← insert_elem h i new;
  h ← rehash mem_ok h;
  Ok (old, h).

Definition hash_size h : Z := elem_cnt h.
Definition hash_empty h : bool := elem_cnt h =? 0.

Definition hash_find h (e : A) : outcome (option A) :=
  if hash_empty h then Ok None
  else b ← bucket_at h (find_bucket h e); Ok (find_elem b e).

Definition hash_delete (mem_ok : bool) h (e : A) : outcome (option A * htable A) :=
  b ← bucket_at h (find_bucket h e);
  match find_elem b e with
  | Some found => h ← rehash mem_ok (remove_elem h found); Ok (Some found, h)
  | None => Ok (None, h)
  end.

Definition hash_apply {S : Type} (action : A -> S -> S) h (s : S) : S :=
  foldl (fun s b => foldl (fun s e => action e s) s b) s (buckets h).

(** ** Iteration *)

(** Where an iterator stands: at the head of its bucket, at an element, or at the
    end of the table (the null pointer). *)
Inductive position : Type := Head | At (e : A) | Null.

Record hash_iterator : Type := Iter { it_bucket : Z; it_elem : position }.

Definition hash_first : hash_iterator := Iter 0 Head.

(** The element that follows [e] in a bucket. *)
Fixpoint after_elem (b : list A) (e : A) : option A :=
  match b with
  | [] => None
  | x :: b => if decide (x = e) then head b else after_elem b e
  end.

Fixpoint hash_next_loop (fuel : nat) h (bucket : Z) (elem : option A) : outcome (option A * hash_iterator) :=
  match elem with
  | Some e => Ok (Some e, Iter bucket (At e))
  | None =>
      match fuel with
      | O => NoFuel
      | S fuel =>
          let bucket := bucket + 1 in
          if bucket >=? bucket_cnt h then Ok (None, Iter bucket Null)
          else b ← bucket_at h bucket; hash_next_loop fuel h bucket (head b)
      end
  end.

Definition hash_next h (i : hash_iterator) : outcome (option A * hash_iterator) :=
  b ← bucket_at h (it_bucket i);
  match it_elem i with
  | Head => hash_next_loop (S (length (buckets h))) h (it_bucket i) (head b)
  | At e => hash_next_loop (S (length (buckets h))) h (it_bucket i) (after_elem b e)
  | Null => Undef
  end.

Definition hash_cur (i : hash_iterator) : outcome (option A) :=
  match it_elem i with At e => Ok (Some e) | Null => Ok None | Head => Undef end.
End Table.
