(* ===== verification/HashTheorems.v ===== *)
(** * Theorems on hash tables

    The invariant of a table, that it represents a set of pairwise different
    elements, and what each operation does to that set. *)

From S2P Require Import Prelude Interfaces ListSpec Hash.

(** ** Powers of two *)

Lemma testbit_split n q r i :
  0 <= n -> 0 <= r < 2 ^ n -> 0 <= i ->
  Z.testbit (2 ^ n * q + r) i = if i <? n then Z.testbit r i else Z.testbit q (i - n).
Proof.
  intros Hn Hr Hi. assert (0 < 2 ^ n) by lia. destruct (Z.ltb_spec i n).
  - rewrite <-(Z.mod_pow2_bits_low _ n) by lia.
    by rewrite (Z.mul_comm (2 ^ n) q), Z.add_comm, Z.mod_add, Z.mod_small by lia.
  - replace i with (i - n + n) at 1 by lia. rewrite <-Z.div_pow2_bits by lia. f_equal.
    rewrite (Z.mul_comm (2 ^ n) q), Z.div_add_l, Z.div_small by lia. lia.
Qed.

(** Clearing the lowest one bit. *)
Lemma turn_off_eq t q :
  0 <= t -> 0 <= q -> 2 ^ t * (2 * q + 1) < 2 ^ 64 ->
  turn_off_least_1bit (2 ^ t * (2 * q + 1)) = 2 ^ (t + 1) * q.
Proof.
  intros Ht Hq Hb. unfold turn_off_least_1bit. assert (0 < 2 ^ t) by lia.
  rewrite u64_small by (unfold is_u64; nia).
  assert (2 ^ (t + 1) = 2 * 2 ^ t) as E by (by rewrite Z.pow_add_r, Z.mul_comm by lia).
  replace (2 ^ t * (2 * q + 1)) with (2 ^ (t + 1) * q + 2 ^ t) by nia.
  replace (2 ^ (t + 1) * q + 2 ^ t - 1) with (2 ^ (t + 1) * q + (2 ^ t - 1)) by lia.
  replace (2 ^ (t + 1) * q) with (2 ^ (t + 1) * q + 0) at 3 by lia.
  apply Z.bits_inj'. intros i Hi. rewrite Z.land_spec, !testbit_split by lia.
  destruct (Z.ltb_spec i (t + 1)); [|by rewrite andb_diag].
  rewrite Z.bits_0, Z.pow2_bits_eqb by lia. destruct (Z.eqb_spec t i) as [->|]; [|done]. simpl.
  replace (2 ^ i - 1) with (Z.ones i) by (rewrite Z.ones_equiv; lia). apply Z.ones_spec_high. lia.
Qed.

(** Every positive number is a power of two times an odd one. *)
Lemma odd_part n : 0 < n -> exists t q, 0 <= t /\ 0 <= q /\ n = 2 ^ t * (2 * q + 1).
Proof.
  intros Hn. induction n as [n IH] using (well_founded_induction (Z.lt_wf 0)).
  destruct (Z.odd n) eqn:Eo.
  - exists 0, (n / 2). pose proof (Zodd_div2 n). rewrite Z.odd_spec in Eo. destruct Eo as [q ->].
    rewrite (Z.mul_comm 2 q), Z.div_add_l by lia. change (1 / 2) with 0. lia.
  - assert (Z.Even n) as [m ->] by (rewrite <-Z.even_spec, <-Z.negb_odd; by rewrite Eo).
    destruct (IH m) as (t & q & Ht & Hq & ->); [lia..|]. exists (t + 1), q. rewrite Z.pow_add_r by lia. lia.
Qed.

Lemma is_power_of_2_spec t q :
  0 <= t -> 0 <= q -> 2 ^ t * (2 * q + 1) < 2 ^ 64 ->
  is_power_of_2 (2 ^ t * (2 * q + 1)) = (q =? 0).
Proof.
  intros Ht Hq Hb. unfold is_power_of_2. rewrite turn_off_eq by done.
  assert (0 < 2 ^ t) by lia. rewrite (proj2 (Z.eqb_neq _ 0)) by nia. simpl.
  rewrite Z.pow_add_r by lia. destruct (Z.eqb_spec q 0) as [->|]; [by rewrite Z.mul_0_r|]. apply Z.eqb_neq. nia.
Qed.

(** The loop of rehash leaves the highest one bit. *)
Lemma power_of_2_loop_ok fuel t q :
  0 <= t -> 0 <= q -> 2 ^ t * (2 * q + 1) < 2 ^ Z.min 64 (t + Z.of_nat fuel) ->
  exists k, power_of_2_loop fuel (2 ^ t * (2 * q + 1)) = Ok (2 ^ k) /\ 0 <= k /\
    2 ^ k <= 2 ^ t * (2 * q + 1) < 2 ^ (k + 1).
Proof.
  revert t q. induction fuel as [|fuel IH]; intros t q Ht Hq Hb.
  { assert (2 ^ Z.min 64 (t + Z.of_nat 0) <= 2 ^ t) by (apply Z.pow_le_mono_r; lia). nia. }
  assert (2 ^ Z.min 64 (t + Z.of_nat (S fuel)) <= 2 ^ 64) by (apply Z.pow_le_mono_r; lia).
  cbn [power_of_2_loop]. rewrite is_power_of_2_spec by lia.
  destruct (Z.eqb_spec q 0) as [->|Hne].
  { exists t. rewrite Z.mul_0_r, Z.add_0_l, Z.mul_1_r. split; [done|]. rewrite Z.pow_add_r by lia. lia. }
  rewrite turn_off_eq by lia. destruct (odd_part q ltac:(lia)) as (t' & q' & Ht' & Hq' & ->).
  assert (0 < 2 ^ t) by lia. assert (0 < 2 ^ t') by lia.
  assert (2 ^ (t + 1) * (2 ^ t' * (2 * q' + 1)) = 2 ^ (t + 1 + t') * (2 * q' + 1)) as E by (rewrite (Z.pow_add_r 2 (t + 1)) by lia; ring).
  rewrite E. rewrite Z.pow_add_r in E by lia.
  destruct (IH (t + 1 + t') q') as (k & Ek & Hk & Hlo & Hhi); [lia..| |].
  { apply Z.lt_le_trans with (2 ^ Z.min 64 (t + Z.of_nat (S fuel))); [|apply Z.pow_le_mono_r; lia]. nia. }
  exists k. split; [done|]. split; [done|]. rewrite <-E in Hlo, Hhi. clear E Ek IH Hb.
  set (Q := 2 ^ t' * (2 * q' + 1)) in *. assert (0 < Q) by (unfold Q; nia). clearbody Q.
  set (T := 2 ^ t) in *. change (2 ^ 1) with 2 in *.
  assert (2 ^ (t + 1) = 2 * T) as Et by (unfold T; rewrite Z.pow_add_r by lia; lia).
  assert (t + 1 <= k) as Htk.
  { apply Z.lt_succ_r. apply (Z.pow_lt_mono_r_iff 2); [lia|lia|]. unfold Z.succ.
    eapply Z.le_lt_trans; [|exact Hhi]. rewrite Et. nia. }
  assert (2 ^ (k + 1) = 2 * T * 2 ^ (k - t)) as Ek1 by (rewrite <-Et, <-Z.pow_add_r by lia; f_equal; lia).
  rewrite Ek1 in *. set (P := 2 ^ (k - t)) in *. clearbody P T.
  assert (Q < P) by (apply (Z.mul_lt_mono_pos_l (2 * T)); lia).
  assert (T * (2 * Q) + 2 * T <= 2 * T * P) by (replace (T * (2 * Q) + 2 * T) with (2 * T * (Q + 1)) by ring; apply Z.mul_le_mono_nonneg_l; lia).
  lia.
Qed.

(** ** Tables *)

Section Table.
Context {A : Type} `{EqDecision A}.
Variable hash : A -> Z.
Variable less : A -> A -> bool.
Context {SW : StrictWeak less}.

(** Neither is less than the other: what the table takes for the same element. *)
Definition same (a b : A) : bool := negb (less a b) && negb (less b a).

(** Equal elements have the same hash. *)
Hypothesis hash_same : forall a b, same a b = true -> hash a = hash b.

Implicit Type h : htable A.

Definition elems h : list A := concat (buckets h).

Record hash_ok h : Prop := {
  ho_cnt : exists k, 2 <= k < 64 /\ bucket_cnt h = 2 ^ k;
  ho_length : Z.of_nat (length (buckets h)) = bucket_cnt h;
  ho_elem_cnt : elem_cnt h = Z.of_nat (length (elems h)) /\ elem_cnt h < 2 ^ 64;
  ho_bucket i b a : buckets h !! i = Some b -> a ∈ b -> find_bucket hash h a = Z.of_nat i;
  ho_nodup : NoDup (elems h);
  ho_distinct a b : a ∈ elems h -> b ∈ elems h -> same a b = true -> a = b
}.

Lemma same_refl a : same a a = true.
Proof. unfold same. by rewrite (sw_irrefl (less := less) a). Qed.

Lemma same_sym a b : same a b = true -> same b a = true.
Proof. unfold same. by rewrite andb_comm. Qed.

Lemma same_trans a b c : same a b = true -> same b c = true -> same a c = true.
Proof.
  unfold same. rewrite !andb_true_iff, !negb_true_iff. intros [] []. split; eapply (sw_negtrans (less := less)); eauto.
Qed.

(** *** Buckets *)

Lemma concat_insert (bs : list (list A)) i b b' :
  bs !! i = Some b -> exists rest, concat bs ≡ₚ b ++ rest /\ concat (<[i := b']> bs) ≡ₚ b' ++ rest.
Proof.
  intros Hi. exists (concat (take i bs) ++ concat (drop (S i) bs)).
  pose proof (lookup_lt_Some _ _ _ Hi). split.
  - rewrite <-(take_drop_middle bs i b Hi) at 1. rewrite concat_app. simpl. solve_Permutation.
  - rewrite insert_take_drop by done. rewrite concat_app. simpl. solve_Permutation.
Qed.

Lemma elem_of_buckets (bs : list (list A)) a : a ∈ concat bs <-> exists i b, bs !! i = Some b /\ a ∈ b.
Proof.
  split.
  - induction bs as [|b bs IH]; simpl; [by intros ?%elem_of_nil|]. rewrite elem_of_app. intros [Ha|Ha].
    + by exists 0%nat, b.
    + destruct (IH Ha) as (i & b' & Hi & Hb). by exists (S i), b'.
  - intros (i & b & Hi & Ha). destruct (concat_insert bs i b b Hi) as (rest & -> & _). mem.
Qed.

Lemma find_bucket_lt h a : hash_ok h -> 0 <= find_bucket hash h a < bucket_cnt h.
Proof.
  intros Hok. destruct (ho_cnt _ Hok) as (k & Hk & E). unfold find_bucket. rewrite E.
  assert (0 < 2 ^ k) by lia. assert (2 ^ k < 2 ^ 64) by (apply Z.pow_lt_mono_r; lia).
  rewrite u64_small by (unfold is_u64; lia).
  replace (2 ^ k - 1) with (Z.ones k) by (rewrite Z.ones_equiv; lia). rewrite Z.land_ones by lia.
  apply Z.mod_pos_bound. lia.
Qed.

Lemma bucket_exists h a : hash_ok h -> exists b, buckets h !! Z.to_nat (find_bucket hash h a) = Some b.
Proof.
  intros Hok. pose proof (find_bucket_lt h a Hok). pose proof (ho_length _ Hok).
  apply lookup_lt_is_Some_2. lia.
Qed.

Lemma find_elem_Some b e x : find_elem less b e = Some x -> x ∈ b /\ same x e = true.
Proof.
  induction b as [|y b IH]; simpl; [done|]. fold (same y e).
  destruct (same y e) eqn:E; [intros [= <-]; split; [mem|done]|]. intros [? ?]%IH. split; [mem|done].
Qed.

Lemma find_elem_None b e : find_elem less b e = None <-> forall x, x ∈ b -> same x e = false.
Proof.
  induction b as [|y b IH]; simpl.
  - split; [|done]. intros _ x Hx. by apply elem_of_nil in Hx.
  - fold (same y e). destruct (same y e) eqn:E.
    + split; [done|]. intros H. rewrite (H y) in E by mem. done.
    + rewrite IH. split; [|intros H x Hx; apply H; mem]. intros H x [->|Hx]%elem_of_cons; auto.
Qed.

(** Looking in the bucket of [e] finds what is in the table. *)
Lemma find_in_table h e b :
  hash_ok h -> buckets h !! Z.to_nat (find_bucket hash h e) = Some b ->
  forall x, find_elem less b e = Some x <-> x ∈ elems h /\ same x e = true.
Proof.
  intros Hok Hb x. split.
  - intros [Hx Hs]%find_elem_Some. split; [|done]. apply elem_of_buckets. eauto.
  - intros [Hx Hs]. apply elem_of_buckets in Hx as (i & b' & Hi & Hx).
    assert (find_bucket hash h e = Z.of_nat i) as Ei.
    { rewrite <-(ho_bucket _ Hok i b' x Hi Hx). unfold find_bucket. by rewrite (hash_same x e). }
    rewrite Ei, Nat2Z.id in Hb. simplify_eq.
    destruct (find_elem less b e) as [y|] eqn:E.
    + apply find_elem_Some in E as [Hy Hs']. f_equal. apply (ho_distinct _ Hok).
      * apply elem_of_buckets. eauto.
      * apply elem_of_buckets. eauto.
      * apply same_trans with e; [done|by apply same_sym].
    + rewrite find_elem_None in E. by rewrite (E x) in Hs.
Qed.

(** *** Moving elements *)

Definition placed (cnt : Z) (bs : list (list A)) : Prop :=
  forall i b a, bs !! i = Some b -> a ∈ b -> Z.land (hash a) (u64 (cnt - 1)) = Z.of_nat i.

Lemma push_bucket_ok cnt bs e :
  placed cnt bs -> 0 <= Z.land (hash e) (u64 (cnt - 1)) < Z.of_nat (length bs) ->
  exists bs', push_bucket bs (Z.land (hash e) (u64 (cnt - 1))) e = Ok bs' /\ placed cnt bs' /\
    concat bs' ≡ₚ e :: concat bs /\ length bs' = length bs.
Proof.
  intros Hp Hi. set (i := Z.land _ _) in *.
  destruct (lookup_lt_is_Some_2 bs (Z.to_nat i)) as [b Hb]; [lia|].
  exists (<[Z.to_nat i := e :: b]> bs). unfold push_bucket, from_option_ub. rewrite Hb. split_and!; [done| | |].
  - intros j b' a Hj Ha. destruct (decide (j = Z.to_nat i)) as [->|Hne].
    + rewrite list_lookup_insert_eq in Hj by (by eapply lookup_lt_Some). simplify_eq.
      apply elem_of_cons in Ha as [->|Ha]; [unfold i in *; lia|by apply (Hp _ b)].
    + rewrite list_lookup_insert_ne in Hj by done. by apply (Hp j b').
  - destruct (concat_insert bs _ b (e :: b) Hb) as (rest & -> & ->). done.
  - apply length_insert.
Qed.

Lemma move_bucket_ok cnt old bs :
  placed cnt bs -> (forall e, 0 <= Z.land (hash e) (u64 (cnt - 1)) < Z.of_nat (length bs)) ->
  exists bs', move_bucket hash cnt old bs = Ok bs' /\ placed cnt bs' /\
    concat bs' ≡ₚ old ++ concat bs /\ length bs' = length bs.
Proof.
  revert bs. induction old as [|e old IH]; intros bs Hp Hr; cbn [move_bucket]; [by exists bs|].
  destruct (push_bucket_ok cnt bs e Hp (Hr e)) as (b1 & -> & H1 & H2 & H3). simpl.
  destruct (IH b1 H1) as (b2 & -> & H4 & H5 & H6); [by rewrite H3|].
  exists b2. split_and!; [done|done| |congruence]. rewrite H5, H2. solve_Permutation.
Qed.

Lemma move_buckets_ok cnt old bs :
  placed cnt bs -> (forall e, 0 <= Z.land (hash e) (u64 (cnt - 1)) < Z.of_nat (length bs)) ->
  exists bs', move_buckets hash cnt old bs = Ok bs' /\ placed cnt bs' /\
    concat bs' ≡ₚ concat old ++ concat bs /\ length bs' = length bs.
Proof.
  revert bs. induction old as [|b old IH]; intros bs Hp Hr; cbn [move_buckets]; [by exists bs|].
  destruct (move_bucket_ok cnt b bs Hp Hr) as (b1 & -> & H1 & H2 & H3). simpl.
  destruct (IH b1 H1) as (b2 & -> & H4 & H5 & H6); [by rewrite H3|].
  exists b2. split_and!; [done|done| |congruence]. rewrite H5, H2. solve_Permutation.
Qed.

Lemma land_pow2_range k e : 0 <= k < 64 -> 0 <= Z.land (hash e) (u64 (2 ^ k - 1)) < 2 ^ k.
Proof.
  intros Hk. assert (0 < 2 ^ k) by lia. assert (2 ^ k < 2 ^ 64) by (apply Z.pow_lt_mono_r; lia).
  rewrite u64_small by (unfold is_u64; lia).
  replace (2 ^ k - 1) with (Z.ones k) by (rewrite Z.ones_equiv; lia). rewrite Z.land_ones by lia.
  apply Z.mod_pos_bound. lia.
Qed.

(** The number of buckets that rehash aims at. *)
Lemma ideal_buckets n :
  0 <= n < 2 ^ 64 -> exists k, power_of_2_loop 64 (if n / 2 <? 4 then 4 else n / 2) = Ok (2 ^ k) /\
    2 <= k < 64 /\ 2 ^ k <= Z.max 4 (n / 2) < 2 ^ (k + 1).
Proof.
  intros Hn. set (m := if n / 2 <? 4 then 4 else n / 2).
  assert (n / 2 < 2 ^ 63) by (apply Z.div_lt_upper_bound; lia).
  assert (m = Z.max 4 (n / 2)) as Em by (unfold m; destruct (Z.ltb_spec (n / 2) 4); lia). rewrite <-Em.
  destruct (odd_part m ltac:(lia)) as (t & q & Ht & Hq & E).
  destruct (power_of_2_loop_ok 64 t q Ht Hq) as (k & Ek & Hk & Hlo & Hhi).
  { rewrite <-E. rewrite Z.min_l by lia. lia. }
  rewrite <-E in *. exists k. split; [done|]. split; [|done].
  assert (2 < k + 1) by (apply (Z.pow_lt_mono_r_iff 2); lia).
  assert (k < 63) by (apply (Z.pow_lt_mono_r_iff 2); lia). lia.
Qed.

Lemma hash_ok_perm h h' :
  hash_ok h -> elems h' ≡ₚ elems h -> elem_cnt h' = elem_cnt h ->
  (exists k, 2 <= k < 64 /\ bucket_cnt h' = 2 ^ k) -> Z.of_nat (length (buckets h')) = bucket_cnt h' ->
  placed (bucket_cnt h') (buckets h') -> hash_ok h'.
Proof.
  intros [_ _ H3 _ H5 H6] Hp Hc Hk Hl Hb. split; try done.
  - by rewrite Hc, Hp.
  - by rewrite Hp.
  - intros a b. rewrite Hp. apply H6.
Qed.

Lemma rehash_ok mem_ok h :
  hash_ok h -> exists h', rehash hash mem_ok h = Ok h' /\ hash_ok h' /\ elems h' ≡ₚ elems h /\
    (mem_ok = true -> bucket_cnt h' <= Z.max 4 (elem_cnt h / 2) < 2 * bucket_cnt h').
Proof.
  intros Hok. unfold rehash. change BEST_ELEMS_PER_BUCKET with 2.
  destruct (ho_elem_cnt _ Hok) as [Ec Eb].
  destruct (ideal_buckets (elem_cnt h)) as (k & -> & Hk & Hlo & Hhi); [lia|]. simpl.
  assert (2 ^ (k + 1) = 2 * 2 ^ k) as E1 by (rewrite Z.pow_add_r by lia; lia).
  destruct (Z.eqb_spec (2 ^ k) (bucket_cnt h)) as [E|Hne].
  { exists h. split_and!; try done. intros _. rewrite <-E. lia. }
  destruct mem_ok; [|by exists h].
  assert (Z.of_nat (length (replicate (Z.to_nat (2 ^ k)) ([] : list A))) = 2 ^ k) as El by (rewrite length_replicate; lia).
  destruct (move_buckets_ok (2 ^ k) (buckets h) (replicate (Z.to_nat (2 ^ k)) [])) as (bs & -> & H1 & H2 & H3).
  - intros i b a [-> _]%lookup_replicate Ha. by apply elem_of_nil in Ha.
  - intros e. rewrite El. apply land_pow2_range; lia.
  - simpl. eexists. split; [done|].
    assert (concat (replicate (Z.to_nat (2 ^ k)) ([] : list A)) = []) as E0.
    { generalize (Z.to_nat (2 ^ k)). intros n. induction n as [|n IH]; [done|exact IH]. }
    rewrite E0, (right_id_L [] (++)) in H2. split_and!; [|done|simpl; lia].
    apply (hash_ok_perm h); [done|exact H2|done|by exists k|simpl; lia|exact H1].
Qed.

(** *** The operations *)

Lemma filter_all (P : A -> Prop) `{forall a, Decision (P a)} (l : list A) :
  Forall P l -> base.filter P l = l.
Proof. induction 1 as [|a l Ha _ IH]; [done|]. by rewrite filter_cons_True, IH. Qed.

Lemma filter_out (l : list A) x : NoDup l -> x ∈ l -> x :: base.filter (fun y => y <> x) l ≡ₚ l.
Proof.
  intros Hnd Hx. apply list_elem_of_split in Hx as (l1 & l2 & ->).
  assert (x ∉ l1 /\ x ∉ l2) as [H1 H2].
  { rewrite <-Permutation_middle in Hnd. apply NoDup_cons in Hnd as [Hn _]. split; intros ?; apply Hn; mem. }
  rewrite filter_app, filter_cons_False by (intros H; by apply H).
  rewrite !filter_all; [solve_Permutation| |]; apply Forall_forall; intros y Hy ->; done.
Qed.

Lemma concat_filter (P : A -> Prop) `{forall a, Decision (P a)} (bs : list (list A)) :
  concat ((fun b => base.filter P b) <$> bs) = base.filter P (concat bs).
Proof. induction bs as [|b bs IH]; simpl; [done|]. by rewrite filter_app, <-IH. Qed.

Lemma ho_placed h : hash_ok h -> placed (bucket_cnt h) (buckets h).
Proof. intros Hok i b a Hi Ha. by apply (ho_bucket _ Hok i b a). Qed.

Lemma insert_elem_ok h e :
  hash_ok h -> elem_cnt h + 1 < 2 ^ 64 -> (forall x, x ∈ elems h -> same x e = false) ->
  exists h', insert_elem h (find_bucket hash h e) e = Ok h' /\ hash_ok h' /\ elems h' ≡ₚ e :: elems h.
Proof.
  intros Hok Hc Hnew. unfold insert_elem.
  destruct (push_bucket_ok (bucket_cnt h) (buckets h) e (ho_placed h Hok)) as (bs & E & H1 & H2 & H3).
  { rewrite (ho_length _ Hok). apply find_bucket_lt, Hok. }
  unfold find_bucket. rewrite E. simpl. eexists. split; [done|]. split; [|done].
  destruct (ho_elem_cnt _ Hok) as [Ec _]. pose proof Hok as [K1 K2 _ _ K5 K6]. split; try done.
  - simpl. by rewrite H3.
  - simpl. unfold elems in *. simpl. rewrite H2. simpl. rewrite u64_small by (unfold is_u64; lia). lia.
  - unfold elems in *. simpl. rewrite H2. constructor; [|done]. intros Hin.
    specialize (Hnew e Hin). by rewrite same_refl in Hnew.
  - intros a b. unfold elems. simpl. rewrite H2, !elem_of_cons. fold (elems h).
    intros [->|Ha] [->|Hb] Hs; [done| | |by apply K6].
    + apply same_sym in Hs. by rewrite Hnew in Hs.
    + by rewrite Hnew in Hs.
Qed.

Lemma remove_elem_ok h x :
  hash_ok h -> x ∈ elems h -> hash_ok (remove_elem h x) /\ elems h ≡ₚ x :: elems (remove_elem h x).
Proof.
  intros Hok Hx. pose proof Hok as [K1 K2 [K3 K3'] K4 K5 K6].
  assert (elems (remove_elem h x) = base.filter (fun y => y <> x) (elems h)) as Ee by apply concat_filter.
  pose proof (filter_out (elems h) x K5 Hx) as Hp. rewrite <-Ee in Hp. split; [|by symmetry].
  assert (forall a, a ∈ elems (remove_elem h x) -> a ∈ elems h) as Hsub.
  { intros a. rewrite Ee. by intros [_ ?]%list_elem_of_filter. }
  split; try done.
  - simpl. by rewrite length_fmap.
  - simpl. assert (length (elems h) = S (length (elems (remove_elem h x)))) as El by (by rewrite <-Hp).
    rewrite u64_small by (unfold is_u64; lia). lia.
  - intros i b a Hi Ha. simpl in Hi. apply list_lookup_fmap_Some in Hi as (b' & -> & Hi).
    apply list_elem_of_filter in Ha as [_ Ha]. by apply (K4 i b').
  - rewrite Ee. by apply NoDup_filter.
  - intros a b Ha Hb. apply K6; by apply Hsub.
Qed.

(** *** The abstract set *)

(** What insertion, replacement, deletion and lookup mean for the set of the
    elements of [l], whatever their order. *)
Definition set_find (l : list A) (e : A) : option A := head (base.filter (fun x => same x e = true) l).
Definition set_remove (l : list A) (e : A) : list A := base.filter (fun x => same x e = false) l.

Definition distinct (l : list A) : Prop :=
  NoDup l /\ forall a b, a ∈ l -> b ∈ l -> same a b = true -> a = b.

Lemma set_find_Some l e x : distinct l -> set_find l e = Some x <-> x ∈ l /\ same x e = true.
Proof.
  intros [_ Hd]. unfold set_find.
  assert (forall y, y ∈ base.filter (fun x => same x e = true) l <-> y ∈ l /\ same y e = true) as Hf.
  { intros y. rewrite list_elem_of_filter. tauto. }
  destruct (base.filter _ l) as [|y f]; simpl.
  - split; [done|]. rewrite <-Hf. by intros ?%elem_of_nil.
  - destruct (Hf y) as [Hy _]. destruct Hy as [Hy1 Hy2]; [mem|]. split; [by intros [= <-]|].
    intros [Hx1 Hx2]. f_equal. apply Hd; [done|done|]. apply same_trans with e; [done|by apply same_sym].
Qed.

Lemma set_find_None l e : set_find l e = None <-> forall x, x ∈ l -> same x e = false.
Proof.
  unfold set_find. split.
  - intros Hn x Hx. destruct (same x e) eqn:E; [|done].
    assert (x ∈ base.filter (fun x => same x e = true) l) as Hin by (by apply list_elem_of_filter).
    destruct (base.filter _ l); [by apply elem_of_nil in Hin|done].
  - intros H. destruct (base.filter _ l) as [|y f] eqn:E; [done|].
    assert (y ∈ base.filter (fun x => same x e = true) l) as [Hy Hin]%list_elem_of_filter by (rewrite E; mem).
    by rewrite (H y Hin) in Hy.
Qed.

Lemma hash_ok_distinct h : hash_ok h -> distinct (elems h).
Proof. intros Hok. split; [apply (ho_nodup _ Hok)|apply (ho_distinct _ Hok)]. Qed.

Lemma find_is_set_find h e b :
  hash_ok h -> buckets h !! Z.to_nat (find_bucket hash h e) = Some b ->
  find_elem less b e = set_find (elems h) e.
Proof.
  intros Hok Hb. apply option_eq. intros x.
  by rewrite (find_in_table h e b Hok Hb), (set_find_Some _ _ _ (hash_ok_distinct h Hok)).
Qed.

Lemma set_find_perm l l' e : distinct l -> l ≡ₚ l' -> set_find l e = set_find l' e.
Proof.
  intros Hd Hp. assert (distinct l') as Hd'.
  { destruct Hd as [H1 H2]. split; [by rewrite <-Hp|]. intros a b. rewrite <-Hp. apply H2. }
  apply option_eq. intros x. by rewrite !set_find_Some, Hp.
Qed.

(** Taking out the element that is found. *)
Lemma set_remove_found l e x : distinct l -> set_find l e = Some x -> l ≡ₚ x :: set_remove l e.
Proof.
  intros Hd Hx. rewrite (set_find_Some _ _ _ Hd) in Hx. destruct Hx as [Hx Hs], Hd as [Hnd Hd].
  assert (forall y, y ∈ set_remove l e <-> y ∈ l /\ same y e = false) as Hr.
  { intros y. unfold set_remove. rewrite list_elem_of_filter. tauto. }
  apply NoDup_Permutation; [done| |].
  - constructor; [|by apply NoDup_filter]. rewrite Hr, Hs. by intros [_ ?].
  - intros y. rewrite elem_of_cons, Hr. split; [|intros [->|[]]; done]. intros Hy.
    destruct (same y e) eqn:E; [left|by right]. apply Hd; [done|done|].
    apply same_trans with e; [done|by apply same_sym].
Qed.

Lemma set_remove_absent l e : set_find l e = None -> set_remove l e = l.
Proof. rewrite set_find_None. intros H. apply filter_all, Forall_forall. exact H. Qed.

Lemma set_remove_perm l l' e : l ≡ₚ l' -> set_remove l e ≡ₚ set_remove l' e.
Proof. intros Hp. unfold set_remove. by rewrite Hp. Qed.

(** *** The table implements the set *)

(** The load factor after a rehash that got its memory. *)
Definition load_ok h : Prop := bucket_cnt h <= Z.max 4 (elem_cnt h / 2) < 2 * bucket_cnt h.

Lemma elem_cnt_perm h h' : hash_ok h -> hash_ok h' -> elems h' ≡ₚ elems h -> elem_cnt h' = elem_cnt h.
Proof. intros Hok Hok' Hp. destruct (ho_elem_cnt _ Hok') as [-> _], (ho_elem_cnt _ Hok) as [-> _]. by rewrite Hp. Qed.

Lemma rehash_load mem_ok h :
  hash_ok h -> exists h', rehash hash mem_ok h = Ok h' /\ hash_ok h' /\ elems h' ≡ₚ elems h /\
    (mem_ok = true -> load_ok h').
Proof.
  intros Hok. destruct (rehash_ok mem_ok h Hok) as (h' & E & Hok' & Hp & Hl). exists h'. split_and!; [done..|].
  intros Hm. unfold load_ok. rewrite (elem_cnt_perm h h') by done. by apply Hl.
Qed.

Lemma insert_rehash mem_ok h e :
  hash_ok h -> elem_cnt h + 1 < 2 ^ 64 -> set_find (elems h) e = None ->
  exists h1 h', insert_elem h (find_bucket hash h e) e = Ok h1 /\ rehash hash mem_ok h1 = Ok h' /\
    hash_ok h' /\ elems h' ≡ₚ e :: elems h /\ (mem_ok = true -> load_ok h').
Proof.
  intros Hok Hc Hn. rewrite set_find_None in Hn. destruct (insert_elem_ok h e Hok Hc Hn) as (h1 & -> & Hok1 & Hp1).
  destruct (rehash_load mem_ok h1 Hok1) as (h' & E & Hok' & Hp & Hl). exists h1, h'.
  split_and!; [done..|by rewrite Hp|done].
Qed.

Lemma hash_insert_ok mem_ok h e :
  hash_ok h -> elem_cnt h + 1 < 2 ^ 64 ->
  exists h', hash_insert hash less mem_ok h e = Ok (set_find (elems h) e, h') /\ hash_ok h' /\
    elems h' ≡ₚ match set_find (elems h) e with Some _ => elems h | None => e :: elems h end /\
    (mem_ok = true -> load_ok h').
Proof.
  intros Hok Hc. destruct (bucket_exists h e Hok) as [b Hb]. unfold hash_insert, bucket_at. rewrite Hb. simpl.
  rewrite (find_is_set_find h e b Hok Hb). destruct (set_find (elems h) e) as [x|] eqn:E; simpl.
  - destruct (rehash_load mem_ok h Hok) as (h' & -> & H). by exists h'.
  - destruct (insert_rehash mem_ok h e Hok Hc E) as (h1 & h' & -> & E1 & H). simpl. rewrite E1. by exists h'.
Qed.

Lemma remove_found h e x :
  hash_ok h -> set_find (elems h) e = Some x ->
  hash_ok (remove_elem h x) /\ elems (remove_elem h x) ≡ₚ set_remove (elems h) e /\
  elem_cnt (remove_elem h x) + 1 = elem_cnt h.
Proof.
  intros Hok E. pose proof (hash_ok_distinct h Hok) as Hd. pose proof (set_remove_found _ _ _ Hd E) as Hp.
  rewrite (set_find_Some _ _ _ Hd) in E. destruct E as [Hx _].
  destruct (remove_elem_ok h x Hok Hx) as [Hok' Hp']. split_and!; [done| |].
  - apply (Permutation_cons_inv (a := x)). by rewrite <-Hp, <-Hp'.
  - destruct (ho_elem_cnt _ Hok') as [-> _], (ho_elem_cnt _ Hok) as [-> _]. rewrite Hp'. simpl. lia.
Qed.

Lemma hash_replace_ok mem_ok h e :
  hash_ok h -> elem_cnt h + 1 < 2 ^ 64 ->
  exists h', hash_replace hash less mem_ok h e = Ok (set_find (elems h) e, h') /\ hash_ok h' /\
    elems h' ≡ₚ e :: set_remove (elems h) e /\ (mem_ok = true -> load_ok h').
Proof.
  intros Hok Hc. destruct (bucket_exists h e Hok) as [b Hb]. unfold hash_replace, bucket_at. rewrite Hb. simpl.
  rewrite (find_is_set_find h e b Hok Hb). destruct (set_find (elems h) e) as [x|] eqn:E; simpl.
  - destruct (remove_found h e x Hok E) as (Hok1 & Hp & Hc1).
    destruct (insert_rehash mem_ok (remove_elem h x) e Hok1) as (h1 & h' & E1 & E2 & Hok' & Hp' & Hl); [lia| |].
    { apply set_find_None. intros y. rewrite Hp. by intros [? _]%list_elem_of_filter. }
    change (find_bucket hash (remove_elem h x) e) with (find_bucket hash h e) in E1.
    rewrite E1. simpl. rewrite E2. exists h'. split_and!; [done|done|by rewrite Hp', Hp|done].
  - rewrite (set_remove_absent _ _ E).
    destruct (insert_rehash mem_ok h e Hok Hc E) as (h1 & h' & -> & E2 & H). simpl. rewrite E2. by exists h'.
Qed.

Lemma hash_find_ok h e : hash_ok h -> hash_find hash less h e = Ok (set_find (elems h) e).
Proof.
  intros Hok. unfold hash_find, hash_empty. destruct (Z.eqb_spec (elem_cnt h) 0) as [E|].
  - destruct (ho_elem_cnt _ Hok) as [E' _].
    by replace (elems h) with ([] : list A) by (destruct (elems h); [done|simpl in *; lia]).
  - destruct (bucket_exists h e Hok) as [b Hb]. unfold bucket_at. rewrite Hb. simpl. f_equal. by apply find_is_set_find.
Qed.

Lemma hash_delete_ok mem_ok h e :
  hash_ok h ->
  exists h', hash_delete hash less mem_ok h e = Ok (set_find (elems h) e, h') /\ hash_ok h' /\
    elems h' ≡ₚ set_remove (elems h) e.
Proof.
  intros Hok. destruct (bucket_exists h e Hok) as [b Hb]. unfold hash_delete, bucket_at. rewrite Hb. simpl.
  rewrite (find_is_set_find h e b Hok Hb). destruct (set_find (elems h) e) as [x|] eqn:E; simpl.
  - destruct (remove_found h e x Hok E) as (Hok1 & Hp & _).
    destruct (rehash_ok mem_ok _ Hok1) as (h' & -> & Hok' & Hp' & _). simpl. exists h'. by rewrite Hp'.
  - exists h. by rewrite (set_remove_absent _ _ E).
Qed.

Lemma hash_clear_ok {S} (f : option (A -> S -> S)) h s :
  hash_ok h -> hash_ok (hash_clear f h s).1 /\ elems (hash_clear f h s).1 = [].
Proof.
  intros [H1 H2 _ _ _ _].
  assert (elems (hash_clear f h s).1 = []) as E by (unfold elems; simpl; clear H2; induction (buckets h); [done|simpl; auto]).
  split; [|done]. split.
  - done.
  - simpl. by rewrite length_fmap.
  - rewrite E. simpl. lia.
  - simpl. intros i b a Hi Ha. apply list_lookup_fmap_Some in Hi as (? & -> & _). by apply elem_of_nil in Ha.
  - rewrite E. constructor.
  - intros a b. rewrite E. by intros ?%elem_of_nil.
Qed.

Lemma hash_init_ok : hash_ok (hash_init true).2 /\ elems (hash_init true).2 = [] /\ (hash_init (A := A) true).1 = true.
Proof.
  split_and!; [|done|done]. split; simpl.
  - by exists 2.
  - done.
  - done.
  - intros i b a Hi Ha. do 4 (destruct i as [|i]; [simpl in Hi; simplify_eq; by apply elem_of_nil in Ha|]). done.
  - constructor.
  - intros a b. by intros ?%elem_of_nil.
Qed.

(** *** Runs of operations against the abstract set *)

(** The boolean is whether malloc gives rehash its memory. *)
Inductive op : Type :=
  | Insert (mem_ok : bool) (e : A)
  | Replace (mem_ok : bool) (e : A)
  | Find (e : A)
  | Delete (mem_ok : bool) (e : A).

Definition table_step h (o : op) : outcome (option A * htable A) :=
  match o with
  | Insert m e => hash_insert hash less m h e
  | Replace m e => hash_replace hash less m h e
  | Find e => r ← hash_find hash less h e; Ok (r, h)
  | Delete m e => hash_delete hash less m h e
  end.

Definition set_step (l : list A) (o : op) : option A * list A :=
  match o with
  | Insert _ e => (set_find l e, match set_find l e with Some _ => l | None => e :: l end)
  | Replace _ e => (set_find l e, e :: set_remove l e)
  | Find e => (set_find l e, l)
  | Delete _ e => (set_find l e, set_remove l e)
  end.

Fixpoint table_run h (os : list op) : outcome (list (option A) * htable A) :=
  match os with
  | [] => Ok ([], h)
  | o :: os => '(r, h) ← table_step h o; '(rs, h) ← table_run h os; Ok (r :: rs, h)
  end.

Fixpoint set_run (l : list A) (os : list op) : list (option A) * list A :=
  match os with
  | [] => ([], l)
  | o :: os => let '(r, l) := set_step l o in let '(rs, l) := set_run l os in (r :: rs, l)
  end.

Lemma table_step_ok h l o :
  hash_ok h -> elems h ≡ₚ l -> elem_cnt h + 1 < 2 ^ 64 ->
  exists h', table_step h o = Ok ((set_step l o).1, h') /\ hash_ok h' /\ elems h' ≡ₚ (set_step l o).2 /\
    elem_cnt h' <= elem_cnt h + 1.
Proof.
  intros Hok Hp Hc.
  enough (exists h', table_step h o = Ok ((set_step l o).1, h') /\ hash_ok h' /\ elems h' ≡ₚ (set_step l o).2 /\
            (length (elems h') <= S (length (elems h)))%nat) as (h' & ? & Hok' & ? & Hl).
  { exists h'. split_and!; try done. destruct (ho_elem_cnt _ Hok') as [-> _], (ho_elem_cnt _ Hok) as [-> _]. lia. }
  pose proof (fun e => set_find_perm _ _ e (hash_ok_distinct h Hok) Hp) as Ef.
  pose proof (fun e => set_remove_perm _ _ e Hp) as Er.
  assert (forall e, length (set_remove (elems h) e) <= length (elems h))%nat as Hrl by (intros; apply length_filter).
  destruct o as [m e|m e|e|m e]; simpl; rewrite <-Ef.
  - destruct (hash_insert_ok m h e Hok Hc) as (h' & -> & Hok' & Hp' & _). exists h'.
    split_and!; [done|done|rewrite Hp'; destruct (set_find (elems h) e); simpl; by rewrite Hp|].
    rewrite Hp'. destruct (set_find (elems h) e); simpl; lia.
  - destruct (hash_replace_ok m h e Hok Hc) as (h' & -> & Hok' & Hp' & _). exists h'.
    specialize (Hrl e). split_and!; [done|done|by rewrite Hp', Er|rewrite Hp'; simpl; lia].
  - rewrite (hash_find_ok h e Hok). simpl. exists h. split_and!; [done|done|done|lia].
  - destruct (hash_delete_ok m h e Hok) as (h' & -> & Hok' & Hp'). exists h'.
    specialize (Hrl e). split_and!; [done|done|by rewrite Hp', Er|rewrite Hp'; lia].
Qed.

(** C38: a hash table that starts out holding the elements of [l] behaves as the
    set [l]: every run of insertions, replacements, deletions and lookups returns
    exactly what the set's operations return, whether or not rehash gets memory,
    and ends in a well-formed table of the resulting set. *)
Theorem hash_table_refines_set h l os :
  hash_ok h -> elems h ≡ₚ l -> elem_cnt h + Z.of_nat (length os) < 2 ^ 64 ->
  exists h', table_run h os = Ok ((set_run l os).1, h') /\ hash_ok h' /\ elems h' ≡ₚ (set_run l os).2.
Proof.
  revert h l. induction os as [|o os IH]; intros h l Hok Hp Hc; [by exists h|].
  cbn [length] in Hc. destruct (table_step_ok h l o Hok Hp) as (h1 & E1 & Hok1 & Hp1 & Hc1); [lia|].
  cbn [table_run set_run]. rewrite E1. destruct (set_step l o) as [r l1]. simpl in *.
  destruct (IH h1 l1 Hok1 Hp1) as (h2 & E2 & H); [lia|]. rewrite E2.
  destruct (set_run l1 os) as [rs l2]. by exists h2.
Qed.

(** An insertion, and a replacement, after which rehash gets its memory leave
    between two and four elements for each bucket, and at least four buckets. *)
Theorem hash_load_factor h e h' old :
  hash_ok h -> elem_cnt h + 1 < 2 ^ 64 ->
  hash_insert hash less true h e = Ok (old, h') \/ hash_replace hash less true h e = Ok (old, h') ->
  (exists k, 2 <= k /\ bucket_cnt h' = 2 ^ k) /\
  (8 <= hash_size h' -> 2 * bucket_cnt h' <= hash_size h' < 4 * bucket_cnt h' + 2) /\
  (hash_size h' < 8 -> bucket_cnt h' = 4).
Proof.
  intros Hok Hc E. assert (hash_ok h' /\ load_ok h') as [Hok' Hl].
  { destruct (hash_insert_ok true h e Hok Hc) as (h1 & E1 & ? & ? & Hl1), (hash_replace_ok true h e Hok Hc) as (h2 & E2 & ? & ? & Hl2).
    destruct E as [E|E]; [rewrite E1 in E|rewrite E2 in E]; injection E as _ <-; auto. }
  unfold load_ok, hash_size in *. destruct (ho_cnt _ Hok') as (k & Hk & Ek). destruct (ho_elem_cnt _ Hok') as [E0 _].
  pose proof (Z.div_mod (elem_cnt h') 2 ltac:(lia)). pose proof (Z.mod_pos_bound (elem_cnt h') 2 ltac:(lia)).
  assert (2 ^ 2 <= 2 ^ k) by (apply Z.pow_le_mono_r; lia). change (2 ^ 2) with 4 in *.
  split; [exists k; lia|]. lia.
Qed.
(** *** Iteration *)

(** The elements that an iterator still has ahead of it. *)
Inductive ahead h : hash_iterator -> list A -> Prop :=
  | ahead_head i : (i < length (buckets h))%nat -> ahead h (Iter (Z.of_nat i) Head) (concat (drop i (buckets h)))
  | ahead_at i l1 e l2 : buckets h !! i = Some (l1 ++ e :: l2) ->
      ahead h (Iter (Z.of_nat i) (At e)) (l2 ++ concat (drop (S i) (buckets h))).

Definition next_gives h (rem : list A) (r : outcome (option A * hash_iterator)) : Prop :=
  match rem with
  | [] => exists i, r = Ok (None, i) /\ hash_cur i = Ok (None : option A)
  | e :: rem => exists i, r = Ok (Some e, i) /\ hash_cur i = Ok (Some e) /\ ahead h i rem
  end.

Lemma hash_next_loop_ok fuel h i l1 l2 :
  hash_ok h -> buckets h !! i = Some (l1 ++ l2) -> (length (buckets h) <= i + fuel)%nat ->
  next_gives h (l2 ++ concat (drop (S i) (buckets h))) (hash_next_loop fuel h (Z.of_nat i) (head l2)).
Proof.
  intros Hok. pose proof (ho_length _ Hok) as Hlen. revert i l1 l2. induction fuel as [|fuel IH]; intros i l1 l2 Hi Hf.
  { apply lookup_lt_Some in Hi. lia. }
  destruct l2 as [|e l2]; simpl.
  2: { eexists. split_and!; [done|done|]. by econstructor. }
  replace (Z.of_nat i + 1) with (Z.of_nat (S i)) by lia. rewrite <-Hlen.
  destruct (Z.geb_spec (Z.of_nat (S i)) (Z.of_nat (length (buckets h)))) as [Hge|Hlt].
  - rewrite drop_ge by lia. eexists. split; [done|done].
  - destruct (lookup_lt_is_Some_2 (buckets h) (S i)) as [b Hb]; [lia|].
    rewrite (drop_S _ b) by done. unfold bucket_at. rewrite Nat2Z.id, Hb. simpl. apply (IH (S i) []); [done|lia].
Qed.

Lemma after_elem_ok (l1 : list A) e l2 : e ∉ l1 -> after_elem (l1 ++ e :: l2) e = head l2.
Proof.
  induction l1 as [|x l1 IH]; simpl; intros Hn; [by destruct (decide (e = e))|].
  destruct (decide (x = e)) as [->|]; [destruct Hn; mem|]. apply IH. intros ?. apply Hn. mem.
Qed.

Lemma hash_next_ok h it rem : hash_ok h -> ahead h it rem -> next_gives h rem (hash_next h it).
Proof.
  intros Hok Ha. destruct Ha as [i Hi|i l1 e l2 Hi]; unfold hash_next, bucket_at; simpl; rewrite Nat2Z.id.
  - destruct (lookup_lt_is_Some_2 (buckets h) i Hi) as [b Hb]. rewrite Hb, (drop_S _ b) by done. simpl.
    apply (hash_next_loop_ok (S (length (buckets h))) h i [] b); [done|done|lia].
  - rewrite Hi. simpl. rewrite after_elem_ok.
    + apply (hash_next_loop_ok (S (length (buckets h))) h i (l1 ++ [e]) l2); [done| |lia]. by rewrite <-(assoc_L (++)).
    + pose proof (ho_nodup _ Hok) as Hnd. unfold elems in Hnd.
      destruct (concat_insert _ _ _ [] Hi) as (rest & Hp & _). rewrite Hp in Hnd.
      apply NoDup_app in Hnd as [Hnd _]. apply NoDup_app in Hnd as (_ & Hn & _).
      intros He. apply (Hn e He). mem.
Qed.

(** Calling hash_next until it returns a null pointer: the elements returned. *)
Fixpoint iterate (fuel : nat) h (it : hash_iterator) : outcome (list A * hash_iterator) :=
  match fuel with
  | O => NoFuel
  | S fuel =>
      '(r, it) ← hash_next h it;
      match r with
      | None => Ok ([], it)
      | Some e => '(es, it) ← iterate fuel h it; Ok (e :: es, it)
      end
  end.

Lemma iterate_ok h it rem :
  hash_ok h -> ahead h it rem ->
  exists it', iterate (S (length rem)) h it = Ok (rem, it') /\ hash_cur it' = Ok (None : option A).
Proof.
  intros Hok. revert it. induction rem as [|e rem IH]; intros it Ha; pose proof (hash_next_ok h it _ Hok Ha) as Hn.
  - destruct Hn as (i & E & Hc). cbn [iterate length]. rewrite E. by exists i.
  - destruct Hn as (i & E & Hc & Ha'). destruct (IH i Ha') as (it' & E' & Hc').
    cbn [length]. remember (S (length rem)) as n. cbn [iterate]. rewrite E. simpl. rewrite E'. by exists it'.
Qed.

(** From hash_first, hash_next returns every element of the table exactly
    once and then a null pointer, where hash_cur stays. *)
Theorem hash_iteration_visits_all h :
  hash_ok h ->
  exists es it, iterate (S (length (elems h))) h hash_first = Ok (es, it) /\ es = elems h /\ NoDup es /\
    hash_cur it = Ok (None : option A).
Proof.
  intros Hok. destruct (iterate_ok h hash_first (elems h) Hok) as (it & E & Hc).
  - apply (ahead_head h 0). pose proof (ho_length _ Hok). destruct (ho_cnt _ Hok) as (k & Hk & ?).
    assert (0 < 2 ^ k) by lia. lia.
  - exists (elems h), it. split_and!; [done|done|apply (ho_nodup _ Hok)|done].
Qed.

(** *** The interface [ElemSet] *)

(** hash.c implements sets of elements; rehash gets its memory or not. *)
Definition hash_elem_set (mem_ok : bool) : ElemSet A (htable A) := {|
  es_insert := hash_insert hash less mem_ok;
  es_find := hash_find hash less;
  es_delete := hash_delete hash less mem_ok
|}.

Lemma hash_elem_set_laws mem_ok :
  @ElemSetLaws A (htable A) (hash_elem_set mem_ok) same (fun h l => hash_ok h /\ elems h ≡ₚ l).
Proof.
  split; simpl.
  - intros h l a b [Hok Hp]. rewrite <-Hp. apply (ho_distinct _ Hok).
  - intros h l e [Hok Hp] Hl. destruct (ho_elem_cnt _ Hok) as [Ec _]. rewrite Hp in Ec.
    destruct (hash_insert_ok mem_ok h e Hok) as (h' & E & Hok' & Hp' & _); [lia|].
    eexists _, h', _. split_and!; [done|done|done|].
    destruct (set_find (elems h) e) as [x|] eqn:Ef.
    + rewrite (set_find_Some _ _ _ (hash_ok_distinct h Hok)), Hp in Ef. destruct Ef. split_and!; [done|done|done].
    + rewrite set_find_None in Ef. split; [|by rewrite Hp]. intros x Hx. apply Ef. by rewrite Hp.
  - intros h l e [Hok Hp]. exists (set_find (elems h) e). split; [by apply hash_find_ok|].
    intros x. by rewrite (set_find_Some _ _ _ (hash_ok_distinct h Hok)), Hp.
  - intros h l e [Hok Hp]. destruct (hash_delete_ok mem_ok h e Hok) as (h' & E & Hok' & Hp').
    eexists _, h', _. split_and!; [done|done|done|].
    destruct (set_find (elems h) e) as [x|] eqn:Ef.
    + pose proof (hash_ok_distinct h Hok) as Hd. split.
      * rewrite (set_find_Some _ _ _ Hd) in Ef. by destruct Ef.
      * rewrite <-Hp. by apply set_remove_found.
    + rewrite (set_remove_absent _ _ Ef). split; [|done]. rewrite set_find_None in Ef. intros x Hx. apply Ef. by rewrite Hp.
Qed.
End Table.

(** ** Runs of concrete tables *)

(** Elements with a key, as the pages of a page table, hashed by their keys. *)
Definition key_less (a b : Z * Z) : bool := a.1 <? b.1.
Definition key_hash (a : Z * Z) : Z := hash_bytes (le_split 8 a.1).

Lemma key_hash_same a b : same key_less a b = true -> key_hash a = key_hash b.
Proof.
  unfold same, key_less, key_hash. rewrite andb_true_iff, !negb_true_iff, !Z.ltb_ge. intros []. f_equal. f_equal. lia.
Qed.

Definition empty_table : htable (Z * Z) := (hash_init true).2.

Definition table_ops : list (@op (Z * Z)) :=
  [Insert true (1, 10); Insert true (2, 20); Insert false (1, 11); Find (1, 0); Replace true (2, 21);
   Delete true (1, 0); Find (1, 0); Find (2, 0)].

Definition table_results : list (option (Z * Z)) :=
  [None; None; Some (1, 10); Some (1, 10); Some (2, 20); Some (1, 10); None; Some (2, 21)].

Lemma empty_table_ok : hash_ok key_hash key_less empty_table.
Proof. by apply hash_init_ok. Qed.

Lemma hash_table_refines_set_witness :
  exists h', table_run key_hash key_less empty_table table_ops = Ok (table_results, h') /\
    hash_ok key_hash key_less h' /\ elems h' ≡ₚ [(2, 21)].
Proof.
  refine (hash_table_refines_set key_hash key_less key_hash_same empty_table [] table_ops _ _ _).
  - apply empty_table_ok.
  - done.
  - vm_compute. reflexivity.
Defined.

Definition loaded_table : htable (Z * Z) :=
  match table_run key_hash key_less empty_table ((fun k => Insert true (k, k)) <$> [1; 2; 3; 4; 5; 6; 7; 8; 9; 10; 11; 12; 13; 14; 15]) with
  | Ok (_, h) => h
  | _ => empty_table
  end.

Lemma loaded_table_ok : hash_ok key_hash key_less loaded_table.
Proof.
  destruct (fun H => hash_table_refines_set key_hash key_less key_hash_same empty_table []
    ((fun k => Insert true (k, k)) <$> [1; 2; 3; 4; 5; 6; 7; 8; 9; 10; 11; 12; 13; 14; 15]) empty_table_ok H)
    as (h & E & Hok & _); [done|done|].
  unfold loaded_table. by rewrite E.
Qed.

Lemma hash_load_factor_witness :
  exists h', hash_insert key_hash key_less true loaded_table (16, 16) = Ok (None, h') /\
    hash_size h' = 16 /\ bucket_cnt h' = 8 /\
    2 * bucket_cnt h' <= hash_size h' < 4 * bucket_cnt h' + 2.
Proof.
  destruct (hash_insert key_hash key_less true loaded_table (16, 16)) as [[old h']| | |] eqn:E;
    vm_compute in E; try discriminate E.
  exists h'. revert E. intros [= <- <-]. split; [reflexivity|]. split; [reflexivity|]. split; [reflexivity|].
  refine (proj1 (proj2 (hash_load_factor key_hash key_less key_hash_same loaded_table (16, 16) _ None _ _ _)) _).
  - apply loaded_table_ok.
  - vm_compute. reflexivity.
  - left. vm_compute. reflexivity.
  - vm_compute. discriminate.
Defined.

Lemma hash_iteration_visits_all_witness :
  exists it, iterate 16 loaded_table hash_first = Ok (elems loaded_table, it) /\
    hash_cur it = Ok (None : option (Z * Z)) /\ length (elems loaded_table) = 15%nat.
Proof.
  destruct (hash_iteration_visits_all key_hash key_less loaded_table loaded_table_ok) as (es & it & E & -> & _ & Hc).
  exists it. split; [exact E|]. split; [exact Hc|]. vm_compute. reflexivity.
Defined.
