(* ===== verification/ListHeap.v ===== *)
(** * Heap sort on sequences

    What the sort of lib/stdlib.c does to the sequence of the array's elements,
    with the one-based indexes of the code, and that it sorts. *)

From S2P Require Import Prelude.

Section Heap.
Context {A : Type} `{!Inhabited A}.
Variable less : A -> A -> bool.

(** The rounds that sinking an element may take. *)
Variable fuel : nat.

(** The element with one-based index [i]. *)
Definition el (es : list A) (i : Z) : A := es !!! Z.to_nat (i - 1).

Definition swap_el (es : list A) (i j : Z) : list A :=
  <[Z.to_nat (i - 1) := el es j]> (<[Z.to_nat (j - 1) := el es i]> es).

(** The largest of [i] and its children. *)
Definition max_child (es : list A) (i cnt : Z) : Z :=
  let max := if (2 * i <=? cnt) && less (el es i) (el es (2 * i)) then 2 * i else i in
  if (2 * i + 1 <=? cnt) && less (el es max) (el es (2 * i + 1)) then 2 * i + 1 else max.

Fixpoint sift (f : nat) (es : list A) (i cnt : Z) : list A :=
  match f with
  | O => es
  | S f =>
      let max := max_child es i cnt in
      if max =? i then es else sift f (swap_el es i max) max cnt
  end.

Fixpoint build (n : nat) (es : list A) (cnt : Z) : list A :=
  match n with O => es | S n => build n (sift fuel es (Z.of_nat (S n)) cnt) cnt end.

Fixpoint unload (n : nat) (es : list A) : list A :=
  match n with
  | O => es
  | S n => unload n (sift fuel (swap_el es 1 (Z.of_nat n + 2)) 1 (Z.of_nat n + 1))
  end.

Definition heap_sort (es : list A) : list A :=
  unload (length es - 1) (build (Z.to_nat (Z.of_nat (length es) / 2)) es (Z.of_nat (length es))).

(** ** Swapping *)

Definition in_array (es : list A) (i : Z) : Prop := 1 <= i <= Z.of_nat (length es).

Lemma length_swap_el es i j : length (swap_el es i j) = length es.
Proof. unfold swap_el. by rewrite !length_insert. Qed.

Lemma length_sift f es i cnt : length (sift f es i cnt) = length es.
Proof.
  revert es i. induction f as [|f IH]; intros es i; cbn [sift]; [done|].
  destruct (_ =? _); [done|]. by rewrite IH, length_swap_el.
Qed.

Lemma el_lookup es i : in_array es i -> es !! Z.to_nat (i - 1) = Some (el es i).
Proof. intros Hi. apply list_lookup_lookup_total_lt. unfold in_array in *. lia. Qed.

Lemma el_swap es i j k :
  in_array es i -> in_array es j -> 1 <= k ->
  el (swap_el es i j) k = if k =? i then el es j else if k =? j then el es i else el es k.
Proof.
  unfold in_array, swap_el. intros Hi Hj Hk. unfold el at 1.
  destruct (Z.eqb_spec k i) as [->|Hi'].
  - rewrite list_lookup_total_insert_eq; [done|]. rewrite length_insert. lia.
  - rewrite list_lookup_total_insert_ne by lia. destruct (Z.eqb_spec k j) as [->|Hj'].
    + rewrite list_lookup_total_insert_eq; [done|lia].
    + by rewrite list_lookup_total_insert_ne by lia.
Qed.

Lemma swap_el_perm es i j : in_array es i -> in_array es j -> swap_el es i j ≡ₚ es.
Proof.
  intros Hi Hj. unfold swap_el. pose proof (el_lookup es i Hi) as Ei. pose proof (el_lookup es j Hj) as Ej.
  by apply Permutation_insert_swap.
Qed.

(** ** The heap property *)

Context {SW : StrictWeak less}.

Definition child (p c : Z) : Prop := c = 2 * p \/ c = 2 * p + 1.

(** The element at [c] is not larger than the one at [p]. *)
Definition dominates (es : list A) (p c : Z) : Prop := less (el es p) (el es c) = false.

Definition heap (lo cnt : Z) (es : list A) : Prop :=
  forall p c, lo <= p -> child p c -> c <= cnt -> dominates es p c.

Lemma dominates_refl es p : dominates es p p.
Proof. apply sw_irrefl. Qed.

Lemma dominates_trans es p q r : dominates es p q -> dominates es q r -> dominates es p r.
Proof. apply sw_negtrans. Qed.

Lemma max_child_spec es i cnt :
  1 <= i ->
  let m := max_child es i cnt in
  (m = i \/ child i m /\ m <= cnt /\ less (el es i) (el es m) = true) /\
  (forall c, child i c -> c <= cnt -> dominates es m c).
Proof.
  intros Hi. unfold max_child, dominates.
  destruct (Z.leb_spec (2 * i) cnt) as [Hl|Hl], (Z.leb_spec (2 * i + 1) cnt) as [Hr|Hr]; simpl; try lia.
  - destruct (less (el es i) (el es (2 * i))) eqn:E1.
    + destruct (less (el es (2 * i)) (el es (2 * i + 1))) eqn:E2; split.
      * right. split_and!; [by right|lia|by eapply sw_trans].
      * intros c [->| ->] _; [by apply sw_asym|apply sw_irrefl].
      * right. split_and!; [by left|lia|done].
      * intros c [->| ->] _; [apply sw_irrefl|done].
    + destruct (less (el es i) (el es (2 * i + 1))) eqn:E2; split.
      * right. split_and!; [by right|lia|done].
      * intros c [->| ->] _; [|apply sw_irrefl]. apply (sw_negtrans _ (el es i)); [by apply sw_asym|done].
      * by left.
      * intros c [->| ->] _; done.
  - destruct (less (el es i) (el es (2 * i))) eqn:E1; split.
    + right. split_and!; [by left|lia|done].
    + intros c [->| ->] ?; [apply sw_irrefl|lia].
    + by left.
    + intros c [->| ->] ?; [done|lia].
  - split; [by left|]. intros c [->| ->] ?; lia.
Qed.

(** Sinking the element at [i] makes the heap whole again; it moves elements
    between the positions from [i] to [cnt] only. *)
Lemma sift_ok f es lo i cnt :
  1 <= lo <= i -> cnt <= Z.of_nat (length es) -> cnt < i * 2 ^ Z.of_nat f ->
  (forall p c, lo <= p -> p <> i -> child p c -> c <= cnt -> dominates es p c) ->
  (forall p c, lo <= p -> child p i -> child i c -> c <= cnt -> dominates es p c) ->
  let es' := sift f es i cnt in
  es' ≡ₚ es /\ heap lo cnt es' /\
  (forall k, 1 <= k -> k < i \/ cnt < k -> el es' k = el es k) /\
  (forall k, i <= k <= cnt -> exists k', i <= k' <= cnt /\ el es' k = el es k').
Proof.
  revert es i. induction f as [|f IH]; intros es i Hlo Hcnt Hf H1 H2; cbn [sift].
  { change (2 ^ Z.of_nat 0) with 1 in Hf. split_and!; [done| |done|intros k Hk; lia].
    intros p c Hp Hch Hc. apply H1; [done|destruct Hch; lia|done|done]. }
  destruct (max_child_spec es i cnt ltac:(lia)) as [Hm Hd]. set (m := max_child es i cnt) in *.
  destruct (Z.eqb_spec m i) as [Em|Hne].
  { split_and!; [done| |done|eauto]. intros p c Hp Hc Hcc. destruct (decide (p = i)) as [->|]; [|by apply H1].
    rewrite <-Em at 1. by apply Hd. }
  destruct Hm as [?|(Hch & Hmc & Hlt)]; [done|].
  assert (i < m) as Him by (destruct Hch; lia).
  assert (in_array es i /\ in_array es m) as [Hai Ham] by (unfold in_array; lia).
  pose proof (fun k => el_swap es i m k Hai Ham) as Hel.
  assert (forall k, 1 <= k -> k <> i -> k <> m -> el (swap_el es i m) k = el es k) as Hout.
  { intros k Hk Hki Hkm. rewrite Hel by done. by rewrite (proj2 (Z.eqb_neq k i)), (proj2 (Z.eqb_neq k m)). }
  assert (el (swap_el es i m) i = el es m) as Ei by (rewrite Hel by lia; by rewrite Z.eqb_refl).
  assert (el (swap_el es i m) m = el es i) as Em' by (rewrite Hel by lia; by rewrite (proj2 (Z.eqb_neq m i)), Z.eqb_refl).
  assert (2 ^ Z.of_nat (S f) = 2 * 2 ^ Z.of_nat f) as Ep by (rewrite Nat2Z.inj_succ, Z.pow_succ_r; lia).
  assert (0 < 2 ^ Z.of_nat f) by lia.
  destruct (IH (swap_el es i m) m) as (K1 & K2 & K3 & K4).
  - lia.
  - by rewrite length_swap_el.
  - destruct Hch as [-> | ->]; nia.
  - intros p c Hp Hpm Hpc Hc. unfold dominates. destruct (decide (p = i)) as [->|Hpi].
    + rewrite Ei. destruct (decide (c = m)) as [->|Hcm]; [rewrite Em'; by apply sw_asym|].
      rewrite Hout by (try done; destruct Hpc; lia). by apply Hd.
    + rewrite (Hout p) by (try done; lia). destruct (decide (c = i)) as [->|Hci].
      { rewrite Ei. by apply H2. }
      destruct (decide (c = m)) as [->|Hcm]; [destruct Hpc, Hch; lia|].
      rewrite Hout by (try done; destruct Hpc; lia). by apply H1.
  - intros p c Hp Hpm Hmc' Hc. assert (p = i) as -> by (destruct Hpm, Hch; lia).
    unfold dominates. rewrite Ei, Hout by (destruct Hmc'; lia). apply H1; (done || lia).
  - split_and!; [by rewrite K1, swap_el_perm|done| |].
    + intros k Hk Hr. rewrite K3 by lia. apply Hout; lia.
    + assert (forall k, i <= k <= cnt -> exists k', i <= k' <= cnt /\ el (swap_el es i m) k = el es k') as Hsw.
      { intros k Hk. rewrite Hel by lia. destruct (k =? i), (k =? m); [exists m|exists m|exists i|exists k]; (split; [lia|done]). }
      intros k Hk. destruct (Z.lt_ge_cases k m).
      * rewrite K3 by lia. by apply Hsw.
      * destruct (K4 k) as (k' & Hk' & ->); [lia|]. apply Hsw. lia.
Qed.

(** Sinking goes to twice the index each round, and indexes stay below [2 ^ 63]. *)
Hypothesis fuel_64 : (64 <= fuel)%nat.

Lemma fuel_enough i cnt : 1 <= i -> cnt < 2 ^ 63 -> cnt < i * 2 ^ Z.of_nat fuel.
Proof.
  intros Hi Hc. assert (2 ^ 64 <= 2 ^ Z.of_nat fuel) by (apply Z.pow_le_mono_r; lia).
  assert (2 ^ 64 = 2 * 2 ^ 63) by done. nia.
Qed.

Lemma heap_root cnt es k : heap 1 cnt es -> 1 <= k <= cnt -> dominates es 1 k.
Proof.
  intros Hh. induction k as [k IH] using (well_founded_induction (Z.lt_wf 0)). intros Hk.
  destruct (decide (k = 1)) as [->|]; [apply dominates_refl|].
  pose proof (Z.div_mod k 2 ltac:(lia)). pose proof (Z.mod_pos_bound k 2 ltac:(lia)).
  apply dominates_trans with (k / 2); [apply IH; lia|]. apply Hh; [lia| |lia]. unfold child. lia.
Qed.

Lemma build_ok n es cnt :
  Z.of_nat (length es) = cnt -> cnt < 2 ^ 63 ->
  (forall p c, Z.of_nat n < p -> child p c -> c <= cnt -> dominates es p c) ->
  build n es cnt ≡ₚ es /\ heap 1 cnt (build n es cnt).
Proof.
  intros Hl Hb. revert es Hl. induction n as [|n IH]; intros es Hl Hh; cbn [build].
  { split; [done|]. intros p c Hp. apply Hh. lia. }
  destruct (sift_ok fuel es (Z.of_nat (S n)) (Z.of_nat (S n)) cnt) as (K1 & K2 & _ & _).
  - lia.
  - lia.
  - apply fuel_enough; lia.
  - intros p c Hp Hne. apply Hh. lia.
  - intros p c Hp [? | ?]; lia.
  - revert K1 K2. generalize (sift fuel es (Z.of_nat (S n)) cnt). intros es1 K1 K2.
    destruct (IH es1) as [P1 P2]; [by rewrite K1| |].
    + intros p c Hp. apply K2. lia.
    + split; [by rewrite P1|done].
Qed.

(** The elements from [i] on are in order, and none of the first [i] is larger
    than one after it. *)
Definition sorted_from (i : Z) (es : list A) : Prop :=
  forall j k, 1 <= j -> i < k -> j <= k <= Z.of_nat (length es) -> less (el es k) (el es j) = false.

Lemma unload_ok n es :
  (n < length es)%nat -> Z.of_nat (length es) < 2 ^ 63 ->
  heap 1 (Z.of_nat n + 1) es -> sorted_from (Z.of_nat n + 1) es ->
  unload n es ≡ₚ es /\ sorted_from 1 (unload n es).
Proof.
  revert es. induction n as [|n IH]; intros es Hn Hb Hh Hs; cbn [unload]; [done|].
  set (i := Z.of_nat n + 2). assert (Z.of_nat (S n) + 1 = i) as Ei by lia. rewrite Ei in *.
  assert (in_array es 1 /\ in_array es i) as [H1 Hi] by (unfold in_array; lia).
  pose proof (fun k => el_swap es 1 i k H1 Hi) as Hel. set (es1 := swap_el es 1 i) in *.
  assert (length es1 = length es) as El by apply length_swap_el.
  assert (forall k, 1 <= k <= i -> exists k', 1 <= k' <= i /\ el es1 k = el es k') as Hin.
  { intros k Hk. rewrite Hel by lia. destruct (k =? 1), (k =? i); [exists i|exists i|exists 1|exists k]; (split; [lia|done]). }
  assert (el es1 i = el es 1) as Ee.
  { rewrite Hel by lia. destruct (Z.eqb_spec i 1); [lia|]. by rewrite Z.eqb_refl. }
  assert (forall k, i < k -> el es1 k = el es k) as Hgt.
  { intros k Hk. rewrite Hel by lia. destruct (Z.eqb_spec k 1), (Z.eqb_spec k i); (lia || done). }
  destruct (sift_ok fuel es1 1 1 (i - 1)) as (K1 & K2 & K3 & K4).
  - lia.
  - lia.
  - apply fuel_enough; lia.
  - intros p c Hp Hne Hc Hcc. unfold dominates.
    assert (forall k, 1 < k < i -> el es1 k = el es k) as Hmid.
    { intros k Hk. rewrite Hel by lia. destruct (Z.eqb_spec k 1), (Z.eqb_spec k i); (lia || done). }
    rewrite !Hmid by (destruct Hc; lia). apply Hh; [lia|done|lia].
  - intros p c Hp [? | ?]; lia.
  - replace (i - 1) with (Z.of_nat n + 1) in * by lia. set (es2 := sift fuel es1 1 (Z.of_nat n + 1)) in *.
    assert (length es2 = length es) as El2 by (by rewrite K1).
    destruct (IH es2) as [P1 P2]; [lia|lia|done| |].
    + intros j k Hj Hk Hjk.
      assert (exists k', 1 <= k' <= i /\ (k = i -> k' = 1) /\ el es2 k = el es (if decide (k = i) then k' else k)) as (k' & Hk' & Ek' & ->).
      { exists 1. split_and!; [lia|lia|done|]. rewrite K3 by lia. destruct (decide (k = i)) as [->|]; [exact Ee|apply Hgt; lia]. }
      assert (exists j', 1 <= j' /\ (j <= i -> j' <= i) /\ (i < j -> j' = j) /\ el es2 j = el es j') as (j' & Hj' & Hji & Hij & ->).
      { destruct (Z.le_gt_cases j (Z.of_nat n + 1)).
        - destruct (K4 j) as (j1 & Hj1 & ->); [lia|]. destruct (Hin j1) as (j2 & Hj2 & ->); [lia|]. exists j2. split_and!; (lia || done).
        - rewrite K3 by lia. destruct (decide (j = i)) as [->|]; [exists 1; rewrite Ee; split_and!; (lia || done)|].
          exists j. rewrite Hgt by lia. split_and!; (lia || done). }
      destruct (decide (k = i)) as [->|].
      * rewrite Ek' by done. apply (heap_root i); [done|lia].
      * apply Hs; lia.
    + split; [|done]. rewrite P1, K1. by apply swap_el_perm.
Qed.

Lemma heap_sort_ok es :
  Z.of_nat (length es) < 2 ^ 63 ->
  heap_sort es ≡ₚ es /\
  (forall i j x y, (i < j)%nat -> heap_sort es !! i = Some x -> heap_sort es !! j = Some y -> less y x = false).
Proof.
  intros Hb. unfold heap_sort. set (n := Z.of_nat (length es)) in *.
  destruct (build_ok (Z.to_nat (n / 2)) es n) as [P1 P2]; [done|done| |].
  { intros p c Hp [->| ->] Hc; pose proof (Z.div_mod n 2 ltac:(lia)); pose proof (Z.mod_pos_bound n 2 ltac:(lia)); lia. }
  revert P1 P2. generalize (build (Z.to_nat (n / 2)) es n). intros es1 P1 P2. assert (length es1 = length es) as El by (by rewrite P1).
  destruct (decide (length es = 0)%nat) as [E0|Hne].
  { destruct es; [|done]. simpl. assert (es1 = []) as -> by (destruct es1; done). done. }
  destruct (unload_ok (length es - 1) es1) as [P3 P4]; [lia|by rewrite El| | |].
  - by replace (Z.of_nat (length es - 1) + 1) with n by lia.
  - intros j k Hj Hk Hjk. lia.
  - split; [by rewrite P3|]. intros i j x y Hij Hi Hj. set (r := unload _ _) in *.
    assert (length r = length es) as Er by (by rewrite P3, P1).
    pose proof (lookup_lt_Some _ _ _ Hj).
    assert (forall q z, r !! q = Some z -> z = el r (Z.of_nat q + 1)) as Hz.
    { intros q z Hq. unfold el. replace (Z.to_nat (Z.of_nat q + 1 - 1)) with q by lia. symmetry. by apply list_lookup_total_correct. }
    rewrite (Hz _ _ Hi), (Hz _ _ Hj). apply P4; lia.
Qed.
End Heap.
