(* ===== verification/CStdlib.v ===== *)
(** * lib/stdlib.c: numbers, sorting and searching

    The functions of stdlib.c over the byte memory of CString.v. A comparison
    function is a function of the contents of the elements it is given. *)

From S2P Require Import Prelude CString ListHeap.

(** ** atoi *)

Definition isspace (c : Z) : bool :=
  (c =? 32) || (c =? 12) || (c =? 10) || (c =? 13) || (c =? 9) || (c =? 11).
Definition isdigit (c : Z) : bool := (48 <=? c) && (c <=? 57).

Fixpoint atoi_skip (fuel : nat) (s : Z) : M mem_t Z :=
  match fuel with
  | O => nofuelM
  | S fuel => c ← ld s; if isspace c then atoi_skip fuel (s + 1) else mret s
  end.

(** The value is kept negative; overflow of the [int] is undefined. *)
Fixpoint atoi_digits (fuel : nat) (s value : Z) : M mem_t Z :=
  match fuel with
  | O => nofuelM
  | S fuel =>
      c ← ld s;
      if isdigit c then
        v10 ← lift (int32 (value * 10));
        v ← lift (int32 (v10 - (c - 48)));
        atoi_digits fuel (s + 1) v
      else mret value
  end.

Definition atoi (s : Z) : M mem_t Z :=
  assertM (negb (s =? null));;
  fuel ← str_fuel;
  s ← atoi_skip fuel s;
  c ← ld s;
  let negative := (c =? 45) in
  let s := if (c =? 43) || (c =? 45) then s + 1 else s in
  value ← atoi_digits fuel s 0;
  if negb negative then lift (int32 (- value)) else mret value.

(** ** Sorting *)

(** The contents of [n] bytes at [p]. *)
Fixpoint load_block (n : nat) (p : Z) : M mem_t (list Z) :=
  match n with
  | O => mret []
  | S n => b ← ld p; l ← load_block n (p + 1); mret (b :: l)
  end.

(** The address of the element with one-based index [idx]. *)
Definition element (array idx size : Z) : Z := array + u64 (u64 (idx - 1) * size).

Fixpoint do_swap_loop (n : nat) (a b : Z) : M mem_t unit :=
  match n with
  | O => mret tt
  | S n =>
      t ← ld a;
      x ← ld b;
      st a x;;
      st b t;;
      do_swap_loop n (a + 1) (b + 1)
  end.

Definition do_swap (array a_idx b_idx size : Z) : M mem_t unit :=
  do_swap_loop (Z.to_nat size) (element array a_idx size) (element array b_idx size).

Section Sort.
Context {X : Type}.
Variable compare : list Z -> list Z -> X -> Z.
Variable aux : X.

Definition do_compare (array a_idx b_idx size : Z) : M mem_t Z :=
  a ← load_block (Z.to_nat size) (element array a_idx size);
  b ← load_block (Z.to_nat size) (element array b_idx size);
  mret (compare a b aux).

Fixpoint heapify (fuel : nat) (array i cnt size : Z) : M mem_t unit :=
  match fuel with
  | O => nofuelM
  | S fuel =>
      let left := u64 (2 * i) in
      let right := u64 (2 * i + 1) in
      max ← (if left <=? cnt then
               c ← do_compare array left i size; mret (if c >? 0 then left else i)
             else mret i);
      max ← (if right <=? cnt then
               c ← do_compare array right max size; mret (if c >? 0 then right else max)
             else mret max);
      if max =? i then mret tt
      else
        do_swap array i max size;;
        heapify fuel array max cnt size
  end.

(** A heap of a [size_t] number of elements has at most 64 levels. *)
Definition HEAPIFY_FUEL : nat := 65.

(** [for (i = n; i > 0; i--)] *)
Fixpoint sort_build (n : nat) (array cnt size : Z) : M mem_t unit :=
  match n with
  | O => mret tt
  | S n =>
      heapify HEAPIFY_FUEL array (Z.of_nat (S n)) cnt size;;
      sort_build n array cnt size
  end.

(** [for (i = n + 1; i > 1; i--)] *)
Fixpoint sort_unload (n : nat) (array size : Z) : M mem_t unit :=
  match n with
  | O => mret tt
  | S n =>
      let i := Z.of_nat n + 2 in
      do_swap array 1 i size;;
      heapify HEAPIFY_FUEL array 1 (i - 1) size;;
      sort_unload n array size
  end.

Definition sort (array cnt size : Z) : M mem_t unit :=
  assertM (negb (array =? null) || (cnt =? 0));;
  assertM (size >? 0);;
  sort_build (Z.to_nat (cnt / 2)) array cnt size;;
  sort_unload (Z.to_nat (cnt - 1)) array size.
End Sort.

Definition compare_thunk {K E : Type} (a : K) (b : E) (aux : K -> E -> Z) : Z := aux a b.

Definition qsort (compare : list Z -> list Z -> Z) (array cnt size : Z) : M mem_t unit :=
  sort compare_thunk compare array cnt size.

(** ** Searching *)

Section Search.
Context {K X : Type}.
Variable compare : K -> list Z -> X -> Z.
Variable aux : X.

Fixpoint binary_search_loop (fuel : nat) (key : K) (first last size : Z) : M mem_t Z :=
  match fuel with
  | O => nofuelM
  | S fuel =>
      if first <? last then
        let range := (last - first) / size in
        let middle := first + range / 2 * size in
        b ← load_block (Z.to_nat size) middle;
        let cmp := compare key b aux in
        if cmp <? 0 then binary_search_loop fuel key first middle size
        else if cmp >? 0 then binary_search_loop fuel key (middle + size) last size
        else mret middle
      else mret null
  end.

(** The range of elements is halved each round. *)
Definition SEARCH_FUEL : nat := 65.

Definition binary_search (key : K) (array cnt size : Z) : M mem_t Z :=
  binary_search_loop SEARCH_FUEL key array (array + size * cnt) size.
End Search.

Definition bsearch {K : Type} (compare : K -> list Z -> Z) (key : K) (array cnt size : Z) : M mem_t Z :=
  binary_search compare_thunk compare key array cnt size.

(** ** Arrays in memory *)

Definition array_at (m : mem_t) (p size : Z) (es : list (list Z)) : Prop :=
  Forall (fun e => Z.of_nat (length e) = size) es /\
  forall q e, es !! q = Some e -> bytes_at m (p + Z.of_nat q * size) e.

Lemma wp_load_block m p l Q : bytes_at m p l -> Q l m -> wp (load_block (length l) p) Q m.
Proof.
  revert p Q. induction l as [|b l IH]; intros p Q Hb HQ; cbn [length load_block]; [by apply wp_ret|].
  apply bytes_at_cons in Hb as [H1 H2]. apply wp_bind, wp_ld with b; [done|]. apply wp_bind, IH; [done|]. by apply wp_ret.
Qed.

(** What exchanging two blocks of [n] bytes leaves. *)
Definition exchanged (m m' : mem_t) (a b n : Z) : Prop :=
  dom m' = dom m /\
  forall k, m' !! k = if (a <=? k) && (k <? a + n) then m !! (k - a + b)
                      else if (b <=? k) && (k <? b + n) then m !! (k - b + a) else m !! k.

(** A boolean combination of comparisons in the goal becomes facts for lia. *)
Ltac zbool :=
  repeat match goal with
    | |- context [?x <=? ?y] => destruct (Z.leb_spec x y)
    | |- context [?x <? ?y] => destruct (Z.ltb_spec x y)
    | |- context [?x =? ?y] => destruct (Z.eqb_spec x y)
    end; cbn [andb orb negb].

Lemma wp_do_swap_loop n m a b (Q : unit -> mem_t -> Prop) :
  mapped m a (Z.of_nat n) -> mapped m b (Z.of_nat n) -> a + Z.of_nat n <= b \/ b + Z.of_nat n <= a ->
  (forall m', exchanged m m' a b (Z.of_nat n) -> Q tt m') -> wp (do_swap_loop n a b) Q m.
Proof.
  revert m a b Q. induction n as [|n IH]; intros m a b Q Ha Hb Hd HQ; cbn [do_swap_loop].
  { apply wp_ret, HQ. split; [done|]. intros k. zbool; (done || lia). }
  destruct (Ha a) as [t Et]; [lia|]. destruct (Hb b) as [x Ex]; [lia|].
  apply wp_bind, wp_ld with t; [done|]. apply wp_bind, wp_ld with x; [done|].
  apply wp_bind, wp_st; [done|]. apply wp_bind, wp_st; [rewrite lookup_insert_ne by lia; done|].
  apply IH.
  - do 2 apply mapped_insert. intros q Hq. apply Ha. lia.
  - do 2 apply mapped_insert. intros q Hq. apply Hb. lia.
  - lia.
  - intros m' [Hdom Hm']. apply HQ. split.
    { rewrite Hdom, !dom_insert_lookup_L; try done. by rewrite lookup_insert_ne by lia. }
    intros k. rewrite Hm'.
    assert (forall j, j <> a -> j <> b -> <[b:=t]> (<[a:=x]> m) !! j = m !! j) as Hne by (intros; by rewrite !lookup_insert_ne by done).
    destruct (decide (k = a)) as [->|Hka].
    { zbool; try lia; cbn; (rewrite lookup_insert_ne by lia; rewrite lookup_insert_eq; rewrite <-Ex; f_equal; lia) || lia. }
    destruct (decide (k = b)) as [->|Hkb].
    { zbool; try lia; cbn; (rewrite lookup_insert_eq; rewrite <-Et; f_equal; lia) || lia. }
    zbool; try lia; cbn; rewrite Hne by lia; f_equal; lia.
Qed.

Section Array.
Variable p size : Z.
Hypothesis Hp : 0 < p.
Hypothesis Hsize : 0 < size.

Implicit Type es : list (list Z).

(** The array fits into the address space. *)
Definition fits es : Prop := Z.of_nat (length es) * size < 2 ^ 63.

Lemma element_eq es i : fits es -> in_array es i -> element p i size = p + (i - 1) * size.
Proof.
  unfold fits, in_array, element. intros Hf Hi. rewrite (u64_small (i - 1)) by (unfold is_u64; nia).
  rewrite u64_small; [lia|unfold is_u64; nia].
Qed.

Lemma array_at_el m es i :
  array_at m p size es -> in_array es i ->
  Z.of_nat (length (el es i)) = size /\ bytes_at m (p + (i - 1) * size) (el es i).
Proof.
  intros [Hl Hb] Hi. pose proof (el_lookup es i Hi) as E. split.
  - rewrite Forall_forall in Hl. apply Hl. by eapply list_elem_of_lookup_2.
  - specialize (Hb _ _ E). unfold in_array in Hi. by rewrite Z2Nat.id in Hb by lia.
Qed.

Lemma wp_load_el m es i Q :
  fits es -> array_at m p size es -> in_array es i -> Q (el es i) m ->
  wp (load_block (Z.to_nat size) (element p i size)) Q m.
Proof.
  intros Hf Ha Hi HQ. destruct (array_at_el m es i Ha Hi) as [Hl Hb]. rewrite (element_eq es) by done.
  replace (Z.to_nat size) with (length (el es i)) by lia. by apply wp_load_block.
Qed.

Lemma bytes_mapped m q l n : Z.of_nat (length l) = n -> bytes_at m q l -> mapped m q n.
Proof. intros <-. apply bytes_at_mapped. Qed.

(** The blocks of two different elements do not meet. *)
Lemma elements_apart i j : i <> j -> i * size + size <= j * size \/ j * size + size <= i * size.
Proof. intros Hne. destruct (Z.lt_ge_cases i j); [left|right]; nia. Qed.

Lemma exchanged_bytes m m' a b n e :
  exchanged m m' a b n -> Z.of_nat (length e) = n -> a + n <= b \/ b + n <= a ->
  (bytes_at m b e -> bytes_at m' a e) /\ (bytes_at m a e -> bytes_at m' b e).
Proof.
  intros [_ Hm] Hl Hd. split; intros He i c Hi; pose proof (lookup_lt_Some _ _ _ Hi); rewrite Hm; rewrite <-(He i c Hi).
  - zbool; try lia; f_equal; lia.
  - zbool; try lia; f_equal; lia.
Qed.

Lemma wp_do_swap m es i j (Q : unit -> mem_t -> Prop) :
  fits es -> array_at m p size es -> in_array es i -> in_array es j -> i <> j ->
  (forall m', array_at m' p size (swap_el es i j) ->
     same_outside p (Z.of_nat (length es) * size) m m' -> Q tt m') ->
  wp (do_swap p i j size) Q m.
Proof.
  intros Hf Ha Hi Hj Hij HQ. unfold do_swap. rewrite !(element_eq es) by done.
  destruct (array_at_el m es i Ha Hi) as [Li Bi], (array_at_el m es j Ha Hj) as [Lj Bj].
  pose proof (elements_apart (i - 1) (j - 1) ltac:(lia)) as Hap.
  pose proof Hi as Hi'. pose proof Hj as Hj'. unfold in_array in Hi', Hj'.
  apply wp_do_swap_loop; rewrite ?Z2Nat.id by lia.
  - by apply (bytes_mapped _ _ (el es i)).
  - by apply (bytes_mapped _ _ (el es j)).
  - lia.
  - intros m' Hex. apply HQ.
    + destruct Ha as [Hl Hb]. rewrite Forall_forall in Hl. split.
      * apply Forall_forall. intros e He. apply Hl. by rewrite <-(swap_el_perm es i j Hi Hj).
      * intros q e Hq. assert (q < length es)%nat as Hql by (apply lookup_lt_Some in Hq; by rewrite length_swap_el in Hq).
        assert (e = el (swap_el es i j) (Z.of_nat q + 1)) as ->.
        { unfold el. replace (Z.to_nat (Z.of_nat q + 1 - 1)) with q by lia. by rewrite (list_lookup_total_correct _ _ _ Hq). }
        rewrite el_swap by (done || lia). destruct (Z.eqb_spec (Z.of_nat q + 1) i) as [Ei|Hqi].
        { replace (Z.of_nat q) with (i - 1) by lia. exact (proj1 (exchanged_bytes m m' _ _ size _ Hex Lj ltac:(lia)) Bj). }
        destruct (Z.eqb_spec (Z.of_nat q + 1) j) as [Ej|Hqj].
        { replace (Z.of_nat q) with (j - 1) by lia. exact (proj2 (exchanged_bytes m m' _ _ size _ Hex Li ltac:(lia)) Bi). }
        destruct (array_at_el m es (Z.of_nat q + 1)) as [Lq Bq]; [split; [by apply Forall_forall|done]|unfold in_array; lia|].
        replace (Z.of_nat q + 1 - 1) with (Z.of_nat q) in Bq by lia.
        pose proof (elements_apart (Z.of_nat q) (i - 1) ltac:(lia)). pose proof (elements_apart (Z.of_nat q) (j - 1) ltac:(lia)).
        eapply bytes_at_ext; [done|]. intros k Hk. destruct Hex as [_ Hm]. rewrite Hm. zbool; (lia || done).
    + destruct Hex as [Hdom Hm]. split; [done|]. intros k Hk. rewrite Hm. zbool; try done; exfalso; apply Hk; nia.
Qed.

Section Compare.
Context {X : Type}.
Variable compare : list Z -> list Z -> X -> Z.
Variable aux : X.

Definition less_of (a b : list Z) : bool := compare b a aux >? 0.

Lemma wp_do_compare m es i j Q :
  fits es -> array_at m p size es -> in_array es i -> in_array es j ->
  Q (compare (el es i) (el es j) aux) m -> wp (do_compare compare aux p i j size) Q m.
Proof.
  intros Hf Ha Hi Hj HQ. apply wp_bind, (wp_load_el m es); [done..|]. apply wp_bind, (wp_load_el m es); [done..|].
  by apply wp_ret.
Qed.

Lemma wp_heapify f m es i cnt (Q : unit -> mem_t -> Prop) :
  fits es -> array_at m p size es -> in_array es i -> cnt <= Z.of_nat (length es) ->
  cnt < i * 2 ^ Z.of_nat f ->
  (forall m', array_at m' p size (sift less_of f es i cnt) ->
     same_outside p (Z.of_nat (length es) * size) m m' -> Q tt m') ->
  wp (heapify compare aux (S f) p i cnt size) Q m.
Proof.
  revert m es i Q. induction f as [|f IH]; intros m es i Q Hf Ha Hi Hc Hn HQ.
  all: assert (Z.of_nat (length es) < 2 ^ 63) as Hb by (unfold fits in Hf; nia).
  all: pose proof Hi as Hi'; unfold in_array in Hi'.
  all: remember (sift less_of) as sf eqn:Esf; cbn [heapify]; rewrite !u64_small by (unfold is_u64; lia).
  - change (2 ^ Z.of_nat 0) with 1 in Hn. subst sf.
    apply wp_bind. destruct (Z.leb_spec (2 * i) cnt); [lia|]. apply wp_ret.
    apply wp_bind. destruct (Z.leb_spec (2 * i + 1) cnt); [lia|]. apply wp_ret.
    rewrite Z.eqb_refl. apply wp_ret, HQ; [done|apply same_outside_refl].
  - set (l := if 2 * i <=? cnt then if less_of (el es i) (el es (2 * i)) then 2 * i else i else i).
    assert (in_array es l) as Hl.
    { unfold l, in_array. destruct (Z.leb_spec (2 * i) cnt), (less_of (el es i) (el es (2 * i))); lia. }
    assert (forall Q', Q' l m -> wp (if 2 * i <=? cnt then
               c ← do_compare compare aux p (2 * i) i size; mret (if c >? 0 then 2 * i else i)
             else mret i) Q' m) as Hleft.
    { intros Q' HQ'. unfold l in HQ'. destruct (Z.leb_spec (2 * i) cnt); [|by apply wp_ret].
      apply wp_bind, (wp_do_compare m es); [done|done|unfold in_array; lia|done|]. by apply wp_ret. }
    apply wp_bind, Hleft. clear Hleft.
    assert (max_child less_of es i cnt = if 2 * i + 1 <=? cnt then if less_of (el es l) (el es (2 * i + 1)) then 2 * i + 1 else l else l) as Em.
    { unfold max_child, l. destruct (2 * i <=? cnt), (2 * i + 1 <=? cnt); done. }
    assert (forall Q', Q' (max_child less_of es i cnt) m -> wp (if 2 * i + 1 <=? cnt then
               c ← do_compare compare aux p (2 * i + 1) l size; mret (if c >? 0 then 2 * i + 1 else l)
             else mret l) Q' m) as Hright.
    { intros Q' HQ'. rewrite Em in HQ'. destruct (Z.leb_spec (2 * i + 1) cnt); [|by apply wp_ret].
      apply wp_bind, (wp_do_compare m es); [done|done|unfold in_array; lia|done|]. by apply wp_ret. }
    apply wp_bind, Hright. clear Hright.
    assert (sf (S f) es i cnt = if max_child less_of es i cnt =? i then es else sf f (swap_el es i (max_child less_of es i cnt)) (max_child less_of es i cnt) cnt) as Esift by by subst sf.
    rewrite Esift in HQ. clear Esift.
    assert (max_child less_of es i cnt = i \/ 2 * i <= max_child less_of es i cnt <= cnt) as Hmc.
    { rewrite Em. unfold l. destruct (Z.leb_spec (2 * i) cnt), (Z.leb_spec (2 * i + 1) cnt),
        (less_of (el es i) (el es (2 * i))); cbv iota; try destruct (less_of _ _); lia. }
    clear Em. set (mx := max_child less_of es i cnt) in *. destruct (Z.eqb_spec mx i) as [_|Hne].
    + apply wp_ret, HQ; [done|apply same_outside_refl].
    + apply wp_bind, (wp_do_swap m es); [done|done|done|unfold in_array; lia|done|].
      intros m1 Ha1 Hs1. rewrite Nat2Z.inj_succ, Z.pow_succ_r in Hn by lia.
      apply (IH m1 (swap_el es i mx)); rewrite ?length_swap_el.
      * unfold fits. by rewrite length_swap_el.
      * done.
      * unfold in_array. rewrite length_swap_el. lia.
      * done.
      * assert (0 < 2 ^ Z.of_nat f) by lia. nia.
      * subst sf. intros m2 Ha2 Hs2. apply HQ; [done|]. by eapply same_outside_trans.
Qed.
End Compare.
End Array.
