(* ===== verification/CStdlibTheorems.v ===== *)
(** * Theorems on sorting, searching and atoi *)

From S2P Require Import Prelude CString ListHeap CStdlib.

(** The contract of stdlib.h for a comparison function: its sign orders the
    elements. *)
Class Comparison {E X : Type} (compare : E -> E -> X -> Z) (aux : X) : Prop := {
  cmp_sign : forall a b, compare a b aux <= 0 <-> 0 <= compare b a aux;
  cmp_trans : forall a b c, compare a b aux <= 0 -> compare b c aux <= 0 -> compare a c aux <= 0
}.

#[export] Instance StrictWeak_less_of {X} (compare : list Z -> list Z -> X -> Z) aux :
  Comparison compare aux -> StrictWeak (less_of compare aux).
Proof.
  intros [Hs Ht]. unfold less_of. split; intros *; rewrite !Z.gtb_ltb, ?Z.ltb_lt, ?Z.ltb_ge.
  - pose proof (Hs x x). lia.
  - intros H1 H2. pose proof (Hs x y). destruct (Z.le_gt_cases (compare z x aux) 0); [|lia].
    pose proof (Ht z x y). lia.
  - intros H1 H2. by apply (Ht z y x).
Qed.

Section SortSpec.
Context {X : Type} (compare : list Z -> list Z -> X -> Z) (aux : X).
Variable p size : Z.
Hypothesis Hp : 0 < p.
Hypothesis Hsize : 0 < size.

(** The rounds of heapify but the last one. *)
Variable f : nat.
Hypothesis Hfuel : HEAPIFY_FUEL = S f.

Lemma heapify_enough es i cnt :
  fits size es -> in_array es i -> cnt <= Z.of_nat (length es) -> cnt < i * 2 ^ Z.of_nat f.
Proof.
  unfold fits, in_array. intros Hf Hi Hc. assert (f = 64%nat) as -> by (revert Hfuel; by intros [= <-]).
  change (2 ^ Z.of_nat 64) with (2 * 2 ^ 63).
  assert (cnt < 2 ^ 63) by nia. nia.
Qed.

Lemma wp_sort_build n m es cnt (Q : unit -> mem_t -> Prop) :
  fits size es -> Z.of_nat (length es) = cnt -> array_at m p size es -> (n <= length es)%nat ->
  (forall m', array_at m' p size (build (less_of compare aux) f n es cnt) ->
     same_outside p (cnt * size) m m' -> Q tt m') ->
  wp (sort_build compare aux n p cnt size) Q m.
Proof.
  revert m es Q. induction n as [|n IH]; intros m es Q Hf Hl Ha Hn HQ; cbn [sort_build]; rewrite ?Hfuel.
  { apply wp_ret, HQ; [done|apply same_outside_refl]. }
  assert (in_array es (Z.of_nat (S n))) as Hi by (unfold in_array; lia).
  apply wp_bind, (wp_heapify p size Hp Hsize compare aux f m es);
    [done|done|done|lia|apply (heapify_enough es); [done|done|lia]|].
  intros m1 Ha1 Hs1. rewrite Hl in Hs1.
  pose proof (length_sift (less_of compare aux) f es (Z.of_nat (S n)) cnt) as El.
  apply (IH m1 (sift (less_of compare aux) f es (Z.of_nat (S n)) cnt)).
  - unfold fits. by rewrite El.
  - by rewrite El.
  - done.
  - rewrite El. lia.
  - intros m2 Ha2 Hs2. apply HQ; [done|by eapply same_outside_trans].
Qed.

Lemma wp_sort_unload n m es cnt (Q : unit -> mem_t -> Prop) :
  fits size es -> Z.of_nat (length es) = cnt -> array_at m p size es -> (n < length es)%nat ->
  (forall m', array_at m' p size (unload (less_of compare aux) f n es) ->
     same_outside p (cnt * size) m m' -> Q tt m') ->
  wp (sort_unload compare aux n p size) Q m.
Proof.
  revert m es Q. induction n as [|n IH]; intros m es Q Hf Hl Ha Hn HQ; cbn [sort_unload]; rewrite ?Hfuel.
  { apply wp_ret, HQ; [done|apply same_outside_refl]. }
  set (i := Z.of_nat n + 2) in *. set (es1 := swap_el es 1 i).
  assert (length es1 = length es) as El1 by apply length_swap_el.
  apply wp_bind, (wp_do_swap p size Hp Hsize m es); [done|done|unfold in_array; lia|unfold in_array; lia|lia|].
  fold es1. intros m1 Ha1 Hs1. replace (i - 1) with (Z.of_nat n + 1) by lia.
  assert (fits size es1) as Hf1 by (unfold fits; by rewrite El1).
  assert (in_array es1 1) as H1 by (unfold in_array; lia).
  apply wp_bind, (wp_heapify p size Hp Hsize compare aux f m1 es1);
    [done|done|done|lia|apply (heapify_enough es1); [done|done|lia]|].
  intros m2 Ha2 Hs2. rewrite El1, Hl in Hs2. rewrite Hl in Hs1.
  pose proof (length_sift (less_of compare aux) f es1 1 (Z.of_nat n + 1)) as El2.
  apply (IH m2 (sift (less_of compare aux) f es1 1 (Z.of_nat n + 1))).
  - unfold fits. by rewrite El2, El1.
  - by rewrite El2, El1.
  - done.
  - rewrite El2. lia.
  - intros m3 Ha3 Hs3. apply HQ; [done|]. eapply same_outside_trans; [done|]. by eapply same_outside_trans.
Qed.

Lemma wp_sort m es (CO : Comparison compare aux) :
  array_at m p size es -> fits size es ->
  exists m' es', CStdlib.sort compare aux p (Z.of_nat (length es)) size m = Ok (tt, m') /\
    array_at m' p size es' /\ es' ≡ₚ es /\
    (forall i j x y, (i < j)%nat -> es' !! i = Some x -> es' !! j = Some y -> compare x y aux <= 0) /\
    same_outside p (Z.of_nat (length es) * size) m m'.
Proof.
  intros Ha Hf. assert (64 <= f)%nat as Hf64 by (unfold HEAPIFY_FUEL in Hfuel; lia). set (cnt := Z.of_nat (length es)). set (less := less_of compare aux).
  assert (cnt < 2 ^ 63) as Hb by (unfold fits in Hf; nia).
  destruct (heap_sort_ok less f Hf64 es Hb) as [Hperm Hsorted]. unfold heap_sort in Hperm, Hsorted. fold cnt in Hperm, Hsorted.
  pose proof (Z.div_mod cnt 2 ltac:(lia)). pose proof (Z.mod_pos_bound cnt 2 ltac:(lia)).
  assert (length (build less f (Z.to_nat (cnt / 2)) es cnt) = length es) as El.
  { apply Permutation_length, (build_ok less f Hf64); [done|done|]. intros q c Hq [->| ->] Hc; lia. }
  destruct (fun H => H : wp (CStdlib.sort compare aux p cnt size) (fun _ m' =>
    array_at m' p size (unload less f (length es - 1) (build less f (Z.to_nat (cnt / 2)) es cnt)) /\
    same_outside p (cnt * size) m m') m) as ([] & m' & E & Ha' & Hs').
  - unfold CStdlib.sort. apply wp_bind, wp_assert.
    { unfold null. by destruct (Z.eqb_spec p 0); [lia|]. }
    apply wp_bind, wp_assert; [lia|].
    apply wp_bind, (wp_sort_build _ m es); [done|done|done|lia|]. intros m1 Ha1 Hs1.
    replace (Z.to_nat (cnt - 1)) with (length es - 1)%nat by lia.
    destruct (decide (length es = 0)%nat) as [E0|Hne].
    + rewrite E0 in *. apply wp_ret. by split.
    + apply (wp_sort_unload _ m1 (build less f (Z.to_nat (cnt / 2)) es cnt) cnt).
      * unfold fits. by rewrite El.
      * by rewrite El.
      * done.
      * rewrite El. lia.
      * intros m2 Ha2 Hs2. split; [done|]. by eapply same_outside_trans.
  - exists m', (unload less f (length es - 1) (build less f (Z.to_nat (cnt / 2)) es cnt)).
    split_and!; [done|done|done| |done].
    intros i j x y Hij Hx Hy. specialize (Hsorted i j x y Hij Hx Hy). unfold less, less_of in Hsorted. lia.
Qed.
End SortSpec.

(** C39: sort rearranges the elements of an array of any element size in place
    into the order of the comparison function and writes nothing outside it. *)
Theorem sort_sorts {X : Type} (compare : list Z -> list Z -> X -> Z) aux p size m es :
  Comparison compare aux -> 0 < p -> 0 < size -> array_at m p size es -> fits size es ->
  exists m' es', CStdlib.sort compare aux p (Z.of_nat (length es)) size m = Ok (tt, m') /\
    array_at m' p size es' /\ es' ≡ₚ es /\
    (forall i j x y, (i < j)%nat -> es' !! i = Some x -> es' !! j = Some y -> compare x y aux <= 0) /\
    same_outside p (Z.of_nat (length es) * size) m m'.
Proof. intros CO Hp Hs. by apply (wp_sort compare aux p size Hp Hs 64). Qed.

(** ** Searching *)

Section SearchSpec.
Context {K X : Type} (compare : K -> list Z -> X -> Z) (aux : X) (key : K).
Variable p size : Z.
Hypothesis Hp : 0 < p.
Hypothesis Hsize : 0 < size.

(** The elements after one that is greater than the key are greater, those before
    a smaller one smaller. *)
Definition sorted_for (es : list (list Z)) : Prop :=
  forall i j x y, (i < j)%nat -> es !! i = Some x -> es !! j = Some y ->
    (compare key x aux < 0 -> compare key y aux < 0) /\ (0 < compare key y aux -> 0 < compare key x aux).

Definition search_result (es : list (list Z)) (r : Z) : Prop :=
  (r = null /\ forall e, e ∈ es -> compare key e aux <> 0) \/
  (exists q e, es !! q = Some e /\ r = p + Z.of_nat q * size /\ compare key e aux = 0).

(** Between elements below and elements above the key nothing is left. *)
Lemma none_left es lo hi :
  (hi <= lo)%nat ->
  (forall q e, (q < lo)%nat -> es !! q = Some e -> 0 < compare key e aux) ->
  (forall q e, (hi <= q)%nat -> es !! q = Some e -> compare key e aux < 0) ->
  search_result es null.
Proof.
  intros Hlh Hlo Hhi. left. split; [done|]. intros e [q Hq]%list_elem_of_lookup.
  destruct (decide (q < lo)%nat); [specialize (Hlo q e ltac:(done) Hq)|specialize (Hhi q e ltac:(lia) Hq)]; lia.
Qed.

Lemma search_loop_S f first last :
  binary_search_loop compare aux (S f) key first last size =
  if first <? last then
    b ← load_block (Z.to_nat size) (first + (last - first) / size / 2 * size);
    if compare key b aux <? 0 then
      binary_search_loop compare aux f key first (first + (last - first) / size / 2 * size) size
    else if compare key b aux >? 0 then
      binary_search_loop compare aux f key (first + (last - first) / size / 2 * size + size) last size
    else mret (first + (last - first) / size / 2 * size)
  else mret null.
Proof. done. Qed.

Lemma wp_binary_search_loop f m es lo hi :
  array_at m p size es -> sorted_for es -> (lo <= hi <= length es)%nat -> Z.of_nat (hi - lo) < 2 ^ Z.of_nat f ->
  (forall q e, (q < lo)%nat -> es !! q = Some e -> 0 < compare key e aux) ->
  (forall q e, (hi <= q)%nat -> es !! q = Some e -> compare key e aux < 0) ->
  wp (binary_search_loop compare aux (S f) key (p + Z.of_nat lo * size) (p + Z.of_nat hi * size) size)
    (fun r m' => m' = m /\ search_result es r) m.
Proof.
  intros Ha Hs. revert lo hi. induction f as [|f IH]; intros lo hi Hlh Hf Hlo Hhi; rewrite search_loop_S.
  all: destruct (Z.ltb_spec (p + Z.of_nat lo * size) (p + Z.of_nat hi * size)) as [Hlt|Hge].
  - change (2 ^ Z.of_nat 0) with 1 in Hf. assert (lo = hi) as -> by lia. lia.
  - apply wp_ret. split; [done|]. apply (none_left es lo hi); [nia|done|done].
  - assert (lo < hi)%nat by nia. set (mid := (lo + (hi - lo) / 2)%nat).
    assert ((p + Z.of_nat hi * size - (p + Z.of_nat lo * size)) / size = Z.of_nat (hi - lo)) as ->.
    { replace (p + Z.of_nat hi * size - (p + Z.of_nat lo * size)) with (Z.of_nat (hi - lo) * size) by nia. apply Z.div_mul. lia. }
    assert (p + Z.of_nat lo * size + Z.of_nat (hi - lo) / 2 * size = p + Z.of_nat mid * size) as ->.
    { unfold mid. rewrite Nat2Z.inj_add, Nat2Z.inj_div. change (Z.of_nat 2) with 2. ring. }
    pose proof (Nat.div_mod_eq (hi - lo) 2). pose proof (Nat.mod_upper_bound (hi - lo) 2 ltac:(lia)).
    assert (lo <= mid < hi)%nat as Hmid by lia.
    destruct (lookup_lt_is_Some_2 es mid) as [e He]; [lia|].
    destruct Ha as [Hl Hb]. pose proof (Hb _ _ He) as Hbe. rewrite Forall_forall in Hl.
    pose proof (Hl e ltac:(by eapply list_elem_of_lookup_2)) as Hle.
    replace (Z.to_nat size) with (length e) by lia. apply wp_bind, wp_load_block; [done|].
    rewrite Nat2Z.inj_succ, Z.pow_succ_r in Hf by lia.
    destruct (Z.ltb_spec (compare key e aux) 0); [|rewrite Z.gtb_ltb; destruct (Z.ltb_spec 0 (compare key e aux))].
    + apply IH; [lia|lia|done|]. intros q x Hq Hx.
      destruct (decide (q = mid)) as [->|]; [by simplify_eq|]. destruct (Hs mid q e x) as [Hk _]; [lia|done|done|]. by apply Hk.
    + replace (p + Z.of_nat mid * size + size) with (p + Z.of_nat (S mid) * size) by lia.
      apply IH; [lia|lia| |done]. intros q x Hq Hx.
      destruct (decide (q = mid)) as [->|]; [by simplify_eq|]. destruct (Hs q mid x e) as [_ Hk]; [lia|done|done|]. by apply Hk.
    + apply wp_ret. split; [done|]. right. exists mid, e. split_and!; [done|done|lia].
  - apply wp_ret. split; [done|]. apply (none_left es lo hi); [nia|done|done].
Qed.

Lemma wp_binary_search f m es :
  SEARCH_FUEL = S f -> array_at m p size es -> sorted_for es -> fits size es ->
  wp (binary_search compare aux key p (Z.of_nat (length es)) size) (fun r m' => m' = m /\ search_result es r) m.
Proof.
  intros HF Ha Hs Hf. unfold binary_search. rewrite HF.
  replace p with (p + Z.of_nat 0 * size) at 1 by lia. rewrite (Z.mul_comm size).
  apply wp_binary_search_loop; [done|done|lia| | |].
  - assert (f = 64%nat) as -> by (revert HF; by intros [= <-]). rewrite Nat.sub_0_r.
    change (2 ^ Z.of_nat 64) with (2 * 2 ^ 63). unfold fits in Hf. nia.
  - lia.
  - intros q e Hq He. apply lookup_lt_Some in He. lia.
Qed.
End SearchSpec.

(** on an array that is sorted for the key, binary_search returns the address
    of an element equal to the key if there is one and a null pointer otherwise;
    it changes nothing. *)
Theorem binary_search_finds {K X : Type} (compare : K -> list Z -> X -> Z) aux key p size m es :
  0 < p -> 0 < size -> array_at m p size es -> sorted_for compare aux key es -> fits size es ->
  exists r, binary_search compare aux key p (Z.of_nat (length es)) size m = Ok (r, m) /\
    search_result compare aux key p size es r.
Proof.
  intros Hp Hs Ha Hk Hf.
  destruct (wp_binary_search compare aux key p size Hs 64 m es eq_refl Ha Hk Hf) as (r & m' & E & -> & H). by exists r.
Qed.

(** ** atoi *)

(** The value of a sequence of digits that follow a number [acc]. *)
Definition decimal (acc : Z) (ds : list Z) : Z := foldl (fun v c => v * 10 + (c - 48)) acc ds.

Definition starts (f : Z -> bool) (s : list Z) : bool := match s with [] => false | c :: _ => f c end.

Lemma decimal_grows acc ds : 0 <= acc -> Forall (fun c => isdigit c = true) ds -> acc <= decimal acc ds.
Proof.
  intros Ha Hd. revert acc Ha. induction Hd as [|c ds Hc _ IH]; intros acc Ha; [done|]. cbn.
  unfold isdigit in Hc. rewrite andb_true_iff, !Z.leb_le in Hc. specialize (IH (acc * 10 + (c - 48))). unfold decimal in IH. lia.
Qed.

Lemma int32_cases z : int32 z = if bool_decide (- 2 ^ 31 <= z < 2 ^ 31) then Ok z else Undef.
Proof.
  unfold int32. destruct (bool_decide_reflect (- 2 ^ 31 <= z < 2 ^ 31)).
  - by rewrite (proj2 (Z.leb_le _ _)), (proj2 (Z.ltb_lt _ _)) by lia.
  - destruct (Z.leb_spec (- 2 ^ 31) z), (Z.ltb_spec z (2 ^ 31)); (done || lia).
Qed.

Lemma atoi_digits_eq fuel m p a ds rest :
  str_at m p (ds ++ rest) -> Forall (fun c => isdigit c = true) ds -> starts isdigit rest = false ->
  0 <= a <= 2 ^ 31 -> (length ds < fuel)%nat ->
  atoi_digits fuel p (- a) m = if decimal a ds <=? 2 ^ 31 then Ok (- decimal a ds, m) else Undef.
Proof.
  intros Hs Hd Hr. revert fuel p a Hs. induction Hd as [|c ds Hc Hds IH]; intros fuel p a Hs Ha Hf; (destruct fuel as [|fuel]; [simpl in Hf; lia|]); cbn [atoi_digits].
  - assert (exists c, m !! p = Some c /\ isdigit c = false) as (c & Ec & Hc).
    { simpl in Hs. destruct rest as [|c rest].
      - exists 0. split; [by apply str_at_nil|done].
      - apply str_at_cons in Hs as (? & _). by exists c. }
    unfold mbind, M_mbind, ld. rewrite Ec, Hc. cbn. by rewrite (proj2 (Z.leb_le a _)) by lia.
  - apply str_at_cons in Hs as (Ec & _ & Hs). unfold mbind at 1, M_mbind at 1, ld. rewrite Ec, Hc.
    unfold isdigit in Hc. rewrite andb_true_iff, !Z.leb_le in Hc.
    assert (decimal a (c :: ds) = decimal (a * 10 + (c - 48)) ds) as -> by done.
    pose proof (decimal_grows (a * 10 + (c - 48)) ds ltac:(lia) Hds) as Hg.
    unfold mbind, M_mbind, lift. rewrite !int32_cases.
    destruct (bool_decide_reflect (- 2 ^ 31 <= - a * 10 < 2 ^ 31)).
    2: { rewrite (proj2 (Z.leb_gt _ (2 ^ 31))) by lia. done. }
    rewrite int32_cases. destruct (bool_decide_reflect (- 2 ^ 31 <= - a * 10 - (c - 48) < 2 ^ 31)).
    2: { rewrite (proj2 (Z.leb_gt _ (2 ^ 31))) by lia. done. }
    replace (- a * 10 - (c - 48)) with (- (a * 10 + (c - 48))) by lia. apply IH; [done|lia|simpl in Hf; lia].
Qed.

Lemma atoi_skip_eq fuel m p ws s :
  str_at m p (ws ++ s) -> Forall (fun c => isspace c = true) ws -> starts isspace s = false ->
  (length ws < fuel)%nat -> atoi_skip fuel p m = Ok (p + Z.of_nat (length ws), m).
Proof.
  intros Hs Hw Hr. revert fuel p Hs. induction Hw as [|c ws Hc Hws IH]; intros fuel p Hs Hf; (destruct fuel as [|fuel]; [simpl in Hf; lia|]); cbn [atoi_skip].
  - assert (exists c, m !! p = Some c /\ isspace c = false) as (c & Ec & Hc).
    { simpl in Hs. destruct s as [|c s].
      - exists 0. split; [by apply str_at_nil|done].
      - apply str_at_cons in Hs as (? & _). by exists c. }
    unfold mbind, M_mbind, ld. rewrite Ec, Hc. unfold mret, M_mret. simpl length. do 2 f_equal. lia.
  - apply str_at_cons in Hs as (Ec & _ & Hs). unfold mbind, M_mbind, ld. rewrite Ec, Hc.
    rewrite IH; [|done|simpl in Hf; lia]. simpl length. do 2 f_equal. lia.
Qed.

(** Atoi skips white space, takes an optional sign and reads the digits that
    follow, up to the first other character, as a decimal number, from -2^31 to
    2^31 - 1; for a number outside that range its behaviour is undefined. *)
Theorem atoi_reads_decimal m p ws sign ds rest :
  str_at m p (ws ++ sign ++ ds ++ rest) ->
  Forall (fun c => isspace c = true) ws -> Forall (fun c => isdigit c = true) ds ->
  starts isdigit rest = false ->
  sign = [43] \/ sign = [45] \/ sign = [] /\ starts (fun c => isspace c || (c =? 43) || (c =? 45)) (ds ++ rest) = false ->
  let n := if bool_decide (sign = [45]) then - decimal 0 ds else decimal 0 ds in
  atoi p m = if bool_decide (- 2 ^ 31 <= n < 2 ^ 31) then Ok (n, m) else Undef.
Proof.
  intros Hs Hw Hd Hr Hsign n. pose proof Hs as (Hp & _). pose proof (str_at_size _ _ _ Hs) as Hsz.
  rewrite !length_app in Hsz. unfold atoi.
  unfold mbind at 1, M_mbind at 1, assertM, lift, ASSERT, null. rewrite (proj2 (Z.eqb_neq p 0)) by lia. cbn [negb].
  unfold mbind at 1, M_mbind at 1, str_fuel, gets.
  unfold mbind at 1, M_mbind at 1. rewrite (atoi_skip_eq _ m p ws (sign ++ ds ++ rest)); [|done|done| |lia].
  2: { destruct Hsign as [-> |[-> |[-> H]]]; [done|done|]. simpl. destruct (ds ++ rest); [done|]. simpl in *. by destruct (isspace _). }
  apply str_at_app in Hs. set (q := p + Z.of_nat (length ws)) in *. clearbody q.
  pose proof (decimal_grows 0 ds ltac:(lia) Hd) as Hg.
  assert (forall q', str_at m q' (ds ++ rest) -> atoi_digits (S (size m)) q' 0 m = if decimal 0 ds <=? 2 ^ 31 then Ok (- decimal 0 ds, m) else Undef) as Hdig.
  { intros q' Hq'. change 0 with (- 0) at 1. apply (atoi_digits_eq _ m q' 0 ds rest); (done || lia). }
  destruct Hsign as [-> |[-> |[-> Hst]]].
  - apply str_at_cons in Hs as (Ec & _ & Hs). unfold mbind, M_mbind, ld. rewrite Ec. cbn [orb Z.eqb Pos.eqb negb]. rewrite Hdig by done.
    unfold n. rewrite (bool_decide_eq_false_2 ([43] = [45])) by done. destruct (Z.leb_spec (decimal 0 ds) (2 ^ 31)).
    + unfold lift. rewrite Z.opp_involutive, int32_cases. repeat case_bool_decide; (done || tauto).
    + rewrite bool_decide_eq_false_2 by lia. done.
  - apply str_at_cons in Hs as (Ec & _ & Hs). unfold mbind, M_mbind, ld. rewrite Ec. cbn [orb Z.eqb Pos.eqb negb]. rewrite Hdig by done.
    unfold n. rewrite (bool_decide_eq_true_2 ([45] = [45])) by done. destruct (Z.leb_spec (decimal 0 ds) (2 ^ 31)).
    + rewrite bool_decide_eq_true_2 by lia. done.
    + rewrite bool_decide_eq_false_2 by lia. done.
  - simpl in Hs. assert (exists c, m !! q = Some c /\ (c =? 43) = false /\ (c =? 45) = false) as (c & Ec & E1 & E2).
    { destruct (ds ++ rest) as [|c s].
      - exists 0. split; [by apply str_at_nil|done].
      - apply str_at_cons in Hs as (? & _). exists c. simpl in Hst. by destruct (isspace c), (c =? 43), (c =? 45). }
    unfold mbind, M_mbind, ld. rewrite Ec, E1, E2. cbn [orb negb]. rewrite Hdig by done.
    unfold n. rewrite (bool_decide_eq_false_2 ([] = [45])) by done. destruct (Z.leb_spec (decimal 0 ds) (2 ^ 31)).
    + unfold lift. rewrite Z.opp_involutive, int32_cases. repeat case_bool_decide; (done || tauto).
    + rewrite bool_decide_eq_false_2 by lia. done.
Qed.

(** ** Concrete arrays and strings *)

(** Elements of two bytes, compared by the first one. *)
Definition compare_first (a b : list Z) (aux : unit) : Z := a !!! 0%nat - b !!! 0%nat.

Lemma compare_first_ok : Comparison compare_first tt.
Proof. split; unfold compare_first; intros; lia. Qed.

Definition unsorted : list (list Z) := [[3; 0]; [1; 1]; [2; 2]; [1; 3]; [0; 4]].
Definition array_mem : mem_t := example_mem 100 12 [(101, concat unsorted)].

Lemma array_at_forall m p size es :
  forallb (fun '(q, e) => (Z.of_nat (length e) =? size) &&
    forallb (fun '(i, b) => bool_decide (m !! (p + Z.of_nat q * size + Z.of_nat i) = Some b)) (imap pair e)) (imap pair es) = true ->
  array_at m p size es.
Proof.
  intros H. rewrite forallb_forall in H.
  assert (forall q e, es !! q = Some e -> Z.of_nat (length e) = size /\ bytes_at m (p + Z.of_nat q * size) e) as Hq.
  { intros q e Hq. specialize (H (q, e)). cbn beta iota in H. rewrite andb_true_iff, Z.eqb_eq in H. destruct H as [H1 H2].
    - apply list_elem_of_In, list_elem_of_lookup. exists q. by rewrite list_lookup_imap, Hq.
    - split; [done|]. by apply bytes_at_forall. }
  split; [|intros q e He; by apply Hq]. apply Forall_forall. intros e [q He]%list_elem_of_lookup. by eapply Hq.
Qed.

Lemma array_mem_ok : array_at array_mem 101 2 unsorted.
Proof. apply array_at_forall. vm_compute. reflexivity. Qed.

Lemma sort_sorts_witness :
  exists m' es', CStdlib.sort compare_first tt 101 5 2 array_mem = Ok (tt, m') /\
    array_at m' 101 2 es' /\ es' ≡ₚ unsorted /\ m' !! 101 = Some 0 /\ m' !! 102 = Some 4.
Proof.
  destruct (sort_sorts compare_first tt 101 2 array_mem unsorted compare_first_ok
    ltac:(lia) ltac:(lia) array_mem_ok ltac:(unfold fits; simpl; lia)) as (m' & es' & E & Ha & Hp & _).
  exists m', es'. split; [exact E|]. split; [exact Ha|]. split; [exact Hp|].
  vm_compute in E. injection E as <-. vm_compute. split; reflexivity.
Defined.

Definition sorted_els : list (list Z) := [[0; 4]; [1; 1]; [2; 2]; [3; 0]; [5; 5]].
Definition sorted_mem : mem_t := example_mem 100 12 [(101, concat sorted_els)].

Lemma binary_search_finds_witness :
  exists r, binary_search compare_first tt [2; 7] 101 5 2 sorted_mem = Ok (r, sorted_mem) /\
    search_result compare_first tt [2; 7] 101 2 sorted_els r /\ r = 105.
Proof.
  destruct (binary_search_finds compare_first tt [2; 7] 101 2 sorted_mem sorted_els) as (r & E & H).
  - lia.
  - lia.
  - apply array_at_forall. vm_compute. reflexivity.
  - intros i j x y Hij Hi Hj. pose proof (lookup_lt_Some _ _ _ Hj) as Hl. simpl in Hl.
    do 5 (destruct i as [|i]; [do 5 (destruct j as [|j]; [simpl in Hi, Hj; simplify_eq; unfold compare_first; simpl; lia|]); lia|]). lia.
  - unfold fits. simpl. lia.
  - exists r. split; [exact E|]. split; [exact H|]. vm_compute in E. by injection E.
Defined.

(** The two ends of the range, the second one exceeded: "  -2147483648x" and
    "2147483648". *)
Definition min_digits : list Z := [50; 49; 52; 55; 52; 56; 51; 54; 52; 56].
Definition atoi_mem : mem_t :=
  example_mem 100 40 [(101, [32; 32; 45] ++ min_digits ++ [120; 0]); (120, min_digits ++ [0])].

Lemma atoi_reads_decimal_witness :
  atoi 101 atoi_mem = Ok (- 2 ^ 31, atoi_mem) /\ atoi 120 atoi_mem = Undef.
Proof.
  split.
  - refine (atoi_reads_decimal atoi_mem 101 [32; 32] [45] min_digits [120] _ _ _ _ _).
    + concrete_mem.
    + repeat constructor.
    + repeat constructor.
    + reflexivity.
    + right. left. reflexivity.
  - refine (atoi_reads_decimal atoi_mem 120 [] [] min_digits [] _ _ _ _ _).
    + concrete_mem.
    + repeat constructor.
    + repeat constructor.
    + reflexivity.
    + right. right. split; reflexivity.
Defined.
