(* ===== verification/Random.v ===== *)
(** * lib/random.c: the pseudo-random number generator

    RC4 over the file's static variables. The bytes that random_bytes stores into
    its buffer are its result. *)

From S2P Require Import Prelude.

(** The variables s, s_i, s_j and inited. *)
Record rng : Type := Rng {
  rng_s : list Z;
  s_i : Z;
  s_j : Z;
  inited : bool
}.

(** Their values at boot. *)
Definition rng_boot : rng := Rng (replicate 256 0) 0 0 false.

Definition set_s (f : list Z -> list Z) (g : rng) : rng := Rng (f (rng_s g)) (s_i g) (s_j g) (inited g).

Definition s_at (i : Z) : M rng Z := fun g => match rng_s g !! Z.to_nat i with Some b => Ok (b, g) | None => Undef end.
Definition s_put (i v : Z) : M rng unit :=
  fun g => match rng_s g !! Z.to_nat i with
           | Some _ => Ok (tt, set_s (fun s => <[Z.to_nat i := v]> s) g)
           | None => Undef
           end.

(** The bytes at [s + i] and [s + j]. *)
Definition swap_byte (i j : Z) : M rng unit :=
  t ← s_at i; b ← s_at j; s_put i b;; s_put j t.

(** [for (i = 256 - n; i < 256; i++) s[i] = i] *)
Fixpoint random_fill (n : nat) (i : Z) : M rng unit :=
  match n with O => mret tt | S n => s_put i i;; random_fill n (i + 1) end.

Fixpoint random_mix (n : nat) (i j : Z) (seedp : list Z) : M rng unit :=
  match n with
  | O => mret tt
  | S n =>
      b ← s_at i;
      k ← lift (from_option_ub (seedp !! Z.to_nat (i mod 4)));
      let j := u8 (j + (b + k)) in
      swap_byte i j;;
      random_mix n (i + 1) j seedp
  end.

Definition random_init (seed : Z) : M rng unit :=
  let seedp := le_split 4 seed in
  random_fill 256 0;;
  random_mix 256 0 0 seedp;;
  modify (fun g => Rng (rng_s g) 0 0 true).

Fixpoint random_bytes_loop (size : nat) : M rng (list Z) :=
  match size with
  | O => mret []
  | S size =>
      modify (fun g => Rng (rng_s g) (u8 (s_i g + 1)) (s_j g) (inited g));;
      i ← gets s_i;
      b ← s_at i;
      modify (fun g => Rng (rng_s g) (s_i g) (u8 (s_j g + b)) (inited g));;
      j ← gets s_j;
      swap_byte i j;;
      x ← s_at i;
      y ← s_at j;
      byte ← s_at (u8 (x + y));
      buf ← random_bytes_loop size;
      mret (byte :: buf)
  end.

Definition random_bytes (size : Z) : M rng (list Z) :=
  g ← get;
  (if negb (inited g) then random_init 0 else mret tt);;
  random_bytes_loop (Z.to_nat size).

(** Eight bytes, the object representation of an [unsigned long]. *)
Definition random_ulong : M rng Z :=
  bytes ← random_bytes 8; mret (le_combine bytes).

(** ** The state of the cipher *)

(** The table is a permutation of the bytes, once it has been set up. *)
Definition bytes : list Z := seqZ 0 256.

Record rng_ok (g : rng) : Prop := {
  rng_perm : inited g = true -> rng_s g ≡ₚ bytes;
  rng_length : length (rng_s g) = 256%nat;
  rng_i : 0 <= s_i g < 256;
  rng_j : 0 <= s_j g < 256
}.

(** A table that has been filled, whatever the flag says. *)
Definition filled (g : rng) : Prop := rng_s g ≡ₚ bytes.

Lemma filled_length g : filled g -> length (rng_s g) = 256%nat.
Proof. unfold filled. intros H. by rewrite H. Qed.

Lemma filled_byte g b : filled g -> b ∈ rng_s g -> 0 <= b < 256.
Proof. unfold filled, bytes. intros H. rewrite H. rewrite elem_of_seqZ. lia. Qed.

Lemma wp_s_at i (Q : Z -> rng -> Prop) g :
  length (rng_s g) = 256%nat -> 0 <= i < 256 ->
  (forall b, rng_s g !! Z.to_nat i = Some b -> Q b g) -> wp (s_at i) Q g.
Proof.
  intros Hl Hi HQ. destruct (lookup_lt_is_Some_2 (rng_s g) (Z.to_nat i)) as [b Hb]; [lia|].
  exists b, g. unfold s_at. rewrite Hb. split; [done|by apply HQ].
Qed.

Lemma wp_s_put i v (Q : unit -> rng -> Prop) g :
  length (rng_s g) = 256%nat -> 0 <= i < 256 ->
  Q tt (set_s (fun s => <[Z.to_nat i := v]> s) g) -> wp (s_put i v) Q g.
Proof.
  intros Hl Hi HQ. destruct (lookup_lt_is_Some_2 (rng_s g) (Z.to_nat i)) as [b Hb]; [lia|].
  eexists tt, _. unfold s_put. rewrite Hb. by split.
Qed.

Lemma wp_swap_byte i j (Q : unit -> rng -> Prop) g :
  length (rng_s g) = 256%nat -> 0 <= i < 256 -> 0 <= j < 256 ->
  (forall s, s ≡ₚ rng_s g -> Q tt (set_s (fun _ => s) g)) -> wp (swap_byte i j) Q g.
Proof.
  intros Hl Hi Hj HQ. apply wp_bind, wp_s_at; [done|done|]. intros t Ht. apply wp_bind, wp_s_at; [done|done|]. intros b Hb.
  apply wp_bind, wp_s_put; [done|done|]. apply wp_s_put; [simpl; by rewrite length_insert|done|].
  apply (HQ (<[Z.to_nat j := t]> (<[Z.to_nat i := b]> (rng_s g)))). by apply Permutation_insert_swap.
Qed.

Lemma wp_random_fill n (Q : unit -> rng -> Prop) g :
  length (rng_s g) = 256%nat -> (n <= 256)%nat ->
  take (256 - n) (rng_s g) = seqZ 0 (Z.of_nat (256 - n)) ->
  (forall g', filled g' -> Q tt g') -> wp (random_fill n (Z.of_nat (256 - n))) Q g.
Proof.
  revert g. induction n as [|n IH]; intros g Hl Hn Ht HQ; cbn [random_fill].
  - apply wp_ret, HQ. unfold filled. rewrite Nat.sub_0_r, take_ge in Ht by lia. by rewrite Ht.
  - apply wp_bind, wp_s_put; [done|lia|]. replace (Z.of_nat (256 - S n) + 1) with (Z.of_nat (256 - n)) by lia.
    apply IH; [simpl; by rewrite length_insert|lia| |done]. simpl. rewrite Nat2Z.id.
    replace (256 - n)%nat with (S (256 - S n)) by lia.
    rewrite (take_S_r _ _ (Z.of_nat (256 - S n))) by (apply list_lookup_insert_eq; lia).
    rewrite take_insert_ge by lia. rewrite Ht. replace (Z.of_nat (S (256 - S n))) with (Z.of_nat (256 - S n) + 1) by lia.
    by rewrite seqZ_app by lia.
Qed.

Lemma wp_random_mix n i j seed (Q : unit -> rng -> Prop) g :
  filled g -> 0 <= i -> i + Z.of_nat n <= 256 ->
  (forall g', filled g' -> Q tt g') -> wp (random_mix n i j (le_split 4 seed)) Q g.
Proof.
  revert i j g. induction n as [|n IH]; intros i j g Hg Hi Hn HQ; cbn [random_mix]; [by apply wp_ret, HQ|].
  pose proof (filled_length g Hg) as Hl.
  apply wp_bind, wp_s_at; [done|lia|]. intros b _.
  pose proof (Z.mod_pos_bound i 4 ltac:(lia)) as Hm.
  destruct (lookup_lt_is_Some_2 (le_split 4 seed) (Z.to_nat (i mod 4))) as [k Hk]; [rewrite length_le_split; lia|].
  apply wp_bind, wp_lift with k; [by rewrite Hk|].
  apply wp_bind, wp_swap_byte; [done|lia|apply u8_range|]. intros s Hs.
  apply IH; [|lia|lia|done]. unfold filled. simpl. by rewrite Hs.
Qed.

Lemma wp_random_init seed (Q : unit -> rng -> Prop) g :
  length (rng_s g) = 256%nat -> (forall g', rng_ok g' -> inited g' = true -> Q tt g') -> wp (random_init seed) Q g.
Proof.
  intros Hl HQ. unfold random_init. apply wp_bind. change 0 with (Z.of_nat (256 - 256)) at 1.
  apply wp_random_fill; [done|lia|done|]. intros g1 H1.
  apply wp_bind, wp_random_mix; [done|lia|done|]. intros g2 H2.
  apply wp_modify, HQ; [|done]. split; simpl; [done|by apply filled_length|lia|lia].
Qed.

Lemma wp_random_bytes_loop n (Q : list Z -> rng -> Prop) g :
  rng_ok g -> inited g = true ->
  (forall l g', rng_ok g' -> inited g' = true -> length l = n -> Forall (fun b => 0 <= b < 256) l -> Q l g') ->
  wp (random_bytes_loop n) Q g.
Proof.
  revert g Q. induction n as [|n IH]; intros g Q Hg Hin HQ; cbn [random_bytes_loop].
  { apply wp_ret, HQ; done. }
  destruct Hg as [Hp Hl Hi Hj]. specialize (Hp Hin).
  pose proof (u8_range (s_i g + 1)) as Hi'. apply wp_bind, wp_modify, wp_bind, wp_gets. simpl.
  apply wp_bind, wp_s_at; [done|done|]. intros b _. apply wp_bind, wp_modify, wp_bind, wp_gets. simpl.
  pose proof (u8_range (s_j g + b)) as Hj'.
  apply wp_bind, wp_swap_byte; [done|done|done|]. simpl. intros s Hs.
  assert (s ≡ₚ bytes) as Hsb by (by rewrite Hs). assert (length s = 256%nat) as Hsl by (by rewrite Hsb).
  apply wp_bind, wp_s_at; [done|done|]. intros x _. apply wp_bind, wp_s_at; [done|done|]. intros y _.
  apply wp_bind, wp_s_at; [done|apply u8_range|]. simpl. intros byte Hb.
  apply wp_bind, IH; [by split|done|]. intros l g' Hg' Hin' Hll Hlb. apply wp_ret, HQ; [done|done|simpl; by rewrite Hll|].
  constructor; [|done]. apply (filled_byte (Rng s 0 0 true)); [done|by eapply list_elem_of_lookup_2].
Qed.

(** C40: whatever the seed, and also when it has not been initialised, the
    generator never leaves its table: random_bytes returns [size] bytes and
    random_ulong a number below 2^64, and the table remains a permutation of all
    256 bytes. *)
Theorem random_stays_in_range g size :
  rng_ok g -> 0 <= size ->
  (exists l g', random_bytes size g = Ok (l, g') /\ rng_ok g' /\ inited g' = true /\
     Z.of_nat (length l) = size /\ Forall (fun b => 0 <= b < 256) l) /\
  (exists n g', random_ulong g = Ok (n, g') /\ rng_ok g' /\ inited g' = true /\ is_u64 n).
Proof.
  intros Hg Hs.
  assert (forall size (Q : list Z -> rng -> Prop), 
    (forall l g', rng_ok g' -> inited g' = true -> length l = Z.to_nat size -> Forall (fun b => 0 <= b < 256) l -> Q l g') ->
    wp (random_bytes size) Q g) as Hw.
  { intros sz Q HQ. apply wp_bind, wp_get. apply wp_bind. destruct (inited g) eqn:Hin.
    - apply wp_ret. by apply wp_random_bytes_loop.
    - apply wp_random_init; [apply (rng_length _ Hg)|]. intros g' Hg' Hin'. by apply wp_random_bytes_loop. }
  split.
  - destruct (Hw size (fun l g' => rng_ok g' /\ inited g' = true /\ Z.of_nat (length l) = size /\ Forall (fun b => 0 <= b < 256) l))
      as (l & g' & E & H); [|by exists l, g'].
    intros l g' H1 H2 H3 H4. split_and!; [done|done|lia|done].
  - destruct (Hw 8 (fun l g' => rng_ok g' /\ inited g' = true /\ length l = 8%nat /\ Forall (fun b => 0 <= b < 256) l))
      as (l & g' & E & H1 & H2 & H3 & H4); [auto|].
    exists (le_combine l), g'. unfold random_ulong, mbind, M_mbind. rewrite E. split_and!; [done|done|done|].
    assert (forall l, Forall (fun b => 0 <= b < 256) l -> 0 <= le_combine l < 256 ^ Z.of_nat (length l)) as Hc.
    { clear. induction 1 as [|b l Hb _ IH]; [done|]. cbn [le_combine length]. rewrite Nat2Z.inj_succ, Z.pow_succ_r by lia. lia. }
    specialize (Hc l H4). rewrite H3 in Hc. exact Hc.
Qed.

Lemma rng_boot_ok : rng_ok rng_boot.
Proof. by split. Qed.

Lemma random_stays_in_range_witness :
  exists l g', random_bytes 3 rng_boot = Ok (l, g') /\ rng_ok g' /\ l = [222; 24; 137].
Proof.
  destruct (random_stays_in_range rng_boot 3 rng_boot_ok ltac:(lia)) as [(l & g' & E & Hg & _) _].
  exists l, g'. split; [exact E|]. split; [exact Hg|]. vm_compute in E. by injection E.
Defined.
