(* ===== verification/VMem.v ===== *)
(** * Kernel memory by pages (threads/vaddr.h, threads/palloc.c, threads/mmu.c)

    The memory that the page allocator hands out and the page tables live in: all
    physical memory is mapped at KERN_BASE, and the model keeps it page by page,
    each page as its 512 words of 64 bits. Beside it are the two pools and the two
    registers and commands of the processor that mmu.c uses. *)

From S2P Require Import Prelude Bitmap.

(** ** Addresses (vaddr.h) *)

Definition null : Z := 0.
Definition PGBITS : Z := 12.
Definition PGSIZE : Z := Z.shiftl 1 PGBITS.
Definition BITMASK (SHIFT CNT : Z) : Z := u64 (Z.shiftl (u64 (Z.shiftl 1 CNT - 1)) SHIFT).
Definition PGMASK : Z := BITMASK 0 PGBITS.

Definition pg_ofs (va : Z) : Z := Z.land va PGMASK.
Definition pg_no (va : Z) : Z := Z.shiftr va PGBITS.
Definition pg_round_up (va : Z) : Z := Z.land (u64 (va + PGSIZE - 1)) (u64 (Z.lnot PGMASK)).
Definition pg_round_down (va : Z) : Z := Z.land va (u64 (Z.lnot PGMASK)).

Definition KERN_BASE : Z := 0x8004000000.
Definition is_kernel_vaddr (vaddr : Z) : bool := vaddr >=? KERN_BASE.
Definition is_user_vaddr (vaddr : Z) : bool := negb (is_kernel_vaddr vaddr).

Definition ptov (paddr : Z) : Z := u64 (paddr + KERN_BASE).
Definition vtop (vaddr : Z) : outcome Z :=
  ASSERT (is_kernel_vaddr vaddr);; mret (u64 (vaddr - KERN_BASE)).

(** ** The state *)

(** [struct pool] without its lock. palloc_get_multiple holds that lock around the
    scan of the bitmap, so that one allocation is one step; palloc_free_multiple
    does without it, since a bitmap's bits are reset with atomic instructions. *)
Record pool : Type := Pool { used_map : bitmap; base : Z }.

(** [&kernel_pool] and [&user_pool] *)
Inductive pool_ref : Type := KERNEL_POOL | USER_POOL.

#[export] Instance pool_ref_eq_dec : EqDecision pool_ref.
Proof. solve_decision. Defined.

(** [pages] gives the words of each page of memory that exists, by page number of
    its kernel address. [cr3] holds a physical address; [flushed] are the addresses
    given to invlpg, the latest first. *)
Record vmem : Type := VMem {
  kernel_pool : pool;
  user_pool : pool;
  pages : gmap Z (list Z);
  base_pml4 : Z;
  cr3 : Z;
  flushed : list Z
}.

Definition the_pool (r : pool_ref) (s : vmem) : pool :=
  match r with KERNEL_POOL => kernel_pool s | USER_POOL => user_pool s end.

Definition set_pool (r : pool_ref) (p : pool) (s : vmem) : vmem :=
  match r with
  | KERNEL_POOL => VMem p (user_pool s) (pages s) (base_pml4 s) (cr3 s) (flushed s)
  | USER_POOL => VMem (kernel_pool s) p (pages s) (base_pml4 s) (cr3 s) (flushed s)
  end.

Definition set_pages (m : gmap Z (list Z)) (s : vmem) : vmem :=
  VMem (kernel_pool s) (user_pool s) m (base_pml4 s) (cr3 s) (flushed s).

(** ** Memory accesses *)

(** [PGSIZE / sizeof (uint64_t)] *)
Definition PAGE_WORDS : nat := 512.

Definition get_page_words (pn : Z) : M vmem (list Z) :=
  s ← get; lift (from_option_ub (pages s !! pn)).

(** The 64-bit word at an aligned address. *)
Definition load64 (a : Z) : M vmem Z :=
  ws ← get_page_words (pg_no a); lift (from_option_ub (ws !! Z.to_nat (pg_ofs a / 8))).

Definition store64 (a v : Z) : M vmem unit :=
  ws ← get_page_words (pg_no a);
  _ ← lift (from_option_ub (ws !! Z.to_nat (pg_ofs a / 8)));
  modify (fun s => set_pages (<[pg_no a := <[Z.to_nat (pg_ofs a / 8) := v]> ws]> (pages s)) s).

(** memset and memcpy on whole pages, as all their uses here are: the word whose
    eight bytes are [value], in [n] pages from number [pn] on. *)
Definition byte_word (value : Z) : Z := value * 0x0101010101010101.

Fixpoint fill_pages (n : nat) (pn w : Z) : M vmem unit :=
  match n with
  | O => mret tt
  | S n =>
      _ ← get_page_words pn;
      modify (fun s => set_pages (<[pn := replicate PAGE_WORDS w]> (pages s)) s);;
      fill_pages n (pn + 1) w
  end.

Definition memset_pages (dst value size : Z) : M vmem unit :=
  fill_pages (Z.to_nat (size / PGSIZE)) (pg_no dst) (byte_word value).

Definition memcpy_page (dst src : Z) : M vmem unit :=
  ws ← get_page_words (pg_no src);
  _ ← get_page_words (pg_no dst);
  modify (fun s => set_pages (<[pg_no dst := ws]> (pages s)) s).

(** ** Arithmetic of addresses *)

Lemma PGSIZE_eq : PGSIZE = 4096.
Proof. reflexivity. Qed.

Lemma pg_ofs_eq va : pg_ofs va = va mod 4096.
Proof. unfold pg_ofs. change PGMASK with (Z.ones 12). by rewrite Z.land_ones. Qed.

Lemma pg_no_eq va : pg_no va = va / 4096.
Proof. unfold pg_no, PGBITS. by rewrite Z.shiftr_div_pow2. Qed.

(** Clearing the low twelve bits of a 64-bit number. *)
Lemma clear_low_bits a : is_u64 a -> Z.land a (u64 (Z.lnot 0xfff)) = a / 4096 * 4096.
Proof.
  intros Ha. change (u64 (Z.lnot 0xfff)) with (Z.ones 64 - Z.ones 12).
  transitivity (Z.ldiff a (Z.ones 12)).
  - apply Z.bits_inj'. intros k Hk. rewrite Z.land_spec, Z.ldiff_spec.
    change (Z.ones 64 - Z.ones 12) with (Z.shiftl (Z.ones 52) 12).
    rewrite Z.shiftl_spec by done. destruct (Z.ltb_spec k 64).
    + rewrite !Z.testbit_ones by lia.
      destruct (Z.leb_spec 0 (k - 12)), (Z.ltb_spec (k - 12) 52), (Z.leb_spec 0 k), (Z.ltb_spec k 12);
        done || lia.
    + rewrite (Z.bits_above_log2 a k); [done|apply Ha|].
      destruct (Z.eq_dec a 0) as [->|]; [simpl; lia|].
      apply Z.log2_lt_pow2; [unfold is_u64 in Ha; lia|].
      apply Z.lt_le_trans with (2 ^ 64); [apply Ha|apply Z.pow_le_mono_r; lia].
  - rewrite Z.ldiff_ones_r, Z.shiftl_mul_pow2, Z.shiftr_div_pow2 by lia. done.
Qed.

Lemma pg_round_up_eq va : 0 <= va < 2 ^ 63 -> pg_round_up va = (va + 4095) / 4096 * 4096.
Proof.
  intros Ha. unfold pg_round_up. change (u64 (Z.lnot PGMASK)) with (u64 (Z.lnot 0xfff)).
  rewrite PGSIZE_eq. replace (va + 4096 - 1) with (va + 4095) by lia.
  rewrite u64_small by (unfold is_u64; lia). apply clear_low_bits. unfold is_u64. lia.
Qed.

Lemma ptov_eq pa : 0 <= pa < 2 ^ 63 -> ptov pa = pa + KERN_BASE.
Proof. intros H. apply u64_small. unfold is_u64, KERN_BASE. lia. Qed.

(** Splitting a page address into page number and offset. *)
Lemma pg_no_page pn : pg_no (4096 * pn) = pn.
Proof. rewrite pg_no_eq, Z.mul_comm. by apply Z.div_mul. Qed.

Lemma pg_ofs_page pn : pg_ofs (4096 * pn) = 0.
Proof. rewrite pg_ofs_eq, Z.mul_comm. by apply Z.mod_mul. Qed.

Lemma page_of_aligned a : pg_ofs a = 0 -> a = 4096 * pg_no a.
Proof. rewrite pg_ofs_eq, pg_no_eq. intros H. pose proof (Z.div_mod a 4096). lia. Qed.

(** ** Accesses, by their effect *)

Lemma wp_get_page_words pn ws (Q : list Z -> vmem -> Prop) s :
  pages s !! pn = Some ws -> Q ws s -> wp (get_page_words pn) Q s.
Proof. intros H HQ. unfold get_page_words. wp_steps. by apply (wp_lift _ ws); [rewrite H|]. Qed.

(** The address of word [i] of page [pn]. *)
Lemma word_page pn i : 0 <= i < 512 -> pg_no (4096 * pn + 8 * i) = pn.
Proof. intros H. rewrite pg_no_eq. symmetry. apply (Z.div_unique _ _ _ (8 * i)); lia. Qed.

Lemma word_index pn i : 0 <= i < 512 -> pg_ofs (4096 * pn + 8 * i) / 8 = i.
Proof.
  intros H. rewrite pg_ofs_eq. replace ((4096 * pn + 8 * i) mod 4096) with (8 * i).
  - rewrite Z.mul_comm. by apply Z.div_mul.
  - apply (Z.mod_unique _ _ pn); lia.
Qed.

Lemma wp_load64 pn i ws w (Q : Z -> vmem -> Prop) s :
  0 <= i < 512 -> pages s !! pn = Some ws -> ws !! Z.to_nat i = Some w -> Q w s ->
  wp (load64 (4096 * pn + 8 * i)) Q s.
Proof.
  intros Hi Hp Hw HQ. unfold load64. apply wp_bind.
  apply (wp_get_page_words _ ws); [by rewrite word_page|]. apply (wp_lift _ w); [|done].
  by rewrite word_index, Hw.
Qed.

Lemma wp_store64 pn i ws w v (Q : unit -> vmem -> Prop) s :
  0 <= i < 512 -> pages s !! pn = Some ws -> ws !! Z.to_nat i = Some w ->
  Q tt (set_pages (<[pn := <[Z.to_nat i := v]> ws]> (pages s)) s) ->
  wp (store64 (4096 * pn + 8 * i) v) Q s.
Proof.
  intros Hi Hp Hw HQ. unfold store64. apply wp_bind.
  apply (wp_get_page_words _ ws); [by rewrite word_page|]. apply wp_bind.
  apply (wp_lift _ w); [by rewrite word_index, Hw|]. wp_steps.
  by rewrite word_page, word_index.
Qed.

(** The pages [pn] to [pn + n - 1] filled with [w]. *)
Definition filled (m : gmap Z (list Z)) (pn n w : Z) (m' : gmap Z (list Z)) : Prop :=
  forall i, m' !! i = if decide (pn <= i < pn + n) then Some (replicate PAGE_WORDS w) else m !! i.

Lemma set_pages_twice m1 m2 s : set_pages m2 (set_pages m1 s) = set_pages m2 s.
Proof. done. Qed.

Lemma set_pages_same s : set_pages (pages s) s = s.
Proof. by destruct s. Qed.

Lemma wp_fill_pages n pn w s (Q : unit -> vmem -> Prop) :
  (forall i, pn <= i < pn + Z.of_nat n -> is_Some (pages s !! i)) ->
  (forall m, filled (pages s) pn (Z.of_nat n) w m -> Q tt (set_pages m s)) ->
  wp (fill_pages n pn w) Q s.
Proof.
  revert pn s. induction n as [|n IH]; intros pn s Hmap HQ.
  - cbn [fill_pages]. wp_step. specialize (HQ (pages s)). rewrite set_pages_same in HQ.
    apply HQ. intros i. case_decide; [lia|done].
  - destruct (Hmap pn) as [ws Hws]; [lia|]. cbn [fill_pages]. wp_step.
    apply (wp_get_page_words _ ws); [done|]. wp_steps. apply IH.
    + intros i Hi. simpl. rewrite lookup_insert_ne by lia. apply Hmap. lia.
    + intros m Hm. rewrite set_pages_twice. apply HQ. intros i. rewrite (Hm i). simpl.
      destruct (decide (i = pn)) as [->|].
      * rewrite lookup_insert_eq. repeat case_decide; done || lia.
      * rewrite lookup_insert_ne by done. repeat case_decide; done || lia.
Qed.

Lemma wp_memset_pages pn value n s (Q : unit -> vmem -> Prop) :
  0 <= n -> (forall i, pn <= i < pn + n -> is_Some (pages s !! i)) ->
  (forall m, filled (pages s) pn n (byte_word value) m -> Q tt (set_pages m s)) ->
  wp (memset_pages (4096 * pn) value (4096 * n)) Q s.
Proof.
  intros Hn Hmap HQ. unfold memset_pages. rewrite PGSIZE_eq, pg_no_page, (Z.mul_comm 4096 n), Z.div_mul by lia.
  apply wp_fill_pages; rewrite Z2Nat.id by done; done.
Qed.
