(* ===== verification/Palloc.v ===== *)
(** * threads/palloc.c: the page allocator

    The two pools of pages, their initialization from the memory map that the boot
    loader left, and allocation and release of runs of pages. *)

From S2P Require Import Prelude Bitmap VMem.

(** ** The data *)

Definition PAL_ASSERT : Z := 1.
Definition PAL_ZERO : Z := 2.
Definition PAL_USER : Z := 4.

(** [struct e820_entry], [struct area] *)
Record e820_entry : Type := E820Entry {
  mem_lo : Z; mem_hi : Z; len_lo : Z; len_hi : Z; type : Z
}.
Record area : Type := Area { area_start : Z; area_end : Z; area_size : Z }.

Definition BASE_MEM_THRESHOLD : Z := 0x100000.
Definition USABLE : Z := 1.
Definition ACPI_RECLAIMABLE : Z := 3.
Definition APPEND_HILO (hi lo : Z) : Z := u64 (u64 (Z.shiftl hi 32) + lo).

(** The test that all three walks over the map make, and the fields they read. *)
Definition entry_usable (e : e820_entry) : bool := (type e =? ACPI_RECLAIMABLE) || (type e =? USABLE).
Definition entry_start (e : e820_entry) : Z := APPEND_HILO (mem_hi e) (mem_lo e).
Definition entry_len (e : e820_entry) : Z := APPEND_HILO (len_hi e) (len_lo e).

(** ** Allocation and release *)

Definition page_from_pool (p : pool) (page : Z) : bool :=
  let page_no := pg_no page in
  let start_page := pg_no (base p) in
  let end_page := u64 (start_page + bitmap_size (used_map p)) in
  (page_no >=? start_page) && (page_no <? end_page).

Definition set_used_map (r : pool_ref) (b : bitmap) (s : vmem) : vmem :=
  set_pool r (Pool b (base (the_pool r s))) s.

Definition flag_set (flags f : Z) : bool := negb (Z.land flags f =? 0).

Definition palloc_get_multiple (flags page_cnt : Z) : M vmem Z :=
  let pool := if flag_set flags PAL_USER then USER_POOL else KERNEL_POOL in
  p ← gets (the_pool pool);
  '(page_idx, b) ← lift (bitmap_scan_and_flip (used_map p) 0 page_cnt false);
  modify (set_used_map pool b);;
  let pages := if negb (page_idx =? BITMAP_ERROR) then u64 (base p + PGSIZE * page_idx) else null in
  if negb (pages =? null) then
    (if flag_set flags PAL_ZERO then memset_pages pages 0 (u64 (PGSIZE * page_cnt)) else mret tt);;
    mret pages
  else if flag_set flags PAL_ASSERT then panicM else mret pages.

Definition palloc_get_page (flags : Z) : M vmem Z := palloc_get_multiple flags 1.

Definition palloc_free_multiple (pages page_cnt : Z) : M vmem unit :=
  assertM (pg_ofs pages =? 0);;
  if (pages =? null) || (page_cnt =? 0) then mret tt else
  kp ← gets (the_pool KERNEL_POOL);
  up ← gets (the_pool USER_POOL);
  pool ← (if page_from_pool kp pages then mret KERNEL_POOL
          else if page_from_pool up pages then mret USER_POOL
          else panicM);
  p ← gets (the_pool pool);
  let page_idx := u64 (pg_no pages - pg_no (base p)) in
  memset_pages pages 0xcc (u64 (PGSIZE * page_cnt));;
  all ← lift (bitmap_all (used_map p) page_idx page_cnt);
  assertM all;;
  b ← lift (bitmap_set_multiple (used_map p) page_idx page_cnt false);
  modify (set_used_map pool b).

Definition palloc_free_page (page : Z) : M vmem unit := palloc_free_multiple page 1.

(** ** Initialization

    [entries] is the map at MULTIBOOT_INFO, an array of mmap_len / sizeof (struct
    e820_entry) elements; [kernel_end] the address of the linker's symbol _end;
    [boot_word a] what memory holds at [a] when the kernel starts, which is where
    the bitmaps are put. *)

Section Init.
Variable entries : list e820_entry.
Variable kernel_end : Z.
Variable user_page_limit : Z.
Variable boot_word : Z -> Z.

Definition extend_area (start size : Z) (a : area) : area :=
  let end_ := u64 (start + size) in
  if area_size a =? 0 then Area start end_ size
  else Area (if area_start a >? start then start else area_start a)
            (if area_end a <? end_ then end_ else area_end a)
            (u64 (area_size a + size)).

Definition resolve_area_info (base_mem ext_mem : area) : area * area :=
  fold_left (fun '(base_mem, ext_mem) entry =>
    if entry_usable entry then
      let start := entry_start entry in
      let size := entry_len entry in
      if start <? BASE_MEM_THRESHOLD
      then (extend_area start size base_mem, ext_mem)
      else (base_mem, extend_area start size ext_mem)
    else (base_mem, ext_mem)) entries (base_mem, ext_mem).

(** [*bm_base] is threaded through: the result is its new value. *)
Definition init_pool (r : pool_ref) (bm_base start end_ : Z) : M vmem Z :=
  let pgcnt := u64 (end_ - start) / PGSIZE in
  let bm_pages := u64 (DIV_ROUND_UP (bitmap_buf_size pgcnt) PGSIZE * PGSIZE) in
  let garbage := (fun i => boot_word (bm_base + 16 + 8 * i)) <$> seqZ 0 (elem_cnt pgcnt) in
  b ← lift (bitmap_create_in_buf pgcnt bm_pages garbage);
  b ← lift (bitmap_set_all b true);
  modify (set_pool r (Pool b start));;
  mret (u64 (bm_base + bm_pages)).

Inductive pstate : Type := KERN_START | KERN | USER_START | USER.

(** The local variables of populate_pools during its first loop. *)
Record pvars : Type := PVars {
  v_state : pstate; v_rem : Z; v_region_start : Z; v_end : Z; v_free_start : Z
}.

(** The body of that loop for one entry. *)
Definition populate_step (user_pages : Z) (v : pvars) (entry : e820_entry) : M vmem pvars :=
  if entry_usable entry then
    let start := ptov (entry_start entry) in
    let size := entry_len entry in
    let end_ := u64 (start + size) in
    let size_in_pg := size / PGSIZE in
    let '(st, region) := match v_state v with KERN_START => (KERN, start) | st => (st, v_region_start v) end in
    match st with
    | KERN =>
        if v_rem v >? size_in_pg then
          mret (PVars KERN (u64 (v_rem v - size_in_pg)) region end_ (v_free_start v))
        else
          free_start ← init_pool KERNEL_POOL (v_free_start v) region (u64 (start + v_rem v * PGSIZE));
          if v_rem v =? size_in_pg
          then mret (PVars USER_START user_pages region end_ free_start)
          else mret (PVars USER (u64 (user_pages - size_in_pg + v_rem v))
                       (u64 (start + v_rem v * PGSIZE)) end_ free_start)
    | USER_START => mret (PVars USER (v_rem v) start end_ (v_free_start v))
    | USER =>
        if v_rem v >? size_in_pg then
          mret (PVars USER (u64 (v_rem v - size_in_pg)) region end_ (v_free_start v))
        else assertM (v_rem v =? size);; mret (PVars USER (v_rem v) region end_ (v_free_start v))
    | KERN_START => panicM
    end
  else mret v.

Fixpoint populate_loop (user_pages : Z) (v : pvars) (es : list e820_entry) : M vmem pvars :=
  match es with
  | [] => mret v
  | entry :: es => v' ← populate_step user_pages v entry; populate_loop user_pages v' es
  end.

(** From the label [split] on: each pass frees the part of a region that is in one
    pool. *)
Fixpoint free_region (fuel : nat) (start end_ : Z) : M vmem unit :=
  match fuel with
  | O => nofuelM
  | S fuel =>
      kp ← gets (the_pool KERNEL_POOL);
      up ← gets (the_pool USER_POOL);
      pool ← (if page_from_pool kp start then mret KERNEL_POOL
              else if page_from_pool up start then mret USER_POOL
              else panicM);
      p ← gets (the_pool pool);
      let pool_end := u64 (base p + u64 (bitmap_size (used_map p) * PGSIZE)) in
      let page_idx := u64 (pg_no start - pg_no (base p)) in
      if pool_end <? end_ then
        let page_cnt := u64 (pool_end - start) / PGSIZE in
        b ← lift (bitmap_set_multiple (used_map p) page_idx page_cnt false);
        modify (set_used_map pool b);;
        free_region fuel pool_end end_
      else
        let page_cnt := u64 (end_ - start) / PGSIZE in
        b ← lift (bitmap_set_multiple (used_map p) page_idx page_cnt false);
        modify (set_used_map pool b)
  end.

(** A region meets each of the two pools at most once. *)
Definition SPLIT_FUEL : nat := 3.

Definition free_entry (usable_bound : Z) (entry : e820_entry) : M vmem unit :=
  if entry_usable entry then
    let start := ptov (entry_start entry) in
    let end_ := u64 (start + entry_len entry) in
    if end_ <? usable_bound then mret tt
    else free_region SPLIT_FUEL (pg_round_up (if start >=? usable_bound then start else usable_bound)) end_
  else mret tt.

Fixpoint free_loop (usable_bound : Z) (es : list e820_entry) : M vmem unit :=
  match es with
  | [] => mret tt
  | entry :: es => free_entry usable_bound entry;; free_loop usable_bound es
  end.

Definition populate_pools (base_mem ext_mem : area) : M vmem unit :=
  let free_start := pg_round_up kernel_end in
  let total_pages := u64 (area_size base_mem + area_size ext_mem) / PGSIZE in
  let user_pages := if total_pages / 2 >? user_page_limit then user_page_limit else total_pages / 2 in
  let kern_pages := u64 (total_pages - user_pages) in
  v ← populate_loop user_pages (PVars KERN_START kern_pages 0 0 free_start) entries;
  free_start ← init_pool USER_POOL (v_free_start v) (v_region_start v) (v_end v);
  free_loop free_start entries.

Definition palloc_init : M vmem Z :=
  let '(base_mem, ext_mem) := resolve_area_info (Area 0 0 0) (Area 0 0 0) in
  populate_pools base_mem ext_mem;;
  mret (area_end ext_mem).
End Init.
