(* ===== verification/PallocFacts.v ===== *)
(** * The page allocator's state and the effect of its operations

    [free_page] reads the two bitmaps as the set of free pages; [palloc_ok] is the
    state in which the allocator works; allocation and release are described by
    what they do to the set of free pages and to the memory. *)

From S2P Require Import Prelude Bitmap VMem Palloc.

(** ** The set of free pages *)

Definition in_pool (p : pool) (pn : Z) : Prop :=
  pg_no (base p) <= pn < pg_no (base p) + bit_cnt (used_map p).

Definition free_page (s : vmem) (r : pool_ref) (pn : Z) : Prop :=
  in_pool (the_pool r s) pn /\
  bit (used_map (the_pool r s)) (pn - pg_no (base (the_pool r s))) = false.

(** A pool that is a range of whole pages inside the address space. *)
Record pool_ok (p : pool) : Prop := {
  po_wf : bitmap_wf (used_map p);
  po_base : base p = 4096 * pg_no (base p);
  po_range : 0 < pg_no (base p) /\ pg_no (base p) + bit_cnt (used_map p) <= 2 ^ 52
}.

(** Both pools are such ranges, they do not overlap, and free pages are memory. *)
Record palloc_ok (s : vmem) : Prop := {
  pa_pools r : pool_ok (the_pool r s);
  pa_apart pn : in_pool (kernel_pool s) pn -> in_pool (user_pool s) pn -> False;
  pa_ram r pn : free_page s r pn -> is_Some (pages s !! pn)
}.

(** The pages from [pn] to [pn + cnt - 1]. *)
Abbreviation run pn cnt i := (pn <= i < pn + cnt).

(** [s'] is [s] with other bitmaps of the same sizes and other page contents. *)
Record same_layout (s s' : vmem) : Prop := {
  sl_base r : base (the_pool r s') = base (the_pool r s);
  sl_size r : bit_cnt (used_map (the_pool r s')) = bit_cnt (used_map (the_pool r s));
  sl_regs : base_pml4 s' = base_pml4 s /\ cr3 s' = cr3 s /\ flushed s' = flushed s
}.

(** Allocating a run: it was free, and now just it is not. *)
Record allocated (r : pool_ref) (pn cnt : Z) (s s' : vmem) : Prop := {
  al_ok : palloc_ok s';
  al_run i : run pn cnt i -> free_page s r i;
  al_free r' i : free_page s' r' i <-> free_page s r' i /\ ~ run pn cnt i;
  al_layout : same_layout s s';
  al_pages i : ~ run pn cnt i -> pages s' !! i = pages s !! i;
  al_mapped i : is_Some (pages s' !! i) <-> is_Some (pages s !! i)
}.

(** Releasing a run: none of it was free, and now all of it is. *)
Record released (r : pool_ref) (pn cnt : Z) (s s' : vmem) : Prop := {
  rl_ok : palloc_ok s';
  rl_run i : run pn cnt i -> in_pool (the_pool r s) i /\ ~ free_page s r i;
  rl_free r' i : free_page s' r' i <-> free_page s r' i \/ (r' = r /\ run pn cnt i);
  rl_layout : same_layout s s';
  rl_pages i : pages s' !! i =
    if decide (run pn cnt i) then Some (replicate PAGE_WORDS (byte_word 0xcc)) else pages s !! i
}.

(** ** Pools and states *)

Section States.
Implicit Type s : vmem.

Lemma the_pool_set r r' p s : the_pool r' (set_pool r p s) = if decide (r' = r) then p else the_pool r' s.
Proof. destruct r, r'; done. Qed.

Lemma the_pool_pages r m s : the_pool r (set_pages m s) = the_pool r s.
Proof. by destruct r. Qed.

Lemma pages_set_pool r p s : pages (set_pool r p s) = pages s.
Proof. by destruct r. Qed.

Lemma same_layout_refl s : same_layout s s.
Proof. by split. Qed.

Lemma same_layout_trans s1 s2 s3 : same_layout s1 s2 -> same_layout s2 s3 -> same_layout s1 s3.
Proof.
  intros [H1 H2 H3] [H1' H2' H3']. split; [congruence..|intuition congruence].
Qed.

Lemma in_pool_same s s' r pn :
  same_layout s s' -> in_pool (the_pool r s') pn <-> in_pool (the_pool r s) pn.
Proof. intros H. unfold in_pool. by rewrite (sl_base _ _ H), (sl_size _ _ H). Qed.

(** The two pools seen from either of them. *)
Lemma pools_apart s r r' pn :
  palloc_ok s -> in_pool (the_pool r s) pn -> in_pool (the_pool r' s) pn -> r' = r.
Proof. intros H H1 H2. pose proof (pa_apart _ H pn). destruct r, r'; tauto. Qed.

Lemma page_from_range p pn :
  0 <= pg_no (base p) -> 0 <= bit_cnt (used_map p) -> pg_no (base p) + bit_cnt (used_map p) < 2 ^ 64 ->
  page_from_pool p (4096 * pn) = bool_decide (in_pool p pn).
Proof.
  intros H1 H2 H3. unfold page_from_pool, in_pool, bitmap_size. rewrite pg_no_page.
  rewrite u64_small by (unfold is_u64; lia).
  destruct (Z.geb_spec pn (pg_no (base p))), (Z.ltb_spec pn (pg_no (base p) + bit_cnt (used_map p)));
    symmetry; (apply bool_decide_eq_true || apply bool_decide_eq_false); lia.
Qed.

Lemma page_from_pool_ok p pn :
  pool_ok p -> page_from_pool p (4096 * pn) = bool_decide (in_pool p pn).
Proof. intros [(Hc & _) _ Hr]. apply page_from_range; lia. Qed.
End States.

(** ** Changing a run of bits *)

Section Bits.
Variables (s : vmem) (r : pool_ref) (pn cnt : Z) (v : bool) (b : bitmap) (m : gmap Z (list Z)).
Let p := the_pool r s.
Let s' := set_pages m (set_used_map r b s).
Hypothesis Hok : palloc_ok s.
Hypothesis Hrun : pg_no (base p) <= pn /\ 0 <= cnt /\ pn + cnt <= pg_no (base p) + bit_cnt (used_map p).
Hypothesis Hbits : bits_set (used_map p) (pn - pg_no (base p)) cnt v b.

Lemma change_layout : same_layout s s'.
Proof.
  destruct Hbits as (Hc & _ & _). split; intros *; unfold s', set_used_map;
    rewrite ?the_pool_pages, ?the_pool_set; try (case_decide; subst; done). by destruct r.
Qed.

(** The free pages of the new state. *)
Lemma change_free r' i :
  free_page s' r' i <->
  if decide (run pn cnt i /\ r' = r) then v = false else free_page s r' i.
Proof.
  destruct Hbits as (Hc & _ & Hb). unfold free_page at 1.
  rewrite (in_pool_same s) by apply change_layout. rewrite (sl_base _ _ change_layout).
  unfold s', set_used_map. rewrite the_pool_pages, the_pool_set.
  destruct (decide (r' = r)) as [->|Hne]; simpl; [|by rewrite decide_False by tauto].
  fold p. unfold free_page. fold p. destruct (decide _) as [Hd|Hd].
  - split; [intros [_ H]|intros ->; split].
    + rewrite Hb in H by lia. destruct Hd as [Hd _].
      by rewrite (proj2 (Z.leb_le _ _)), (proj2 (Z.ltb_lt _ _)) in H by lia.
    + unfold in_pool. lia.
    + rewrite Hb by lia. destruct (_ && _) eqn:E; [done|exfalso; lia].
  - split; intros [Hin H]; (split; [done|]); unfold in_pool in Hin.
    + rewrite Hb in H by lia. destruct (_ && _) eqn:E; [|done]. exfalso. apply Hd. split; [lia|done].
    + rewrite Hb by lia. destruct (_ && _) eqn:E; [|done]. exfalso. apply Hd. split; [lia|done].
Qed.

Lemma change_ok :
  (forall i, is_Some (pages s !! i) -> is_Some (m !! i)) ->
  (v = false -> forall i, run pn cnt i -> is_Some (m !! i)) -> palloc_ok s'.
Proof.
  intros Hm Hv. destruct Hbits as (Hc & Hwf & _). split.
  - intros r'. pose proof (pa_pools _ Hok r') as [Hw Hba Hr].
    unfold s', set_used_map. rewrite the_pool_pages, the_pool_set. case_decide; [|done]. subst r'.
    split; simpl; rewrite ?Hc; done.
  - intros i H1 H2. apply (pa_apart _ Hok i).
    + by apply (in_pool_same s s' KERNEL_POOL i change_layout).
    + by apply (in_pool_same s s' USER_POOL i change_layout).
  - intros r' i Hf. apply change_free in Hf. change (pages s') with m.
    case_decide; [apply Hv; tauto|]. apply Hm. by apply (pa_ram _ Hok r').
Qed.
End Bits.

Lemma set_used_map_pages r b m s : set_used_map r b (set_pages m s) = set_pages m (set_used_map r b s).
Proof. by destruct r. Qed.

(** ** palloc_get_multiple *)

(** No run of [cnt] free pages is left in the pool. *)
Definition no_run (s : vmem) (r : pool_ref) (cnt : Z) : Prop :=
  forall pn, (forall i, run pn cnt i -> free_page s r i) ->
    pn < pg_no (base (the_pool r s)) \/
    pg_no (base (the_pool r s)) + bit_cnt (used_map (the_pool r s)) < pn + cnt.

Definition pool_of (flags : Z) : pool_ref := if flag_set flags PAL_USER then USER_POOL else KERNEL_POOL.

(** Pages of a pool by index, as the bitmap counts them. *)
Lemma all_bits_free s r idx cnt :
  0 <= idx -> idx + cnt <= bit_cnt (used_map (the_pool r s)) ->
  all_bits (used_map (the_pool r s)) idx cnt false <->
  (forall i, run (pg_no (base (the_pool r s)) + idx) cnt i -> free_page s r i).
Proof.
  intros Hi Hc. unfold all_bits, free_page, in_pool. split; intros H i Hr.
  - split; [lia|]. apply H. lia.
  - rewrite <-(proj2 (H (pg_no (base (the_pool r s)) + i) ltac:(lia))). f_equal. lia.
Qed.

(** What the scan of a pool finds, in pages. *)
Lemma scan_pool s r cnt :
  palloc_ok s -> 0 <= cnt ->
  exists idx b, bitmap_scan_and_flip (used_map (the_pool r s)) 0 cnt false = Ok (idx, b) /\
    ((idx = BITMAP_ERROR /\ b = used_map (the_pool r s) /\ no_run s r cnt) \/
     (exists pn, idx = pn - pg_no (base (the_pool r s)) /\ idx <> BITMAP_ERROR /\
        pg_no (base (the_pool r s)) <= pn /\
        pn + cnt <= pg_no (base (the_pool r s)) + bit_cnt (used_map (the_pool r s)) /\
        (forall i, run pn cnt i -> free_page s r i) /\
        (forall j, pg_no (base (the_pool r s)) <= j < pn -> ~ forall i, run j cnt i -> free_page s r i) /\
        bits_set (used_map (the_pool r s)) idx cnt true b)).
Proof.
  intros Hok Hn. destruct (pa_pools _ Hok r) as [Hw _ Hr]. pose proof Hw as (Hc & _).
  destruct (bitmap_scan_and_flip_ok (used_map (the_pool r s)) 0 cnt false) as (idx & b & E & H);
    [done|lia|done|]. exists idx, b. split; [done|].
  set (p := the_pool r s) in *.
  destruct H as [(-> & -> & H)|(H1 & H2 & H3 & H4 & H5)]; [left|right].
  - split_and!; [done..|]. intros pn Hrun. fold p.
    destruct (decide (pg_no (base p) <= pn)) as [Hle|]; [right|left; lia].
    destruct (decide (pn + cnt <= pg_no (base p) + bit_cnt (used_map p))) as [Hle2|]; [|lia].
    exfalso. apply (H (pn - pg_no (base p))); [lia..|].
    apply (all_bits_free s r); fold p; [lia..|].
    by replace (pg_no (base p) + (pn - pg_no (base p))) with pn by lia.
  - exists (pg_no (base p) + idx). split_and!; [lia|unfold BITMAP_ERROR, SIZE_MAX; lia|lia|lia| | |done].
    + apply (all_bits_free s r); fold p; [lia..|done].
    + intros j Hj Hall. apply (H4 (j - pg_no (base p))); [lia|].
      apply (all_bits_free s r); fold p; [lia..|].
      by replace (pg_no (base p) + (j - pg_no (base p))) with j by lia.
Qed.

(** The contents of an allocated run. *)
Definition contents_ok (flags pn cnt : Z) (s s' : vmem) : Prop :=
  if flag_set flags PAL_ZERO then forall i, run pn cnt i -> pages s' !! i = Some (replicate PAGE_WORDS 0)
  else pages s' = pages s.

Lemma filled_mapped m pn n w m' i :
  (forall i, run pn n i -> is_Some (m !! i)) -> filled m pn n w m' -> is_Some (m' !! i) <-> is_Some (m !! i).
Proof. intros Hm H. rewrite (H i). case_decide; [|done]. split; eauto. Qed.

Lemma allocated_change s r pn cnt b m :
  palloc_ok s ->
  pg_no (base (the_pool r s)) <= pn /\ 0 <= cnt /\
    pn + cnt <= pg_no (base (the_pool r s)) + bit_cnt (used_map (the_pool r s)) ->
  (forall i, run pn cnt i -> free_page s r i) ->
  bits_set (used_map (the_pool r s)) (pn - pg_no (base (the_pool r s))) cnt true b ->
  (forall i, ~ run pn cnt i -> m !! i = pages s !! i) ->
  (forall i, is_Some (m !! i) <-> is_Some (pages s !! i)) ->
  allocated r pn cnt s (set_pages m (set_used_map r b s)).
Proof.
  intros Hok Hp Hfree Hb Hsame Hmap. split.
  - apply (change_ok s r pn cnt true b m); [done..|by intros i; apply Hmap|done].
  - done.
  - intros r' i. rewrite (change_free s r pn cnt true b m) by done. case_decide as Hd.
    + split; [done|tauto].
    + split; [|tauto]. intros Hf. split; [done|]. intros Hi. apply Hd. split; [done|].
      apply (pools_apart s r r' i Hok); [apply Hfree, Hi|apply Hf].
  - by apply (change_layout s r pn cnt true b m).
  - done.
  - done.
Qed.

(** The first run of [cnt] free pages of a pool. *)
Definition first_run (s : vmem) (r : pool_ref) (cnt pn : Z) : Prop :=
  0 < pn /\ pg_no (base (the_pool r s)) <= pn /\
  pn + cnt <= pg_no (base (the_pool r s)) + bit_cnt (used_map (the_pool r s)) /\
  (forall i, run pn cnt i -> free_page s r i) /\
  (forall j, pg_no (base (the_pool r s)) <= j < pn -> ~ forall i, run j cnt i -> free_page s r i).

Lemma set_used_map_same r s : set_used_map r (used_map (the_pool r s)) s = s.
Proof. by destruct r, s as [[] [] ? ? ? ?]. Qed.

(** The address that palloc_get_multiple computes from the index. *)
Lemma run_address s r pn cnt :
  palloc_ok s -> 0 < cnt -> first_run s r cnt pn ->
  u64 (base (the_pool r s) + PGSIZE * (pn - pg_no (base (the_pool r s)))) = 4096 * pn /\
  u64 (PGSIZE * cnt) = 4096 * cnt /\ (4096 * pn =? null) = false.
Proof.
  intros Hok Hn (Hpos & Hlo & Hhi & _). destruct (pa_pools _ Hok r) as [_ Hba Hr].
  rewrite PGSIZE_eq, !u64_small by (unfold is_u64; lia). unfold null. lia.
Qed.

(** The run's pages after the allocation, zeroed on request. *)
Lemma wp_clear_run (zero : bool) s r pn cnt b (Q : unit -> vmem -> Prop) :
  palloc_ok s -> 0 < cnt -> first_run s r cnt pn ->
  bits_set (used_map (the_pool r s)) (pn - pg_no (base (the_pool r s))) cnt true b ->
  (forall s', allocated r pn cnt s s' ->
     (if zero then forall i, run pn cnt i -> pages s' !! i = Some (replicate PAGE_WORDS 0)
      else pages s' = pages s) -> Q tt s') ->
  wp (if zero then memset_pages (4096 * pn) 0 (4096 * cnt) else mret tt) Q (set_used_map r b s).
Proof.
  intros Hok Hn (Hpos & Hlo & Hhi & Hfree & _) Hb HQ.
  assert (forall i, run pn cnt i -> is_Some (pages s !! i)) as Hram
    by (intros i Hi; apply (pa_ram _ Hok r), Hfree, Hi).
  destruct zero.
  - apply wp_memset_pages; [lia|by unfold set_used_map; rewrite pages_set_pool|].
    unfold set_used_map at 1. rewrite pages_set_pool. intros m Hm. apply HQ.
    + apply allocated_change; try done; [lia| |by intros i; apply (filled_mapped _ _ _ _ _ _ Hram Hm)].
      intros i Hi. rewrite (Hm i). by rewrite decide_False.
    + intros i Hi. simpl. by rewrite (Hm i), decide_True.
  - apply wp_ret. rewrite <-(set_pages_same (set_used_map r b s)).
    unfold set_used_map at 1. rewrite pages_set_pool. apply HQ; [|done].
    by apply allocated_change; (done || lia).
Qed.

Lemma palloc_get_cases flags cnt s :
  palloc_ok s -> 0 < cnt ->
  (exists pn s', palloc_get_multiple flags cnt s = Ok (4096 * pn, s') /\
     first_run s (pool_of flags) cnt pn /\
     allocated (pool_of flags) pn cnt s s' /\ contents_ok flags pn cnt s s') \/
  (no_run s (pool_of flags) cnt /\
     palloc_get_multiple flags cnt s = if flag_set flags PAL_ASSERT then Panic else Ok (null, s)).
Proof.
  intros Hok Hn. unfold palloc_get_multiple. fold (pool_of flags). set (r := pool_of flags).
  destruct (scan_pool s r cnt Hok ltac:(lia)) as (idx & b & E & [(-> & -> & H)|(pn & -> & Hne & H)]).
  - right. split; [done|]. unfold mbind, M_mbind, gets, lift, modify. rewrite E. cbn -[set_used_map].
    rewrite set_used_map_same. by destruct (flag_set flags PAL_ASSERT).
  - left. destruct H as (Hlo & Hhi & Hfree & Hfirst & Hb).
    pose proof (po_range _ (pa_pools _ Hok r)) as Hr.
    assert (first_run s r cnt pn) as Hrun by (split_and!; (done || lia)).
    destruct (run_address s r pn cnt Hok Hn Hrun) as (Ea & Ec & Enull).
    cut (wp (palloc_get_multiple flags cnt)
           (fun a s' => a = 4096 * pn /\ allocated r pn cnt s s' /\ contents_ok flags pn cnt s s') s).
    { intros (a & s' & Es & -> & Ha & Hc). exists pn, s'. done. }
    unfold palloc_get_multiple. fold (pool_of flags). fold r. wp_steps.
    apply (wp_lift _ (pn - pg_no (base (the_pool r s)), b)); [done|]. wp_steps.
    rewrite (proj2 (Z.eqb_neq _ _) Hne). cbn [negb]. rewrite Ea, Ec, Enull. cbn [negb]. wp_step.
    apply (wp_clear_run _ s r); try done. intros s' Ha Hc. wp_step. done.
Qed.

(** ** palloc_free_multiple *)

Lemma released_change s r pn cnt b m :
  palloc_ok s ->
  pg_no (base (the_pool r s)) <= pn /\ 0 <= cnt /\
    pn + cnt <= pg_no (base (the_pool r s)) + bit_cnt (used_map (the_pool r s)) ->
  (forall i, run pn cnt i -> is_Some (pages s !! i) /\ ~ free_page s r i) ->
  bits_set (used_map (the_pool r s)) (pn - pg_no (base (the_pool r s))) cnt false b ->
  filled (pages s) pn cnt (byte_word 0xcc) m ->
  released r pn cnt s (set_pages m (set_used_map r b s)).
Proof.
  intros Hok Hp Hused Hb Hm. split.
  - apply (change_ok s r pn cnt false b m); try done.
    + intros i. apply (filled_mapped _ _ _ _ _ _ (fun i Hi => proj1 (Hused i Hi)) Hm).
    + intros _ i Hi. rewrite (Hm i), decide_True by done. eauto.
  - intros i Hi. split; [unfold in_pool; lia|by apply Hused].
  - intros r' i. rewrite (change_free s r pn cnt false b m) by done. case_decide; tauto.
  - by apply (change_layout s r pn cnt false b m).
  - exact Hm.
Qed.

(** Finding the pool of a page. *)
Lemma find_pool s r pn :
  palloc_ok s -> in_pool (the_pool r s) pn ->
  (if page_from_pool (kernel_pool s) (4096 * pn) then mret KERNEL_POOL
   else if page_from_pool (user_pool s) (4096 * pn) then mret USER_POOL else panicM)
  = (mret r : M vmem pool_ref).
Proof.
  intros Hok Hin. pose proof (pa_apart _ Hok pn) as Hap.
  rewrite (page_from_pool_ok _ _ (pa_pools _ Hok KERNEL_POOL)), (page_from_pool_ok _ _ (pa_pools _ Hok USER_POOL)).
  destruct r; simpl in Hin |- *.
  - by rewrite bool_decide_eq_true_2.
  - rewrite bool_decide_eq_false_2 by tauto. by rewrite bool_decide_eq_true_2.
Qed.

(** All bits of a run set, in pages. *)
Lemma all_bits_used s r pn cnt :
  pg_no (base (the_pool r s)) <= pn ->
  pn + cnt <= pg_no (base (the_pool r s)) + bit_cnt (used_map (the_pool r s)) ->
  all_bits (used_map (the_pool r s)) (pn - pg_no (base (the_pool r s))) cnt true <->
  (forall i, run pn cnt i -> ~ free_page s r i).
Proof.
  intros Hlo Hhi. unfold all_bits, free_page, in_pool. split; intros H i Hi.
  - rewrite H by lia. by intros [_ ?].
  - destruct (bit _ i) eqn:E; [done|]. exfalso.
    apply (H (pg_no (base (the_pool r s)) + i)); [lia|]. split; [lia|]. rewrite <-E. f_equal. lia.
Qed.

Section Free.
Variables (s : vmem) (r : pool_ref) (pn cnt : Z).
Hypothesis Hok : palloc_ok s.
Hypothesis Hn : 0 < cnt.
Hypothesis Hin : pg_no (base (the_pool r s)) <= pn /\
  pn + cnt <= pg_no (base (the_pool r s)) + bit_cnt (used_map (the_pool r s)).
Hypothesis Hram : forall i, run pn cnt i -> is_Some (pages s !! i).

(** The function up to the assertion on the bitmap. *)
Lemma palloc_free_unfold :
  exists m t, filled (pages s) pn cnt (byte_word 0xcc) m /\
    (t = true <-> forall i, run pn cnt i -> ~ free_page s r i) /\
    palloc_free_multiple (4096 * pn) cnt s =
    (assertM t;;
     b ← lift (bitmap_set_multiple (used_map (the_pool r s)) (pn - pg_no (base (the_pool r s))) cnt false);
     modify (set_used_map r b)) (set_pages m s).
Proof.
  pose proof (pa_pools _ Hok r) as [Hw Hba Hr]. pose proof Hw as (Hc & _).
  destruct (bitmap_all_ok (used_map (the_pool r s)) (pn - pg_no (base (the_pool r s))) cnt)
    as (t & Et & Ht); [done|lia..|].
  assert (wp (memset_pages (4096 * pn) 0xcc (4096 * cnt))
            (fun _ s' => exists m, s' = set_pages m s /\ filled (pages s) pn cnt (byte_word 0xcc) m) s)
    as ([] & s' & Em & m & -> & Hm) by (apply wp_memset_pages; [lia|done|]; eauto).
  exists m, t. split; [done|]. split; [rewrite Ht; apply all_bits_used; lia|].
  unfold palloc_free_multiple. rewrite pg_ofs_page. rewrite (bind_run _ _ s tt s) by done.
  destruct (Z.eqb_spec (4096 * pn) null); [unfold null in *; lia|].
  destruct (Z.eqb_spec cnt 0); [lia|]. cbn [orb].
  rewrite !(bind_run (gets _) _ _ _ _ eq_refl). cbn [the_pool].
  rewrite (find_pool s r pn Hok) by (unfold in_pool; lia). rewrite (bind_run _ _ s r s) by done.
  rewrite (bind_run (gets _) _ _ _ _ eq_refl), pg_no_page, PGSIZE_eq, !u64_small by (unfold is_u64; lia).
  rewrite (bind_run _ _ _ _ _ Em). 
  rewrite (bind_run (lift _) _ _ t (set_pages m s)); [done|]. unfold lift. by rewrite Et.
Qed.

Lemma palloc_free_ok :
  (forall i, run pn cnt i -> ~ free_page s r i) ->
  exists s', palloc_free_multiple (4096 * pn) cnt s = Ok (tt, s') /\ released r pn cnt s s'.
Proof.
  intros Hused. destruct palloc_free_unfold as (m & t & Hm & Ht & ->).
  rewrite (proj2 Ht Hused). pose proof (pa_pools _ Hok r) as [Hw _ _].
  destruct (bitmap_set_multiple_ok (used_map (the_pool r s)) (pn - pg_no (base (the_pool r s))) cnt false)
    as (b & Eb & Hb); [done|lia..|].
  unfold mbind, M_mbind, assertM, lift, ASSERT, modify. rewrite Eb, set_used_map_pages.
  eexists. split; [done|]. apply released_change; try done; [lia|]. split; auto.
Qed.

(** Releasing a page that is free already panics. *)
Lemma palloc_free_twice i : run pn cnt i -> free_page s r i -> palloc_free_multiple (4096 * pn) cnt s = Panic.
Proof.
  intros Hi Hf. destruct palloc_free_unfold as (m & t & Hm & Ht & ->).
  destruct t; [|done]. exfalso. by apply (proj1 Ht eq_refl i).
Qed.
End Free.
