(* ===== verification/PallocTheorems.v ===== *)
(** * Theorems about the page allocator

    Blocks in use never share a page and no page is lost; allocation is first fit
    and zeroes on request; releasing undoes an allocation and panics when repeated. *)

From S2P Require Import Prelude Bitmap VMem Palloc PallocFacts.

(** ** Runs of the allocator *)

(** A block as its client knows it: the address and the number of pages. *)
Abbreviation block := (Z * Z)%type.

Definition block_pages (b : block) : list Z := seqZ (pg_no b.1) b.2.

(** The allocator between its clients, who hold the blocks of the list: they
    allocate, release a block they hold, and write to memory. *)
Inductive palloc_step : vmem * list block -> vmem * list block -> Prop :=
  | step_get flags cnt s a s' live :
      0 < cnt -> palloc_get_multiple flags cnt s = Ok (a, s') ->
      palloc_step (s, live) (s', if a =? null then live else (a, cnt) :: live)
  | step_free a cnt s s' live live' :
      live ≡ₚ (a, cnt) :: live' -> palloc_free_multiple a cnt s = Ok (tt, s') ->
      palloc_step (s, live) (s', live')
  | step_write m s live :
      (forall i, is_Some (m !! i) <-> is_Some (pages s !! i)) ->
      palloc_step (s, live) (set_pages m s, live).

(** A block lies in one pool and is memory. *)
Definition block_ok (s : vmem) (b : block) : Prop :=
  exists r pn cnt, b = (4096 * pn, cnt) /\ 0 < cnt /\ pg_no (base (the_pool r s)) <= pn /\
    pn + cnt <= pg_no (base (the_pool r s)) + bit_cnt (used_map (the_pool r s)) /\
    forall i, run pn cnt i -> is_Some (pages s !! i).

(** The invariant: nobody shares a page, and a page that was free at first is now
    either free or in just one block. *)
Record palloc_inv (s0 s : vmem) (live : list block) : Prop := {
  pi_ok : palloc_ok s;
  pi_layout : same_layout s0 s;
  pi_blocks : Forall (block_ok s) live;
  pi_disjoint : NoDup (live ≫= block_pages);
  pi_used r i : i ∈ live ≫= block_pages -> ~ free_page s r i;
  pi_conserved r i : free_page s0 r i <->
    free_page s r i \/ (in_pool (the_pool r s0) i /\ i ∈ live ≫= block_pages)
}.

Lemma elem_of_block_pages pn cnt i : i ∈ block_pages (4096 * pn, cnt) <-> run pn cnt i.
Proof. unfold block_pages. simpl. by rewrite pg_no_page, elem_of_seqZ. Qed.

Lemma block_ok_mono s s' b :
  same_layout s s' -> (forall i, is_Some (pages s !! i) -> is_Some (pages s' !! i)) ->
  block_ok s b -> block_ok s' b.
Proof.
  intros Hl Hm (r & pn & cnt & -> & Hn & Hlo & Hhi & Hram). exists r, pn, cnt.
  rewrite (sl_base _ _ Hl), (sl_size _ _ Hl). auto 10.
Qed.

(** A page determines its pool. *)
Lemma block_in_pool s r pn cnt i :
  pg_no (base (the_pool r s)) <= pn ->
  pn + cnt <= pg_no (base (the_pool r s)) + bit_cnt (used_map (the_pool r s)) ->
  run pn cnt i -> in_pool (the_pool r s) i.
Proof. unfold in_pool. lia. Qed.

Lemma inv_get s0 s live flags pn cnt s' :
  palloc_inv s0 s live -> 0 < cnt ->
  first_run s (pool_of flags) cnt pn -> allocated (pool_of flags) pn cnt s s' ->
  palloc_inv s0 s' ((4096 * pn, cnt) :: live).
Proof.
  intros [Hok Hlay Hb Hd Hu Hc] Hn (Hpos & Hlo & Hhi & _) [Hok' Hrun Hfree Hlay' Hpg Hmap].
  assert (Hram : forall i, is_Some (pages s !! i) -> is_Some (pages s' !! i)) by (intros i; apply Hmap).
  split; [done|by eapply same_layout_trans| | | | ].
  - constructor; [|by eapply Forall_impl; [done|]; intros b; apply block_ok_mono].
    exists (pool_of flags), pn, cnt. rewrite (sl_base _ _ Hlay'), (sl_size _ _ Hlay').
    split_and!; try done. intros i Hi. by apply Hram, (pa_ram _ Hok (pool_of flags)), Hrun.
  - simpl. apply NoDup_app. split; [apply NoDup_seqZ|]. split; [|done].
    intros i Hi. rewrite elem_of_block_pages in Hi. intros Hl. by apply (Hu (pool_of flags) i Hl), Hrun.
  - intros r i. simpl. rewrite elem_of_app, elem_of_block_pages, Hfree.
    intros [Hi|Hi]; [tauto|]. intros [H _]. by apply (Hu r i Hi).
  - intros r i. simpl. rewrite elem_of_app, elem_of_block_pages, Hfree, Hc.
    rewrite <-!(in_pool_same s0 s r i Hlay).
    split; [intros [H|H]; [|tauto]|].
    + destruct (decide (run pn cnt i)); [|tauto]. right. split; [apply H|by left].
    + intros [H|[H [Hi|Hi]]]; [tauto| |tauto]. left.
      by rewrite (pools_apart s (pool_of flags) r i Hok (proj1 (Hrun i Hi)) H); apply Hrun.
Qed.

Lemma inv_free s0 s live r pn cnt s' :
  palloc_inv s0 s ((4096 * pn, cnt) :: live) ->
  (forall i, run pn cnt i -> in_pool (the_pool r s) i) ->
  released r pn cnt s s' -> palloc_inv s0 s' live.
Proof.
  intros [Hok Hlay Hb Hd Hu Hc] Hin [Hok' Hrun Hfree Hlay' Hpg].
  simpl in Hd, Hu, Hc. apply NoDup_app in Hd as (_ & Hapart & Hd).
  assert (Hmono : forall i, is_Some (pages s !! i) -> is_Some (pages s' !! i)).
  { intros i Hi. rewrite (Hpg i). case_decide; eauto. }
  split; [done|by eapply same_layout_trans| |done| |].
  - apply Forall_cons in Hb as [_ Hb]. eapply Forall_impl; [done|]. intros b. by apply block_ok_mono.
  - intros r' i Hi. rewrite Hfree. intros [H|[-> H]].
    + apply (Hu r' i); [|done]. rewrite elem_of_app. by right.
    + apply (Hapart i); [|done]. by rewrite elem_of_block_pages.
  - intros r' i. rewrite Hc, Hfree, elem_of_app, elem_of_block_pages.
    rewrite <-!(in_pool_same s0 s r' i Hlay).
    split; [intros [H|[H [Hi|Hi]]]; [tauto| |tauto]|intros [[H|[-> H]]|H]; [tauto| |tauto]].
    + left. right. split; [|done]. by apply (pools_apart s r r' i Hok); [apply Hin|].
    + right. split; [by apply Hin|by left].
Qed.

(** A block in use can be released. *)
Lemma live_block_frees s0 s live a cnt :
  palloc_inv s0 s live -> (a, cnt) ∈ live ->
  exists r pn s', a = 4096 * pn /\ (forall i, run pn cnt i -> in_pool (the_pool r s) i) /\
    palloc_free_multiple a cnt s = Ok (tt, s') /\ released r pn cnt s s'.
Proof.
  intros [Hok Hlay Hb Hd Hu Hc] Hl.
  destruct (proj1 (Forall_forall _ _) Hb _ Hl) as (r & pn & ? & [= -> <-] & Hn & Hlo & Hhi & Hram).
  destruct (palloc_free_ok s r pn cnt Hok Hn) as (s' & E & Hr); [done..| |].
  - intros i Hi. apply Hu, list_elem_of_bind. exists (4096 * pn, cnt).
    by rewrite elem_of_block_pages.
  - exists r, pn, s'. split_and!; try done. intros i. by apply block_in_pool.
Qed.

Lemma palloc_inv_perm s0 s live live' : live ≡ₚ live' -> palloc_inv s0 s live -> palloc_inv s0 s live'.
Proof. intros Hp [Hok Hlay Hb Hd Hu Hc]. split; try done; intros *; rewrite <-?Hp; auto. Qed.

Lemma palloc_step_inv s0 x y :
  palloc_inv s0 x.1 x.2 -> palloc_step x y -> palloc_inv s0 y.1 y.2.
Proof.
  intros Hinv Hstep. destruct Hstep as [flags cnt s a s' live Hn E|a cnt s s' live live' Hp E|m s live Hm];
    simpl in *.
  - destruct (palloc_get_cases flags cnt s (pi_ok _ _ _ Hinv) Hn) as [(pn & s1 & E1 & Hf & Ha & _)|[_ E1]].
    + rewrite E1 in E. injection E as <- <-. destruct (Z.eqb_spec (4096 * pn) null) as [E|_].
      * destruct Hf as [Hf _]. unfold null in E. lia.
      * by eapply inv_get.
    + rewrite E1 in E. destruct (flag_set _ _); [done|]. by injection E as <- <-.
  - apply (palloc_inv_perm _ _ _ _ Hp) in Hinv.
    destruct (live_block_frees _ _ _ a cnt Hinv) as (r & pn & s1 & -> & Hin & E1 & Hr); [by left|].
    rewrite E1 in E. injection E as <-. by eapply inv_free.
  - destruct Hinv as [[Hw Hap Hram] Hlay Hb Hd Hu Hc].
    assert (Hl : same_layout s (set_pages m s)).
    { split; intros *; rewrite ?the_pool_pages; done. }
    assert (Hf : forall r i, free_page (set_pages m s) r i <-> free_page s r i)
      by (intros r i; unfold free_page; by rewrite the_pool_pages).
    split; [split| | |done| |].
    + intros r. rewrite the_pool_pages. apply Hw.
    + exact Hap.
    + intros r i H. apply Hm, (Hram r), Hf, H.
    + by eapply same_layout_trans.
    + eapply Forall_impl; [done|]. intros b. apply block_ok_mono; [done|]. intros i. apply Hm.
    + intros r i. rewrite Hf. apply Hu.
    + intros r i. rewrite Hf. apply Hc.
Qed.

Lemma palloc_start_inv s0 : palloc_ok s0 -> palloc_inv s0 s0 [].
Proof.
  intros Hok. split; simpl;
    [done|apply same_layout_refl|constructor|constructor|set_solver|set_solver].
Qed.

(** C24: whatever sequence of allocations, releases and writes runs, no page is in
    two of the blocks that clients hold, a page that was free at the start is now
    either free or in one of these blocks, and each of these blocks can be
    released without a panic. *)
Theorem blocks_never_overlap s0 s live
  (Hok : palloc_ok s0) (Hrun : rtc palloc_step (s0, []) (s, live)) :
  NoDup (live ≫= block_pages) /\
  (forall r i, i ∈ live ≫= block_pages -> ~ free_page s r i) /\
  (forall r i, free_page s0 r i <->
     free_page s r i \/ (in_pool (the_pool r s0) i /\ i ∈ live ≫= block_pages)) /\
  (forall a cnt, (a, cnt) ∈ live -> exists s', palloc_free_multiple a cnt s = Ok (tt, s')).
Proof.
  assert (Hinv : palloc_inv s0 s live).
  { revert Hrun. apply (rtc_ind_r (fun y => palloc_inv s0 y.1 y.2)); [by apply palloc_start_inv|].
    intros y z _ Hstep Hy. by eapply palloc_step_inv. }
  split_and!; [by eapply pi_disjoint|by eapply pi_used|by eapply pi_conserved|].
  intros a cnt Hl. destruct (live_block_frees _ _ _ _ _ Hinv Hl) as (r & pn & s' & _ & _ & E & _). eauto.
Qed.

(** palloc_get_multiple gives the lowest run of [page_cnt] free pages of the
    pool that PAL_USER selects, takes just that run out of the free pages, zeroes
    its contents exactly when PAL_ZERO is set and touches no other page. Without
    such a run it changes nothing and returns null, or panics under PAL_ASSERT. *)
Theorem palloc_get_first_fit flags cnt s (Hok : palloc_ok s) (Hn : 0 < cnt) :
  (exists pn s', palloc_get_multiple flags cnt s = Ok (4096 * pn, s') /\
     first_run s (pool_of flags) cnt pn /\
     allocated (pool_of flags) pn cnt s s' /\ contents_ok flags pn cnt s s') \/
  (no_run s (pool_of flags) cnt /\
     palloc_get_multiple flags cnt s = if flag_set flags PAL_ASSERT then Panic else Ok (null, s)).
Proof. by apply palloc_get_cases. Qed.

(** C25: releasing an allocated block makes exactly the pages free that were free
    before the allocation, leaves every other page's contents alone, and releasing
    the block once more panics. *)
Theorem palloc_get_free flags cnt s a s1
  (Hok : palloc_ok s) (Hn : 0 < cnt) (Hget : palloc_get_multiple flags cnt s = Ok (a, s1)) (Ha : a <> null) :
  exists s2, palloc_free_multiple a cnt s1 = Ok (tt, s2) /\ palloc_ok s2 /\
    (forall r i, free_page s2 r i <-> free_page s r i) /\
    (forall i, ~ run (pg_no a) cnt i -> pages s2 !! i = pages s !! i) /\
    palloc_free_multiple a cnt s2 = Panic.
Proof.
  destruct (palloc_get_cases flags cnt s Hok Hn) as [(pn & s' & E & Hf & Hal & _)|[_ E]];
    rewrite E in Hget; [|destruct (flag_set _ _); [done|injection Hget; congruence]].
  injection Hget as <- <-. pose proof (inv_get s s [] flags pn cnt s' (palloc_start_inv s Hok) Hn Hf Hal) as Hinv.
  destruct (live_block_frees _ _ _ (4096 * pn) cnt Hinv) as (r & pn' & s2 & Epn & Hin & Efree & Hr); [by left|].
  assert (pn' = pn) as -> by lia. exists s2. destruct Hal as [Hok1 Hrun Hfree Hlay Hpg Hmap].
  pose proof Hr as [Hok2 Hused Hfree2 Hlay2 Hpg2]. rewrite pg_no_page.
  assert (r = pool_of flags) as ->.
  { apply (pools_apart s (pool_of flags) r pn Hok); [apply Hrun; lia|].
    apply (in_pool_same s s' r pn Hlay), Hin. lia. }
  split_and!; [done..| | |].
  - intros r i. rewrite Hfree2, Hfree. split; [intros [H|[-> H]]; [tauto|by apply Hrun]|].
    intros H. destruct (decide (run pn cnt i)) as [Hi|]; [right|tauto]. split; [|done].
    apply (pools_apart s (pool_of flags) r i Hok); [by apply Hrun|apply H].
  - intros i Hi. rewrite (Hpg2 i), decide_False by done. by apply Hpg.
  - destruct Hf as (Hpos & Hlo & Hhi & _).
    apply (palloc_free_twice s2 (pool_of flags) pn cnt Hok2 Hn) with pn; [| |lia|].
    + rewrite (sl_base _ _ Hlay2), (sl_size _ _ Hlay2), (sl_base _ _ Hlay), (sl_size _ _ Hlay). done.
    + intros i Hi. rewrite (Hpg2 i), decide_True by done. eauto.
    + apply Hfree2. right. split; [done|lia].
Qed.

(** ** A small memory *)

(** [n] pages of zeros from number [lo] on. *)
Definition ram (lo n : Z) : gmap Z (list Z) :=
  list_to_map ((fun i => (i, replicate PAGE_WORDS 0)) <$> seqZ lo n).

Lemma ram_mapped lo n i : run lo n i -> is_Some (ram lo n !! i).
Proof.
  intros Hi. destruct (ram lo n !! i) eqn:E; [eauto|]. apply not_elem_of_list_to_map_2 in E.
  exfalso. apply E. rewrite <-list_fmap_compose. apply list_elem_of_fmap. exists i. split; [done|].
  by apply elem_of_seqZ.
Qed.

(** Twelve pages of memory from page [RAM] on, behind KERN_BASE: eight for the kernel,
    the first two of them in use, and four for users. *)
Definition RAM : Z := 0x8004100.

Definition small_vmem : vmem :=
  VMem (Pool (Bitmap 8 [3]) (4096 * RAM)) (Pool (Bitmap 4 [0]) (4096 * (RAM + 8))) (ram RAM 12) (4096 * RAM) 0 [].

Lemma small_vmem_ok : palloc_ok small_vmem.
Proof.
  assert (forall cnt w, 0 < cnt <= 8 -> 0 <= w < 256 -> bitmap_wf (Bitmap cnt [w])) as Hw.
  { intros cnt w Hc Hw. split_and!; simpl; [lia|lia| |constructor; [unfold is_u64; lia|constructor]].
    rewrite elem_cnt_eq by lia. apply Z.div_unique with (cnt - 1); lia. }
  split.
  - intros []; (split; [apply Hw; lia|vm_compute; reflexivity|split; [reflexivity|vm_compute; discriminate]]).
  - intros i H1 H2. unfold in_pool in *. change (RAM <= i < RAM + 8) in H1. change (RAM + 8 <= i < RAM + 12) in H2. lia.
  - intros r i [Hin _]. apply (ram_mapped RAM 12). unfold in_pool in Hin.
    destruct r; [change (RAM <= i < RAM + 8) in Hin|change (RAM + 8 <= i < RAM + 12) in Hin]; lia.
Qed.

(** Two blocks are allocated and the first of them released. *)
Lemma small_run :
  exists s1 s2 s3, palloc_get_multiple 2 1 small_vmem = Ok (4096 * (RAM + 2), s1) /\
    palloc_get_multiple 0 2 s1 = Ok (4096 * (RAM + 3), s2) /\ palloc_free_multiple (4096 * (RAM + 2)) 1 s2 = Ok (tt, s3).
Proof.
  assert (exists s, (a ← palloc_get_multiple 2 1; b ← palloc_get_multiple 0 2;
                     palloc_free_multiple (4096 * (RAM + 2)) 1;; mret (a, b)) small_vmem
                    = Ok ((4096 * (RAM + 2), 4096 * (RAM + 3)), s)) as [s H]
    by (apply outcome_val_ok; vm_compute; reflexivity).
  split_run H. injection H as -> -> ->. destruct a1. eauto 10.
Qed.

Lemma blocks_never_overlap_witness :
  exists s live, rtc palloc_step (small_vmem, []) (s, live) /\ live = [(4096 * (RAM + 3), 2)] /\
    NoDup (live ≫= block_pages) /\
    (forall a cnt, (a, cnt) ∈ live -> exists s', palloc_free_multiple a cnt s = Ok (tt, s')).
Proof.
  destruct small_run as (s1 & s2 & s3 & E1 & E2 & E3).
  assert (Hrun : rtc palloc_step (small_vmem, []) (s3, [(4096 * (RAM + 3), 2)])).
  { eapply rtc_l; [exact (step_get 2 1 _ _ _ [] ltac:(lia) E1)|].
    eapply rtc_l; [exact (step_get 0 2 _ _ _ _ ltac:(lia) E2)|].
    eapply rtc_l; [|apply rtc_refl]. eapply step_free; [apply Permutation_swap|exact E3]. }
  exists s3, [(4096 * (RAM + 3), 2)]. split; [exact Hrun|]. split; [reflexivity|].
  destruct (blocks_never_overlap small_vmem s3 _ small_vmem_ok Hrun) as (H1 & _ & _ & H4). split; [exact H1|exact H4].
Defined.

Lemma palloc_get_first_fit_witness :
  exists s', palloc_get_multiple 2 3 small_vmem = Ok (4096 * (RAM + 2), s') /\
    allocated KERNEL_POOL (RAM + 2) 3 small_vmem s' /\ pages s' !! (RAM + 4) = Some (replicate PAGE_WORDS 0).
Proof.
  destruct (palloc_get_first_fit 2 3 small_vmem small_vmem_ok ltac:(lia)) as [(pn & s' & E & _ & Ha & Hc)|[_ E]].
  - exists s'. assert (Hpn : outcome_val (palloc_get_multiple 2 3 small_vmem) = Some (4096 * (RAM + 2)))
      by (vm_compute; reflexivity).
    rewrite E in Hpn. assert (pn = RAM + 2) as -> by (injection Hpn; lia).
    split; [exact E|]. split; [exact Ha|]. apply Hc. lia.
  - discriminate E.
Defined.

Lemma palloc_get_free_witness :
  exists s1 s2, palloc_get_multiple 4 4 small_vmem = Ok (4096 * (RAM + 8), s1) /\
    palloc_free_multiple (4096 * (RAM + 8)) 4 s1 = Ok (tt, s2) /\
    (forall r i, free_page s2 r i <-> free_page small_vmem r i) /\ palloc_free_multiple (4096 * (RAM + 8)) 4 s2 = Panic.
Proof.
  assert (exists s1, palloc_get_multiple 4 4 small_vmem = Ok (4096 * (RAM + 8), s1)) as [s1 E]
    by (apply outcome_val_ok; vm_compute; reflexivity).
  destruct (palloc_get_free 4 4 small_vmem _ s1 small_vmem_ok ltac:(lia) E ltac:(discriminate))
    as (s2 & E2 & _ & Hf & _ & E3).
  exists s1, s2. split; [exact E|]. split; [exact E2|]. split; [exact Hf|exact E3].
Defined.
