(* ===== verification/PallocInit.v ===== *)
(** * palloc_init: which pages end up free

    The memory map is walked three times; the theorem says what can be allocated in
    the end: pages of usable regions that hold neither the kernel nor the bitmaps. *)

From S2P Require Import Prelude Bitmap VMem Palloc PallocFacts.

Section Init.
Variable kernel_end user_page_limit : Z.
Variable boot_word : Z -> Z.
Hypothesis Hboot : forall a, is_u64 (boot_word a).

(** ** The map *)

(** The usable regions are in ascending order, start at page boundaries and lie in
    the first 2^42 bytes. [lo] bounds them below. *)
Fixpoint map_ok (lo : Z) (es : list e820_entry) : Prop :=
  match es with
  | [] => True
  | e :: es =>
      if entry_usable e
      then lo <= entry_start e /\ entry_start e mod 4096 = 0 /\ 0 <= entry_len e /\
           entry_start e + entry_len e < 2 ^ 42 /\ map_ok (entry_start e + entry_len e) es
      else map_ok lo es
  end.

(** Page [i] lies in a usable region. *)
Definition usable_page (es : list e820_entry) (i : Z) : Prop :=
  exists e, e ∈ es /\ entry_usable e = true /\
    entry_start e + KERN_BASE <= 4096 * i /\ 4096 * (i + 1) <= entry_start e + entry_len e + KERN_BASE.

Lemma map_ok_le lo lo' es : lo <= lo' -> map_ok lo' es -> map_ok lo es.
Proof. revert lo lo'. induction es as [|e es IH]; simpl; [done|]. intros lo lo' Hle. case_match; [intuition lia|by eapply IH]. Qed.

(** ** init_pool *)

(** The room that a bitmap of [cnt] bits takes, in whole pages. *)
Definition map_room (cnt : Z) : Z := (16 + 8 * ((cnt + 63) / 64) + 4095) / 4096 * 4096.

Lemma map_room_bounds cnt : 0 <= cnt < 2 ^ 52 -> 0 < map_room cnt < 2 ^ 52 /\ map_room cnt mod 4096 = 0.
Proof.
  intros H. unfold map_room. rewrite Z.mod_mul by done. split; [|done].
  assert (0 <= (cnt + 63) / 64 <= 2 ^ 47) by (split; [apply Z.div_pos; lia|apply Z.div_le_upper_bound; lia]).
  pose proof (Z.div_mod (16 + 8 * ((cnt + 63) / 64) + 4095) 4096 ltac:(lia)).
  pose proof (Z.mod_pos_bound (16 + 8 * ((cnt + 63) / 64) + 4095) 4096 ltac:(lia)). lia.
Qed.

Lemma buf_pages_eq cnt : 0 <= cnt < 2 ^ 52 -> u64 (DIV_ROUND_UP (bitmap_buf_size cnt) PGSIZE * PGSIZE) = map_room cnt.
Proof.
  intros H. pose proof (map_room_bounds cnt H) as [Hb _].
  assert (0 <= (cnt + 63) / 64 <= 2 ^ 47) by (split; [apply Z.div_pos; lia|apply Z.div_le_upper_bound; lia]).
  unfold bitmap_buf_size, byte_cnt. rewrite elem_cnt_eq by lia. unfold DIV_ROUND_UP. rewrite PGSIZE_eq.
  rewrite (u64_small (8 * _)), (u64_small (16 + _)), (u64_small (16 + _ + _ - _)) by (unfold is_u64; lia).
  replace (16 + 8 * ((cnt + 63) / 64) + 4096 - 1) with (16 + 8 * ((cnt + 63) / 64) + 4095) by lia.
  apply (u64_small (map_room cnt)). unfold is_u64. lia.
Qed.

(** A pool just made: a range of whole pages, none of them free. *)
Record new_pool (start end_ : Z) (p : pool) : Prop := {
  np_wf : bitmap_wf (used_map p);
  np_base : base p = start;
  np_cnt : bit_cnt (used_map p) = (end_ - start) / 4096;
  np_used i : 0 <= i < bit_cnt (used_map p) -> bit (used_map p) i = true
}.

Lemma pages_between start end_ : 0 <= start <= end_ -> end_ < 2 ^ 43 -> 0 <= (end_ - start) / 4096 < 2 ^ 31.
Proof. intros H1 H2. split; [apply Z.div_pos; lia|apply Z.div_lt_upper_bound; lia]. Qed.

Lemma wpp_init_pool r bm start end_ s (Q : Z -> vmem -> Prop) :
  0 <= start <= end_ -> end_ < 2 ^ 43 -> 0 <= bm < 2 ^ 63 ->
  (forall p, new_pool start end_ p -> Q (bm + map_room ((end_ - start) / 4096)) (set_pool r p s)) ->
  wpp (init_pool boot_word r bm start end_) Q s.
Proof.
  intros Hse He Hbm HQ. pose proof (pages_between start end_ Hse He) as Hc.
  pose proof (map_room_bounds ((end_ - start) / 4096) ltac:(lia)) as [Hroom _].
  unfold init_pool. rewrite (u64_small (end_ - start)) by (unfold is_u64; lia).
  change ((end_ - start) / PGSIZE) with ((end_ - start) / 4096).
  set (cnt := (end_ - start) / 4096) in *. rewrite (buf_pages_eq cnt) by lia.
  rewrite (u64_small (bm + _)) by (unfold is_u64; lia).
  set (g := _ <$> seqZ 0 (elem_cnt cnt)).
  assert (Hg : bitmap_wf (Bitmap cnt g)).
  { split_and!; simpl; [lia|lia| |].
    - unfold g. rewrite length_fmap, length_seqZ, elem_cnt_eq by lia.
      apply Z2Nat.id, Z.div_pos; lia.
    - apply Forall_fmap, Forall_true. intros i. apply Hboot. }
  destruct (bitmap_set_multiple_ok (Bitmap cnt g) 0 cnt false Hg) as (b0 & E0 & Hc0 & Hw0 & _); simpl; [lia..|].
  destruct (bitmap_set_multiple_ok b0 0 cnt true Hw0) as (b1 & E1 & Hc1 & Hw1 & Hb1);
    simpl in *; [lia..|].
  apply wpp_bind, wpp_lift. unfold bitmap_create_in_buf, ASSERT. destruct (_ >=? _); [|done].
  cbn [mbind outcome_mbind outcome_bind]. unfold bitmap_set_all, bitmap_size. cbn [bit_cnt]. rewrite E0.
  apply wpp_bind, wpp_lift. rewrite Hc0. cbn [bit_cnt]. rewrite E1. apply HQ.
  split; simpl; [done|done|by rewrite Hc1, Hc0|]. intros i Hi. rewrite Hb1 by lia.
  by rewrite (proj2 (Z.leb_le _ _)), (proj2 (Z.ltb_lt _ _)) by lia.
Qed.

(** ** free_region *)

(** A pool that init_pool made, or the empty one before it. *)
Record range_ok (p : pool) : Prop := {
  ra_wf : bitmap_wf (used_map p);
  ra_base : base p = 4096 * pg_no (base p);
  ra_range : 0 <= pg_no (base p) /\ pg_no (base p) + bit_cnt (used_map p) < 2 ^ 52
}.

Definition pool_end (s : vmem) (r : pool_ref) : Z :=
  pg_no (base (the_pool r s)) + bit_cnt (used_map (the_pool r s)).

(** The pools that end after page [k]: each pass of the loop leaves one behind. *)
Definition pools_ahead (s : vmem) (k : Z) : nat :=
  (if decide (k < pool_end s KERNEL_POOL) then 1 else 0) + (if decide (k < pool_end s USER_POOL) then 1 else 0).

Lemma pools_ahead_less s r k k' : k < pool_end s r -> k' = pool_end s r -> (pools_ahead s k' < pools_ahead s k)%nat.
Proof. intros Hk ->. unfold pools_ahead. destruct r; repeat case_decide; lia. Qed.

Lemma pools_ahead_same s s' k : same_layout s s' -> pools_ahead s' k = pools_ahead s k.
Proof. intros H. unfold pools_ahead, pool_end. by rewrite !(sl_base _ _ H), !(sl_size _ _ H). Qed.

Lemma wpp_find_pool s k (Q : pool_ref -> vmem -> Prop) :
  (forall r, range_ok (the_pool r s)) -> (forall r, in_pool (the_pool r s) k -> Q r s) ->
  wpp (if page_from_pool (kernel_pool s) (4096 * k) then mret KERNEL_POOL
       else if page_from_pool (user_pool s) (4096 * k) then mret USER_POOL else panicM) Q s.
Proof.
  intros Hr HQ. pose proof (Hr KERNEL_POOL) as [[Hk _] _ Hk']. pose proof (Hr USER_POOL) as [[Hu _] _ Hu'].
  simpl in *. rewrite !page_from_range by lia.
  destruct (bool_decide _) eqn:E; [apply wpp_ret, HQ; by apply bool_decide_eq_true in E|].
  clear E. destruct (bool_decide _) eqn:E; [|apply wpp_panic].
  apply wpp_ret, HQ. by apply bool_decide_eq_true in E.
Qed.

(** [s'] frees, of what was not free, only pages that satisfy [P]. *)
Record frees (P : Z -> Prop) (s s' : vmem) : Prop := {
  fr_layout : same_layout s s';
  fr_ranges r : range_ok (the_pool r s');
  fr_pages : pages s' = pages s;
  fr_free r i : free_page s' r i -> free_page s r i \/ P i
}.

Lemma frees_trans (P P1 P2 : Z -> Prop) s1 s2 s3 :
  (forall i, P1 i -> P i) -> (forall i, P2 i -> P i) -> frees P1 s1 s2 -> frees P2 s2 s3 -> frees P s1 s3.
Proof.
  intros H1 H2 [La Ra Ga Fa] [Lb Rb Gb Fb]. split; [by eapply same_layout_trans|done|congruence|].
  intros r i Hi. apply Fb in Hi as [Hi|Hi]; [|auto]. apply Fa in Hi as [Hi|Hi]; auto.
Qed.

(** Freeing one run. *)
Lemma wpp_free_run s r k cnt (Q : unit -> vmem -> Prop) :
  (forall r, range_ok (the_pool r s)) ->
  pg_no (base (the_pool r s)) <= k -> 0 <= cnt -> k + cnt <= pool_end s r ->
  (forall s', frees (fun i => run k cnt i) s s' -> Q tt s') ->
  wpp (b ← lift (bitmap_set_multiple (used_map (the_pool r s)) (k - pg_no (base (the_pool r s))) cnt false);
       modify (set_used_map r b)) Q s.
Proof.
  intros Hr Hlo Hn Hhi HQ. destruct (Hr r) as [Hw Hba Hra]. unfold pool_end in Hhi.
  destruct (bitmap_set_multiple_ok (used_map (the_pool r s)) (k - pg_no (base (the_pool r s))) cnt false)
    as (b & E & Hb); [done|lia..|].
  apply wpp_bind, wpp_lift. rewrite E. apply wpp_modify, HQ.
  pose proof (change_layout s r k cnt false b (pages s) ltac:(lia) Hb) as Hl.
  pose proof (change_free s r k cnt false b (pages s)) as Hf.
  assert (Es : set_used_map r b s = set_pages (pages s) (set_used_map r b s)).
  { rewrite <-(set_pages_same (set_used_map r b s)) at 1. unfold set_used_map at 1. by rewrite pages_set_pool. }
  rewrite Es. split; [done| |done|].
  - intros r'. rewrite the_pool_pages. unfold set_used_map. rewrite the_pool_set.
    case_decide as Hd; [subst r'|apply Hr]. destruct Hb as (Hc & Hwb & _). split; simpl; [done..|]. by rewrite Hc.
  - intros r' i Hi. apply Hf in Hi; [|lia|done]. case_decide as Hd; [right; apply Hd|by left].
Qed.

Lemma free_region_ok fuel k end_ s (Q : unit -> vmem -> Prop) :
  (forall r, range_ok (the_pool r s)) -> 0 <= k -> 4096 * k <= end_ < 2 ^ 63 -> (pools_ahead s k < fuel)%nat ->
  (forall s', frees (fun i => k <= i /\ 4096 * (i + 1) <= end_) s s' -> Q tt s') ->
  wpp (free_region fuel (4096 * k) end_) Q s.
Proof.
  revert k s. induction fuel as [|fuel IH]; intros k s Hr Hk He Hfuel HQ; [lia|]. cbn [free_region].
  do 2 apply wpp_bind, wpp_gets. cbn [the_pool]. apply wpp_bind, wpp_find_pool; [done|]. intros r Hin.
  apply wpp_bind, wpp_gets. destruct (Hr r) as [Hw Hba Hra]. pose proof Hw as [Hc _].
  unfold in_pool in Hin. rewrite pg_no_page, PGSIZE_eq. unfold bitmap_size.
  rewrite (u64_small (bit_cnt _ * _)) by (unfold is_u64; lia).
  assert (Ee : u64 (base (the_pool r s) + bit_cnt (used_map (the_pool r s)) * 4096) = 4096 * pool_end s r).
  { rewrite u64_small by (unfold is_u64; lia). unfold pool_end. lia. }
  rewrite Ee, (u64_small (k - _)) by (unfold is_u64; lia). destruct (Z.ltb_spec (4096 * pool_end s r) end_).
  - rewrite (u64_small (_ - _)) by (unfold is_u64, pool_end; lia).
    replace ((4096 * pool_end s r - 4096 * k) / 4096) with (pool_end s r - k)
      by (apply Z.div_unique_exact; lia).
    apply wpp_assoc, wpp_bind, wpp_free_run; [done|lia|unfold pool_end; lia|lia|].
    intros s1 Hs1. pose proof (fr_layout _ _ _ Hs1) as Hl.
    apply IH; [apply Hs1|unfold pool_end; lia|lia| |].
    + rewrite (pools_ahead_same s s1) by done.
      pose proof (pools_ahead_less s r k (pool_end s r) ltac:(unfold pool_end; lia) eq_refl). lia.
    + intros s2 Hs2. apply HQ. eapply frees_trans; [..|done|done]; simpl; unfold pool_end in *; lia.
  - rewrite (u64_small (_ - _)) by (unfold is_u64; lia).
    pose proof (Z.div_mod (end_ - 4096 * k) 4096 ltac:(lia)).
    pose proof (Z.mod_pos_bound (end_ - 4096 * k) 4096 ltac:(lia)).
    apply wpp_free_run; [done|lia|apply Z.div_pos; lia|unfold pool_end in *; lia|].
    intros s1 [La Ra Ga Fa]. apply HQ. split; [done..|]. intros r' i Hi.
    apply Fa in Hi as [Hi|Hi]; [by left|right]. lia.
Qed.

(** ** free_loop *)

Lemma pg_round_up_page k : 0 <= k -> 4096 * k < 2 ^ 63 -> pg_round_up (4096 * k) = 4096 * k.
Proof.
  intros Hk H. rewrite pg_round_up_eq by lia.
  rewrite <-(Z.div_unique (4096 * k + 4095) 4096 k 4095); lia.
Qed.

(** The addresses of a usable region. *)
Lemma entry_bounds lo e es :
  0 <= lo -> map_ok lo (e :: es) -> entry_usable e = true ->
  exists k, 0 <= k /\ lo + KERN_BASE <= 4096 * k /\ ptov (entry_start e) = 4096 * k /\
    entry_start e + KERN_BASE = 4096 * k /\ 0 <= entry_len e /\
    u64 (4096 * k + entry_len e) = 4096 * k + entry_len e /\ 4096 * k + entry_len e < 2 ^ 42 + KERN_BASE /\
    map_ok (entry_start e + entry_len e) es.
Proof.
  intros Hlo Hm Hu. simpl in Hm. rewrite Hu in Hm. destruct Hm as (H1 & H2 & H3 & H4 & H5).
  pose proof (Z.div_mod (entry_start e) 4096 ltac:(lia)). exists (entry_start e / 4096 + KERN_BASE / 4096).
  change (KERN_BASE / 4096) with 0x8004000. rewrite ptov_eq by lia. unfold KERN_BASE.
  rewrite u64_small by (unfold is_u64; lia). split_and!; (done || lia).
Qed.

Lemma frees_refl P s : (forall r, range_ok (the_pool r s)) -> frees P s s.
Proof. intros H. split; [apply same_layout_refl|done|done|by left]. Qed.

Lemma free_entry_ok u lo e es s (Q : unit -> vmem -> Prop) :
  (forall r, range_ok (the_pool r s)) -> 0 <= u -> 4096 * u < 2 ^ 63 -> 0 <= lo -> map_ok lo (e :: es) ->
  (forall s', frees (fun i => usable_page [e] i /\ u <= i) s s' -> Q tt s') ->
  wpp (free_entry (4096 * u) e) Q s.
Proof.
  intros Hr Hu Hu' Hlo Hm HQ. unfold free_entry. destruct (entry_usable e) eqn:Eu; [|by apply wpp_ret, HQ, frees_refl].
  destruct (entry_bounds lo e es Hlo Hm Eu) as (k & Hk & Hlok & -> & Ek & Hn & -> & Hend & _).
  destruct (Z.ltb_spec (4096 * k + entry_len e) (4096 * u)); [by apply wpp_ret, HQ, frees_refl|].
  replace (if 4096 * k >=? 4096 * u then 4096 * k else 4096 * u) with (4096 * Z.max k u)
    by (destruct (Z.geb_spec (4096 * k) (4096 * u)); lia).
  unfold KERN_BASE in *. rewrite pg_round_up_page by lia. apply free_region_ok; [done|lia|lia| |].
  - unfold SPLIT_FUEL, pools_ahead. repeat case_decide; lia.
  - intros s' Hs'. apply HQ. destruct Hs' as [La Ra Ga Fa]. split; [done..|]. intros r i Hi.
    apply Fa in Hi as [Hi|Hi]; [by left|right]. split; [|lia]. exists e.
    split; [by left|]. split; [done|]. unfold KERN_BASE. lia.
Qed.

Lemma free_loop_ok u es lo s (Q : unit -> vmem -> Prop) :
  (forall r, range_ok (the_pool r s)) -> 0 <= u -> 4096 * u < 2 ^ 63 -> 0 <= lo -> map_ok lo es ->
  (forall s', frees (fun i => usable_page es i /\ u <= i) s s' -> Q tt s') ->
  wpp (free_loop (4096 * u) es) Q s.
Proof.
  revert lo s. induction es as [|e es IH]; intros lo s Hr Hu Hu' Hlo Hm HQ; cbn [free_loop].
  { by apply wpp_ret, HQ, frees_refl. }
  apply wpp_bind, (free_entry_ok u lo e es); [done..|]. intros s1 Hs1.
  assert (Hm' : map_ok lo es).
  { simpl in Hm. case_match; [|done]. eapply map_ok_le; [|apply Hm]. lia. }
  apply (IH lo); [apply Hs1|done..|]. intros s2 Hs2. apply HQ.
  eapply frees_trans; [| |exact Hs1|exact Hs2]; simpl; intros i [(e' & He' & H) Hi]; (split; [|done]); exists e'.
  - apply list_elem_of_singleton in He' as ->. split; [by left|done].
  - split; [by right|done].
Qed.

(** ** populate_loop *)

Definition empty_pool : pool := Pool (Bitmap 0 []) 0.

(** The room for the bitmap of a pool that has been made. *)
Definition pool_room (p : pool) : Z := if bit_cnt (used_map p) =? 0 then 0 else map_room (bit_cnt (used_map p)).

Definition kernel_made (v : pvars) : bool :=
  match v_state v with KERN_START | KERN => false | USER_START | USER => true end.

(** The state between two entries of the map; [fs] is where the bitmaps start, [lo]
    the end of the last usable region. *)
Record pop_inv (fs lo : Z) (v : pvars) (s0 s : vmem) : Prop := {
  pp_region : exists k, v_region_start v = 4096 * k /\ 0 <= k;
  pp_end : v_region_start v <= v_end v <= lo + KERN_BASE;
  pp_rem : 0 <= v_rem v;
  pp_free : fs + pool_room (kernel_pool s) <= v_free_start v < fs + 2 ^ 53 /\ v_free_start v mod 4096 = 0;
  pp_first : kernel_made v = false -> kernel_pool s = empty_pool /\ v_free_start v = fs;
  pp_user : user_pool s = empty_pool;
  pp_ranges r : range_ok (the_pool r s);
  pp_pages : pages s = pages s0;
  pp_none r i : ~ free_page s r i
}.

Lemma new_pool_range start end_ p k :
  start = 4096 * k -> 0 <= start <= end_ -> end_ < 2 ^ 43 -> new_pool start end_ p -> range_ok p.
Proof.
  intros -> Hse He [Hw Hb Hc Hu]. pose proof (pages_between _ _ Hse He).
  split; [done| |]; rewrite Hb, pg_no_page; [done|]. rewrite Hc. split; [lia|].
  assert ((end_ - 4096 * k) / 4096 <= (2 ^ 43 - 4096 * k) / 4096) by (apply Z.div_le_mono; lia).
  replace (2 ^ 43 - 4096 * k) with ((2 ^ 31 - k) * 4096) in * by lia.
  rewrite Z.div_mul in * by done. lia.
Qed.

Lemma new_pool_none start end_ p s r i :
  new_pool start end_ p -> the_pool r s = p -> ~ free_page s r i.
Proof.
  intros [Hw Hb Hc Hu] <- [Hin H]. unfold in_pool in Hin. rewrite Hu in H; [done|lia].
Qed.

Lemma room_bounds start end_ p :
  0 <= start <= end_ -> end_ < 2 ^ 43 -> new_pool start end_ p ->
  0 <= pool_room p <= map_room ((end_ - start) / 4096) /\
  0 < map_room ((end_ - start) / 4096) < 2 ^ 52 /\ map_room ((end_ - start) / 4096) mod 4096 = 0.
Proof.
  intros Hse He [_ _ Hc _]. pose proof (pages_between _ _ Hse He).
  pose proof (map_room_bounds ((end_ - start) / 4096) ltac:(lia)) as [Hr Hm].
  split; [|done]. unfold pool_room. rewrite Hc. destruct (_ =? 0); lia.
Qed.

(** The state after the kernel pool was made. *)
Lemma pop_kernel_made fs lo v s0 s p st region end_ rem start :
  pop_inv fs lo v s0 s -> kernel_made v = false -> new_pool start end_ p ->
  (exists k, start = 4096 * k) -> 0 <= start <= end_ -> end_ < 2 ^ 43 ->
  (exists k, region = 4096 * k /\ 0 <= k) -> 0 <= rem -> kernel_made (PVars st 0 0 0 0) = true ->
  forall e' lo', region <= e' <= lo' + KERN_BASE ->
  pop_inv fs lo' (PVars st rem region e' (fs + map_room ((end_ - start) / 4096))) s0 (set_pool KERNEL_POOL p s).
Proof.
  intros [Hreg Hend Hrem Hfr Hfirst Huser Hra Hpg Hnone] Hnot Hp [k Hk] Hse He Hreg' Hrem' Hst e' lo' He'.
  destruct (Hfirst Hnot) as [Hempty Hfs]. destruct (room_bounds _ _ _ Hse He Hp) as (H1 & H2 & H3).
  rewrite Hfs in Hfr. split; simpl; try done.
  - split; [lia|]. rewrite Z.add_mod, H3, (proj2 Hfr) by done. done.
  - change (kernel_made (PVars st 0 0 0 0) = false -> kernel_pool (set_pool KERNEL_POOL p s) = empty_pool /\
      fs + map_room ((end_ - start) / 4096) = fs). by rewrite Hst.
  - intros []; [by eapply new_pool_range|apply (Hra USER_POOL)].
  - intros [] i; [by eapply new_pool_none|apply (Hnone USER_POOL)].
Qed.

(** Only the variables change. *)
Lemma pop_same fs lo v s0 s v' lo' :
  pop_inv fs lo v s0 s -> v_free_start v' = v_free_start v ->
  (kernel_made v' = false -> kernel_made v = false) ->
  (exists k, v_region_start v' = 4096 * k /\ 0 <= k) -> v_region_start v' <= v_end v' <= lo' + KERN_BASE ->
  0 <= v_rem v' -> pop_inv fs lo' v' s0 s.
Proof.
  intros [Hreg Hend Hrem Hfr Hfirst Huser Hra Hpg Hnone] Ef Hm Hr He Hn.
  split; try done; rewrite Ef; auto.
Qed.

Lemma populate_step_ok fs lo up v e es s0 s :
  0 <= fs < 2 ^ 62 -> 0 <= lo -> 0 <= up -> pop_inv fs lo v s0 s -> map_ok lo (e :: es) -> entry_usable e = true ->
  wpp (populate_step boot_word up v e)
    (fun v' s' => pop_inv fs (entry_start e + entry_len e) v' s0 s') s.
Proof.
  intros Hfs Hlo Hup Hinv Hm Eu. unfold populate_step. rewrite Eu.
  destruct (entry_bounds lo e es Hlo Hm Eu) as (k & Hk & Hlok & -> & Ek & Hn & -> & Hend & _).
  pose proof Hinv as [(k0 & Hreg & Hk0) Hle Hrem Hfr Hfirst Huser Hra Hpg Hnone].
  rewrite PGSIZE_eq. pose proof (Z.div_mod (entry_len e) 4096 ltac:(lia)) as Hdm.
  pose proof (Z.mod_pos_bound (entry_len e) 4096 ltac:(lia)) as Hmod. unfold KERN_BASE in *.
  assert (Hu : forall z, 0 <= u64 z) by (intros z; apply u64_range).
  assert (Hkern : forall region, kernel_made v = false -> (exists k, region = 4096 * k /\ 0 <= k) -> region <= 4096 * k ->
    wpp (if v_rem v >? entry_len e / 4096
         then mret (PVars KERN (u64 (v_rem v - entry_len e / 4096)) region (4096 * k + entry_len e) (v_free_start v))
         else free_start ← init_pool boot_word KERNEL_POOL (v_free_start v) region (u64 (4096 * k + v_rem v * 4096));
              if v_rem v =? entry_len e / 4096
              then mret (PVars USER_START up region (4096 * k + entry_len e) free_start)
              else mret (PVars USER (u64 (up - entry_len e / 4096 + v_rem v)) (u64 (4096 * k + v_rem v * 4096))
                          (4096 * k + entry_len e) free_start))
      (fun v' s' => pop_inv fs (entry_start e + entry_len e) v' s0 s') s).
  { intros region Hnot (kr & -> & Hkr) Hregion. destruct (Z.gtb_spec (v_rem v) (entry_len e / 4096)).
    - apply wpp_ret. apply (pop_same fs lo v); [exact Hinv|done|(done || by rewrite Es)|by exists kr|simpl; unfold KERN_BASE; lia|apply Hu].
    - rewrite (u64_small (4096 * k + _)) by (unfold is_u64; lia).
      destruct (Hfirst Hnot) as [_ Ef]. rewrite Ef.
      apply wpp_bind, wpp_init_pool; [lia|lia|lia|]. intros p Hp. destruct (_ =? _).
      + apply wpp_ret, (pop_kernel_made fs lo v s0 s p); [exact Hinv|exact Hnot|exact Hp|by exists kr|lia|lia|
          by exists kr|lia|reflexivity|unfold KERN_BASE; lia].
      + apply wpp_ret, (pop_kernel_made fs lo v s0 s p); [exact Hinv|exact Hnot|exact Hp|by exists kr|lia|lia|
          exists (k + v_rem v); lia|apply Hu|reflexivity|unfold KERN_BASE; lia]. }
  destruct (v_state v) eqn:Es.
  - apply Hkern; [unfold kernel_made; by rewrite Es|eauto|lia].
  - apply Hkern; [unfold kernel_made; by rewrite Es|eauto|lia].
  - apply wpp_ret, (pop_same fs lo v); cbn [v_state v_rem v_region_start v_end v_free_start];
    [exact Hinv|reflexivity|discriminate|by exists k|unfold KERN_BASE; lia|exact Hrem].
  - destruct (v_rem v >? _).
    + apply wpp_ret, (pop_same fs lo v); cbn [v_state v_rem v_region_start v_end v_free_start];
      [exact Hinv|reflexivity|discriminate|exists k0; split; [exact Hreg|exact Hk0]|unfold KERN_BASE; lia|apply Hu].
    + apply wpp_bind, wpp_assert. intros _. cbn beta.
      apply wpp_ret, (pop_same fs lo v); cbn [v_state v_rem v_region_start v_end v_free_start];
      [exact Hinv|reflexivity|discriminate|exists k0; split; [exact Hreg|exact Hk0]|unfold KERN_BASE; lia|exact Hrem].
Qed.

Lemma populate_loop_ok fs up es lo v s0 s (Q : pvars -> vmem -> Prop) :
  0 <= fs < 2 ^ 62 -> 0 <= lo < 2 ^ 42 -> 0 <= up -> pop_inv fs lo v s0 s -> map_ok lo es ->
  (forall v' lo' s', lo' < 2 ^ 42 -> pop_inv fs lo' v' s0 s' -> Q v' s') ->
  wpp (populate_loop boot_word up v es) Q s.
Proof.
  intros Hfs. revert lo v s. induction es as [|e es IH]; intros lo v s Hlo Hup Hinv Hm HQ; cbn [populate_loop].
  { apply wpp_ret, (HQ v lo); [lia|done]. }
  apply wpp_bind. destruct (entry_usable e) eqn:Eu.
  - eapply wpp_mono; [apply (populate_step_ok fs lo up v e es s0 s Hfs); (lia || done)|].
    intros v' s' Hinv'.
    simpl in Hm. rewrite Eu in Hm. eapply IH; [|done|exact Hinv'|apply Hm|done].
    destruct Hm as (? & ? & ? & ? & _). lia.
  - unfold populate_step. rewrite Eu. apply wpp_ret. simpl in Hm. rewrite Eu in Hm. by eapply IH.
Qed.

(** ** The theorem *)

(** Where the bitmaps end: behind the kernel, the two of them. *)
Definition bitmaps_end (s : vmem) : Z :=
  pg_round_up kernel_end + pool_room (kernel_pool s) + pool_room (user_pool s).

(** The pools as C's static variables start. *)
Definition pools_empty (s : vmem) : Prop := kernel_pool s = empty_pool /\ user_pool s = empty_pool.

Lemma empty_range : range_ok empty_pool.
Proof. split; [split_and!; simpl; [lia|lia|done|constructor]|done|done]. Qed.

Lemma start_inv fs rem s0 :
  pools_empty s0 -> 0 <= rem -> fs mod 4096 = 0 -> pop_inv fs 0 (PVars KERN_START rem 0 0 fs) s0 s0.
Proof.
  intros [Hk Hu] Hr Hfs.
  assert (forall r, the_pool r s0 = empty_pool) as Hall by (intros []; done).
  assert (pool_room empty_pool = 0) as Hroom by done.
  split; try done.
  - by exists 0.
  - simpl. rewrite Hk, Hroom. split; [lia|done].
  - intros r. rewrite Hall. apply empty_range.
  - intros r i [Hin _]. rewrite Hall in Hin. unfold in_pool in Hin. change (bit_cnt _) with 0 in Hin. lia.
Qed.

Lemma pool_room_nonneg p : range_ok p -> 0 <= pool_room p.
Proof.
  intros [[Hc _] _ Hr]. unfold pool_room. destruct (_ =? 0); [lia|].
  apply Z.lt_le_incl, map_room_bounds. lia.
Qed.

(** What populate_pools leaves after its second loop. *)
Lemma populate_ok es up rem s0 (Q : unit -> vmem -> Prop) :
  map_ok 0 es -> 0 <= kernel_end < 2 ^ 61 -> 0 <= up -> 0 <= rem -> pools_empty s0 ->
  (forall s', pages s' = pages s0 -> (forall r, range_ok (the_pool r s')) ->
     (forall r i, free_page s' r i -> usable_page es i /\ bitmaps_end s' <= 4096 * i) -> Q tt s') ->
  wpp (v ← populate_loop boot_word up (PVars KERN_START rem 0 0 (pg_round_up kernel_end)) es;
       free_start ← init_pool boot_word USER_POOL (v_free_start v) (v_region_start v) (v_end v);
       free_loop free_start es) Q s0.
Proof.
  intros Hm Hk Hup Hrem Hempty HQ.
  assert (Hfs : 0 <= pg_round_up kernel_end < 2 ^ 62 /\ pg_round_up kernel_end mod 4096 = 0).
  { rewrite pg_round_up_eq by lia. pose proof (Z.div_mod (kernel_end + 4095) 4096 ltac:(lia)).
    pose proof (Z.mod_pos_bound (kernel_end + 4095) 4096 ltac:(lia)). rewrite Z.mod_mul by done. lia. }
  set (fs := pg_round_up kernel_end) in *. destruct Hfs as [Hfs Hfs0].
  apply wpp_bind, (populate_loop_ok fs up es 0 _ s0); [lia|lia|done|by apply start_inv|done|].
  intros v lo s Hlo Hinv. pose proof Hinv as [(k & Hreg & Hk0) Hle _ [Hfr Hfr0] _ Huser Hra Hpg Hnone].
  pose proof (pool_room_nonneg _ (Hra KERNEL_POOL)) as Hroom. simpl in Hroom.
  unfold KERN_BASE in *. apply wpp_bind, wpp_init_pool; [lia|lia|lia|]. intros p Hp.
  assert (Hse : 0 <= v_region_start v <= v_end v) by lia.
  destruct (room_bounds _ _ _ Hse ltac:(lia) Hp) as (Hr1 & Hr2 & Hr3).
  set (room := map_room _) in *.
  assert (exists u, v_free_start v + room = 4096 * u /\ 0 <= u) as (u & Eu & Hu).
  { exists ((v_free_start v + room) / 4096). pose proof (Z.div_mod (v_free_start v + room) 4096 ltac:(lia)).
    rewrite Z.add_mod, Hr3, Hfr0 in H by done. change ((0 + 0) mod 4096) with 0 in H.
    split; [lia|apply Z.div_pos; lia]. }
  rewrite Eu. apply (free_loop_ok u es 0); [|done|lia|lia|done|].
  - intros []; [apply (Hra KERNEL_POOL)|eapply new_pool_range; [exact Hreg|exact Hse|lia|exact Hp]].
  - intros s' [La Ra Ga Fa]. apply HQ; [by rewrite Ga|done|]. intros r i Hi. apply Fa in Hi as [Hi|[Hus Hi]].
    + destruct r; [by apply (Hnone KERNEL_POOL) in Hi|by apply (new_pool_none _ _ _ _ _ _ Hp) in Hi].
    + split; [done|]. unfold bitmaps_end, pool_room.
      rewrite (sl_size _ _ La KERNEL_POOL : bit_cnt (used_map (kernel_pool s')) = _).
      rewrite (sl_size _ _ La USER_POOL : bit_cnt (used_map (user_pool s')) = _). simpl.
      fold (pool_room (kernel_pool s)). fold (pool_room p). fold fs. lia.
Qed.
End Init.

(** C26: palloc_init, on a memory map with ascending, page-aligned usable regions,
    either panics or returns; then every page that can be allocated lies inside a
    usable region and beyond the kernel's image and both bitmaps, and both pools
    are ranges of whole pages of the address space. *)
Theorem palloc_init_frees_usable entries kernel_end user_page_limit boot_word s
  (Hboot : forall a, is_u64 (boot_word a)) (Hmap : map_ok 0 entries)
  (Hend : 0 <= kernel_end < 2 ^ 61) (Hlimit : 0 <= user_page_limit) (Hempty : pools_empty s) :
  wpp (palloc_init entries kernel_end user_page_limit boot_word)
    (fun _ s' => (forall r, range_ok (the_pool r s')) /\
       forall r i, free_page s' r i -> usable_page entries i /\ bitmaps_end kernel_end s' <= 4096 * i) s.
Proof.
  unfold palloc_init, populate_pools. destruct (resolve_area_info _ _ _) as [base_mem ext_mem].
  apply wpp_bind. apply (populate_ok kernel_end boot_word Hboot); [done|done| |apply u64_range|done|].
  - destruct (_ >? _); [done|]. pose proof (u64_range (area_size base_mem + area_size ext_mem)) as [H _].
    rewrite PGSIZE_eq. apply Z.div_pos; [apply Z.div_pos|]; lia.
  - intros s' _ Hr Hf. by apply wpp_ret.
Qed.

(** The map of a machine with 20 MB, as its BIOS describes it. *)
Definition machine_map : list e820_entry :=
  [E820Entry 0 0 0x9fc00 0 1; E820Entry 0x9fc00 0 0x400 0 2; E820Entry 0xf0000 0 0x10000 0 2;
   E820Entry 0x100000 0 0x13e0000 0 1; E820Entry 0x14e0000 0 0x20000 0 2].

Definition boot_vmem : vmem := VMem empty_pool empty_pool ∅ 0 0 [].

Lemma machine_map_ok : map_ok 0 machine_map.
Proof. vm_compute. intuition discriminate. Qed.

(** What the kernel of that machine gets: 2721 pages, of which the first 562 stay in
    use, and 2623 user pages. *)
Definition machine_pools (top : Z) (s : vmem) : Prop :=
  top = 0x14e0000 /\
  bit_cnt (used_map (kernel_pool s)) = 2721 /\ bit_cnt (used_map (user_pool s)) = 2623 /\
  bit (used_map (kernel_pool s)) 561 = true /\ bit (used_map (kernel_pool s)) 562 = false.

Lemma machine_init :
  exists top s', palloc_init machine_map (KERN_BASE + 0x230000) SIZE_MAX (fun _ => 0) boot_vmem = Ok (top, s') /\
    machine_pools top s'.
Proof. eexists _, _. split; [vm_compute; reflexivity|]. repeat split. Qed.

Lemma palloc_init_frees_usable_witness :
  exists top s', palloc_init machine_map (KERN_BASE + 0x230000) SIZE_MAX (fun _ => 0) boot_vmem = Ok (top, s') /\
    machine_pools top s' /\ forall r i, free_page s' r i -> usable_page machine_map i.
Proof.
  destruct machine_init as (top & s' & E & Hm). exists top, s'. split; [exact E|]. split; [exact Hm|].
  intros r i Hi.
  refine (proj1 (proj2 (wpp_run _ _ _ _ _ E
    (palloc_init_frees_usable machine_map (KERN_BASE + 0x230000) SIZE_MAX (fun _ => 0) boot_vmem
       _ machine_map_ok _ _ _)) r i Hi)).
  - intros a. split; [done|reflexivity].
  - split; [done|reflexivity].
  - done.
  - split; reflexivity.
Defined.

(** on the map of a machine with 20 MB that has a third usable region, of memory
    that ACPI gives back, palloc_init panics: populate_pools compares the number of
    pages still missing with that region's size in bytes. *)
Theorem third_region_panics :
  palloc_init (machine_map ++ [E820Entry 0x14e0000 0 0x20000 0 3]) (KERN_BASE + 0x230000) SIZE_MAX
    (fun _ => 0) boot_vmem = Panic.
Proof. vm_compute. reflexivity. Qed.
