(* ===== verification/Mmu.v ===== *)
(** * threads/mmu.c: four-level page tables

    The walk over the tables of an address space, which makes missing tables on
    demand and takes them back when memory runs out, and the functions built on
    it. A table is a page of 512 entries; a table's address is its page's. *)

From S2P Require Import Prelude Bitmap VMem Palloc.

(** ** Entries and indices (pte.h) *)

Definition PML4SHIFT : Z := 39.
Definition PDPESHIFT : Z := 30.
Definition PDXSHIFT : Z := 21.
Definition PTXSHIFT : Z := 12.

Definition PML4 (la : Z) : Z := Z.land (Z.shiftr la PML4SHIFT) 0x1FF.
Definition PDPE (la : Z) : Z := Z.land (Z.shiftr la PDPESHIFT) 0x1FF.
Definition PDX (la : Z) : Z := Z.land (Z.shiftr la PDXSHIFT) 0x1FF.
Definition PTX (la : Z) : Z := Z.land (Z.shiftr la PTXSHIFT) 0x1FF.

Definition PTE_ADDR (pte : Z) : Z := Z.land pte (u64 (Z.lnot 0xfff)).

Definition PTE_P : Z := 0x1.
Definition PTE_W : Z := 0x2.
Definition PTE_U : Z := 0x4.
Definition PTE_A : Z := 0x20.
Definition PTE_D : Z := 0x40.

(** [pte & flag] as a condition. *)
Definition pte_has (pte flag : Z) : bool := negb (Z.land pte flag =? 0).

(** [&table[idx]] *)
Definition entry_addr (table idx : Z) : Z := u64 (table + 8 * idx).

(** ** The walk *)

(** What the three walks begin with: the entry [table[idx]] is present, or a zeroed
    page is put there if [create] allows it. [None] is the return of a null
    pointer; otherwise the result is the variable [allocated]. *)
Definition ensure_entry (table idx : Z) (create : bool) : M vmem (option bool) :=
  e ← load64 (entry_addr table idx);
  if negb (pte_has e PTE_P) then
    if create then
      new_page ← palloc_get_page PAL_ZERO;
      if negb (new_page =? null) then
        pa ← lift (vtop new_page);
        store64 (entry_addr table idx) (Z.lor (Z.lor (Z.lor pa PTE_U) PTE_W) PTE_P);;
        mret (Some true)
      else mret None
    else mret None
  else mret (Some false).

Definition pgdir_walk (pdp va : Z) (create : bool) : M vmem Z :=
  let idx := PDX va in
  if negb (pdp =? null) then
    r ← ensure_entry pdp idx create;
    match r with
    | None => mret null
    | Some _ => e ← load64 (entry_addr pdp idx); mret (ptov (u64 (PTE_ADDR e + 8 * PTX va)))
    end
  else mret null.

(** The two upper walks have the same body, with an index and a walk below. *)
Definition level_walk (index : Z -> Z) (next : Z -> Z -> bool -> M vmem Z)
    (table va : Z) (create : bool) : M vmem Z :=
  let idx := index va in
  if negb (table =? null) then
    r ← ensure_entry table idx create;
    match r with
    | None => mret null
    | Some allocated =>
        e ← load64 (entry_addr table idx);
        pte ← next (ptov (PTE_ADDR e)) va create;
        (if (pte =? null) && allocated then
           e ← load64 (entry_addr table idx);
           palloc_free_page (ptov (PTE_ADDR e));;
           store64 (entry_addr table idx) 0
         else mret tt);;
        mret pte
    end
  else mret null.

Definition pdpe_walk : Z -> Z -> bool -> M vmem Z := level_walk PDPE pgdir_walk.
Definition pml4e_walk : Z -> Z -> bool -> M vmem Z := level_walk PML4 pdpe_walk.

(** ** Creating, traversing and destroying address spaces *)

Definition pml4_create : M vmem Z :=
  pml4 ← palloc_get_page 0;
  (if negb (pml4 =? null) then base ← gets base_pml4; memcpy_page pml4 base else mret tt);;
  mret pml4.

(** The loop over the entries of a table. [body i e] is given the entry's index and
    value and says whether to go on. *)
Fixpoint each_entry (n : nat) (table i : Z) (body : Z -> Z -> M vmem bool) : M vmem bool :=
  match n with
  | O => mret true
  | S n =>
      e ← load64 (entry_addr table i);
      body i e ≫= fun ok : bool => if ok then each_entry n table (i + 1) body else mret false
  end.

Definition pt_for_each (pt : Z) (func : Z -> Z -> M vmem bool) (pml4_index pdp_index pdx_index : Z) : M vmem bool :=
  each_entry PAGE_WORDS pt 0 (fun i e =>
    if pte_has e PTE_P then
      let va := Z.lor (Z.lor (Z.lor (u64 (Z.shiftl pml4_index PML4SHIFT)) (u64 (Z.shiftl pdp_index PDPESHIFT)))
                             (u64 (Z.shiftl pdx_index PDXSHIFT))) (u64 (Z.shiftl i PTXSHIFT)) in
      func (entry_addr pt i) va
    else mret true).

Definition pgdir_for_each (pdp : Z) (func : Z -> Z -> M vmem bool) (pml4_index pdp_index : Z) : M vmem bool :=
  each_entry PAGE_WORDS pdp 0 (fun i e =>
    let pte := ptov e in
    if pte_has pte PTE_P then pt_for_each (PTE_ADDR pte) func pml4_index pdp_index i else mret true).

Definition pdp_for_each (pdp : Z) (func : Z -> Z -> M vmem bool) (pml4_index : Z) : M vmem bool :=
  each_entry PAGE_WORDS pdp 0 (fun i e =>
    let pde := ptov e in
    if pte_has pde PTE_P then pgdir_for_each (PTE_ADDR pde) func pml4_index i else mret true).

Definition pml4_for_each (pml4 : Z) (func : Z -> Z -> M vmem bool) : M vmem bool :=
  each_entry PAGE_WORDS pml4 0 (fun i e =>
    let pdpe := ptov e in
    if pte_has pdpe PTE_P then pdp_for_each (PTE_ADDR pdpe) func i else mret true).

(** The destructors' loop: every present entry's page is given to [free]. *)
Definition destroy_entries (table : Z) (free : Z -> M vmem unit) : M vmem unit :=
  each_entry PAGE_WORDS table 0 (fun i e =>
        let pte := ptov e in
        (if pte_has pte PTE_P then free (PTE_ADDR pte) else mret tt);; mret true);;
  palloc_free_page table.

Definition pt_destroy (pt : Z) : M vmem unit := destroy_entries pt palloc_free_page.
Definition pgdir_destroy (pdp : Z) : M vmem unit := destroy_entries pdp pt_destroy.
Definition pdpe_destroy (pdpe : Z) : M vmem unit := destroy_entries pdpe pgdir_destroy.

Definition pml4_destroy (pml4 : Z) : M vmem unit :=
  if pml4 =? null then mret tt else
  base ← gets base_pml4;
  assertM (negb (pml4 =? base));;
  e ← load64 (entry_addr pml4 0);
  let pdpe := ptov e in
  (if pte_has pdpe PTE_P then pdpe_destroy (PTE_ADDR pdpe) else mret tt);;
  palloc_free_page pml4.

(** lcr3, rcr3 and invlpg *)
Definition lcr3 (pa : Z) : M vmem unit :=
  modify (fun s => VMem (kernel_pool s) (user_pool s) (pages s) (base_pml4 s) pa (flushed s)).
Definition invlpg (va : Z) : M vmem unit :=
  modify (fun s => VMem (kernel_pool s) (user_pool s) (pages s) (base_pml4 s) (cr3 s) (va :: flushed s)).

Definition pml4_activate (pml4 : Z) : M vmem unit :=
  base ← gets base_pml4;
  pa ← lift (vtop (if negb (pml4 =? null) then pml4 else base));
  lcr3 pa.

(** [if (rcr3 () == vtop (pml4)) invlpg (va)] *)
Definition flush_if_active (pml4 va : Z) : M vmem unit :=
  c ← gets cr3;
  pa ← lift (vtop pml4);
  if c =? pa then invlpg va else mret tt.

(** ** Pages of an address space *)

Definition pml4_get_page (pml4 uaddr : Z) : M vmem Z :=
  assertM (is_user_vaddr uaddr);;
  pte ← pml4e_walk pml4 uaddr false;
  if negb (pte =? null) then
    e ← load64 pte;
    if pte_has e PTE_P then mret (u64 (ptov (PTE_ADDR e) + pg_ofs uaddr)) else mret null
  else mret null.

Definition pml4_set_page (pml4 upage kpage : Z) (rw : bool) : M vmem bool :=
  assertM (pg_ofs upage =? 0);;
  assertM (pg_ofs kpage =? 0);;
  assertM (is_user_vaddr upage);;
  base ← gets base_pml4;
  assertM (negb (pml4 =? base));;
  pte ← pml4e_walk pml4 upage true;
  (if negb (pte =? null) then
     pa ← lift (vtop kpage);
     store64 pte (Z.lor (Z.lor (Z.lor pa PTE_P) (if rw then PTE_W else 0)) PTE_U)
   else mret tt);;
  mret (negb (pte =? null)).

Definition pml4_clear_page (pml4 upage : Z) : M vmem unit :=
  assertM (pg_ofs upage =? 0);;
  assertM (is_user_vaddr upage);;
  pte ← pml4e_walk pml4 upage false;
  if negb (pte =? null) then
    e ← load64 pte;
    if pte_has e PTE_P then
      store64 pte (Z.land e (u64 (Z.lnot PTE_P)));;
      flush_if_active pml4 upage
    else mret tt
  else mret tt.

Definition pml4_is_dirty (pml4 vpage : Z) : M vmem bool :=
  pte ← pml4e_walk pml4 vpage false;
  if negb (pte =? null) then e ← load64 pte; mret (pte_has e PTE_D) else mret false.

(** [*pte &= ~(uint32_t) PTE_D]: the complement is a 32-bit number, which is then
    extended with zeros. *)
Definition pml4_set_dirty (pml4 vpage : Z) (dirty : bool) : M vmem unit :=
  pte ← pml4e_walk pml4 vpage false;
  if negb (pte =? null) then
    e ← load64 pte;
    store64 pte (if dirty then Z.lor e PTE_D else Z.land e (u32 (Z.lnot PTE_D)));;
    flush_if_active pml4 vpage
  else mret tt.

Definition pml4_is_accessed (pml4 vpage : Z) : M vmem bool :=
  pte ← pml4e_walk pml4 vpage false;
  if negb (pte =? null) then e ← load64 pte; mret (pte_has e PTE_A) else mret false.

Definition pml4_set_accessed (pml4 vpage : Z) (accessed : bool) : M vmem unit :=
  pte ← pml4e_walk pml4 vpage false;
  if negb (pte =? null) then
    e ← load64 pte;
    store64 pte (if accessed then Z.lor e PTE_A else Z.land e (u32 (Z.lnot PTE_A)));;
    flush_if_active pml4 vpage
  else mret tt.
