(* ===== verification/MmuFacts.v ===== *)
(** * Page tables as trees

    An address space is a tree of pages: [table_at] follows a path of indices from
    the root. The facts here say what making, linking and unlinking a table does
    to that tree, and what the walk of mmu.c computes on it. *)

From S2P Require Import Prelude Bitmap VMem Palloc PallocFacts Mmu.

(** The first page number of kernel addresses. *)
Definition KERN_PAGE : Z := KERN_BASE / 4096.

Lemma KERN_PAGE_eq : KERN_PAGE = 0x8004000.
Proof. reflexivity. Qed.

(** ** Entries *)

Lemma lor_add a b : Z.land a b = 0 -> Z.lor a b = a + b.
Proof. intros H. rewrite <-Z.lxor_lor by done. by rewrite Z.add_nocarry_lxor. Qed.

Lemma page_flags_disjoint k f : 0 <= f < 4096 -> Z.land (4096 * k) f = 0.
Proof.
  intros Hf. apply Z.bits_inj'. intros n Hn. rewrite Z.land_spec, Z.bits_0.
  destruct (Z.ltb_spec n 12).
  - change 4096 with (2 ^ 12). rewrite Z.mul_comm, Z.mul_pow2_bits_low by lia. done.
  - rewrite (Z.bits_above_log2 f n); [by rewrite andb_false_r|lia|].
    destruct (Z.eq_dec f 0) as [->|]; [simpl; lia|]. apply Z.lt_le_trans with 12; [|lia].
    apply Z.log2_lt_pow2; lia.
Qed.

(** An entry made of a page and flags. *)
Lemma entry_split k f : 0 <= f < 4096 -> Z.lor (4096 * k) f = 4096 * k + f.
Proof. intros Hf. by apply lor_add, page_flags_disjoint. Qed.

Lemma PTE_ADDR_eq e : is_u64 e -> PTE_ADDR e = 4096 * (e / 4096).
Proof. intros He. unfold PTE_ADDR. rewrite clear_low_bits by done. lia. Qed.

Lemma PTE_ADDR_page k f : 0 <= f < 4096 -> 0 <= k < 2 ^ 52 -> PTE_ADDR (4096 * k + f) = 4096 * k.
Proof.
  intros Hf Hk. rewrite PTE_ADDR_eq by (unfold is_u64; lia). f_equal. symmetry. by apply Z.div_unique with f; lia.
Qed.

(** Flags do not depend on the page. *)
Lemma pte_has_page k f flag : 0 <= f < 4096 -> 0 <= flag < 4096 -> pte_has (4096 * k + f) flag = pte_has f flag.
Proof.
  intros Hf Hg. unfold pte_has. rewrite <-entry_split, Z.land_lor_distr_l by done.
  by rewrite page_flags_disjoint.
Qed.

(** The kernel page that an entry points to. *)
Definition entry_page (e : Z) : Z := pg_no (ptov (PTE_ADDR e)).

(** Adding KERN_BASE keeps page boundaries, also when it wraps around. *)
Lemma ptov_page k : ptov (4096 * k) = 4096 * ((k + KERN_PAGE) mod 2 ^ 52).
Proof.
  unfold ptov, u64. change KERN_BASE with (4096 * KERN_PAGE). rewrite <-Z.mul_add_distr_l.
  change (2 ^ 64) with (4096 * 2 ^ 52). by apply Z.mul_mod_distr_l.
Qed.

Lemma ptov_entry e : is_u64 e -> ptov (PTE_ADDR e) = 4096 * entry_page e.
Proof. intros He. unfold entry_page. by rewrite PTE_ADDR_eq, ptov_page, pg_no_page. Qed.

Lemma entry_page_range e : is_u64 e -> 0 <= entry_page e < 2 ^ 52.
Proof.
  intros He. unfold entry_page. rewrite PTE_ADDR_eq, ptov_page, pg_no_page by done.
  by apply Z.mod_pos_bound.
Qed.

(** The entry that mmu.c makes for a kernel page, and back. *)
Lemma vtop_page pn : KERN_PAGE <= pn < 2 ^ 52 -> vtop (4096 * pn) = Ok (4096 * (pn - KERN_PAGE)).
Proof.
  intros H. unfold vtop, is_kernel_vaddr. unfold KERN_PAGE in *.
  change (KERN_BASE / 4096) with 0x8004000 in *. unfold KERN_BASE in *.
  rewrite (proj2 (Z.geb_le _ _)) by lia. simpl. unfold mret, outcome_mret. f_equal.
  rewrite u64_small by (unfold is_u64; lia). lia.
Qed.

Lemma entry_page_of pn f :
  KERN_PAGE <= pn < 2 ^ 52 -> 0 <= f < 4096 -> entry_page (4096 * (pn - KERN_PAGE) + f) = pn.
Proof.
  intros H Hf. unfold KERN_PAGE in *. change (KERN_BASE / 4096) with 0x8004000 in *.
  unfold entry_page. rewrite PTE_ADDR_page, ptov_page, pg_no_page by lia.
  change KERN_PAGE with 0x8004000. rewrite Z.mod_small by lia. lia.
Qed.

(** ** The tree *)

(** Entry [i] of the table in page [pn]. *)
Definition table_entry (s : vmem) (pn i : Z) : option Z := ws ← pages s !! pn; ws !! Z.to_nat i.

Lemma table_entry_at s pn i ws : pages s !! pn = Some ws -> table_entry s pn i = ws !! Z.to_nat i.
Proof. unfold table_entry. by intros ->. Qed.

Definition child (s : vmem) (pn i : Z) : option Z :=
  e ← table_entry s pn i; if pte_has e PTE_P then Some (entry_page e) else None.

Fixpoint table_at (s : vmem) (root : Z) (path : list Z) : option Z :=
  match path with
  | [] => Some root
  | i :: path => c ← child s root i; table_at s c path
  end.

Definition index_ok (i : Z) : Prop := 0 <= i < 512.
Definition path_ok (q : list Z) : Prop := Forall index_ok q /\ (length q <= 3)%nat.

(** Memory is made of pages of 512 words; tables and pools are kernel addresses. *)
Record vm_ok (s : vmem) : Prop := {
  vm_palloc : palloc_ok s;
  vm_kernel r : KERN_PAGE <= pg_no (base (the_pool r s));
  vm_pages i ws : pages s !! i = Some ws -> length ws = PAGE_WORDS /\ Forall is_u64 ws
}.

(** The tables of an address space: pages of the kernel pool in use, each reached on
    one path only. *)
Record tree_ok (s : vmem) (root : Z) : Prop := {
  tr_used q t : path_ok q -> table_at s root q = Some t ->
    is_Some (pages s !! t) /\ in_pool (kernel_pool s) t /\ ~ free_page s KERNEL_POOL t;
  tr_inj p q t : path_ok p -> path_ok q ->
    table_at s root p = Some t -> table_at s root q = Some t -> p = q
}.

Definition in_tree (s : vmem) (root t : Z) : Prop := exists q, path_ok q /\ table_at s root q = Some t.

Lemma table_at_app s root p q : table_at s root (p ++ q) = t ← table_at s root p; table_at s t q.
Proof.
  revert root. induction p as [|i p IH]; intros root; simpl; [done|].
  destruct (child s root i); simpl; [apply IH|done].
Qed.

Lemma table_at_snoc s root p i t : table_at s root p = Some t -> table_at s root (p ++ [i]) = child s t i.
Proof. intros H. rewrite table_at_app, H. simpl. by destruct (child s t i). Qed.

Lemma path_ok_app_l p q : path_ok (p ++ q) -> path_ok p.
Proof. intros [H1 H2]. apply Forall_app in H1 as [H1 _]. rewrite length_app in H2. split; [done|lia]. Qed.

Lemma path_ok_last p i : path_ok (p ++ [i]) -> index_ok i.
Proof. intros [H _]. apply Forall_app in H as [_ H]. by apply Forall_inv in H. Qed.

Lemma path_ok_snoc p i : path_ok p -> index_ok i -> (length p < 3)%nat -> path_ok (p ++ [i]).
Proof.
  intros [H1 H2] Hi Hl. split; [|rewrite length_app; simpl; lia]. apply Forall_app. split; [done|by constructor].
Qed.

(** A table of a well-formed memory has all its entries. *)
Lemma table_entry_some s pn i :
  vm_ok s -> is_Some (pages s !! pn) -> index_ok i ->
  exists ws e, pages s !! pn = Some ws /\ ws !! Z.to_nat i = Some e /\ table_entry s pn i = Some e /\ is_u64 e.
Proof.
  intros Hv [ws Hws] Hi. destruct (vm_pages _ Hv _ _ Hws) as [Hl Hf].
  destruct (lookup_lt_is_Some_2 ws (Z.to_nat i)) as [e He]; [rewrite Hl; unfold PAGE_WORDS, index_ok in *; lia|].
  exists ws, e. split; [done|]. split; [done|]. split; [unfold table_entry; by rewrite Hws|].
  by eapply Forall_lookup in Hf.
Qed.

(** Trees only depend on the children of their tables. *)
Lemma table_at_ext s s' root :
  (forall t i, in_tree s root t -> index_ok i -> child s' t i = child s t i) ->
  forall q, path_ok q -> table_at s' root q = table_at s root q.
Proof.
  intros H. induction q as [|i p IH] using rev_ind; intros Hq; [done|].
  rewrite !table_at_app, IH by (by eapply path_ok_app_l).
  destruct (table_at s root p) as [t|] eqn:E; [|done]. simpl. rewrite H; [done| |].
  - exists p. split; [by eapply path_ok_app_l|done].
  - by eapply path_ok_last.
Qed.

(** ** Linking a fresh table *)

Section Link.
Variables (s s' : vmem) (root t i new : Z) (p : list Z).
Hypothesis Htree : tree_ok s root.
Hypothesis Hp : path_ok p /\ (length p < 3)%nat.
Hypothesis Ht : table_at s root p = Some t.
Hypothesis Hi : index_ok i.
Hypothesis Habsent : child s t i = None.
Hypothesis Hnew : ~ in_tree s root new.
Hypothesis Hlinked : child s' t i = Some new.
Hypothesis Hrest : forall t' j, in_tree s root t' -> index_ok j -> ~ (t' = t /\ j = i) -> child s' t' j = child s t' j.
Hypothesis Hleaf : forall j, index_ok j -> child s' new j = None.

Lemma link_table_at q : path_ok q ->
  table_at s' root q = if decide (q = p ++ [i]) then Some new else table_at s root q.
Proof.
  induction q as [|j q IH] using rev_ind; intros Hq.
  { rewrite decide_False by (by intros ?%app_cons_not_nil). done. }
  pose proof (path_ok_app_l _ _ Hq) as Hq'. assert (Hj : index_ok j) by (by eapply path_ok_last).
  rewrite !table_at_app, IH by done. destruct (decide (q = p ++ [i])) as [->|Hne].
  - rewrite (table_at_snoc s root p i t Ht), Habsent. simpl. rewrite Hleaf by done. simpl.
    rewrite decide_False; [done|]. intros E. apply (f_equal length) in E. rewrite !length_app in E. simpl in E. lia.
  - destruct (table_at s root q) as [t'|] eqn:E; simpl.
    + destruct (decide (t' = t /\ j = i)) as [[-> ->]|Hne'].
      * assert (q = p) as -> by (apply (tr_inj _ _ Htree q p t); [done|apply Hp|done|done]). rewrite decide_True by done.
        by rewrite Hlinked.
      * rewrite Hrest by (done || by exists q). rewrite decide_False; [done|].
        intros [-> [= ->]]%app_inj_tail. apply Hne'. split; [congruence|done].
    + rewrite decide_False; [done|]. intros [-> _]%app_inj_tail. congruence.
Qed.
End Link.

(** The tree after a link is well-formed again. *)
Lemma tree_ok_link s s' root p i new :
  tree_ok s root -> ~ in_tree s root new ->
  (forall q, path_ok q -> table_at s' root q = if decide (q = p ++ [i]) then Some new else table_at s root q) ->
  (forall t, (in_tree s root t \/ t = new) ->
     is_Some (pages s' !! t) /\ in_pool (kernel_pool s') t /\ ~ free_page s' KERNEL_POOL t) ->
  tree_ok s' root.
Proof.
  intros Htree Hnew Hat Hused. split.
  - intros q t Hq. rewrite Hat by done. case_decide.
    + intros [= <-]. auto.
    + intros H1. apply Hused. left. by exists q.
  - intros q1 q2 t Hq1 Hq2. rewrite !Hat by done. repeat case_decide; subst.
    + done.
    + intros [= <-] H2. destruct Hnew. by exists q2.
    + intros H1 [= <-]. destruct Hnew. by exists q1.
    + by apply (tr_inj _ _ Htree).
Qed.

(** ** Unlinking a table without children *)

Lemma unlink_table_at s s' root t i old p q :
  tree_ok s root -> path_ok (p ++ [i]) -> table_at s root p = Some t -> child s t i = Some old ->
  (forall j, index_ok j -> child s old j = None) -> child s' t i = None ->
  (forall t' j, in_tree s root t' -> index_ok j -> t' <> old -> ~ (t' = t /\ j = i) -> child s' t' j = child s t' j) ->
  path_ok q -> table_at s' root q = if decide (q = p ++ [i]) then None else table_at s root q.
Proof.
  intros Htree Hpi Ht Hold Hleaf Hgone Hrest.
  assert (Hat : table_at s root (p ++ [i]) = Some old) by (by rewrite (table_at_snoc _ _ _ _ _ Ht)).
  induction q as [|j q IH] using rev_ind; intros Hq.
  { rewrite decide_False; [done|]. by destruct p. }
  pose proof (path_ok_app_l _ _ Hq) as Hq'. assert (Hj : index_ok j) by (by eapply path_ok_last).
  rewrite !table_at_app, IH by done. destruct (decide (q = p ++ [i])) as [->|Hne].
  - rewrite Hat. simpl. rewrite Hleaf by done. by case_decide.
  - destruct (table_at s root q) as [t'|] eqn:E; simpl; [|by case_decide].
    destruct (decide (t' = t /\ j = i)) as [[-> ->]|Hne'].
    + assert (q = p) as -> by (apply (tr_inj _ _ Htree q p t); [done|by eapply path_ok_app_l|done|done]).
      rewrite decide_True by done. by rewrite Hgone.
    + rewrite Hrest; [|by exists q|done| |done].
      * rewrite decide_False; [done|]. intros [-> [= ->]]%app_inj_tail. apply Hne'. split; [congruence|done].
      * intros ->. apply Hne. by apply (tr_inj _ _ Htree q (p ++ [i]) old).
Qed.

(** ** Translation *)

Definition va_path (va : Z) : list Z := [PML4 va; PDPE va; PDX va].

(** The present page-table entry of an address. *)
Definition mapping (s : vmem) (root va : Z) : option Z :=
  t ← table_at s root (va_path va);
  e ← table_entry s t (PTX va);
  if pte_has e PTE_P then Some e else None.

Lemma index_9 x : index_ok (Z.land x 0x1FF).
Proof. unfold index_ok. change 0x1FF with (Z.ones 9). rewrite Z.land_ones by done. by apply Z.mod_pos_bound. Qed.

Lemma va_path_ok va : path_ok (va_path va).
Proof. split; [repeat constructor; apply index_9|done]. Qed.

(** Mappings only depend on the full-length paths and on the last tables' entries. *)
Lemma mapping_ext s s' root va :
  (forall q, path_ok q -> length q = 3%nat -> table_at s' root q = table_at s root q) ->
  (forall q t j, path_ok q -> length q = 3%nat -> table_at s root q = Some t -> index_ok j ->
     table_entry s' t j = table_entry s t j) ->
  mapping s' root va = mapping s root va.
Proof.
  intros H1 H2. unfold mapping. rewrite H1 by (apply va_path_ok || done).
  destruct (table_at s root (va_path va)) eqn:E; [|done]. simpl.
  by rewrite (H2 (va_path va)) by (apply va_path_ok || done || apply index_9).
Qed.

(** ** Memory accesses to tables *)

Lemma in_tree_page s root t : vm_ok s -> tree_ok s root -> in_tree s root t ->
  is_Some (pages s !! t) /\ KERN_PAGE <= t < 2 ^ 52 /\ ~ free_page s KERNEL_POOL t /\ in_pool (kernel_pool s) t.
Proof.
  intros Hv Ht (q & Hq & Hat). destruct (tr_used _ _ Ht q t Hq Hat) as (Hm & Hin & Hf).
  pose proof (vm_kernel _ Hv KERNEL_POOL). pose proof (po_range _ (pa_pools _ (vm_palloc _ Hv) KERNEL_POOL)).
  unfold in_pool in Hin. simpl in *. split; [done|]. split; [lia|]. split; [done|]. unfold in_pool. lia.
Qed.

Lemma entry_addr_page t i : 0 <= t < 2 ^ 52 -> index_ok i -> entry_addr (4096 * t) i = 4096 * t + 8 * i.
Proof. unfold index_ok, entry_addr. intros Ht Hi. apply u64_small. unfold is_u64. lia. Qed.

Lemma load64_entry s t i e :
  index_ok i -> table_entry s t i = Some e -> load64 (4096 * t + 8 * i) s = Ok (e, s).
Proof.
  unfold table_entry. intros Hi H. destruct (pages s !! t) as [ws|] eqn:E; [|done]. simpl in H.
  destruct (wp_load64 t i ws e (fun e' s' => e' = e /\ s' = s) s Hi E H (conj eq_refl eq_refl))
    as (e' & s' & E' & -> & ->). exact E'.
Qed.

(** [s'] is [s] after storing [v] in entry [i] of table [t]. *)
Definition stored (s : vmem) (t i v : Z) (s' : vmem) : Prop :=
  exists ws, pages s !! t = Some ws /\ s' = set_pages (<[t := <[Z.to_nat i := v]> ws]> (pages s)) s.

Lemma store64_entry s t i v :
  vm_ok s -> is_Some (pages s !! t) -> index_ok i ->
  exists s', store64 (4096 * t + 8 * i) v s = Ok (tt, s') /\ stored s t i v s'.
Proof.
  intros Hv Hm Hi. destruct (table_entry_some s t i Hv Hm Hi) as (ws & e & Hws & He & _).
  destruct (wp_store64 t i ws e v (fun _ s' => stored s t i v s') s Hi Hws He) as ([] & s' & E & H);
    [by exists ws|]. exists s'. split; [exact E|exact H].
Qed.

Section Stored.
Variables (s s' : vmem) (t i v : Z).
Hypothesis Hv : vm_ok s.
Hypothesis Hi : index_ok i.
Hypothesis Hs : stored s t i v s'.

Lemma stored_entry t' j : index_ok j ->
  table_entry s' t' j = if decide (t' = t /\ j = i) then Some v else table_entry s t' j.
Proof.
  intros Hj. destruct Hs as (ws & Hws & ->). unfold table_entry. simpl.
  destruct (decide (t' = t)) as [->|Hne].
  - rewrite lookup_insert_eq, Hws. simpl. destruct (vm_pages _ Hv _ _ Hws) as [Hl _].
    destruct (decide (j = i)) as [->|Hne].
    + rewrite list_lookup_insert_eq by (rewrite Hl; unfold PAGE_WORDS, index_ok in *; lia).
      by rewrite decide_True.
    + rewrite list_lookup_insert_ne by (unfold index_ok in *; lia). by rewrite decide_False by tauto.
  - rewrite lookup_insert_ne by done. by rewrite decide_False by tauto.
Qed.

Lemma stored_mapped k : is_Some (pages s' !! k) <-> is_Some (pages s !! k).
Proof. destruct Hs as (ws & Hws & ->). simpl. rewrite lookup_insert_is_Some'. split; [intros [->|H]|]; eauto. Qed.

Lemma stored_frame k : k <> t -> pages s' !! k = pages s !! k.
Proof. destruct Hs as (ws & Hws & ->). intros Hk. simpl. by rewrite lookup_insert_ne. Qed.

Lemma stored_layout : same_layout s s'.
Proof. destruct Hs as (ws & _ & ->). split; intros *; by rewrite ?the_pool_pages. Qed.

Lemma stored_free r k : free_page s' r k <-> free_page s r k.
Proof. destruct Hs as (ws & _ & ->). unfold free_page. by rewrite the_pool_pages. Qed.

Lemma stored_ok : is_u64 v -> vm_ok s'.
Proof.
  intros Hu. destruct Hv as [[Hpo Hap Hram] Hk Hpg]. split.
  - split.
    + intros r. destruct Hs as (ws & _ & ->). rewrite the_pool_pages. apply Hpo.
    + intros k. destruct Hs as (ws & _ & ->). apply Hap.
    + intros r k H. apply (proj2 (stored_mapped k)), (Hram r k), (proj1 (stored_free r k)), H.
  - intros r. rewrite (sl_base _ _ stored_layout). apply Hk.
  - intros k ws'. destruct Hs as (ws & Hws & ->). simpl. rewrite lookup_insert_Some.
    destruct (Hpg _ _ Hws) as [Hl Hf].
    intros [[<- <-]|[_ H]]; [|by eapply Hpg]. split; [by rewrite length_insert|by apply Forall_insert].
Qed.
End Stored.

(** ** Making a table *)

Lemma child_entry s t i e : table_entry s t i = Some e -> child s t i = if pte_has e PTE_P then Some (entry_page e) else None.
Proof. unfold child. by intros ->. Qed.

Lemma child_same s s' t i : table_entry s' t i = table_entry s t i -> child s' t i = child s t i.
Proof. unfold child. by intros ->. Qed.

(** [s'] is [s] with a fresh, empty table [new] under entry [i] of table [t], which
    is at path [p]. *)
Record linked (s s' : vmem) (root : Z) (p : list Z) (t i new : Z) : Prop := {
  lk_vm : vm_ok s';
  lk_tree : tree_ok s' root;
  lk_layout : same_layout s s';
  lk_was : free_page s KERNEL_POOL new;
  lk_free r j : free_page s' r j <-> free_page s r j /\ j <> new;
  lk_at q : path_ok q -> table_at s' root q = if decide (q = p ++ [i]) then Some new else table_at s root q;
  lk_absent : child s t i = None;
  lk_child : child s' t i = Some new;
  lk_empty j : index_ok j -> table_entry s' new j = Some 0;
  lk_entries t' j : in_tree s root t' -> index_ok j -> ~ (t' = t /\ j = i) ->
    table_entry s' t' j = table_entry s t' j;
  lk_frame k : k <> t -> k <> new -> pages s' !! k = pages s !! k;
  lk_mapped k : is_Some (pages s' !! k) <-> is_Some (pages s !! k)
}.

Lemma vm_ok_allocated s s' new :
  vm_ok s -> allocated KERNEL_POOL new 1 s s' -> contents_ok PAL_ZERO new 1 s s' -> vm_ok s'.
Proof.
  intros [Hok Hk Hpg] [Hok' _ _ Hlay Hsame _] Hc. split; [done| |].
  - intros r. rewrite (sl_base _ _ Hlay). apply Hk.
  - intros k ws Hws. destruct (decide (k = new)) as [->|].
    + specialize (Hc new ltac:(lia)). assert (ws = replicate PAGE_WORDS 0) as -> by congruence.
      split; [apply length_replicate|].
      apply Forall_replicate. split; [done|reflexivity].
    + rewrite Hsame in Hws by lia. by eapply Hpg.
Qed.

(** The value that a walk stores for a new table. *)
Lemma new_entry_value new :
  KERN_PAGE <= new < 2 ^ 52 ->
  Z.lor (Z.lor (Z.lor (4096 * (new - KERN_PAGE)) PTE_U) PTE_W) PTE_P = 4096 * (new - KERN_PAGE) + 7.
Proof.
  intros H. rewrite <-!Z.lor_assoc. change (Z.lor PTE_U (Z.lor PTE_W PTE_P)) with 7. by apply entry_split.
Qed.

Lemma new_entry_facts new f :
  KERN_PAGE <= new < 2 ^ 52 -> 0 <= f < 4096 -> pte_has f PTE_P = true ->
  is_u64 (4096 * (new - KERN_PAGE) + f) /\ pte_has (4096 * (new - KERN_PAGE) + f) PTE_P = true /\
  entry_page (4096 * (new - KERN_PAGE) + f) = new.
Proof.
  intros H Hf Hp. split; [|split].
  - unfold KERN_PAGE in *. change (KERN_BASE / 4096) with 0x8004000 in *. unfold is_u64. lia.
  - by rewrite pte_has_page.
  - by apply entry_page_of.
Qed.

Lemma linked_store s s1 s2 root p t i new :
  vm_ok s -> tree_ok s root -> path_ok p -> (length p < 3)%nat -> table_at s root p = Some t -> index_ok i ->
  child s t i = None ->
  allocated KERNEL_POOL new 1 s s1 -> contents_ok PAL_ZERO new 1 s s1 ->
  KERN_PAGE <= new < 2 ^ 52 -> stored s1 t i (4096 * (new - KERN_PAGE) + 7) s2 ->
  linked s s2 root p t i new.
Proof.
  intros Hv Htree Hp Hlen Hat Hi Habs Hal Hc Hnew Hst.
  pose proof (vm_ok_allocated _ _ _ Hv Hal Hc) as Hv1. pose proof Hal as [Hok1 Hrun Hfree Hlay Hsame Hmap].
  destruct (new_entry_facts new 7 Hnew ltac:(lia) eq_refl) as (Hu & Hpr & Hpage).
  assert (Hfnew : free_page s KERNEL_POOL new) by (apply Hrun; lia).
  assert (Hnotin : forall t', in_tree s root t' -> t' <> new).
  { intros t' Hin ->. by apply (in_tree_page s root new) in Hin as (_ & _ & Hf & _). }
  assert (Hentry : forall t' j, in_tree s root t' -> index_ok j -> ~ (t' = t /\ j = i) ->
    table_entry s2 t' j = table_entry s t' j).
  { intros t' j Hin Hj Hne. rewrite (stored_entry _ _ _ _ _ Hv1 Hi Hst) by done. rewrite decide_False by done.
    unfold table_entry. rewrite Hsame; [done|]. pose proof (Hnotin t' Hin). lia. }
  assert (Hempty : forall j, index_ok j -> table_entry s2 new j = Some 0).
  { intros j Hj. rewrite (stored_entry _ _ _ _ _ Hv1 Hi Hst), decide_False; [|by intros [-> _]; apply (Hnotin t); [exists p|]|done].
    rewrite (table_entry_at _ _ _ _ (Hc new ltac:(lia))). apply lookup_replicate_2. unfold index_ok, PAGE_WORDS in *. lia. }
  assert (Hch : child s2 t i = Some new).
  { rewrite (child_entry _ _ _ (4096 * (new - KERN_PAGE) + 7)); [by rewrite Hpr, Hpage|].
    rewrite (stored_entry _ _ _ _ _ Hv1 Hi Hst) by done. by rewrite decide_True. }
  assert (Hat2 : forall q, path_ok q ->
    table_at s2 root q = if decide (q = p ++ [i]) then Some new else table_at s root q).
  { intros q. apply (link_table_at s s2 root t i new p); try done.
    - intros t' j Hin Hj Hne. by apply child_same, Hentry.
    - intros j Hj. by rewrite (child_entry _ _ _ 0) by auto. }
  assert (Hfree2 : forall r j, free_page s2 r j <-> free_page s r j /\ j <> new).
  { intros r j. rewrite (stored_free _ _ _ _ _ Hst), Hfree. split; intros [H1 H2]; (split; [done|lia]). }
  assert (Hlay2 : same_layout s s2) by (eapply same_layout_trans; [done|by eapply stored_layout]).
  assert (Hmap2 : forall k, is_Some (pages s2 !! k) <-> is_Some (pages s !! k))
    by (intros k; rewrite (stored_mapped _ _ _ _ _ Hst); apply Hmap).
  split; try done.
  - by eapply stored_ok.
  - apply (tree_ok_link s s2 root p i new Htree); [by intros Hin%Hnotin|done|].
    intros t' Ht'. rewrite Hmap2, Hfree2, (in_pool_same s s2 KERNEL_POOL t' Hlay2 : in_pool (kernel_pool s2) t' <-> _).
    destruct Ht' as [Hin| ->].
    + destruct (in_tree_page s root t' Hv Htree Hin) as (H1 & _ & H2 & H3). tauto.
    + split; [by apply (pa_ram _ (vm_palloc _ Hv) KERNEL_POOL)|]. split; [apply Hfnew|tauto].
  - intros k H1 H2. rewrite (stored_frame _ _ _ _ _ Hst) by done. apply Hsame. lia.
Qed.

(** Allocating the page of a table. *)
Lemma palloc_table_page s :
  vm_ok s ->
  (exists new s', palloc_get_page PAL_ZERO s = Ok (4096 * new, s') /\ KERN_PAGE <= new < 2 ^ 52 /\
     allocated KERNEL_POOL new 1 s s' /\ contents_ok PAL_ZERO new 1 s s') \/
  palloc_get_page PAL_ZERO s = Ok (null, s).
Proof.
  intros Hv. destruct (palloc_get_cases PAL_ZERO 1 s (vm_palloc _ Hv) ltac:(lia)) as [(new & s' & E & Hf & Ha & Hc)|[_ E]].
  - left. exists new, s'. split; [exact E|]. split; [|by split].
    destruct Hf as (_ & Hlo & Hhi & _). change (pool_of PAL_ZERO) with KERNEL_POOL in *.
    pose proof (vm_kernel _ Hv KERNEL_POOL). pose proof (po_range _ (pa_pools _ (vm_palloc _ Hv) KERNEL_POOL)).
    split; [lia|]. lia.
  - right. exact E.
Qed.

Lemma page_not_null pn : KERN_PAGE <= pn -> negb (4096 * pn =? null) = true.
Proof.
  rewrite KERN_PAGE_eq. intros H. unfold null.
  destruct (Z.eqb_spec (4096 * pn) 0); [lia|done].
Qed.

(** The three outcomes of looking for an entry's table. *)
Lemma ensure_entry_cases s root p t i create :
  vm_ok s -> tree_ok s root -> path_ok p -> (length p < 3)%nat -> table_at s root p = Some t -> index_ok i ->
  (exists c, child s t i = Some c /\ ensure_entry (4096 * t) i create s = Ok (Some false, s)) \/
  (child s t i = None /\ ensure_entry (4096 * t) i create s = Ok (None, s)) \/
  (child s t i = None /\ create = true /\
     exists new s', ensure_entry (4096 * t) i create s = Ok (Some true, s') /\ linked s s' root p t i new).
Proof.
  intros Hv Htree Hp Hlen Hat Hi.
  destruct (in_tree_page s root t Hv Htree (ex_intro _ p (conj Hp Hat))) as (Hm & Hr & _).
  destruct (table_entry_some s t i Hv Hm Hi) as (ws & e & Hws & He & Hent & Hu).
  unfold ensure_entry. rewrite KERN_PAGE_eq in Hr. rewrite entry_addr_page; [|lia|done].
  rewrite (bind_run _ _ _ _ _ (load64_entry s t i e Hi Hent)), (child_entry _ _ _ _ Hent).
  destruct (pte_has e PTE_P) eqn:Hpr; cbn [negb]; [left; by eexists|right].
  destruct create; [|by left].
  destruct (palloc_table_page s Hv) as [(new & s1 & E & Hnew & Ha & Hc)|E];
    rewrite (bind_run _ _ _ _ _ E); [right|by left].
  split; [done|]. split; [done|]. rewrite page_not_null by lia.
  rewrite (bind_run (lift _) _ s1 (4096 * (new - KERN_PAGE)) s1); [|unfold lift; by rewrite vtop_page].
  destruct (store64_entry s1 t i (4096 * (new - KERN_PAGE) + 7)) as (s2 & Est & Hst);
    [by eapply vm_ok_allocated|by apply (al_mapped _ _ _ _ _ Ha)|done|].
  exists new, s2. rewrite new_entry_value, (bind_run _ _ _ _ _ Est) by done. split; [done|].
  apply (linked_store s s1 s2); try done. by rewrite (child_entry _ _ _ _ Hent), Hpr.
Qed.

(** ** What a walk does *)

(** The result [a] of walking to [va] from a table of [root], from [s] to [s']: no
    translation changes; other pages in use are left alone; a null pointer means
    that the last table is missing, and then the tree and the free pages are as
    before. *)
Record walked (s : vmem) (root va a : Z) (s' : vmem) : Prop := {
  wk_vm : vm_ok s';
  wk_tree : tree_ok s' root;
  wk_layout : same_layout s s';
  wk_map va' : mapping s' root va' = mapping s root va';
  wk_free r j : free_page s' r j -> free_page s r j;
  wk_user j : free_page s USER_POOL j -> free_page s' USER_POOL j;
  wk_frame k : ~ free_page s KERNEL_POOL k -> ~ in_tree s root k -> pages s' !! k = pages s !! k;
  wk_mapped k : is_Some (pages s' !! k) <-> is_Some (pages s !! k);
  wk_tables t : in_tree s' root t -> in_tree s root t \/ free_page s KERNEL_POOL t;
  wk_found : a <> null -> exists t, table_at s' root (va_path va) = Some t /\ a = 4096 * t + 8 * PTX va;
  wk_null : a = null ->
    table_at s root (va_path va) = None /\
    (forall q, path_ok q -> table_at s' root q = table_at s root q) /\
    (forall r j, free_page s' r j <-> free_page s r j)
}.

(** A walk from the tables at depth [d]. *)
Definition walk_spec (next : Z -> Z -> bool -> M vmem Z) (d : nat) : Prop :=
  forall s root va t create,
    vm_ok s -> tree_ok s root -> table_at s root (take d (va_path va)) = Some t ->
    exists a s', next (4096 * t) va create s = Ok (a, s') /\ walked s root va a s' /\ (create = false -> s' = s).

Lemma walked_null s root va :
  vm_ok s -> tree_ok s root -> table_at s root (va_path va) = None -> walked s root va null s.
Proof. intros Hv Ht Hn. split; first [done|apply same_layout_refl|by left]. Qed.

Lemma walked_same s root va t :
  vm_ok s -> tree_ok s root -> table_at s root (va_path va) = Some t -> walked s root va (4096 * t + 8 * PTX va) s.
Proof.
  intros Hv Ht Hat. split; try done; [by left|by exists t|].
  destruct (in_tree_page s root t Hv Ht (ex_intro _ _ (conj (va_path_ok va) Hat))) as (_ & Hr & _).
  rewrite KERN_PAGE_eq in Hr. pose proof (index_9 (Z.shiftr va PTXSHIFT)). unfold index_ok, PTX, null in *. lia.
Qed.

(** A fresh table maps nothing. *)
Lemma linked_mapping s s' root p t i new va :
  tree_ok s root -> (length p < 3)%nat -> path_ok p -> table_at s root p = Some t ->
  linked s s' root p t i new -> mapping s' root va = mapping s root va.
Proof.
  intros Htree Hlen Hp Hat Hl. unfold mapping. rewrite (lk_at _ _ _ _ _ _ _ Hl) by apply va_path_ok.
  destruct (decide _) as [E|Hne].
  - rewrite E, (table_at_snoc s root p i t Hat), (lk_absent _ _ _ _ _ _ _ Hl).
    cbn [mbind option_bind]. by rewrite (lk_empty _ _ _ _ _ _ _ Hl) by apply index_9.
  - destruct (table_at s root (va_path va)) as [t'|] eqn:E; [|done]. cbn [mbind option_bind].
    rewrite (lk_entries _ _ _ _ _ _ _ Hl); [done|by exists (va_path va); split; [apply va_path_ok|]|apply index_9|].
    intros [-> _]. assert (va_path va = p) as <-; [|simpl in Hlen; lia].
    by apply (tr_inj _ _ Htree _ _ t); [apply va_path_ok| | |].
Qed.

(** The walk below a fresh table, seen from before the table was made. *)
Lemma walked_linked s s1 s2 root va p t i new a :
  vm_ok s -> tree_ok s root -> (length p < 3)%nat -> path_ok (p ++ [i]) -> table_at s root p = Some t ->
  linked s s1 root p t i new -> walked s1 root va a s2 -> a <> null -> walked s root va a s2.
Proof.
  intros Hv Htree Hlen Hpi Hat [Hv1 Ht1 Hl1 Hwas Hfree1 Hat1 Hab Hch Hem Hent Hfr1 Hm1]
    [Hv2 Ht2 Hl2 Hmap2 Hfree2 Huser2 Hfr2 Hm2 Htb2 Hfound2 _] Ha.
  pose proof (path_ok_app_l _ _ Hpi) as Hp. split; [done|done| | | | | | | |done|done].
  - by eapply same_layout_trans.
  - intros va'. rewrite Hmap2. apply (linked_mapping s s1 root p t i new); [done..|]. by split.
  - intros r j Hf. apply Hfree2, Hfree1 in Hf. tauto.
  - intros j Hf. apply Huser2, Hfree1. split; [done|]. intros ->.
    by pose proof (pools_apart s USER_POOL KERNEL_POOL new (vm_palloc _ Hv) (proj1 Hf) (proj1 Hwas)).
  - intros k Hk Hnin. rewrite Hfr2, Hfr1; try done.
    + intros ->. apply Hnin. by exists p.
    + by intros ->.
    + rewrite Hfree1. tauto.
    + intros (q & Hq & Hqt). rewrite Hat1 in Hqt by done. case_decide; [congruence|].
      apply Hnin. by exists q.
  - intros k. rewrite Hm2. apply Hm1.
  - intros t' Hin. apply Htb2 in Hin as [(q & Hq & Hqt)|Hf]; [|right; exact (proj1 (proj1 (Hfree1 _ _) Hf))].
    rewrite Hat1 in Hqt by done. case_decide; [right; by injection Hqt as <-|left; by exists q].
Qed.

(** ** Taking a table back *)

Lemma vm_ok_released s s' r pn :
  vm_ok s -> released r pn 1 s s' -> vm_ok s'.
Proof.
  intros [Hok Hk Hpg] [Hok' _ _ Hlay Hp]. split; [done| |].
  - intros r'. rewrite (sl_base _ _ Hlay). apply Hk.
  - intros k ws Hws. rewrite Hp in Hws. case_decide; [|by eapply Hpg].
    assert (ws = replicate PAGE_WORDS (byte_word 0xcc)) as -> by congruence.
    split; [apply length_replicate|]. apply Forall_replicate. split; [done|reflexivity].
Qed.

(** Freeing a table of the tree. *)
Lemma free_table s root t :
  vm_ok s -> tree_ok s root -> in_tree s root t ->
  exists s', palloc_free_page (4096 * t) s = Ok (tt, s') /\ released KERNEL_POOL t 1 s s'.
Proof.
  intros Hv Htree Hin. destruct (in_tree_page s root t Hv Htree Hin) as (Hm & _ & Hf & Hp).
  unfold in_pool in Hp.
  apply (palloc_free_ok s KERNEL_POOL t 1 (vm_palloc _ Hv)); simpl; [lia|lia| |];
    (intros k Hk; assert (k = t) as -> by lia; done).
Qed.

Section Rollback.
Variables (s s1 s2 s3 s4 : vmem) (root va t i new : Z) (p : list Z).
Hypothesis Hv : vm_ok s.
Hypothesis Htree : tree_ok s root.
Hypothesis Hlen : (length p < 2)%nat.
Hypothesis Hpi : path_ok (p ++ [i]).
Hypothesis Hat : table_at s root p = Some t.
Hypothesis Hl : linked s s1 root p t i new.
Hypothesis Hw : walked s1 root va null s2.
Hypothesis Hr : released KERNEL_POOL new 1 s2 s3.
Hypothesis Hst : stored s3 t i 0 s4.

Lemma rollback_at2 q : path_ok q -> table_at s2 root q = if decide (q = p ++ [i]) then Some new else table_at s root q.
Proof.
  intros Hq. destruct (wk_null _ _ _ _ _ Hw eq_refl) as (_ & H & _). rewrite H by done. by apply (lk_at _ _ _ _ _ _ _ Hl).
Qed.

Lemma rollback_entries t' j :
  index_ok j -> t' <> new -> ~ (t' = t /\ j = i) -> table_entry s4 t' j = table_entry s2 t' j.
Proof.
  intros Hj Hne Hne'. pose proof (path_ok_last _ _ Hpi) as Hi.
  rewrite (stored_entry s3 s4 t i 0 (vm_ok_released _ _ _ _ (wk_vm _ _ _ _ _ Hw) Hr) Hi Hst) by done.
  rewrite decide_False by done. unfold table_entry. rewrite (rl_pages _ _ _ _ _ Hr). by rewrite decide_False by lia.
Qed.

Lemma rollback_table_at q : path_ok q -> table_at s4 root q = table_at s root q.
Proof.
  intros Hq. pose proof (path_ok_last _ _ Hpi) as Hi. pose proof (wk_tree _ _ _ _ _ Hw) as Htree2.
  assert (Hat2 : table_at s2 root p = Some t).
  { rewrite rollback_at2 by (by eapply path_ok_app_l). rewrite decide_False; [done|].
    intros E. apply (f_equal length) in E. rewrite length_app in E. simpl in E. lia. }
  assert (Hnew2 : table_at s2 root (p ++ [i]) = Some new) by (rewrite rollback_at2 by done; by rewrite decide_True).
  assert (Htn : t <> new).
  { intros ->. assert (p = p ++ [i]) as E by (by apply (tr_inj _ _ Htree2 _ _ new); [eapply path_ok_app_l| | |]).
    apply (f_equal length) in E. rewrite length_app in E. simpl in E. lia. }
  rewrite (unlink_table_at s2 s4 root t i new p q Htree2 Hpi Hat2); try done.
  - case_decide; [|by rewrite rollback_at2, decide_False]. subst q.
    by rewrite (table_at_snoc _ _ _ _ _ Hat), (lk_absent _ _ _ _ _ _ _ Hl).
  - by rewrite <-(table_at_snoc _ _ _ _ _ Hat2).
  - intros j Hj. assert (Hpij : path_ok ((p ++ [i]) ++ [j])).
    { apply path_ok_snoc; [done|done|]. rewrite length_app. simpl. lia. }
    rewrite <-(table_at_snoc _ _ _ j _ Hnew2), rollback_at2, decide_False by
      (done || (intros E; apply (f_equal length) in E; rewrite !length_app in E; simpl in E; lia)).
    rewrite table_at_app, (table_at_snoc _ _ _ _ _ Hat), (lk_absent _ _ _ _ _ _ _ Hl). done.
  - rewrite (child_entry _ _ _ 0); [done|].
    rewrite (stored_entry s3 s4 t i 0 (vm_ok_released _ _ _ _ (wk_vm _ _ _ _ _ Hw) Hr) Hi Hst) by done.
    by rewrite decide_True.
  - intros t' j _ Hj Hne Hne'. by apply child_same, rollback_entries.
Qed.

Lemma rollback_free r j : free_page s4 r j <-> free_page s r j.
Proof.
  destruct (wk_null _ _ _ _ _ Hw eq_refl) as (_ & _ & H2).
  rewrite (stored_free _ _ _ _ _ Hst), (rl_free _ _ _ _ _ Hr), H2, (lk_free _ _ _ _ _ _ _ Hl).
  split; [intros [[H _]|[-> H]]; [done|]|].
  - assert (j = new) as -> by lia. apply Hl.
  - intros H. destruct (decide (j = new)) as [->|]; [right|tauto]. split; [|lia].
    by apply (pools_apart s KERNEL_POOL r new (vm_palloc _ Hv)); [apply (lk_was _ _ _ _ _ _ _ Hl)|apply H].
Qed.

Lemma rollback_map va' : mapping s4 root va' = mapping s root va'.
Proof.
  rewrite <-(linked_mapping s s1 root p t i new va') by (done || lia || by eapply path_ok_app_l).
  rewrite <-(wk_map _ _ _ _ _ Hw). apply mapping_ext.
  - intros q Hq Hl3. rewrite rollback_table_at, rollback_at2, decide_False; [done| |done|done].
    intros ->. rewrite length_app in Hl3. simpl in Hl3. lia.
  - intros q t' j Hq Hl3 Hat' Hj. apply rollback_entries; [done| |].
    + intros ->. assert (q = p ++ [i]) as ->.
      { apply (tr_inj _ _ (wk_tree _ _ _ _ _ Hw) _ _ new); [done|done|done|].
        rewrite rollback_at2 by done. by rewrite decide_True. }
      rewrite length_app in Hl3. simpl in Hl3. lia.
    + intros [-> _]. rewrite rollback_at2, decide_False in Hat'; [|intros ->; rewrite length_app in Hl3; simpl in Hl3; lia|done].
      assert (q = p) as -> by (by apply (tr_inj _ _ Htree _ _ t); [|eapply path_ok_app_l| |]). lia.
Qed.

Lemma rollback_mapped k : is_Some (pages s4 !! k) <-> is_Some (pages s !! k).
Proof.
  rewrite (stored_mapped _ _ _ _ _ Hst), (rl_pages _ _ _ _ _ Hr), <-(lk_mapped _ _ _ _ _ _ _ Hl), <-(wk_mapped _ _ _ _ _ Hw).
  case_decide as Hk; [|done]. split; [|eauto]. intros _.
  destruct (in_tree_page s2 root new) as [H _]; [apply Hw|apply Hw| |by assert (k = new) as -> by lia].
  exists (p ++ [i]). split; [done|]. rewrite rollback_at2 by done. by rewrite decide_True.
Qed.

Lemma rollback_layout : same_layout s s4.
Proof.
  eapply same_layout_trans; [apply (lk_layout _ _ _ _ _ _ _ Hl)|].
  eapply same_layout_trans; [apply (wk_layout _ _ _ _ _ Hw)|].
  eapply same_layout_trans; [apply (rl_layout _ _ _ _ _ Hr)|]. by eapply stored_layout.
Qed.

Lemma rollback_walked : walked s root va null s4.
Proof.
  pose proof (path_ok_last _ _ Hpi) as Hi. pose proof (path_ok_app_l _ _ Hpi) as Hp.
  pose proof (vm_ok_released _ _ _ _ (wk_vm _ _ _ _ _ Hw) Hr) as Hv3.
  split; [| |apply rollback_layout|apply rollback_map| | | |apply rollback_mapped| |done|].
  - apply (stored_ok s3 s4 t i 0); done.
  - split.
    + intros q t' Hq. rewrite rollback_table_at by done. intros Hat'.
      destruct (tr_used _ _ Htree q t' Hq Hat') as (H1 & H2 & H3). rewrite rollback_mapped, rollback_free.
      split; [done|]. split; [|done]. by apply (in_pool_same s s4 KERNEL_POOL t' rollback_layout).
    + intros q1 q2 t' H1 H2. rewrite !rollback_table_at by done. by apply (tr_inj _ _ Htree).
  - intros r j. apply (proj1 (rollback_free r j)).
  - intros j. apply (proj2 (rollback_free USER_POOL j)).
  - intros k Hk Hnin.
    assert (k <> new) by (intros ->; apply Hk, Hl).
    assert (k <> t) by (intros ->; apply Hnin; by exists p).
    rewrite (stored_frame _ _ _ _ _ Hst), (rl_pages _ _ _ _ _ Hr), decide_False, (wk_frame _ _ _ _ _ Hw),
      (lk_frame _ _ _ _ _ _ _ Hl); try done; [| |lia].
    + rewrite (lk_free _ _ _ _ _ _ _ Hl). tauto.
    + intros (q & Hq & Hqt). rewrite (lk_at _ _ _ _ _ _ _ Hl) in Hqt by done. case_decide; [congruence|].
      apply Hnin. by exists q.
  - intros t' (q & Hq & Hqt). rewrite rollback_table_at in Hqt by done. left. by exists q.
  - intros _. destruct (wk_null _ _ _ _ _ Hw eq_refl) as (Hn & _ & _). split; [|split].
    + rewrite (lk_at _ _ _ _ _ _ _ Hl) in Hn by apply va_path_ok. by case_decide.
    + exact rollback_table_at.
    + exact rollback_free.
Qed.
End Rollback.

(** ** The walks *)

Lemma load_child s t i c :
  vm_ok s -> 0 <= t < 2 ^ 52 -> is_Some (pages s !! t) -> index_ok i -> child s t i = Some c ->
  exists e, load64 (entry_addr (4096 * t) i) s = Ok (e, s) /\ ptov (PTE_ADDR e) = 4096 * c.
Proof.
  intros Hv Ht Hm Hi Hc. destruct (table_entry_some s t i Hv Hm Hi) as (ws & e & _ & _ & Hent & Hu).
  exists e. rewrite entry_addr_page by done. split; [by apply load64_entry|].
  rewrite (child_entry _ _ _ _ Hent) in Hc. case_match; [|done]. injection Hc as <-. by apply ptov_entry.
Qed.

(** The address of the last table's entry. *)
Lemma leaf_address e va c :
  ptov (PTE_ADDR e) = 4096 * c -> is_u64 e -> KERN_PAGE <= c < 2 ^ 52 ->
  ptov (u64 (PTE_ADDR e + 8 * PTX va)) = 4096 * c + 8 * PTX va.
Proof.
  rewrite KERN_PAGE_eq. intros H Hu Hc. pose proof (index_9 (Z.shiftr va PTXSHIFT)) as Hi. fold (PTX va) in Hi.
  unfold index_ok in Hi. rewrite PTE_ADDR_eq in * by done.
  assert (0 <= e / 4096 < 2 ^ 52) by (unfold is_u64 in Hu; split; [apply Z.div_pos|apply Z.div_lt_upper_bound]; lia).
  rewrite (u64_small (4096 * _ + _)) by (unfold is_u64; lia).
  rewrite ptov_page, KERN_PAGE_eq in H. unfold ptov, u64. change KERN_BASE with (4096 * 0x8004000).
  change (2 ^ 64) with (4096 * 2 ^ 52).
  symmetry. destruct (Z.ltb_spec (e / 4096 + 0x8004000) (2 ^ 52)).
  - rewrite Z.mod_small in H by lia. apply (Z.mod_unique _ _ 0); lia.
  - assert ((e / 4096 + 0x8004000) mod 2 ^ 52 = e / 4096 + 0x8004000 - 2 ^ 52) as Em
      by (symmetry; apply (Z.mod_unique _ _ 1); lia).
    rewrite Em in H. lia.
Qed.

Lemma pgdir_walk_spec : walk_spec pgdir_walk 2.
Proof.
  intros s root va t create Hv Htree Hat. unfold pgdir_walk.
  set (p := take 2 (va_path va)) in *. set (i := PDX va).
  assert (Hpi : path_ok (p ++ [i])) by apply (va_path_ok va). pose proof (path_ok_app_l _ _ Hpi) as Hp.
  assert (Hi : index_ok i) by apply index_9.
  destruct (in_tree_page s root t Hv Htree (ex_intro _ p (conj Hp Hat))) as (Hm & Hr & _).
  rewrite page_not_null by lia. pose proof Hr as Hr'. rewrite KERN_PAGE_eq in Hr'.
  destruct (ensure_entry_cases s root p t i create Hv Htree Hp) as [(c & Hc & E)|[(Hc & E)|(Hc & -> & new & s1 & E & Hl)]];
    [simpl; lia|done|done|..]; rewrite (bind_run _ _ _ _ _ E); clear E.
  - assert (Hfull : table_at s root (va_path va) = Some c)
      by (change (va_path va) with (p ++ [i]); by rewrite (table_at_snoc _ _ _ _ _ Hat)).
    destruct (in_tree_page s root c Hv Htree (ex_intro _ _ (conj (va_path_ok va) Hfull))) as (_ & Hrc & _).
    destruct (table_entry_some s t i Hv Hm Hi) as (ws & e & _ & _ & Hent & Hu).
    destruct (load_child s t i c Hv) as (e' & E & Hp'); [lia|done..|]. rewrite (bind_run _ _ _ _ _ E).
    rewrite entry_addr_page, (load64_entry _ _ _ _ Hi Hent) in E by (done || lia). injection E as <-.
    eexists _, s. split; [done|]. split; [|done]. rewrite (leaf_address _ _ _ Hp' Hu Hrc). by apply walked_same.
  - eexists _, s. split; [done|]. split; [|done]. apply walked_null; [done..|].
    change (va_path va) with (p ++ [i]). by rewrite (table_at_snoc _ _ _ _ _ Hat).
  - assert (Hfull : table_at s1 root (va_path va) = Some new).
    { rewrite (lk_at _ _ _ _ _ _ _ Hl) by apply va_path_ok. by rewrite decide_True. }
    pose proof (lk_vm _ _ _ _ _ _ _ Hl) as Hv1. pose proof (lk_tree _ _ _ _ _ _ _ Hl) as Htree1.
    destruct (in_tree_page s1 root new Hv1 Htree1 (ex_intro _ _ (conj (va_path_ok va) Hfull))) as (_ & Hrc & _).
    assert (Hm1 : is_Some (pages s1 !! t)) by (by apply (lk_mapped _ _ _ _ _ _ _ Hl)).
    destruct (table_entry_some s1 t i Hv1 Hm1 Hi) as (ws & e & _ & _ & Hent & Hu).
    destruct (load_child s1 t i new Hv1) as (e' & E & Hp'); [lia|done|done|apply Hl|]. rewrite (bind_run _ _ _ _ _ E).
    rewrite entry_addr_page, (load64_entry _ _ _ _ Hi Hent) in E by (done || lia). injection E as <-.
    eexists _, s1. split; [done|]. split; [|done]. rewrite (leaf_address _ _ _ Hp' Hu Hrc).
    pose proof (walked_same s1 root va new Hv1 Htree1 Hfull) as Hw.
    apply (walked_linked s s1 s1 root va p t i new); [done|done|simpl; lia|done..|].
    rewrite KERN_PAGE_eq in Hrc. pose proof (index_9 (Z.shiftr va PTXSHIFT)). unfold index_ok, PTX, null in *. lia.
Qed.

Lemma level_walk_spec index next d :
  (d < 2)%nat -> (forall va, va_path va !! d = Some (index va)) ->
  walk_spec next (S d) -> walk_spec (level_walk index next) d.
Proof.
  intros Hd Hidx Hnext s root va t create Hv Htree Hat. unfold level_walk.
  set (p := take d (va_path va)) in *. set (i := index va).
  assert (Epi : take (S d) (va_path va) = p ++ [i]) by (apply take_S_r, Hidx).
  assert (Hpi : path_ok (p ++ [i])) by (rewrite <-Epi; apply (path_ok_app_l _ (drop (S d) (va_path va))); rewrite take_drop; apply va_path_ok).
  pose proof (path_ok_app_l _ _ Hpi) as Hp. pose proof (path_ok_last _ _ Hpi) as Hi.
  assert (Hlen : (length p < 2)%nat) by (unfold p; rewrite length_take; lia).
  destruct (in_tree_page s root t Hv Htree (ex_intro _ p (conj Hp Hat))) as (Hm & Hr & _).
  rewrite page_not_null by lia. pose proof Hr as Hr'. rewrite KERN_PAGE_eq in Hr'.
  destruct (ensure_entry_cases s root p t i create Hv Htree Hp) as [(c & Hc & E)|[(Hc & E)|(Hc & -> & new & s1 & E & Hl)]];
    [lia|done|done|..]; rewrite (bind_run _ _ _ _ _ E); clear E.
  - destruct (load_child s t i c Hv) as (e & E & Hp'); [lia|done..|]. rewrite (bind_run _ _ _ _ _ E), Hp'.
    destruct (Hnext s root va c create Hv Htree) as (a & s' & Ea & Hw & Hcr).
    { by rewrite Epi, (table_at_snoc _ _ _ _ _ Hat). }
    rewrite (bind_run _ _ _ _ _ Ea), andb_false_r. by exists a, s'.
  - eexists _, s. split; [done|]. split; [|done]. apply walked_null; [done..|].
    rewrite <-(take_drop (S d) (va_path va)), Epi, table_at_app, (table_at_snoc _ _ _ _ _ Hat), Hc. done.
  - pose proof (lk_vm _ _ _ _ _ _ _ Hl) as Hv1. pose proof (lk_tree _ _ _ _ _ _ _ Hl) as Htree1.
    assert (Hnew1 : table_at s1 root (take (S d) (va_path va)) = Some new).
    { rewrite Epi, (lk_at _ _ _ _ _ _ _ Hl) by done. by rewrite decide_True. }
    assert (Hm1 : is_Some (pages s1 !! t)) by (by apply (lk_mapped _ _ _ _ _ _ _ Hl)).
    destruct (load_child s1 t i new Hv1) as (e & E & Hp'); [lia|done|done|apply Hl|].
    rewrite (bind_run _ _ _ _ _ E), Hp'. clear E.
    destruct (Hnext s1 root va new true Hv1 Htree1 Hnew1) as (a & s2 & Ea & Hw & _).
    rewrite (bind_run _ _ _ _ _ Ea), andb_true_r. destruct (Z.eqb_spec a null) as [->|Ha].
    + pose proof (wk_vm _ _ _ _ _ Hw) as Hv2. pose proof (wk_tree _ _ _ _ _ Hw) as Htree2.
      assert (Hat2 : forall q, path_ok q -> table_at s2 root q = if decide (q = p ++ [i]) then Some new else table_at s root q)
        by (intros q; by apply (rollback_at2 s s1 s2 root va t i new p)).
      assert (Hnew2 : in_tree s2 root new) by (exists (p ++ [i]); split; [done|]; rewrite Hat2 by done; by rewrite decide_True).
      assert (Hc2 : child s2 t i = Some new).
      { rewrite <-(table_at_snoc s2 root p i t), Hat2 by (rewrite ?Hat2, ?decide_False; try done;
          intros E; apply (f_equal length) in E; rewrite length_app in E; simpl in E; lia). by rewrite decide_True. }
      assert (Hm2 : is_Some (pages s2 !! t)) by (by apply (wk_mapped _ _ _ _ _ Hw)).
      destruct (load_child s2 t i new Hv2) as (e2 & E2 & Hp2); [lia|done..|].
      destruct (free_table s2 root new Hv2 Htree2 Hnew2) as (s3 & E3 & Hrel).
      destruct (store64_entry s3 t i 0) as (s4 & E4 & Hst); [by eapply vm_ok_released| |done|].
      { rewrite (rl_pages _ _ _ _ _ Hrel). case_decide; [eauto|done]. }
      assert (Eroll : ((e ← load64 (entry_addr (4096 * t) i); palloc_free_page (ptov (PTE_ADDR e));;
                        store64 (entry_addr (4096 * t) i) 0) : M vmem unit) s2 = Ok (tt, s4)).
      { rewrite (bind_run _ _ _ _ _ E2), Hp2, (bind_run _ _ _ _ _ E3).
        by rewrite entry_addr_page by (done || lia). }
      rewrite (bind_run _ _ _ _ _ Eroll). exists null, s4. split; [done|]. split; [|done].
      by apply (rollback_walked s s1 s2 s3 s4 root va t i new p).
    + eexists a, s2. split; [done|]. split; [|done].
      apply (walked_linked s s1 s2 root va p t i new); (done || lia).
Qed.

Lemma pdpe_walk_spec : walk_spec pdpe_walk 1.
Proof. apply level_walk_spec; [lia|done|]. apply pgdir_walk_spec. Qed.

Lemma pml4e_walk_spec : walk_spec pml4e_walk 0.
Proof. apply level_walk_spec; [lia|done|]. apply pdpe_walk_spec. Qed.
