(* ===== verification/MmuTheorems.v ===== *)
(** * Theorems about page tables

    An address space is a finite map from pages to frames: pml4_set_page inserts,
    pml4_clear_page deletes, pml4_get_page looks up, and running out of memory for a
    table leaves everything as it was. *)

From S2P Require Import Prelude Bitmap VMem Palloc PallocFacts PallocTheorems Mmu MmuFacts.

(** ** Storing in a last table *)

Section Leaf.
Variables (s s' : vmem) (root va t v : Z).
Hypothesis Hv : vm_ok s.
Hypothesis Htree : tree_ok s root.
Hypothesis Hat : table_at s root (va_path va) = Some t.
Hypothesis Hst : stored s t (PTX va) v s'.

Lemma leaf_table_at q : path_ok q -> table_at s' root q = table_at s root q.
Proof.
  induction q as [|j q IH] using rev_ind; intros Hq; [done|].
  rewrite !table_at_app, IH by (by eapply path_ok_app_l).
  destruct (table_at s root q) as [t'|] eqn:E; [|done]. cbn [mbind option_bind table_at].
  rewrite (child_same s s'); [done|].
  rewrite (stored_entry s s' t (PTX va) v Hv (index_9 _) Hst) by (by eapply path_ok_last).
  rewrite decide_False; [done|]. intros [-> _].
  assert (q = va_path va) as -> by (by apply (tr_inj _ _ Htree _ _ t); [eapply path_ok_app_l|apply va_path_ok| |]).
  destruct Hq as [_ Hl]. simpl in Hl. lia.
Qed.

Lemma leaf_tree : tree_ok s' root.
Proof.
  split.
  - intros q t' Hq. rewrite leaf_table_at by done. intros Hq'.
    destruct (tr_used _ _ Htree q t' Hq Hq') as (H1 & H2 & H3).
    rewrite (stored_mapped _ _ _ _ _ Hst), (stored_free _ _ _ _ _ Hst). split; [done|]. split; [|done].
    by apply (in_pool_same s s' KERNEL_POOL t' (stored_layout _ _ _ _ _ Hst)).
  - intros q1 q2 t' H1 H2. rewrite !leaf_table_at by done. by apply (tr_inj _ _ Htree).
Qed.

Lemma leaf_mapping va' :
  mapping s' root va' =
  if decide (va_path va' = va_path va /\ PTX va' = PTX va)
  then (if pte_has v PTE_P then Some v else None) else mapping s root va'.
Proof.
  unfold mapping. rewrite leaf_table_at by apply va_path_ok.
  destruct (decide (va_path va' = va_path va /\ PTX va' = PTX va)) as [[-> ->]|Hne].
  - rewrite Hat. cbn [mbind option_bind].
    rewrite (stored_entry s s' t (PTX va) v Hv (index_9 _) Hst) by apply index_9. by rewrite decide_True.
  - destruct (table_at s root (va_path va')) as [t'|] eqn:E; [|done]. cbn [mbind option_bind].
    rewrite (stored_entry s s' t (PTX va) v Hv (index_9 _) Hst) by apply index_9.
    rewrite decide_False; [done|]. intros [-> Hx]. apply Hne. split; [|done].
    by apply (tr_inj _ _ Htree _ _ t); [apply va_path_ok|apply va_path_ok| |].
Qed.
End Leaf.

(** ** Pages of a user address *)

Definition is_user (va : Z) : Prop := 0 <= va < KERN_BASE.

(** The four indices are the digits of the page number. *)
Lemma indices_page va va' :
  is_user va -> is_user va' ->
  (va_path va' = va_path va /\ PTX va' = PTX va) <-> pg_no va' = pg_no va.
Proof.
  assert (H : forall x, is_user x -> pg_no x = ((PML4 x * 512 + PDPE x) * 512 + PDX x) * 512 + PTX x).
  { intros x Hx. unfold is_user, KERN_BASE in Hx. rewrite pg_no_eq.
    unfold PML4, PDPE, PDX, PTX, PML4SHIFT, PDPESHIFT, PDXSHIFT, PTXSHIFT. change 0x1FF with (Z.ones 9).
    rewrite !Z.land_ones, !Z.shiftr_div_pow2 by done.
    change (2 ^ 39) with (2 ^ 12 * 512 * 512 * 512). change (2 ^ 30) with (2 ^ 12 * 512 * 512).
    change (2 ^ 21) with (2 ^ 12 * 512). rewrite <-!Z.div_div by done.
    change (2 ^ 12) with 4096. change (2 ^ 9) with 512.
    set (a := x / 4096). set (b := a / 512). set (c := b / 512). set (d := c / 512).
    pose proof (Z.div_mod a 512 ltac:(done)). pose proof (Z.div_mod b 512 ltac:(done)).
    pose proof (Z.div_mod c 512 ltac:(done)). fold b c d in H, H0, H1.
    rewrite (Z.mod_small d 512); [lia|]. unfold d, c, b, a. rewrite !Z.div_div by done.
    split; [apply Z.div_pos; lia|apply Z.div_lt_upper_bound; lia]. }
  intros Hu Hu'. split.
  - intros [E1 E2]. rewrite (H va), (H va') by done. unfold va_path in E1. injection E1 as -> -> ->. by rewrite E2.
  - intros E. rewrite (H va), (H va') in E by done.
    pose proof (index_9 (Z.shiftr va PML4SHIFT)). pose proof (index_9 (Z.shiftr va' PML4SHIFT)).
    pose proof (index_9 (Z.shiftr va PDPESHIFT)). pose proof (index_9 (Z.shiftr va' PDPESHIFT)).
    pose proof (index_9 (Z.shiftr va PDXSHIFT)). pose proof (index_9 (Z.shiftr va' PDXSHIFT)).
    pose proof (index_9 (Z.shiftr va PTXSHIFT)). pose proof (index_9 (Z.shiftr va' PTXSHIFT)).
    fold (PML4 va) (PML4 va') (PDPE va) (PDPE va') (PDX va) (PDX va') (PTX va) (PTX va') in *.
    unfold index_ok in *. assert (PTX va' = PTX va) by lia. assert (PDX va' = PDX va) by lia.
    assert (PDPE va' = PDPE va) by lia. assert (PML4 va' = PML4 va) by lia.
    unfold va_path. by split; [congruence|].
Qed.

(** What pml4_get_page returns. *)
Definition translate (s : vmem) (root va : Z) : Z :=
  match mapping s root va with Some e => u64 (ptov (PTE_ADDR e) + pg_ofs va) | None => null end.

Lemma user_vaddr va : is_user va -> is_user_vaddr va = true.
Proof. unfold is_user, is_user_vaddr, is_kernel_vaddr. intros H. destruct (Z.geb_spec va KERN_BASE); [lia|done]. Qed.

(** The walk from the root without making tables. *)
Lemma walk_lookup s root va :
  vm_ok s -> tree_ok s root ->
  exists a, pml4e_walk (4096 * root) va false s = Ok (a, s) /\
    match table_at s root (va_path va) with
    | Some t => a = 4096 * t + 8 * PTX va /\ (a =? null) = false /\ is_Some (pages s !! t)
    | None => a = null
    end.
Proof.
  intros Hv Htree. destruct (pml4e_walk_spec s root va root false Hv Htree eq_refl) as (a & s' & E & Hw & Hs).
  specialize (Hs eq_refl). subst s'. exists a. split; [done|].
  destruct (Z.eqb_spec a null) as [Ea|Ha].
  - destruct (wk_null _ _ _ _ _ Hw Ea) as (-> & _). done.
  - destruct (wk_found _ _ _ _ _ Hw Ha) as (t & Hat & ->). rewrite Hat. split; [done|]. split; [done|].
    by destruct (tr_used _ _ Htree _ _ (va_path_ok va) Hat).
Qed.

Lemma get_page_run s root va :
  vm_ok s -> tree_ok s root -> is_user va -> pml4_get_page (4096 * root) va s = Ok (translate s root va, s).
Proof.
  intros Hv Htree Hu. unfold pml4_get_page. rewrite user_vaddr, (bind_run _ _ s tt s) by done.
  destruct (walk_lookup s root va Hv Htree) as (a & E & H). rewrite (bind_run _ _ _ _ _ E).
  unfold translate, mapping. destruct (table_at s root (va_path va)) as [t|]; [|by subst a].
  destruct H as (-> & -> & Hm). cbn [mbind option_bind negb].
  destruct (table_entry_some s t (PTX va) Hv Hm (index_9 _)) as (ws & e & _ & _ & Hent & _).
  rewrite (bind_run _ _ _ _ _ (load64_entry _ _ _ _ (index_9 _) Hent)), Hent. cbn [mbind option_bind].
  by destruct (pte_has e PTE_P).
Qed.

(** ** Mapping a page *)

Definition leaf_flags (rw : bool) : Z := Z.lor PTE_P (Z.lor (if rw then PTE_W else 0) PTE_U).

Lemma leaf_value k (rw : bool) :
  KERN_PAGE <= k < 2 ^ 52 ->
  Z.lor (Z.lor (Z.lor (4096 * (k - KERN_PAGE)) PTE_P) (if rw then PTE_W else 0)) PTE_U
  = 4096 * (k - KERN_PAGE) + leaf_flags rw.
Proof. intros H. rewrite <-!Z.lor_assoc. apply entry_split. by destruct rw. Qed.

(** The address that an entry made for page [k] translates to. *)
Lemma translate_value k (rw : bool) va :
  KERN_PAGE <= k < 2 ^ 52 ->
  u64 (ptov (PTE_ADDR (4096 * (k - KERN_PAGE) + leaf_flags rw)) + pg_ofs va) = 4096 * k + pg_ofs va.
Proof.
  intros Hk. destruct (new_entry_facts k (leaf_flags rw) Hk) as (Hu & _ & Hp); [by destruct rw|by destruct rw|].
  rewrite ptov_entry, Hp by done. rewrite pg_ofs_eq. pose proof (Z.mod_pos_bound va 4096 ltac:(done)).
  rewrite KERN_PAGE_eq in Hk. apply u64_small. unfold is_u64. lia.
Qed.

Section SetPage.
Variables (s : vmem) (root upage k : Z) (rw : bool).
Hypothesis Hv : vm_ok s.
Hypothesis Htree : tree_ok s root.
Hypothesis Hroot : 4096 * root <> base_pml4 s.
Hypothesis Hu : is_user upage.
Hypothesis Hofs : pg_ofs upage = 0.
Hypothesis Hk : KERN_PAGE <= k < 2 ^ 52.

(** Either a last table was found or made and the entry stored, or memory ran out. *)
Lemma set_page_cases :
  exists a s1, walked s root upage a s1 /\
    ((a = null /\ pml4_set_page (4096 * root) upage (4096 * k) rw s = Ok (false, s1)) \/
     (exists t s2, a = 4096 * t + 8 * PTX upage /\ table_at s1 root (va_path upage) = Some t /\
        stored s1 t (PTX upage) (4096 * (k - KERN_PAGE) + leaf_flags rw) s2 /\
        pml4_set_page (4096 * root) upage (4096 * k) rw s = Ok (true, s2))).
Proof.
  destruct (pml4e_walk_spec s root upage root true Hv Htree eq_refl) as (a & s1 & E & Hw & _).
  exists a, s1. split; [done|]. unfold pml4_set_page.
  rewrite Hofs, pg_ofs_page, (user_vaddr _ Hu).
  do 3 rewrite (bind_run _ _ s tt s eq_refl). rewrite (bind_run (gets _) _ s _ s eq_refl).
  destruct (Z.eqb_spec (4096 * root) (base_pml4 s)) as [|_]; [done|].
  rewrite (bind_run _ _ s tt s eq_refl), (bind_run _ _ _ _ _ E).
  destruct (Z.eqb_spec a null) as [->|Ha]; [by left|right].
  destruct (wk_found _ _ _ _ _ Hw Ha) as (t & Hat & Ea).
  destruct (tr_used _ _ (wk_tree _ _ _ _ _ Hw) _ _ (va_path_ok upage) Hat) as (Hm & _).
  destruct (store64_entry s1 t (PTX upage) (4096 * (k - KERN_PAGE) + leaf_flags rw)) as (s2 & Est & Hst);
    [apply Hw|done|apply index_9|].
  exists t, s2. split_and!; try done. cbn [negb].
  rewrite (bind_run _ _ s1 tt s2); [done|].
  rewrite (bind_run (lift _) _ s1 (4096 * (k - KERN_PAGE)) s1) by (unfold lift; by rewrite vtop_page).
  by rewrite leaf_value, Ea.
Qed.
End SetPage.

(** The effect on the tree and on memory. *)
Lemma set_page_effect s root upage k (rw : bool) :
  vm_ok s -> tree_ok s root -> 4096 * root <> base_pml4 s -> is_user upage -> pg_ofs upage = 0 ->
  KERN_PAGE <= k < 2 ^ 52 ->
  exists b s', pml4_set_page (4096 * root) upage (4096 * k) rw s = Ok (b, s') /\ vm_ok s' /\ tree_ok s' root /\
    (forall va, is_user va -> mapping s' root va =
       if b && (pg_no va =? pg_no upage) then Some (4096 * (k - KERN_PAGE) + leaf_flags rw) else mapping s root va) /\
    (b = false -> forall r j, free_page s' r j <-> free_page s r j) /\
    (forall j, ~ free_page s KERNEL_POOL j -> ~ in_tree s root j -> pages s' !! j = pages s !! j).
Proof.
  intros Hv Htree Hroot Hu Hofs Hk.
  destruct (set_page_cases s root upage k rw) as (a & s1 & Hw & [[-> E]|(t & s2 & Ea & Hat & Hst & E)]); try done.
  - exists false, s1. split; [done|]. pose proof (wk_vm _ _ _ _ _ Hw) as Hv1. pose proof (wk_tree _ _ _ _ _ Hw) as Ht1.
    split_and!; [done|done|intros va _; apply (wk_map _ _ _ _ _ Hw)| |by apply Hw].
    intros _. by apply (wk_null _ _ _ _ _ Hw eq_refl).
  - exists true, s2. split; [done|]. pose proof (wk_vm _ _ _ _ _ Hw) as Hv1. pose proof (wk_tree _ _ _ _ _ Hw) as Ht1.
    destruct (new_entry_facts k (leaf_flags rw) Hk) as (Hval & Hpr & _); [by destruct rw|by destruct rw|].
    pose proof (stored_ok _ _ _ _ _ Hv1 Hst Hval) as Hv2.
    pose proof (leaf_tree _ _ _ _ _ _ Hv1 Ht1 Hat Hst) as Ht2. split_and!; [done|done| |done|].
    + intros va Hva. rewrite (leaf_mapping _ _ _ _ _ _ Hv1 Ht1 Hat Hst), Hpr, (wk_map _ _ _ _ _ Hw). cbn [andb].
      destruct (decide _) as [Hd|Hd]; rewrite (indices_page upage va Hu Hva) in Hd;
        destruct (Z.eqb_spec (pg_no va) (pg_no upage)); done.
    + intros j Hf Hn. rewrite (stored_frame _ _ _ _ _ Hst); [by apply Hw|]. intros ->.
      destruct (wk_tables _ _ _ _ _ Hw t); [|done|done]. exists (va_path upage). split; [apply va_path_ok|done].
Qed.

(** C23: pml4_set_page, given a page-aligned user address and a kernel page, returns
    true with the address mapped to that page, or false with every translation and
    the free pages as they were. Either way it neither panics nor changes where any
    other user page leads, keeps the tables a tree of allocated pages, and writes
    no page in use outside the tables of this address space. *)
Theorem set_page_maps s root upage k (rw : bool)
  (Hv : vm_ok s) (Htree : tree_ok s root) (Hroot : 4096 * root <> base_pml4 s)
  (Hu : is_user upage) (Hofs : pg_ofs upage = 0) (Hk : KERN_PAGE <= k < 2 ^ 52) :
  exists b s', pml4_set_page (4096 * root) upage (4096 * k) rw s = Ok (b, s') /\
    vm_ok s' /\ tree_ok s' root /\
    (forall va, is_user va -> exists r, pml4_get_page (4096 * root) va s = Ok (r, s) /\
       pml4_get_page (4096 * root) va s' =
         Ok (if b && (pg_no va =? pg_no upage) then 4096 * k + pg_ofs va else r, s')) /\
    (b = false -> forall r j, free_page s' r j <-> free_page s r j) /\
    (forall j, ~ free_page s KERNEL_POOL j -> ~ in_tree s root j -> pages s' !! j = pages s !! j).
Proof.
  destruct (set_page_effect s root upage k rw Hv Htree Hroot Hu Hofs Hk)
    as (b & s' & E & Hv' & Ht' & Hmap & Hfree & Hframe).
  exists b, s'. split_and!; try done. intros va Hva. exists (translate s root va). rewrite !get_page_run by done.
  split; [done|]. unfold translate. rewrite Hmap by done. destruct (_ && _); [by rewrite translate_value|done].
Qed.

(** ** Changing the entry of a mapped page *)

(** States with the same memory and pools translate alike. *)
Definition same_mem (s s' : vmem) : Prop := pages s' = pages s /\ forall r, the_pool r s' = the_pool r s.

Section SameMem.
Variables (s s' : vmem) (root : Z).
Hypothesis Hs : same_mem s s'.

Lemma same_mem_free r i : free_page s' r i <-> free_page s r i.
Proof. destruct Hs as [_ H]. unfold free_page. by rewrite H. Qed.

Lemma same_mem_entry t i : table_entry s' t i = table_entry s t i.
Proof. destruct Hs as [H _]. unfold table_entry. by rewrite H. Qed.

Lemma same_mem_at q : table_at s' root q = table_at s root q.
Proof.
  revert root. induction q as [|i q IH]; intros t; simpl; [done|].
  rewrite (child_same s s') by apply same_mem_entry. destruct (child s t i); [apply IH|done].
Qed.

Lemma same_mem_mapping va : mapping s' root va = mapping s root va.
Proof. unfold mapping. rewrite same_mem_at. destruct (table_at s root (va_path va)); [|done]. simpl. by rewrite same_mem_entry. Qed.

Lemma same_mem_ok : vm_ok s -> vm_ok s'.
Proof.
  destruct Hs as [Hp Hr]. intros [[H1 H2 H3] H4 H5]. split.
  - split.
    + intros r. rewrite Hr. apply H1.
    + intros i. pose proof (Hr KERNEL_POOL) as Hk. pose proof (Hr USER_POOL) as Hu. simpl in Hk, Hu. rewrite Hk, Hu. apply H2.
    + intros r i Hf. rewrite Hp. apply (H3 r), (proj1 (same_mem_free r i) Hf).
  - intros r. rewrite Hr. apply H4.
  - rewrite Hp. apply H5.
Qed.

Lemma same_mem_tree : tree_ok s root -> tree_ok s' root.
Proof.
  destruct Hs as [Hp Hr]. intros [H1 H2]. split.
  - intros q t Hq. rewrite same_mem_at, Hp, same_mem_free. pose proof (Hr KERNEL_POOL) as Hk. simpl in Hk. rewrite Hk. by apply H1.
  - intros p q t. rewrite !same_mem_at. apply H2.
Qed.
End SameMem.

Lemma flush_run s root va :
  KERN_PAGE <= root < 2 ^ 52 ->
  exists s', flush_if_active (4096 * root) va s = Ok (tt, s') /\ same_mem s s' /\
    flushed s' = if cr3 s =? 4096 * (root - KERN_PAGE) then va :: flushed s else flushed s.
Proof.
  intros Hr. unfold flush_if_active. rewrite (bind_run (gets _) _ s _ s eq_refl).
  rewrite (bind_run (lift _) _ s (4096 * (root - KERN_PAGE)) s) by (unfold lift; by rewrite vtop_page).
  destruct (_ =? _); eexists; (split; [done|]); (split; [|done]); (split; [done|by intros []]).
Qed.

(** The part that pml4_clear_page, pml4_set_dirty and pml4_set_accessed share: the
    entry of [va] gets the value [v], and the processor is told. *)
Lemma update_entry s root va t v :
  vm_ok s -> tree_ok s root -> table_at s root (va_path va) = Some t -> is_u64 v ->
  exists s', (store64 (4096 * t + 8 * PTX va) v;; flush_if_active (4096 * root) va) s = Ok (tt, s') /\
    vm_ok s' /\ tree_ok s' root /\
    (forall va', mapping s' root va' =
       if decide (va_path va' = va_path va /\ PTX va' = PTX va)
       then (if pte_has v PTE_P then Some v else None) else mapping s root va') /\
    flushed s' = (if cr3 s =? 4096 * (root - KERN_PAGE) then va :: flushed s else flushed s) /\
    table_at s' root (va_path va) = Some t /\ table_entry s' t (PTX va) = Some v.
Proof.
  intros Hv Htree Hat Hu. destruct (tr_used _ _ Htree _ _ (va_path_ok va) Hat) as (Hm & _).
  destruct (store64_entry s t (PTX va) v Hv Hm (index_9 _)) as (s1 & E & Hst).
  assert (Hroot : in_tree s root root) by (exists []; split; [split; [constructor|simpl; lia]|done]).
  destruct (in_tree_page s root root Hv Htree Hroot) as (_ & Hr & _).
  destruct (flush_run s1 root va Hr) as (s2 & E2 & Hsm & Hfl).
  exists s2. rewrite (bind_run _ _ _ _ _ E). split; [done|].
  pose proof (stored_ok _ _ _ _ _ Hv Hst Hu) as Hv1. pose proof (leaf_tree _ _ _ _ _ _ Hv Htree Hat Hst) as Ht1.
  split; [by eapply same_mem_ok|]. split; [by eapply same_mem_tree|]. split.
  { intros va'. rewrite (same_mem_mapping s1 s2) by done. by eapply leaf_mapping. }
  assert (Hregs : cr3 s1 = cr3 s /\ flushed s1 = flushed s) by (destruct Hst as (ws & _ & ->); done).
  destruct Hregs as [<- <-]. split; [done|]. rewrite (same_mem_at s1 s2), (same_mem_entry s1 s2) by done.
  rewrite (leaf_table_at s s1 root va t v) by (done || apply va_path_ok). split; [done|].
  rewrite (stored_entry s s1 t (PTX va) v Hv (index_9 _) Hst) by apply index_9. by rewrite decide_True.
Qed.

Lemma is_u64_land e m : is_u64 e -> is_u64 (Z.land e m).
Proof.
  intros He. apply u64_of_bits; [by apply Z.land_nonneg; left; destruct He|].
  intros j Hj. rewrite Z.land_spec, u64_high_bits by done. done.
Qed.

Lemma is_u64_lor e m : is_u64 e -> is_u64 m -> is_u64 (Z.lor e m).
Proof.
  intros He Hm. apply u64_of_bits; [by apply Z.lor_nonneg; split; [apply He|apply Hm]|].
  intros j Hj. by rewrite Z.lor_spec, !u64_high_bits by done.
Qed.

(** Pml4_clear_page makes the page unmapped and leaves every other page of the
    address space where it was; if the page was mapped in the active address space
    its translation is flushed from the processor. *)
Theorem clear_page_unmaps s root upage
  (Hv : vm_ok s) (Htree : tree_ok s root) (Hu : is_user upage) (Hofs : pg_ofs upage = 0) :
  exists s', pml4_clear_page (4096 * root) upage s = Ok (tt, s') /\ vm_ok s' /\ tree_ok s' root /\
    (forall va, is_user va -> exists r, pml4_get_page (4096 * root) va s = Ok (r, s) /\
       pml4_get_page (4096 * root) va s' = Ok (if pg_no va =? pg_no upage then null else r, s')) /\
    flushed s' = if bool_decide (is_Some (mapping s root upage)) && (cr3 s =? 4096 * (root - KERN_PAGE))
                 then upage :: flushed s else flushed s.
Proof.
  assert (Hunmapped : mapping s root upage = None ->
    forall va, is_user va -> exists r, pml4_get_page (4096 * root) va s = Ok (r, s) /\
       pml4_get_page (4096 * root) va s = Ok (if pg_no va =? pg_no upage then null else r, s)).
  { intros Hnone va Hva. exists (translate s root va). rewrite !get_page_run by done. split; [done|].
    destruct (Z.eqb_spec (pg_no va) (pg_no upage)) as [E|]; [|done].
    apply (indices_page upage va Hu Hva) in E as [E1 E2]. unfold translate, mapping in *.
    by rewrite E1, E2, Hnone. }
  unfold pml4_clear_page. rewrite Hofs, (user_vaddr _ Hu). do 2 rewrite (bind_run _ _ s tt s eq_refl).
  destruct (walk_lookup s root upage Hv Htree) as (a & E & H). rewrite (bind_run _ _ _ _ _ E).
  destruct (table_at s root (va_path upage)) as [t|] eqn:Hat.
  - destruct H as (-> & -> & Hm). cbn [negb].
    destruct (table_entry_some s t (PTX upage) Hv Hm (index_9 _)) as (ws & e & _ & _ & Hent & He).
    rewrite (bind_run _ _ _ _ _ (load64_entry _ _ _ _ (index_9 _) Hent)).
    assert (Hmap : mapping s root upage = if pte_has e PTE_P then Some e else None)
      by (unfold mapping; rewrite Hat; cbn [mbind option_bind]; by rewrite Hent).
    destruct (pte_has e PTE_P).
    + destruct (update_entry s root upage t (Z.land e (u64 (Z.lnot PTE_P))) Hv Htree Hat (is_u64_land _ _ He))
        as (s' & E' & Hv' & Ht' & Hmap' & Hfl & _).
      exists s'. split; [done|]. split; [done|]. split; [done|]. split; [|by rewrite Hmap, bool_decide_eq_true_2 by done].
      intros va Hva. exists (translate s root va). rewrite !get_page_run by done. split; [done|].
      unfold translate. rewrite Hmap'. replace (pte_has (Z.land e _) PTE_P) with false.
      * destruct (decide _) as [Hd|Hd]; rewrite (indices_page upage va Hu Hva) in Hd;
          destruct (Z.eqb_spec (pg_no va) (pg_no upage)); done.
      * unfold pte_has. rewrite <-Z.land_assoc. change (Z.land (u64 (Z.lnot PTE_P)) PTE_P) with 0. by rewrite Z.land_0_r.
    + exists s. split; [done|]. split; [done|]. split; [done|]. split; [by apply Hunmapped|].
      by rewrite Hmap, bool_decide_eq_false_2 by (intros [? [=]]).
  - subst a. exists s. assert (mapping s root upage = None) as Hmap by (unfold mapping; by rewrite Hat).
    split; [done|]. split; [done|]. split; [done|]. split; [by apply Hunmapped|].
    by rewrite Hmap, bool_decide_eq_false_2 by (intros [? [=]]).
Qed.

(** ** The dirty bit *)

(** The page number that an entry holds after its dirty bit was set or cleared. *)
Lemma dirty_value e (dirty : bool) :
  is_u64 e ->
  let e' := if dirty then Z.lor e PTE_D else Z.land e (u32 (Z.lnot PTE_D)) in
  is_u64 e' /\ pte_has e' PTE_P = pte_has e PTE_P /\ pte_has e' PTE_D = dirty /\
  e' / 4096 = if dirty then e / 4096 else (e / 4096) mod 2 ^ 20.
Proof.
  intros He e'. subst e'. rewrite <-!(Z.shiftr_div_pow2 _ 12 : _ -> _ = _ / 4096) by done.
  destruct dirty; unfold pte_has.
  - split; [apply is_u64_lor; [done|split; [done|reflexivity]]|].
    rewrite !Z.land_lor_distr_l. change (Z.land PTE_D PTE_P) with 0. rewrite Z.lor_0_r. split; [done|].
    split.
    + destruct (Z.eqb_spec (Z.lor (Z.land e PTE_D) (Z.land PTE_D PTE_D)) 0) as [H|]; [|done].
      by apply Z.lor_eq_0_iff in H as [_ H].
    + rewrite Z.shiftr_lor. change (Z.shiftr PTE_D 12) with 0. by rewrite Z.lor_0_r.
  - split; [by apply is_u64_land|]. rewrite <-!Z.land_assoc.
    change (Z.land (u32 (Z.lnot PTE_D)) PTE_P) with PTE_P. change (Z.land (u32 (Z.lnot PTE_D)) PTE_D) with 0.
    rewrite Z.land_0_r. split; [done|]. split; [done|].
    rewrite Z.shiftr_land. change (Z.shiftr (u32 (Z.lnot PTE_D)) 12) with (Z.ones 20). by rewrite Z.land_ones.
Qed.

(** Entries with different page numbers lead to different pages. *)
Lemma entry_page_eq e e' : is_u64 e -> is_u64 e' -> entry_page e = entry_page e' <-> e / 4096 = e' / 4096.
Proof.
  intros He He'. assert (forall x, is_u64 x -> 0 <= x / 4096 < 2 ^ 52).
  { intros x Hx. unfold is_u64 in Hx. split; [apply Z.div_pos|apply Z.div_lt_upper_bound]; lia. }
  assert (forall x, is_u64 x -> entry_page x = (x / 4096 + KERN_PAGE) mod 2 ^ 52) as Heq.
  { intros x Hx. unfold entry_page. by rewrite PTE_ADDR_eq, ptov_page, pg_no_page by done. }
  rewrite !Heq by done. split; [|by intros ->]. intros E.
  pose proof (H e He). pose proof (H e' He'). rewrite KERN_PAGE_eq in E.
  pose proof (Z.div_mod (e / 4096 + 0x8004000) (2 ^ 52) ltac:(done)).
  pose proof (Z.div_mod (e' / 4096 + 0x8004000) (2 ^ 52) ltac:(done)).
  assert (0 <= (e / 4096 + 0x8004000) / 2 ^ 52 <= 1 /\ 0 <= (e' / 4096 + 0x8004000) / 2 ^ 52 <= 1) by
    (split; (split; [apply Z.div_pos; lia|apply Z.lt_succ_r, Z.div_lt_upper_bound; lia])).
  lia.
Qed.

(** A present entry's translation. *)
Lemma translate_entry s root va e :
  mapping s root va = Some e -> is_u64 e -> translate s root va = 4096 * entry_page e + pg_ofs va.
Proof.
  intros Hm He. unfold translate. rewrite Hm, ptov_entry by done. pose proof (entry_page_range e He).
  rewrite pg_ofs_eq. pose proof (Z.mod_pos_bound va 4096 ltac:(done)). apply u64_small. unfold is_u64. lia.
Qed.

Lemma mapping_table s root va e :
  vm_ok s -> tree_ok s root -> mapping s root va = Some e ->
  exists t, table_at s root (va_path va) = Some t /\ table_entry s t (PTX va) = Some e /\
    pte_has e PTE_P = true /\ is_u64 e.
Proof.
  intros Hv Htree Hm. unfold mapping in Hm. destruct (table_at s root (va_path va)) as [t|] eqn:Hat; [|done].
  cbn [mbind option_bind] in Hm. destruct (tr_used _ _ Htree _ _ (va_path_ok va) Hat) as (Hmt & _).
  destruct (table_entry_some s t (PTX va) Hv Hmt (index_9 _)) as (ws & e' & _ & _ & Hent & He).
  rewrite Hent in Hm. cbn [mbind option_bind] in Hm. destruct (pte_has e' PTE_P) eqn:Hp; [|done].
  injection Hm as ->. by exists t.
Qed.

(** on a mapped page pml4_set_dirty gives the entry the dirty bit asked for, which
    pml4_is_dirty then reports, and leaves the translation of other pages alone.
    The page itself keeps its frame when the bit is set, and when it is cleared
    exactly if the entry is below 2^32: the complement of the 32-bit constant
    clears the upper half of the entry. *)
Theorem set_dirty_keeps_low_frames s root va e (dirty : bool)
  (Hv : vm_ok s) (Htree : tree_ok s root) (Hu : is_user va) (Hm : mapping s root va = Some e) :
  exists s', pml4_set_dirty (4096 * root) va dirty s = Ok (tt, s') /\ vm_ok s' /\ tree_ok s' root /\
    pml4_is_dirty (4096 * root) va s' = Ok (dirty, s') /\
    (forall va', is_user va' -> exists r r', pml4_get_page (4096 * root) va' s = Ok (r, s) /\
       pml4_get_page (4096 * root) va' s' = Ok (r', s') /\
       (pg_no va' <> pg_no va -> r' = r) /\
       (pg_no va' = pg_no va -> (r' = r <-> dirty = true \/ e < 2 ^ 32))).
Proof.
  destruct (mapping_table s root va e Hv Htree Hm) as (t & Hat & Hent & Hp & He).
  destruct (dirty_value e dirty He) as (Hu' & Hp' & Hd & Hpage).
  set (e' := if dirty then Z.lor e PTE_D else Z.land e (u32 (Z.lnot PTE_D))) in *.
  destruct (update_entry s root va t e' Hv Htree Hat Hu') as (s' & E & Hv' & Ht' & Hmap & _ & Hat' & Hent').
  exists s'. split; [|split; [done|split; [done|split]]].
  - unfold pml4_set_dirty. destruct (walk_lookup s root va Hv Htree) as (a & Ew & H). rewrite Hat in H.
    destruct H as (-> & Hnull & _). rewrite (bind_run _ _ _ _ _ Ew), Hnull. cbn [negb].
    by rewrite (bind_run _ _ _ _ _ (load64_entry _ _ _ _ (index_9 _) Hent)).
  - unfold pml4_is_dirty. destruct (walk_lookup s' root va Hv' Ht') as (a & Ew & H). rewrite Hat' in H.
    destruct H as (-> & Hnull & _). rewrite (bind_run _ _ _ _ _ Ew), Hnull. cbn [negb].
    rewrite (bind_run _ _ _ _ _ (load64_entry _ _ _ _ (index_9 _) Hent')), Hd. done.
  - intros va' Hva'. exists (translate s root va'), (translate s' root va'). rewrite !get_page_run by done.
    split; [done|]. split; [done|]. specialize (Hmap va'). rewrite Hp', Hp in Hmap.
    split; intros Hpg.
    + unfold translate. rewrite Hmap, decide_False; [done|]. by rewrite (indices_page va va' Hu Hva').
    + rewrite decide_True in Hmap by (by apply (indices_page va va' Hu Hva')).
      apply (indices_page va va' Hu Hva') in Hpg as [E1 E2].
      assert (Hm' : mapping s root va' = Some e) by (unfold mapping in *; by rewrite E1, E2).
      rewrite (translate_entry s root va' e Hm' He), (translate_entry s' root va' e' Hmap Hu').
      transitivity (entry_page e' = entry_page e); [lia|]. rewrite entry_page_eq, Hpage by done.
      unfold is_u64 in He. pose proof (Z.div_mod e 4096 ltac:(done)). pose proof (Z.mod_pos_bound e 4096 ltac:(done)).
      assert (0 <= e / 4096) by (apply Z.div_pos; lia).
      destruct dirty; [tauto|]. split; [intros Hmod; right|intros [|Hlt]; [done|]; apply Z.mod_small; lia].
      pose proof (Z.mod_pos_bound (e / 4096) (2 ^ 20) ltac:(done)). lia.
Qed.

(** ** A small address space *)

(** An empty table is a tree. *)
Lemma tree_empty s root :
  (forall j, index_ok j -> table_entry s root j = Some 0) ->
  is_Some (pages s !! root) -> in_pool (kernel_pool s) root -> ~ free_page s KERNEL_POOL root -> tree_ok s root.
Proof.
  intros H0 Hm Hin Hf.
  assert (H : forall q t, path_ok q -> table_at s root q = Some t -> q = [] /\ t = root).
  { intros [|i q] t [Hq _] Hat; [by injection Hat as <-|]. apply Forall_inv in Hq. simpl in Hat.
    by rewrite (child_entry _ _ _ 0) in Hat by auto. }
  split.
  - intros q t Hq Hat. by destruct (H q t Hq Hat) as [_ ->].
  - intros p q t Hp Hq H1 H2. destruct (H p t Hp H1) as [-> _]. by destruct (H q t Hq H2) as [-> _].
Qed.

Lemma ram_page lo n i ws : ram lo n !! i = Some ws -> ws = replicate PAGE_WORDS 0.
Proof.
  unfold ram. intros H. apply elem_of_list_to_map_2, list_elem_of_fmap in H as (j & E & _). congruence.
Qed.

Lemma small_vm_ok : vm_ok small_vmem.
Proof.
  split; [apply small_vmem_ok| |].
  - intros []; vm_compute; discriminate.
  - intros i ws H. apply ram_page in H as ->. split; [apply length_replicate|].
    apply Forall_replicate. split; [done|reflexivity].
Qed.

(** The second page, in use and zero, is the root of an empty address space. *)
Lemma small_tree_ok : tree_ok small_vmem (RAM + 1).
Proof.
  destruct (ram_mapped RAM 12 (RAM + 1) ltac:(lia)) as [ws Hws].
  apply tree_empty.
  - intros j Hj. rewrite (table_entry_at _ _ _ ws) by done. rewrite (ram_page _ _ _ _ Hws).
    apply lookup_replicate_2. unfold index_ok, PAGE_WORDS in *. lia.
  - by exists ws.
  - split; vm_compute; [discriminate|reflexivity].
  - intros [_ H]. by vm_compute in H.
Qed.

Lemma set_page_maps_witness :
  exists b s', pml4_set_page (4096 * (RAM + 1)) 0x400000 (4096 * (RAM + 8)) true small_vmem = Ok (b, s') /\ b = true /\
    pml4_get_page (4096 * (RAM + 1)) 0x400123 s' = Ok (4096 * (RAM + 8) + 0x123, s').
Proof.
  destruct (set_page_maps small_vmem (RAM + 1) 0x400000 (RAM + 8) true small_vm_ok small_tree_ok)
    as (b & s' & E & _ & _ & Hget & _); [done|split; [done|reflexivity]|done|split; [done|reflexivity]|].
  assert (Hb : outcome_val (pml4_set_page (4096 * (RAM + 1)) 0x400000 (4096 * (RAM + 8)) true small_vmem) = Some true)
    by (vm_compute; reflexivity).
  rewrite E in Hb. injection Hb as ->. exists true, s'. split; [exact E|]. split; [reflexivity|].
  destruct (Hget 0x400123) as (r & _ & H); [split; [done|reflexivity]|]. exact H.
Defined.

(** The same with a page mapped at 0x400000. *)
Lemma mapped_vmem :
  exists s, vm_ok s /\ tree_ok s (RAM + 1) /\
    mapping s (RAM + 1) 0x400000 = Some (4096 * (RAM + 8 - KERN_PAGE) + 7).
Proof.
  destruct (set_page_effect small_vmem (RAM + 1) 0x400000 (RAM + 8) true small_vm_ok small_tree_ok)
    as (b & s' & E & Hv & Ht & Hmap & _); [done|split; [done|reflexivity]|done|split; [done|reflexivity]|].
  assert (Hb : outcome_val (pml4_set_page (4096 * (RAM + 1)) 0x400000 (4096 * (RAM + 8)) true small_vmem) = Some true)
    by (vm_compute; reflexivity).
  rewrite E in Hb. injection Hb as ->. exists s'. split; [done|]. split; [done|].
  rewrite Hmap by (split; [done|reflexivity]). reflexivity.
Qed.

Lemma clear_page_unmaps_witness :
  exists s s', is_Some (mapping s (RAM + 1) 0x400000) /\
    pml4_clear_page (4096 * (RAM + 1)) 0x400000 s = Ok (tt, s') /\
    pml4_get_page (4096 * (RAM + 1)) 0x400123 s' = Ok (null, s').
Proof.
  destruct mapped_vmem as (s & Hv & Ht & Hm).
  destruct (clear_page_unmaps s (RAM + 1) 0x400000 Hv Ht) as (s' & E & _ & _ & Hget & _);
    [split; [done|reflexivity]|done|].
  exists s, s'. split; [by eexists|]. split; [exact E|].
  destruct (Hget 0x400123) as (r & _ & H); [split; [done|reflexivity]|]. exact H.
Defined.

Lemma set_dirty_keeps_low_frames_witness :
  exists s s', pml4_set_dirty (4096 * (RAM + 1)) 0x400000 false s = Ok (tt, s') /\
    exists r r', pml4_get_page (4096 * (RAM + 1)) 0x400000 s = Ok (r, s) /\
      pml4_get_page (4096 * (RAM + 1)) 0x400000 s' = Ok (r', s') /\ r' = r.
Proof.
  destruct mapped_vmem as (s & Hv & Ht & Hm).
  assert (Hu : is_user 0x400000) by (split; [done|reflexivity]).
  destruct (set_dirty_keeps_low_frames s (RAM + 1) 0x400000 _ false Hv Ht Hu Hm) as (s' & E & _ & _ & _ & Hget).
  exists s, s'. split; [exact E|]. destruct (Hget 0x400000 Hu) as (r & r' & H1 & H2 & _ & H3).
  exists r, r'. split; [exact H1|]. split; [exact H2|]. apply H3; [reflexivity|]. right. reflexivity.
Defined.
