(* ===== verification/FsState.v ===== *)
(** * The file system's state

    The disk as numbered sectors, the free map, and the kernel's tables of open
    inodes, files and directories, whose structures live on the heap: a pointer is
    the key of a map. What devices/disk.c does with the controller is not
    modelled: reading and writing a sector are its assertions and the effect. *)

From S2P Require Import Prelude Bitmap.

Definition null : Z := 0.

(** ** The data *)

Definition DISK_SECTOR_SIZE : Z := 512.
Definition INODE_MAGIC : Z := 0x494e4f44.
Definition FREE_MAP_SECTOR : Z := 0.
Definition ROOT_DIR_SECTOR : Z := 1.
Definition NAME_MAX : Z := 14.

(** [struct inode_disk], [struct inode], [struct file], [struct dir] *)
Record inode_disk : Type := InodeDisk { d_start : Z; d_length : Z; d_magic : Z }.
Record inode : Type := Inode {
  sector : Z; open_cnt : Z; removed : bool; deny_write_cnt : Z; data : inode_disk
}.
Record file : Type := File {
  f_inode : Z; f_pos : Z; f_deny_write : bool; dup_count : Z; mapping_cnt : Z
}.
Record dir : Type := Dir { dir_inode : Z; dir_pos : Z }.

(** [sectors] are the disk's contents, 512 bytes each; [open_inodes] the pointers
    on the list of that name, the front first. [mallocs] are the results that the
    memory allocator will give, one for each request: [false] is failure, and
    beyond the list requests succeed. [next_ptr] is the next block's address. *)
Record fs : Type := Fs {
  capacity : Z;
  sectors : gmap Z (list Z);
  free_map : bitmap;
  free_map_file : Z;
  open_inodes : list Z;
  inodes : gmap Z inode;
  files : gmap Z file;
  dirs : gmap Z dir;
  mallocs : list bool;
  next_ptr : Z
}.

Definition set_sectors (m : gmap Z (list Z)) (s : fs) : fs :=
  Fs (capacity s) m (free_map s) (free_map_file s) (open_inodes s) (inodes s) (files s) (dirs s) (mallocs s) (next_ptr s).
Definition set_free_map (b : bitmap) (s : fs) : fs :=
  Fs (capacity s) (sectors s) b (free_map_file s) (open_inodes s) (inodes s) (files s) (dirs s) (mallocs s) (next_ptr s).
Definition set_free_map_file (f : Z) (s : fs) : fs :=
  Fs (capacity s) (sectors s) (free_map s) f (open_inodes s) (inodes s) (files s) (dirs s) (mallocs s) (next_ptr s).
Definition set_open_inodes (l : list Z) (s : fs) : fs :=
  Fs (capacity s) (sectors s) (free_map s) (free_map_file s) l (inodes s) (files s) (dirs s) (mallocs s) (next_ptr s).
Definition set_inodes (m : gmap Z inode) (s : fs) : fs :=
  Fs (capacity s) (sectors s) (free_map s) (free_map_file s) (open_inodes s) m (files s) (dirs s) (mallocs s) (next_ptr s).
Definition set_files (m : gmap Z file) (s : fs) : fs :=
  Fs (capacity s) (sectors s) (free_map s) (free_map_file s) (open_inodes s) (inodes s) m (dirs s) (mallocs s) (next_ptr s).
Definition set_dirs (m : gmap Z dir) (s : fs) : fs :=
  Fs (capacity s) (sectors s) (free_map s) (free_map_file s) (open_inodes s) (inodes s) (files s) m (mallocs s) (next_ptr s).
Definition set_heap (l : list bool) (n : Z) (s : fs) : fs :=
  Fs (capacity s) (sectors s) (free_map s) (free_map_file s) (open_inodes s) (inodes s) (files s) (dirs s) l n.

(** ** Memory *)

(** malloc and calloc: a fresh pointer or null. *)
Definition malloc : M fs Z :=
  s ← get;
  match mallocs s with
  | false :: l => modify (set_heap l (next_ptr s));; mret null
  | l => modify (set_heap (tail l) (next_ptr s + 1));; mret (next_ptr s)
  end.

(** Reading through a pointer; what is not there is freed or never existed. *)
Definition get_inode (p : Z) : M fs inode := s ← get; lift (from_option_ub (inodes s !! p)).
Definition get_file (p : Z) : M fs file := s ← get; lift (from_option_ub (files s !! p)).
Definition get_dir (p : Z) : M fs dir := s ← get; lift (from_option_ub (dirs s !! p)).

Definition put_inode (p : Z) (i : inode) : M fs unit := modify (fun s => set_inodes (<[p := i]> (inodes s)) s).
Definition put_file (p : Z) (f : file) : M fs unit := modify (fun s => set_files (<[p := f]> (files s)) s).
Definition put_dir (p : Z) (d : dir) : M fs unit := modify (fun s => set_dirs (<[p := d]> (dirs s)) s).

Definition free_inode (p : Z) : M fs unit := modify (fun s => set_inodes (delete p (inodes s)) s).
Definition free_file (p : Z) : M fs unit := modify (fun s => set_files (delete p (files s)) s).
Definition free_dir (p : Z) : M fs unit := modify (fun s => set_dirs (delete p (dirs s)) s).

(** ** The disk *)

(** The assertions of select_sector. *)
Definition select_sector (sec_no : Z) : M fs unit :=
  c ← gets capacity;
  assertM (sec_no <? c);;
  assertM (sec_no <? 2 ^ 28).

Definition disk_read (sec_no : Z) : M fs (list Z) :=
  select_sector sec_no;;
  s ← get; lift (from_option_ub (sectors s !! sec_no)).

Definition disk_write (sec_no : Z) (buffer : list Z) : M fs unit :=
  select_sector sec_no;;
  modify (fun s => set_sectors (<[sec_no := buffer]> (sectors s)) s).

Definition disk_size : M fs Z := gets capacity.

(** ** Blocks of bytes *)

(** [n] bytes of a block from offset [ofs]; a read or write outside it is undefined. *)
Definition block_read (block : list Z) (ofs n : Z) : outcome (list Z) :=
  if (0 <=? ofs) && (0 <=? n) && (ofs + n <=? Z.of_nat (length block))
  then Ok (take (Z.to_nat n) (drop (Z.to_nat ofs) block)) else Undef.

(** [l] with [new] over its bytes from [ofs] on. *)
Definition splice (l : list Z) (ofs : nat) (new : list Z) : list Z :=
  take ofs l ++ new ++ drop (ofs + length new) l.

Definition block_write (block : list Z) (ofs : Z) (new : list Z) : outcome (list Z) :=
  if (0 <=? ofs) && (ofs + Z.of_nat (length new) <=? Z.of_nat (length block))
  then Ok (splice block (Z.to_nat ofs) new) else Undef.

(** The inode as it is on disk, and reading it back. *)
Definition inode_bytes (d : inode_disk) : list Z :=
  le_split 4 (d_start d) ++ le_split 4 (u32 (d_length d)) ++ le_split 4 (d_magic d) ++ replicate 500 0.

Definition bytes_inode (l : list Z) : inode_disk :=
  InodeDisk (le_combine (take 4 l)) (s32 (le_combine (take 4 (drop 4 l)))) (le_combine (take 4 (drop 8 l))).
