(* ===== verification/Inode.v ===== *)
(** * filesys/inode.c: reading and writing

    The part of inode.c below the free map: an open inode's data on the disk, in
    consecutive sectors, and opening inodes. *)

From S2P Require Import Prelude Bitmap FsState.

(** ** Sectors of a file *)

(** [DIV_ROUND_UP (size, DISK_SECTOR_SIZE)], in int arithmetic. *)
Definition bytes_to_sectors (size : Z) : outcome Z :=
  a ← int32 (size + DISK_SECTOR_SIZE);
  b ← int32 (a - 1);
  mret (Z.quot b DISK_SECTOR_SIZE).

Definition byte_to_sector (i : inode) (pos : Z) : Z :=
  if pos <? d_length (data i) then u32 (d_start (data i) + Z.quot pos DISK_SECTOR_SIZE) else u32 (-1).

Definition inode_length (p : Z) : M fs Z := i ← get_inode p; mret (d_length (data i)).

Definition inode_get_inumber (p : Z) : M fs Z := i ← get_inode p; mret (sector i).

(** ** Opening *)

Definition inode_reopen (p : Z) : M fs Z :=
  if negb (p =? null) then
    i ← get_inode p;
    n ← lift (int32 (open_cnt i + 1));
    put_inode p (Inode (sector i) n (removed i) (deny_write_cnt i) (data i));;
    mret p
  else mret p.

(** The search of the list of open inodes. *)
Fixpoint find_open (l : list Z) (sec : Z) : M fs (option Z) :=
  match l with
  | [] => mret None
  | p :: l => i ← get_inode p; if sector i =? sec then mret (Some p) else find_open l sec
  end.

Definition inode_open (sec : Z) : M fs Z :=
  l ← gets open_inodes;
  r ← find_open l sec;
  match r with
  | Some p => inode_reopen p
  | None =>
      p ← malloc;
      if p =? null then mret null else
      modify (fun s => set_open_inodes (p :: open_inodes s) s);;
      buf ← disk_read sec;
      put_inode p (Inode sec 1 false 0 (bytes_inode buf));;
      mret p
  end.

Definition inode_remove (p : Z) : M fs unit :=
  assertM (negb (p =? null));;
  i ← get_inode p;
  put_inode p (Inode (sector i) (open_cnt i) true (deny_write_cnt i) (data i)).

Definition inode_deny_write (p : Z) : M fs unit :=
  i ← get_inode p;
  n ← lift (int32 (deny_write_cnt i + 1));
  put_inode p (Inode (sector i) (open_cnt i) (removed i) n (data i));;
  assertM (n <=? open_cnt i).

Definition inode_allow_write (p : Z) : M fs unit :=
  i ← get_inode p;
  assertM (deny_write_cnt i >? 0);;
  assertM (deny_write_cnt i <=? open_cnt i);;
  put_inode p (Inode (sector i) (open_cnt i) (removed i) (deny_write_cnt i - 1) (data i)).

(** ** Reading and writing *)

(** What both loops compute for one round: the sector, the offset in it and the
    number of bytes to copy. *)
Definition next_chunk (p size offset : Z) : M fs (Z * Z * Z * Z) :=
  assertM (negb (p =? null));;
  i ← get_inode p;
  let sector_idx := byte_to_sector i offset in
  let sector_ofs := Z.rem offset DISK_SECTOR_SIZE in
  inode_left ← lift (int32 (d_length (data i) - offset));
  let sector_left := DISK_SECTOR_SIZE - sector_ofs in
  let min_left := if inode_left <? sector_left then inode_left else sector_left in
  let chunk_size := if size <? min_left then size else min_left in
  mret (sector_idx, sector_ofs, sector_left, chunk_size).

(** A bounce buffer is there, or is allocated now; [false] if that fails. *)
Definition need_bounce (bounce : bool) : M fs bool :=
  if bounce then mret true else p ← malloc; mret (negb (p =? null)).

(** [acc] are the bytes copied to the caller's buffer so far. *)
Fixpoint read_loop (fuel : nat) (p size offset : Z) (bounce : bool) (acc : list Z) : M fs (list Z) :=
  match fuel with
  | O => nofuelM
  | S fuel =>
      if size >? 0 then
        '(sector_idx, sector_ofs, sector_left, chunk_size) ← next_chunk p size offset;
        if chunk_size <=? 0 then mret acc else
        if (sector_ofs =? 0) && (chunk_size =? DISK_SECTOR_SIZE) then
          buf ← disk_read sector_idx;
          read_loop fuel p (size - chunk_size) (offset + chunk_size) bounce (acc ++ buf)
        else
          ok ← need_bounce bounce;
          if negb ok then mret acc else
          buf ← disk_read sector_idx;
          bytes ← lift (block_read buf sector_ofs chunk_size);
          read_loop fuel p (size - chunk_size) (offset + chunk_size) true (acc ++ bytes)
      else mret acc
  end.

(** Each round copies at least a byte. The result are the bytes read, which the
    caller's buffer begins with; its length is the function's result. *)
Definition inode_read_at (p size offset : Z) : M fs (list Z) :=
  read_loop (S (Z.to_nat size)) p size offset false [].

Fixpoint write_loop (fuel : nat) (p : Z) (buffer : list Z) (size offset bytes_written : Z) (bounce : bool) : M fs Z :=
  match fuel with
  | O => nofuelM
  | S fuel =>
      if size >? 0 then
        '(sector_idx, sector_ofs, sector_left, chunk_size) ← next_chunk p size offset;
        if chunk_size <=? 0 then mret bytes_written else
        if (sector_ofs =? 0) && (chunk_size =? DISK_SECTOR_SIZE) then
          bytes ← lift (block_read buffer bytes_written chunk_size);
          disk_write sector_idx bytes;;
          write_loop fuel p buffer (size - chunk_size) (offset + chunk_size) (bytes_written + chunk_size) bounce
        else
          ok ← need_bounce bounce;
          if negb ok then mret bytes_written else
          buf ← (if (sector_ofs >? 0) || (chunk_size <? sector_left) then disk_read sector_idx
                 else mret (replicate 512 0));
          bytes ← lift (block_read buffer bytes_written chunk_size);
          buf ← lift (block_write buf sector_ofs bytes);
          disk_write sector_idx buf;;
          write_loop fuel p buffer (size - chunk_size) (offset + chunk_size) (bytes_written + chunk_size) true
      else mret bytes_written
  end.

Definition inode_write_at (p : Z) (buffer : list Z) (size offset : Z) : M fs Z :=
  i ← get_inode p;
  if negb (deny_write_cnt i =? 0) then mret 0
  else write_loop (S (Z.to_nat size)) p buffer size offset 0 false.

(** ** Through a file (file.c) *)

Definition file_read_at (f size file_ofs : Z) : M fs (list Z) :=
  x ← get_file f; inode_read_at (f_inode x) size file_ofs.

Definition file_write_at (f : Z) (buffer : list Z) (size file_ofs : Z) : M fs Z :=
  x ← get_file f; inode_write_at (f_inode x) buffer size file_ofs.
