(* ===== verification/InodeFacts.v ===== *)
(** * Files as byte sequences

    The bytes of an open inode are those of its sectors, in order. Reading gives a
    piece of them; writing changes a piece of them and nothing else on the disk. *)

From S2P Require Import Prelude Bitmap FsState Inode.

(** ** The bytes of a file *)

Definition byte_at (s : fs) (k i : Z) : Z := default 0 (l ← sectors s !! k; l !! Z.to_nat i).

(** Byte [j] of the file whose data start in sector [start]. *)
Definition file_byte (s : fs) (start j : Z) : Z := byte_at s (start + j / 512) (j mod 512).

Definition bytes_of (s : fs) (start ofs n : Z) : list Z := file_byte s start <$> seqZ ofs n.

Definition content (s : fs) (d : inode_disk) : list Z := bytes_of s (d_start d) 0 (d_length d).

Definition nsectors (n : Z) : Z := (n + 511) / 512.

(** A disk with all its sectors. *)
Record disk_ok (s : fs) : Prop := {
  do_capacity : 0 <= capacity s <= 2 ^ 28;
  do_sectors k : 0 <= k < capacity s -> exists l, sectors s !! k = Some l /\ length l = 512%nat
}.

(** Data that lie on the disk. *)
Record data_ok (s : fs) (d : inode_disk) : Prop := {
  da_length : 0 <= d_length d < 2 ^ 31;
  da_start : 0 <= d_start d;
  da_end : d_start d + nsectors (d_length d) <= capacity s
}.

(** [s'] is [s] but for the memory allocator. *)
Definition heap_only (s s' : fs) : Prop := exists l n, s' = set_heap l n s.

(** The allocator will serve every request. *)
Definition no_failures (s : fs) : Prop := Forall (eq true) (mallocs s) /\ 0 < next_ptr s.

Lemma heap_only_refl s : heap_only s s.
Proof. exists (mallocs s), (next_ptr s). by destruct s. Qed.

Lemma heap_only_trans s1 s2 s3 : heap_only s1 s2 -> heap_only s2 s3 -> heap_only s1 s3.
Proof. intros (l & n & ->) (l' & n' & ->). by exists l', n'. Qed.

Lemma wp_malloc s (Q : Z -> fs -> Prop) :
  0 < next_ptr s ->
  (forall p s', heap_only s s' -> next_ptr s <= next_ptr s' -> (no_failures s -> no_failures s' /\ p = next_ptr s) ->
     (p = null \/ p = next_ptr s /\ next_ptr s' = next_ptr s + 1) -> Q p s') ->
  wp malloc Q s.
Proof.
  intros Hn HQ. unfold malloc. wp_step. apply wp_get. unfold no_failures in HQ.
  destruct (mallocs s) as [|[] l] eqn:E; wp_steps; apply HQ; simpl.
  - by eexists _, _.
  - lia.
  - intros _. split; [split; [constructor|lia]|done].
  - by right.
  - by eexists _, _.
  - lia.
  - intros [H _]. split; [|done]. split; [by inversion H|lia].
  - by right.
  - by eexists _, _.
  - done.
  - intros [H _]. by inversion H.
  - by left.
Qed.

(** ** Sectors and bytes *)

Lemma nsectors_bounds n : 0 <= n -> 0 <= nsectors n /\ n <= 512 * nsectors n < n + 512.
Proof. intros H. unfold nsectors. pose proof (Z.div_mod (n + 511) 512 ltac:(done)). pose proof (Z.mod_pos_bound (n + 511) 512 ltac:(done)). lia. Qed.

Lemma bytes_to_sectors_ok n : 0 <= n < 2 ^ 31 - 512 -> bytes_to_sectors n = Ok (nsectors n).
Proof.
  intros H. unfold bytes_to_sectors, DISK_SECTOR_SIZE. rewrite int32_ok by (unfold is_s32; lia).
  cbn -[int32 Z.quot]. replace (n + 512 - 1) with (n + 511) by ring. rewrite int32_ok by (unfold is_s32; lia).
  cbn -[Z.quot]. by rewrite Z.quot_div_nonneg by lia.
Qed.

(** The sector of a byte of the file is on the disk. *)
Lemma sector_of_byte s d j :
  disk_ok s -> data_ok s d -> 0 <= j < d_length d ->
  0 <= d_start d + j / 512 < capacity s /\
  exists l, sectors s !! (d_start d + j / 512) = Some l /\ length l = 512%nat.
Proof.
  intros Hd [Hl Hs He] Hj. pose proof (nsectors_bounds (d_length d) ltac:(lia)).
  pose proof (Z.div_mod j 512 ltac:(done)). pose proof (Z.mod_pos_bound j 512 ltac:(done)).
  assert (0 <= d_start d + j / 512 < capacity s) as Hk by lia. split; [done|]. by apply (do_sectors _ Hd).
Qed.

Lemma byte_at_list s k l i : sectors s !! k = Some l -> byte_at s k i = default 0 (l !! Z.to_nat i).
Proof. unfold byte_at. by intros ->. Qed.

(** Bytes in the same sector. *)
Lemma same_sector ofs i : 0 <= i -> ofs mod 512 + i < 512 -> (ofs + i) / 512 = ofs / 512 /\ (ofs + i) mod 512 = ofs mod 512 + i.
Proof.
  intros Hi Hin. pose proof (Z.div_mod ofs 512 ltac:(done)). pose proof (Z.mod_pos_bound ofs 512 ltac:(done)).
  split; [symmetry; apply (Z.div_unique_pos _ _ _ (ofs mod 512 + i)); lia|].
  symmetry; apply (Z.mod_unique_pos _ _ (ofs / 512)); lia.
Qed.

(** A piece of one sector. *)
Lemma sector_piece s start ofs n l :
  0 <= ofs -> 0 <= n -> ofs mod 512 + n <= 512 ->
  sectors s !! (start + ofs / 512) = Some l -> length l = 512%nat ->
  take (Z.to_nat n) (drop (Z.to_nat (ofs mod 512)) l) = bytes_of s start ofs n.
Proof.
  intros Ho Hn Hin Hl Hlen. unfold bytes_of. apply list_eq. intros i.
  pose proof (Z.mod_pos_bound ofs 512 ltac:(done)).
  destruct (decide (i < Z.to_nat n)%nat) as [Hi|Hi].
  - rewrite lookup_take_lt, lookup_drop by done. rewrite list_lookup_fmap, (lookup_seqZ_lt ofs) by lia. simpl.
    destruct (lookup_lt_is_Some_2 l (Z.to_nat (ofs mod 512) + i)) as [b Hb]; [lia|]. rewrite Hb. f_equal.
    unfold file_byte. destruct (same_sector ofs (Z.of_nat i)) as [-> ->]; [lia..|].
    rewrite (byte_at_list _ _ _ _ Hl).
    replace (Z.to_nat (ofs mod 512 + Z.of_nat i)) with (Z.to_nat (ofs mod 512) + i)%nat by lia. by rewrite Hb.
  - rewrite lookup_ge_None_2 by (rewrite length_take; lia). symmetry. apply lookup_ge_None_2.
    rewrite length_fmap, length_seqZ. lia.
Qed.

Lemma bytes_of_app s start ofs n m :
  0 <= n -> 0 <= m -> bytes_of s start ofs (n + m) = bytes_of s start ofs n ++ bytes_of s start (ofs + n) m.
Proof. intros Hn Hm. unfold bytes_of. by rewrite seqZ_app, fmap_app by lia. Qed.

Lemma length_bytes_of s start ofs n : length (bytes_of s start ofs n) = Z.to_nat n.
Proof. unfold bytes_of. by rewrite length_fmap, length_seqZ. Qed.

(** Pieces of the file's bytes. *)
Lemma content_piece s d ofs n :
  0 <= ofs -> 0 <= n -> ofs + n <= d_length d ->
  bytes_of s (d_start d) ofs n = take (Z.to_nat n) (drop (Z.to_nat ofs) (content s d)).
Proof.
  intros Ho Hn Hl. unfold content. replace (d_length d) with (ofs + (n + (d_length d - ofs - n))) by lia.
  rewrite bytes_of_app, bytes_of_app by lia.
  rewrite drop_app_length' by (by rewrite length_bytes_of). by rewrite take_app_length' by (by rewrite length_bytes_of).
Qed.

Lemma bytes_of_heap s s' start ofs n : heap_only s s' -> bytes_of s' start ofs n = bytes_of s start ofs n.
Proof. by intros (l & k & ->). Qed.

(** ** One round of the loops *)

(** An open inode whose data lie on the disk. *)
Record open_at (s : fs) (p : Z) (i : inode) : Prop := {
  oa_null : p <> null;
  oa_inode : inodes s !! p = Some i;
  oa_data : data_ok s (data i)
}.

(** Requests of the memory allocator in between. *)
Record heap_step (s s' : fs) : Prop := {
  hs_only : heap_only s s';
  hs_next : next_ptr s <= next_ptr s';
  hs_fail : no_failures s -> no_failures s'
}.

#[export] Instance heap_step_preorder : PreOrder heap_step.
Proof.
  split; [by split; [apply heap_only_refl| |]|].
  intros s1 s2 s3 [H1 H2 H3] [H4 H5 H6]. split; [by eapply heap_only_trans|lia|auto].
Qed.

(** The bytes that a transfer of [size] from [offset] can move. *)
Definition avail (d : inode_disk) (size offset : Z) : Z := Z.max 0 (Z.min size (d_length d - offset)).

Definition chunk (d : inode_disk) (size offset : Z) : Z :=
  Z.min size (Z.min (d_length d - offset) (512 - offset mod 512)).

Lemma wp_next_chunk s p i size offset (Q : Z * Z * Z * Z -> fs -> Prop) :
  disk_ok s -> open_at s p i -> 0 < size -> 0 <= offset < 2 ^ 31 ->
  (offset < d_length (data i) -> 0 < chunk (data i) size offset ->
     Q (d_start (data i) + offset / 512, offset mod 512, 512 - offset mod 512, chunk (data i) size offset) s) ->
  (forall k o l c, c <= 0 -> avail (data i) size offset = 0 -> Q (k, o, l, c) s) ->
  wp (next_chunk p size offset) Q s.
Proof.
  intros Hd [Hp Hi Hda] Hs Ho HQ HQ0. unfold next_chunk. wp_step. apply wp_assert; [by destruct (Z.eqb_spec p null)|].
  unfold get_inode. do 3 wp_step. apply (wp_lift _ i); [by rewrite Hi|]. cbn beta.
  destruct Hda as [Hl Hst He]. wp_step. eapply wp_lift; [apply int32_ok; unfold is_s32; lia|]. cbn beta. wp_step.
  unfold DISK_SECTOR_SIZE. rewrite (Z.rem_mod_nonneg offset 512) by lia.
  pose proof (Z.mod_pos_bound offset 512 ltac:(done)).
  set (c := if size <? _ then _ else _).
  assert (c = chunk (data i) size offset) as Hc.
  { unfold c, chunk. destruct (Z.ltb_spec (d_length (data i) - offset) (512 - offset mod 512));
      [destruct (Z.ltb_spec size (d_length (data i) - offset))|destruct (Z.ltb_spec size (512 - offset mod 512))]; lia. }
  destruct (decide (offset < d_length (data i))) as [Hin|Hin].
  - assert (byte_to_sector i offset = d_start (data i) + offset / 512) as ->.
    { unfold byte_to_sector, DISK_SECTOR_SIZE. rewrite (proj2 (Z.ltb_lt _ _)) by done. rewrite Z.quot_div_nonneg by lia.
      destruct (sector_of_byte s (data i) offset Hd) as [Hk _]; [by split|lia|]. apply u32_small. unfold is_u32.
      pose proof (do_capacity _ Hd). lia. }
    rewrite Hc. apply HQ; [done|]. unfold chunk. lia.
  - apply HQ0; [rewrite Hc; unfold chunk; lia|unfold avail; lia].
Qed.

Lemma wp_disk_read s k l (Q : list Z -> fs -> Prop) :
  disk_ok s -> 0 <= k < capacity s -> sectors s !! k = Some l -> Q l s -> wp (disk_read k) Q s.
Proof.
  intros Hd Hk Hl HQ. pose proof (do_capacity _ Hd). unfold disk_read, select_sector. wp_step. wp_step. wp_step. cbn beta.
  wp_step. apply wp_assert; [apply Z.ltb_lt; lia|]. apply wp_assert; [apply Z.ltb_lt; lia|].
  do 2 wp_step. apply (wp_lift _ l); [by rewrite Hl|done].
Qed.

Lemma wp_disk_write s k l (Q : unit -> fs -> Prop) :
  disk_ok s -> 0 <= k < capacity s -> Q tt (set_sectors (<[k := l]> (sectors s)) s) -> wp (disk_write k l) Q s.
Proof.
  intros Hd Hk HQ. pose proof (do_capacity _ Hd). unfold disk_write, select_sector. wp_step. wp_step. wp_step. cbn beta.
  wp_step. apply wp_assert; [apply Z.ltb_lt; lia|]. apply wp_assert; [apply Z.ltb_lt; lia|]. by wp_step.
Qed.

(** What every state of a loop's rounds keeps. *)
Lemma heap_step_open s s' p i : heap_step s s' -> disk_ok s -> open_at s p i -> disk_ok s' /\ open_at s' p i.
Proof. intros [(l & n & ->) _ _] [H1 H2] [H3 H4 [H5 H6 H7]]. split; [by split|]. split; [done|done|by split]. Qed.

Lemma wp_need_bounce bounce s (Q : bool -> fs -> Prop) :
  0 < next_ptr s ->
  (forall b s', heap_step s s' -> (no_failures s -> b = true) -> Q b s') ->
  wp (need_bounce bounce) Q s.
Proof.
  intros Hn HQ. unfold need_bounce. destruct bounce; [apply wp_ret, HQ; done|].
  wp_step. apply wp_malloc; [done|]. intros a s' H1 H2 H3 _. apply wp_ret. apply HQ.
  - split; [done|done|]. intros H. by apply H3.
  - intros Hf. destruct (H3 Hf) as [_ ->]. destruct Hf as [_ H]. by destruct (Z.eqb_spec (next_ptr s) null); [unfold null in *; lia|].
Qed.

(** ** Reading *)

(** The bytes still to move after a chunk. *)
Lemma avail_chunk d size offset :
  0 < size -> 0 <= offset -> 0 < chunk d size offset ->
  avail d size offset = chunk d size offset + avail d (size - chunk d size offset) (offset + chunk d size offset) /\
  chunk d size offset <= size /\ offset + chunk d size offset <= d_length d /\
  offset mod 512 + chunk d size offset <= 512.
Proof.
  unfold chunk, avail. intros Hs Ho Hc. pose proof (Z.mod_pos_bound offset 512 ltac:(done)). lia.
Qed.

(** What a transfer of [n] bytes may be: all that is available when memory is. *)
Definition moved (s : fs) (d : inode_disk) (size offset n : Z) : Prop :=
  0 <= n <= avail d size offset /\ (no_failures s -> n = avail d size offset).

Lemma moved_chunk s s' d size offset n :
  heap_step s s' -> 0 < size -> 0 <= offset -> 0 < chunk d size offset ->
  moved s' d (size - chunk d size offset) (offset + chunk d size offset) n ->
  moved s d size offset (chunk d size offset + n).
Proof.
  intros Hh Hs Ho Hc [H1 H2]. destruct (avail_chunk d size offset Hs Ho Hc) as [E _].
  split; [lia|]. intros Hf. rewrite H2 by (by apply Hh). lia.
Qed.

Lemma moved_none s d size offset : avail d size offset = 0 -> moved s d size offset 0.
Proof. unfold moved. lia. Qed.

Lemma moved_failed s d size offset : ~ no_failures s -> moved s d size offset 0.
Proof. unfold moved, avail. intros H. split; [lia|done]. Qed.

Definition read_post (s : fs) (d : inode_disk) (size offset : Z) (acc : list Z) (r : list Z) (s' : fs) : Prop :=
  heap_step s s' /\ exists n, moved s d size offset n /\ r = acc ++ bytes_of s (d_start d) offset n.

(** A chunk is read, the loop goes on. *)
Lemma read_post_chunk s s1 s2 d size offset acc r :
  heap_step s s1 -> 0 < size -> 0 <= offset -> 0 < chunk d size offset ->
  let c := chunk d size offset in
  read_post s1 d (size - c) (offset + c) (acc ++ bytes_of s (d_start d) offset c) r s2 ->
  read_post s d size offset acc r s2.
Proof.
  intros Hh Hs Ho Hc c (Hh2 & n & Hm & ->). split; [by etrans|]. exists (c + n). split; [by eapply moved_chunk|].
  destruct Hm as [Hn _]. rewrite bytes_of_app by lia. rewrite (bytes_of_heap s s1) by apply Hh. by rewrite app_assoc.
Qed.

Lemma read_loop_ok fuel p i size offset bounce acc s :
  disk_ok s -> open_at s p i -> 0 < next_ptr s -> 0 <= offset < 2 ^ 31 -> size < 2 ^ 31 ->
  (Z.to_nat size < fuel)%nat ->
  wp (read_loop fuel p size offset bounce acc) (read_post s (data i) size offset acc) s.
Proof.
  revert size offset bounce acc s. induction fuel as [|fuel IH]; intros size offset bounce acc s Hd Hp Hn Ho Hsz Hf; [lia|].
  simpl. destruct (Z.gtb_spec size 0) as [Hs|Hs].
  2:{ apply wp_ret. split; [done|]. exists 0. split; [apply moved_none; unfold avail; lia|]. by rewrite app_nil_r. }
  wp_step. apply (wp_next_chunk _ _ i); [done..| |].
  2:{ intros k o l c Hc Ha. cbn beta iota. rewrite (proj2 (Z.leb_le _ _)) by done. apply wp_ret.
      split; [done|]. exists 0. split; [by apply moved_none|]. by rewrite app_nil_r. }
  intros Hin Hc. cbn beta iota. set (c := chunk _ _ _) in *. rewrite (proj2 (Z.leb_gt _ _)) by done.
  destruct (avail_chunk (data i) size offset Hs ltac:(lia) Hc) as (_ & Hcs & Hcl & Hcm). fold c in Hcs, Hcl, Hcm.
  pose proof (da_length _ _ (oa_data _ _ _ Hp)) as Hlen.
  assert (forall s1 b, heap_step s s1 -> wp (read_loop fuel p (size - c) (offset + c) b (acc ++ bytes_of s (d_start (data i)) offset c))
     (read_post s (data i) size offset acc) s1) as Hnext.
  { intros s1 b Hh. destruct (heap_step_open _ _ _ _ Hh Hd Hp) as [Hd1 Hp1].
    eapply wp_mono; [apply IH; [done|done|pose proof (hs_next _ _ Hh); lia|lia|lia|lia]|]. intros r s2 Hr. apply (read_post_chunk s s1); [exact Hh|lia|lia|exact Hc|exact Hr]. }
  destruct (sector_of_byte s (data i) offset Hd (oa_data _ _ _ Hp) ltac:(lia)) as (Hk & l & Hl & Hll).
  destruct (_ && _) eqn:Efull.
  - apply andb_true_iff in Efull as [E1 E2]. apply Z.eqb_eq in E1, E2. unfold DISK_SECTOR_SIZE in E2.
    wp_step. apply (wp_disk_read _ _ l); [done..|]. cbn beta.
    assert (l = bytes_of s (d_start (data i)) offset c) as ->; [|by apply Hnext].
    rewrite <-(sector_piece _ _ _ _ l), E1, E2 by (done || lia). symmetry. simpl. apply take_ge. lia.
  - wp_step. apply wp_need_bounce; [done|]. intros b s1 Hh Hb. cbn beta. destruct b; simpl.
    2:{ apply wp_ret. split; [done|]. exists 0. split; [apply moved_failed; intros Hnf; by specialize (Hb Hnf)|]. by rewrite app_nil_r. }
    destruct (heap_step_open _ _ _ _ Hh Hd Hp) as [Hd1 Hp1]. pose proof Hh as [(m & k & ->) _ _].
    wp_step. apply (wp_disk_read _ _ l); [done..|]. cbn beta. wp_step.
    pose proof (Z.mod_pos_bound offset 512 ltac:(done)).
    eapply wp_lift.
    { unfold block_read. rewrite (proj2 (Z.leb_le 0 (offset mod 512))), (proj2 (Z.leb_le 0 c)) by lia.
      rewrite (proj2 (Z.leb_le _ (Z.of_nat (length l)))) by lia. reflexivity. }
    cbn beta. rewrite (sector_piece s (d_start (data i))) by (done || lia). by apply Hnext.
Qed.

Lemma inode_read_ok p i size offset s :
  disk_ok s -> open_at s p i -> 0 < next_ptr s -> 0 <= offset < 2 ^ 31 -> size < 2 ^ 31 ->
  wp (inode_read_at p size offset) (read_post s (data i) size offset []) s.
Proof. intros. apply read_loop_ok; [done..|lia]. Qed.

(** ** Bytes of the disk by their address *)

Definition disk_byte (s : fs) (a : Z) : Z := byte_at s (a / 512) (a mod 512).

(** [f] with [bytes] from [base] on. *)
Definition overlay (f : Z -> Z) (base : Z) (bytes : list Z) (a : Z) : Z :=
  if base <=? a then default (f a) (bytes !! Z.to_nat (a - base)) else f a.

Lemma overlay_nil f base a : overlay f base [] a = f a.
Proof. unfold overlay. by destruct (base <=? a). Qed.

Lemma overlay_app f g base b1 b2 a :
  (forall x, g x = overlay f base b1 x) ->
  overlay g (base + Z.of_nat (length b1)) b2 a = overlay f base (b1 ++ b2) a.
Proof.
  intros Hg. unfold overlay at 1. rewrite !Hg. unfold overlay.
  destruct (Z.leb_spec (base + Z.of_nat (length b1)) a), (Z.leb_spec base a); try lia; [|by rewrite lookup_app_l by lia].
  rewrite lookup_app_r by lia. rewrite (lookup_ge_None_2 b1) by lia. simpl. do 2 f_equal. lia.
Qed.

Lemma file_byte_disk s start j : file_byte s start j = disk_byte s (512 * start + j).
Proof.
  unfold file_byte, disk_byte. replace (512 * start + j) with (j + start * 512) by ring.
  rewrite Z.div_add, Z.mod_add by done. f_equal. ring.
Qed.

Lemma length_splice l ofs new : (ofs + length new <= length l)%nat -> length (splice l ofs new) = length l.
Proof. intros H. unfold splice. rewrite !length_app, length_take, length_drop. lia. Qed.

Lemma lookup_splice l ofs new i :
  (ofs + length new <= length l)%nat ->
  splice l ofs new !! i = if decide (ofs <= i < ofs + length new)%nat then new !! (i - ofs)%nat else l !! i.
Proof.
  intros H. unfold splice. destruct (decide _) as [Hi|Hi].
  - rewrite lookup_app_r, lookup_app_l; rewrite length_take; [|lia..]. f_equal. lia.
  - destruct (decide (i < ofs)%nat).
    + rewrite lookup_app_l by (rewrite length_take; lia). by apply lookup_take_lt.
    + rewrite !lookup_app_r by (rewrite ?length_take; lia). rewrite lookup_drop, length_take. f_equal. lia.
Qed.

(** Writing a piece of one sector. *)
Lemma sector_write_byte s k l o bytes a :
  sectors s !! k = Some l -> length l = 512%nat -> 0 <= o -> o + Z.of_nat (length bytes) <= 512 ->
  disk_byte (set_sectors (<[k := splice l (Z.to_nat o) bytes]> (sectors s)) s) a
  = overlay (disk_byte s) (512 * k + o) bytes a.
Proof.
  intros Hl Hll Ho Hin. unfold overlay, disk_byte, byte_at. simpl.
  pose proof (Z.div_mod a 512 ltac:(done)). pose proof (Z.mod_pos_bound a 512 ltac:(done)).
  destruct (decide (k = a / 512)) as [->|Hk].
  - rewrite lookup_insert_eq, Hl. simpl. rewrite lookup_splice by lia. destruct (decide _) as [Hd|Hd].
    + rewrite (proj2 (Z.leb_le _ _)) by lia. replace (Z.to_nat (a - _)) with (Z.to_nat (a mod 512) - Z.to_nat o)%nat by lia.
      destruct (lookup_lt_is_Some_2 bytes (Z.to_nat (a mod 512) - Z.to_nat o)) as [b ->]; [lia|done].
    + destruct (Z.leb_spec (512 * (a / 512) + o) a); [|done]. by rewrite (lookup_ge_None_2 bytes) by lia.
  - rewrite lookup_insert_ne by done. destruct (Z.leb_spec (512 * k + o) a); [|done].
    by rewrite (lookup_ge_None_2 bytes) by lia.
Qed.

(** ** Writing *)

(** Writing to the disk and requests of the memory allocator. *)
Record disk_step (s s' : fs) : Prop := {
  ds_only : exists m l n, s' = set_sectors m (set_heap l n s);
  ds_disk : disk_ok s -> disk_ok s';
  ds_next : next_ptr s <= next_ptr s';
  ds_fail : no_failures s -> no_failures s'
}.

#[export] Instance disk_step_preorder : PreOrder disk_step.
Proof.
  split.
  - split; [|done..]. exists (sectors x), (mallocs x), (next_ptr x). by destruct x.
  - intros s1 s2 s3 [(m & l & n & ->) H2 H3 H4] [(m' & l' & n' & ->) H6 H7 H8]. split; [by exists m', l', n'|auto|lia|auto].
Qed.

Lemma heap_disk_step s s' : heap_step s s' -> disk_step s s'.
Proof.
  intros [(l & n & ->) H2 H3]. split; [|by intros [? ?]; split|done..].
  by exists (sectors s), l, n.
Qed.

Lemma sector_disk_step s k l : length l = 512%nat -> disk_step s (set_sectors (<[k := l]> (sectors s)) s).
Proof.
  intros Hl. split; [|intros [H1 H2]; split; [done|]|done..].
  - exists (<[k := l]> (sectors s)), (mallocs s), (next_ptr s). by destruct s.
  - simpl. intros j Hj. destruct (decide (k = j)) as [->|]; [rewrite lookup_insert_eq; eauto|].
    rewrite lookup_insert_ne by done. by apply H2.
Qed.

Lemma disk_step_open s s' p i : disk_step s s' -> open_at s p i -> open_at s' p i.
Proof. intros [(m & l & n & ->) _ _ _] [H3 H4 [H5 H6 H7]]. split; [done|done|by split]. Qed.

Definition write_post (s : fs) (d : inode_disk) (buffer : list Z) (size offset w : Z) (r : Z) (s' : fs) : Prop :=
  disk_step s s' /\ exists n, moved s d size offset n /\ r = w + n /\
    forall a, disk_byte s' a = overlay (disk_byte s) (512 * d_start d + offset) (take (Z.to_nat n) (drop (Z.to_nat w) buffer)) a.

Lemma write_post_none s s' d buffer size offset w :
  heap_step s s' -> moved s d size offset 0 -> write_post s d buffer size offset w w s'.
Proof.
  intros Hh Hm. split; [by apply heap_disk_step|]. exists 0. split; [done|]. split; [lia|]. intros a. simpl.
  rewrite overlay_nil. by destruct Hh as [(l & n & ->) _ _].
Qed.

(** The state after a chunk of [bytes] has been written. *)
Definition chunk_written (s : fs) (d : inode_disk) (offset : Z) (bytes : list Z) (s' : fs) : Prop :=
  disk_step s s' /\ forall a, disk_byte s' a = overlay (disk_byte s) (512 * d_start d + offset) bytes a.

Lemma moved_disk s s' d size offset n :
  disk_step s s' -> 0 < size -> 0 <= offset -> 0 < chunk d size offset ->
  moved s' d (size - chunk d size offset) (offset + chunk d size offset) n ->
  moved s d size offset (chunk d size offset + n).
Proof.
  intros Hh Hs Ho Hc [H1 H2]. destruct (avail_chunk d size offset Hs Ho Hc) as [E _].
  split; [lia|]. intros Hf. rewrite H2 by (by apply (ds_fail _ _ Hh)). lia.
Qed.

Lemma write_post_chunk s s1 s2 d buffer size offset w r :
  0 < size -> 0 <= offset -> 0 <= w -> w + size <= Z.of_nat (length buffer) ->
  let c := chunk d size offset in 0 < c ->
  chunk_written s d offset (take (Z.to_nat c) (drop (Z.to_nat w) buffer)) s1 ->
  write_post s1 d buffer (size - c) (offset + c) (w + c) r s2 -> write_post s d buffer size offset w r s2.
Proof.
  intros Hs Ho Hw Hb c Hc (Hd1 & Hb1) (Hd2 & n & Hm & -> & Hb2). split; [by etrans|].
  exists (c + n). split; [by eapply moved_disk|]. split; [lia|]. intros a. rewrite Hb2.
  destruct (avail_chunk d size offset Hs Ho Hc) as (_ & Hcs & _). fold c in Hcs. destruct Hm as [[Hn _] _].
  set (b1 := take (Z.to_nat c) (drop (Z.to_nat w) buffer)) in *.
  assert (length b1 = Z.to_nat c) as Hl by (unfold b1; rewrite length_take, length_drop; lia).
  replace (512 * d_start d + (offset + c)) with (512 * d_start d + offset + Z.of_nat (length b1)) by lia.
  rewrite (overlay_app (disk_byte s)) by done. f_equal. unfold b1.
  rewrite (Z2Nat.inj_add w c), (Z2Nat.inj_add c n), <-drop_drop by lia. apply take_take_drop.
Qed.

(** Putting a chunk in its sector. *)
Lemma chunk_write s s1 d l offset bytes :
  heap_step s s1 -> sectors s !! (d_start d + offset / 512) = Some l -> length l = 512%nat ->
  offset mod 512 + Z.of_nat (length bytes) <= 512 ->
  chunk_written s d offset bytes
    (set_sectors (<[d_start d + offset / 512 := splice l (Z.to_nat (offset mod 512)) bytes]> (sectors s1)) s1).
Proof.
  intros Hh Hl Hll Hin. pose proof (Z.mod_pos_bound offset 512 ltac:(done)).
  split.
  - etrans; [by apply heap_disk_step|]. apply sector_disk_step. rewrite length_splice; [done|lia].
  - intros a. pose proof Hh as [(m & k & ->) _ _].
    replace (512 * d_start d + offset) with (512 * (d_start d + offset / 512) + offset mod 512)
      by (pose proof (Z.div_mod offset 512 ltac:(done)); lia).
    apply (sector_write_byte s); [exact Hl|exact Hll|lia|lia].
Qed.

Lemma block_read_ok (l : list Z) ofs n :
  0 <= ofs -> 0 <= n -> ofs + n <= Z.of_nat (length l) ->
  block_read l ofs n = Ok (take (Z.to_nat n) (drop (Z.to_nat ofs) l)).
Proof. intros. unfold block_read. by rewrite !(proj2 (Z.leb_le _ _)) by lia. Qed.

Lemma block_write_ok (l new : list Z) ofs :
  0 <= ofs -> ofs + Z.of_nat (length new) <= Z.of_nat (length l) ->
  block_write l ofs new = Ok (splice l (Z.to_nat ofs) new).
Proof. intros. unfold block_write. by rewrite !(proj2 (Z.leb_le _ _)) by lia. Qed.

Lemma splice_all l new : length new = length l -> splice l 0 new = new.
Proof. intros H. unfold splice. simpl. rewrite (drop_ge l) by lia. apply app_nil_r. Qed.

Lemma write_loop_ok fuel p i buffer size offset w bounce s :
  disk_ok s -> open_at s p i -> 0 < next_ptr s -> 0 <= offset < 2 ^ 31 -> size < 2 ^ 31 ->
  0 <= w -> w + size <= Z.of_nat (length buffer) -> (Z.to_nat size < fuel)%nat ->
  wp (write_loop fuel p buffer size offset w bounce) (write_post s (data i) buffer size offset w) s.
Proof.
  revert size offset w bounce s. induction fuel as [|fuel IH]; intros size offset w bounce s Hd Hp Hn Ho Hsz Hw Hb Hf; [lia|].
  simpl. destruct (Z.gtb_spec size 0) as [Hs|Hs].
  2:{ apply wp_ret, write_post_none; [done|]. apply moved_none. unfold avail. lia. }
  wp_step. apply (wp_next_chunk _ _ i); [done..| |].
  2:{ intros k o l c Hc Ha. cbn beta iota. rewrite (proj2 (Z.leb_le _ _)) by done.
      apply wp_ret, write_post_none; [done|]. by apply moved_none. }
  intros Hin Hc. cbn beta iota. set (c := chunk _ _ _) in *. rewrite (proj2 (Z.leb_gt _ _)) by done.
  destruct (avail_chunk (data i) size offset Hs ltac:(lia) Hc) as (_ & Hcs & Hcl & Hcm). fold c in Hcs, Hcl, Hcm.
  pose proof (da_length _ _ (oa_data _ _ _ Hp)) as Hlen. pose proof (Z.mod_pos_bound offset 512 ltac:(done)).
  assert (length (take (Z.to_nat c) (drop (Z.to_nat w) buffer)) = Z.to_nat c) as Hbl by (rewrite length_take, length_drop; lia).
  destruct (sector_of_byte s (data i) offset Hd (oa_data _ _ _ Hp) ltac:(lia)) as (Hk & l & Hl & Hll).
  assert (forall s1 b, heap_step s s1 -> wp
     (disk_write (d_start (data i) + offset / 512) (splice l (Z.to_nat (offset mod 512)) (take (Z.to_nat c) (drop (Z.to_nat w) buffer)));;
      write_loop fuel p buffer (size - c) (offset + c) (w + c) b) (write_post s (data i) buffer size offset w) s1) as Hnext.
  { intros s1 b Hh. destruct (heap_step_open _ _ _ _ Hh Hd Hp) as [Hd1 Hp1].
    wp_step. apply wp_disk_write; [done|by pose proof Hh as [(m & k & ->) _ _]|].
    pose proof (chunk_write s s1 (data i) l offset (take (Z.to_nat c) (drop (Z.to_nat w) buffer)) Hh Hl Hll ltac:(lia)) as Hcw.
    set (s2 := set_sectors _ s1) in *. pose proof Hcw as [Hds _].
    eapply wp_mono; [apply IH; [by apply Hds|by eapply disk_step_open|pose proof (hs_next _ _ Hh); pose proof (ds_next _ _ Hds); simpl in *; lia|lia..]|].
    intros r s3 Hr. apply (write_post_chunk s s2); [lia..|exact Hcw|exact Hr]. }
  destruct (_ && _) eqn:Efull.
  - apply andb_true_iff in Efull as [E1 E2]. apply Z.eqb_eq in E1, E2. unfold DISK_SECTOR_SIZE in E2.
    wp_step. eapply wp_lift; [apply block_read_ok; lia|]. cbn beta.
    specialize (Hnext s bounce ltac:(done)). rewrite E1, splice_all in Hnext by (rewrite Hbl; lia). exact Hnext.
  - wp_step. apply wp_need_bounce; [done|]. intros b s1 Hh Hbo. cbn beta. destruct b; simpl.
    2:{ apply wp_ret, write_post_none; [done|]. apply moved_failed. intros Hnf. by specialize (Hbo Hnf). }
    destruct (heap_step_open _ _ _ _ Hh Hd Hp) as [Hd1 Hp1].
    assert ((offset mod 512 >? 0) || (c <? 512 - offset mod 512) = true) as ->.
    { apply orb_true_iff. rewrite Z.gtb_lt, Z.ltb_lt. apply andb_false_iff in Efull as [E|E];
        apply Z.eqb_neq in E; unfold DISK_SECTOR_SIZE in E; lia. }
    wp_step. pose proof Hh as [(m & k & ->) _ _]. apply (wp_disk_read _ _ l); [done..|]. cbn beta.
    wp_step. eapply wp_lift; [apply block_read_ok; lia|]. cbn beta.
    wp_step. eapply wp_lift; [apply block_write_ok; lia|]. cbn beta. by apply Hnext.
Qed.

Lemma inode_write_ok p i buffer size offset s :
  disk_ok s -> open_at s p i -> 0 < next_ptr s -> 0 <= offset < 2 ^ 31 -> size < 2 ^ 31 ->
  size <= Z.of_nat (length buffer) -> deny_write_cnt i = 0 ->
  wp (inode_write_at p buffer size offset) (write_post s (data i) buffer size offset 0) s.
Proof.
  intros Hd Hp Hn Ho Hs Hb Hw. unfold inode_write_at, get_inode. do 3 wp_step.
  apply (wp_lift _ i); [by rewrite (oa_inode _ _ _ Hp)|]. cbn beta. rewrite Hw, Z.eqb_refl. cbn [negb].
  apply write_loop_ok; [done..|lia|lia|lia].
Qed.

(** ** The file's content *)

Lemma lookup_bytes_of s start ofs n k :
  (k < Z.to_nat n)%nat -> bytes_of s start ofs n !! k = Some (disk_byte s (512 * start + ofs + Z.of_nat k)).
Proof.
  intros H. unfold bytes_of. rewrite list_lookup_fmap, (lookup_seqZ_lt ofs) by lia. simpl. rewrite file_byte_disk.
  do 2 f_equal. lia.
Qed.

Lemma length_content s d : length (content s d) = Z.to_nat (d_length d).
Proof. apply length_bytes_of. Qed.

Lemma read_content s d offset n :
  0 <= n -> 0 <= offset -> offset + n <= d_length d \/ n = 0 ->
  bytes_of s (d_start d) offset n = take (Z.to_nat n) (drop (Z.to_nat offset) (content s d)).
Proof. intros Hn Ho [H| ->]; [by apply content_piece|]. by unfold bytes_of. Qed.

(** Overlaying bytes of the file is splicing its content. *)
Lemma content_splice s s' d offset bytes :
  0 <= offset -> offset + Z.of_nat (length bytes) <= d_length d ->
  (forall a, disk_byte s' a = overlay (disk_byte s) (512 * d_start d + offset) bytes a) ->
  content s' d = splice (content s d) (Z.to_nat offset) bytes.
Proof.
  intros Ho Hin Hb. apply list_eq. intros k. rewrite lookup_splice by (rewrite length_content; lia).
  destruct (decide (k < Z.to_nat (d_length d))%nat) as [Hk|Hk].
  - unfold content. rewrite !lookup_bytes_of, Hb by done. unfold overlay. destruct (decide _) as [Hd|Hd].
    + rewrite (proj2 (Z.leb_le _ _)) by lia. replace (Z.to_nat (_ - _)) with (k - Z.to_nat offset)%nat by lia.
      destruct (lookup_lt_is_Some_2 bytes (k - Z.to_nat offset)) as [b ->]; [lia|done].
    + destruct (Z.leb_spec (512 * d_start d + offset) (512 * d_start d + 0 + Z.of_nat k)); [|done].
      by rewrite lookup_ge_None_2 by lia.
  - rewrite lookup_ge_None_2 by (rewrite length_content; lia). rewrite decide_False by lia.
    symmetry. apply lookup_ge_None_2. rewrite length_content. lia.
Qed.

(** The sectors of a file. *)
Definition on_sectors (d : inode_disk) (k : Z) : Prop := d_start d <= k < d_start d + nsectors (d_length d).

(** A write leaves the other sectors as they were. *)
Lemma sector_same s s' k :
  disk_ok s -> disk_ok s' -> capacity s' = capacity s -> 0 <= k < capacity s ->
  (forall a, a / 512 = k -> disk_byte s' a = disk_byte s a) -> sectors s' !! k = sectors s !! k.
Proof.
  intros H1 H2 Hc Hk Hb. destruct (do_sectors _ H1 k Hk) as (l & Hl & Hll).
  destruct (do_sectors _ H2 k ltac:(lia)) as (l' & Hl' & Hll'). rewrite Hl, Hl'. f_equal. apply list_eq. intros i.
  destruct (decide (i < 512)%nat) as [Hi|Hi]; [|by rewrite !lookup_ge_None_2 by lia].
  specialize (Hb (512 * k + Z.of_nat i)).
  assert ((512 * k + Z.of_nat i) / 512 = k) as E by (symmetry; apply (Z.div_unique_pos _ _ _ (Z.of_nat i)); lia).
  specialize (Hb E). unfold disk_byte in Hb. rewrite E in Hb.
  assert ((512 * k + Z.of_nat i) mod 512 = Z.of_nat i) as E2 by (symmetry; apply (Z.mod_unique_pos _ _ k); lia).
  rewrite E2, (byte_at_list _ _ _ _ Hl), (byte_at_list _ _ _ _ Hl'), Nat2Z.id in Hb.
  destruct (lookup_lt_is_Some_2 l i) as [b Eb]; [lia|]. destruct (lookup_lt_is_Some_2 l' i) as [b' Eb']; [lia|].
  rewrite Eb, Eb' in Hb |- *. simpl in Hb. by rewrite Hb.
Qed.

Lemma overlay_outside f base bytes a :
  a < base \/ base + Z.of_nat (length bytes) <= a -> overlay f base bytes a = f a.
Proof.
  unfold overlay. intros [H|H]; [by rewrite (proj2 (Z.leb_gt _ _)) by lia|].
  rewrite (proj2 (Z.leb_le _ _)) by lia. by rewrite lookup_ge_None_2 by lia.
Qed.

Lemma write_other s s' d offset bytes k :
  disk_ok s -> disk_step s s' -> 0 <= offset -> 0 <= k < capacity s -> ~ on_sectors d k ->
  0 <= d_length d -> offset + Z.of_nat (length bytes) <= d_length d \/ bytes = [] ->
  (forall a, disk_byte s' a = overlay (disk_byte s) (512 * d_start d + offset) bytes a) ->
  sectors s' !! k = sectors s !! k.
Proof.
  intros Hd Hs Ho Hk Hn Hlen Hin Hb. pose proof (ds_disk _ _ Hs Hd) as Hd'. pose proof (ds_only _ _ Hs) as (m & l & n & E).
  apply sector_same; [done|done|by rewrite E|done|]. intros a Ha. rewrite Hb.
  destruct Hin as [Hin| ->]; [|by rewrite overlay_nil]. apply overlay_outside.
  unfold on_sectors in Hn. pose proof (nsectors_bounds (d_length d) Hlen).
  pose proof (Z.div_mod a 512 ltac:(done)). pose proof (Z.mod_pos_bound a 512 ltac:(done)). lia.
Qed.
