(* ===== verification/FreeMap.v ===== *)
(** * filesys/free-map.c and the rest of inode.c

    Allocating sectors, and the operations on inodes that allocate or release them.
    The free map is a bitmap that is stored in a file, through the interface
    [FileIO], which an open file implements here. *)

From S2P Require Import Prelude Interfaces Bitmap FsState Inode.

(** ** A file as storage *)

Definition fs_fileio (f : Z) : FileIO fs := {|
  io_read_at := file_read_at f;
  io_write_at := file_write_at f
|}.

(** ** The free map *)

(** [garbage] is what the memory for the bits holds. *)
Definition free_map_init (garbage : list Z) : M fs unit :=
  n ← disk_size;
  p1 ← malloc;
  p2 ← (if p1 =? null then mret null else malloc);
  b ← lift (bitmap_create n (negb (p1 =? null)) (negb (p2 =? null)) garbage);
  match b with
  | None => panicM
  | Some b =>
      b ← lift (bitmap_mark b FREE_MAP_SECTOR);
      b ← lift (bitmap_mark b ROOT_DIR_SECTOR);
      modify (set_free_map b)
  end.

(** [Some sector] is success, with [*sectorp] the sector. *)
Definition free_map_allocate (cnt : Z) : M fs (option Z) :=
  b ← gets free_map;
  '(idx, b) ← lift (bitmap_scan_and_flip b 0 cnt false);
  modify (set_free_map b);;
  let sector := u32 idx in
  f ← gets free_map_file;
  sector ←
    (if negb (sector =? BITMAP_ERROR) && negb (f =? null) then
       ok ← bitmap_write (H := fs_fileio f) b;
       if negb ok then
         b ← lift (bitmap_set_multiple b sector cnt false);
         modify (set_free_map b);;
         mret (u32 BITMAP_ERROR)
       else mret sector
     else mret sector);
  if negb (sector =? BITMAP_ERROR) then mret (Some sector) else mret None.

Definition free_map_release (sector cnt : Z) : M fs unit :=
  b ← gets free_map;
  all ← lift (bitmap_all b sector cnt);
  assertM all;;
  b ← lift (bitmap_set_multiple b sector cnt false);
  modify (set_free_map b);;
  f ← gets free_map_file;
  bitmap_write (H := fs_fileio f) b;;
  mret tt.

(** ** Creating and closing inodes *)

Definition inode_init : M fs unit := modify (set_open_inodes []).

(** The loop that zeroes [n] more sectors from [start + i] on. *)
Fixpoint zero_loop (n : nat) (start i : Z) : M fs unit :=
  match n with
  | O => mret tt
  | S n => disk_write (u32 (start + i)) (replicate 512 0);; zero_loop n start (i + 1)
  end.

Definition inode_create (sector length : Z) : M fs bool :=
  assertM (length >=? 0);;
  disk_inode ← malloc;
  if negb (disk_inode =? null) then
    sectors ← lift (bytes_to_sectors length);
    r ← free_map_allocate sectors;
    match r with
    | Some start =>
        disk_write sector (inode_bytes (InodeDisk start length INODE_MAGIC));;
        (if sectors >? 0 then zero_loop (Z.to_nat sectors) start 0 else mret tt);;
        mret true
    | None => mret false
    end
  else mret false.

Definition inode_close (p : Z) : M fs unit :=
  if p =? null then mret tt else
  i ← get_inode p;
  n ← lift (int32 (open_cnt i - 1));
  put_inode p (Inode (sector i) n (removed i) (deny_write_cnt i) (data i));;
  if n =? 0 then
    modify (fun s => set_open_inodes (filter (fun q => q ≠ p) (open_inodes s)) s);;
    (if removed i then
       free_map_release (sector i) 1;;
       cnt ← lift (bytes_to_sectors (d_length (data i)));
       free_map_release (d_start (data i)) cnt
     else mret tt);;
    free_inode p
  else mret tt.
