(* ===== verification/FsFile.v ===== *)
(** * filesys/file.c, and the file of the free map

    An open file is an inode with a position; several files share an inode. *)

From S2P Require Import Prelude Interfaces Bitmap FsState Inode FreeMap.

(** ** Opening and closing *)

(** calloc clears the structure; the fields that are not assigned stay 0. *)
Definition file_open (inode : Z) : M fs Z :=
  file ← malloc;
  if negb (inode =? null) && negb (file =? null) then
    put_file file (File inode 0 false 1 0);; mret file
  else
    inode_close inode;; mret null.

Definition file_reopen (f : Z) : M fs Z :=
  x ← get_file f;
  p ← inode_reopen (f_inode x);
  file_open p.

Definition file_deny_write (f : Z) : M fs unit :=
  assertM (negb (f =? null));;
  x ← get_file f;
  if negb (f_deny_write x) then
    put_file f (File (f_inode x) (f_pos x) true (dup_count x) (mapping_cnt x));;
    inode_deny_write (f_inode x)
  else mret tt.

Definition file_allow_write (f : Z) : M fs unit :=
  assertM (negb (f =? null));;
  x ← get_file f;
  if f_deny_write x then
    put_file f (File (f_inode x) (f_pos x) false (dup_count x) (mapping_cnt x));;
    inode_allow_write (f_inode x)
  else mret tt.

Definition file_duplicate (f : Z) : M fs Z :=
  x ← get_file f;
  p ← inode_reopen (f_inode x);
  nfile ← file_open p;
  if negb (nfile =? null) then
    y ← get_file nfile;
    x ← get_file f;
    put_file nfile (File (f_inode y) (f_pos x) (f_deny_write y) (dup_count y) (mapping_cnt y));;
    (if f_deny_write x then file_deny_write nfile else mret tt);;
    mret nfile
  else mret nfile.

Definition file_close (f : Z) : M fs unit :=
  if negb (f =? null) then
    file_allow_write f;;
    x ← get_file f;
    inode_close (f_inode x);;
    free_file f
  else mret tt.

Definition file_get_inode (f : Z) : M fs Z := x ← get_file f; mret (f_inode x).

(** ** Reading and writing *)

Definition file_read (f size : Z) : M fs (list Z) :=
  x ← get_file f;
  bytes ← inode_read_at (f_inode x) size (f_pos x);
  pos ← lift (int32 (f_pos x + Z.of_nat (length bytes)));
  put_file f (File (f_inode x) pos (f_deny_write x) (dup_count x) (mapping_cnt x));;
  mret bytes.

Definition file_write (f : Z) (buffer : list Z) (size : Z) : M fs Z :=
  x ← get_file f;
  bytes_written ← inode_write_at (f_inode x) buffer size (f_pos x);
  pos ← lift (int32 (f_pos x + bytes_written));
  put_file f (File (f_inode x) pos (f_deny_write x) (dup_count x) (mapping_cnt x));;
  mret bytes_written.

Definition file_length (f : Z) : M fs Z :=
  assertM (negb (f =? null));;
  x ← get_file f; inode_length (f_inode x).

Definition file_seek (f new_pos : Z) : M fs unit :=
  assertM (negb (f =? null));;
  assertM (new_pos >=? 0);;
  x ← get_file f;
  put_file f (File (f_inode x) new_pos (f_deny_write x) (dup_count x) (mapping_cnt x)).

Definition file_tell (f : Z) : M fs Z :=
  assertM (negb (f =? null));;
  x ← get_file f; mret (f_pos x).

(** ** Counts of descriptors and mappings *)

Definition set_dup_count (f : Z) (g : Z -> Z) : M fs unit :=
  x ← get_file f;
  n ← lift (int32 (g (dup_count x)));
  put_file f (File (f_inode x) (f_pos x) (f_deny_write x) n (mapping_cnt x)).

Definition set_mapping_count (f : Z) (g : Z -> Z) : M fs unit :=
  x ← get_file f;
  n ← lift (int32 (g (mapping_cnt x)));
  put_file f (File (f_inode x) (f_pos x) (f_deny_write x) (dup_count x) n).

Definition increase_dup_count (f : Z) : M fs unit := set_dup_count f (fun n => n + 1).
Definition decrease_dup_count (f : Z) : M fs unit := set_dup_count f (fun n => n - 1).
Definition check_dup_count (f : Z) : M fs Z := x ← get_file f; mret (dup_count x).
Definition increase_mapping_count (f : Z) : M fs unit := set_mapping_count f (fun n => n + 1).
Definition decrease_mapping_count (f : Z) : M fs unit := set_mapping_count f (fun n => n - 1).
Definition check_mapping_count (f : Z) : M fs Z := x ← get_file f; mret (mapping_cnt x).

(** ** The free map's file (free-map.c) *)

Definition free_map_open : M fs unit :=
  p ← inode_open FREE_MAP_SECTOR;
  f ← file_open p;
  modify (set_free_map_file f);;
  if f =? null then panicM else
  b ← gets free_map;
  '(ok, b) ← bitmap_read (H := fs_fileio f) b;
  modify (set_free_map b);;
  if negb ok then panicM else mret tt.

Definition free_map_close : M fs unit :=
  f ← gets free_map_file; file_close f.

Definition free_map_create : M fs unit :=
  b ← gets free_map;
  ok ← inode_create FREE_MAP_SECTOR (s32 (bitmap_file_size b));
  if negb ok then panicM else
  p ← inode_open FREE_MAP_SECTOR;
  f ← file_open p;
  modify (set_free_map_file f);;
  if f =? null then panicM else
  b ← gets free_map;
  ok ← bitmap_write (H := fs_fileio f) b;
  if negb ok then panicM else mret tt.
