(* ===== verification/Directory.v ===== *)
(** * filesys/directory.c

    A directory is a file of entries of 20 bytes: the sector of the file's inode in
    4 bytes, the name with its terminator in 15, and a byte that tells whether the
    entry is in use. The local variable [e] of the functions is its 20 bytes; what it
    holds at first is the parameter [garbage]. *)

From S2P Require Import Prelude FsState Inode FreeMap.

Definition ENTRY_SIZE : Z := 20.

(** A C string by its characters; [None] is the null pointer. *)
Definition cstring : Type := option (list Z).

(** ** Entries *)

Definition inode_sector (e : list Z) : Z := le_combine (take 4 e).
Definition in_use (e : list Z) : bool := negb (nth 19 e 0 =? 0).
Definition set_in_use (b : bool) (e : list Z) : list Z := splice e 19 [if b then 1 else 0].
Definition set_inode_sector (sector : Z) (e : list Z) : list Z := splice e 0 (le_split 4 sector).

(** [!strcmp (name, buf)], where the bytes of [buf] are in an object; comparing
    beyond them is undefined. *)
Fixpoint same_string (name buf : list Z) : outcome bool :=
  match buf with
  | [] => Undef
  | b :: buf =>
      match name with
      | [] => mret (b =? 0)
      | c :: name => if c =? b then same_string name buf else mret false
      end
  end.

(** [strlcpy (e.name, name, sizeof e.name)] *)
Definition set_name (name e : list Z) : list Z := splice e 4 (take 14 name ++ [0]).

(** ** Reading entries *)

(** [inode_read_at (inode, &e, sizeof e, ofs) == sizeof e], and [e] after it. *)
Definition read_entry (inode : Z) (e : list Z) (ofs : Z) : M fs (bool * list Z) :=
  r ← inode_read_at inode ENTRY_SIZE (s32 ofs);
  mret (Z.of_nat (length r) =? ENTRY_SIZE, splice e 0 r).

(** A loop over the entries ends at the latest behind the end of the file. *)
Definition entry_fuel (inode : Z) : M fs nat :=
  n ← inode_length inode; mret (S (S (Z.to_nat (n / ENTRY_SIZE)))).

Fixpoint lookup_loop (fuel : nat) (inode : Z) (name e : list Z) (ofs : Z) : M fs (option (list Z * Z)) :=
  match fuel with
  | O => nofuelM
  | S fuel =>
      '(ok, e) ← read_entry inode e ofs;
      if negb ok then mret None else
      same ← (if in_use e then lift (same_string name (drop 4 e)) else mret false);
      if (same : bool) then mret (Some (e, ofs))
      else lookup_loop fuel inode name e (u64 (ofs + ENTRY_SIZE))
  end.

(** What is found: the entry and its offset. *)
Definition lookup (dir : Z) (name : cstring) (garbage : list Z) : M fs (option (list Z * Z)) :=
  assertM (negb (dir =? null));;
  match name with
  | None => panicM
  | Some name =>
      d ← get_dir dir;
      fuel ← entry_fuel (dir_inode d);
      lookup_loop fuel (dir_inode d) name garbage 0
  end.

(** ** Opening and closing *)

Definition dir_create (sector entry_cnt : Z) : M fs bool :=
  inode_create sector (s32 (u64 (entry_cnt * ENTRY_SIZE))).

Definition dir_open (inode : Z) : M fs Z :=
  dir ← malloc;
  if negb (inode =? null) && negb (dir =? null) then
    put_dir dir (Dir inode 0);; mret dir
  else
    inode_close inode;; mret null.

Definition dir_open_root : M fs Z := p ← inode_open ROOT_DIR_SECTOR; dir_open p.

Definition dir_reopen (dir : Z) : M fs Z :=
  d ← get_dir dir; p ← inode_reopen (dir_inode d); dir_open p.

Definition dir_close (dir : Z) : M fs unit :=
  if negb (dir =? null) then
    d ← get_dir dir; inode_close (dir_inode d);; free_dir dir
  else mret tt.

Definition dir_get_inode (dir : Z) : M fs Z := d ← get_dir dir; mret (dir_inode d).

(** ** Names *)

(** [*inode], which is null if there is no such file; the result is whether it is. *)
Definition dir_lookup (dir : Z) (name : cstring) (garbage : list Z) : M fs Z :=
  r ← lookup dir name garbage;
  match r with Some (e, _) => inode_open (inode_sector e) | None => mret null end.

(** The search for a free slot, which stops at the end of the file without one. *)
Fixpoint slot_loop (fuel : nat) (inode : Z) (e : list Z) (ofs : Z) : M fs (list Z * Z) :=
  match fuel with
  | O => nofuelM
  | S fuel =>
      '(ok, e) ← read_entry inode e ofs;
      if negb ok then mret (e, ofs)
      else if negb (in_use e) then mret (e, ofs)
      else slot_loop fuel inode e (s32 (ofs + ENTRY_SIZE))
  end.

Definition dir_add (dir : Z) (name : cstring) (sector : Z) (garbage : list Z) : M fs bool :=
  assertM (negb (dir =? null));;
  match name with
  | None => panicM
  | Some str =>
      if (Z.of_nat (length str) =? 0) || (Z.of_nat (length str) >? NAME_MAX) then mret false else
      r ← lookup dir name garbage;
      match r with
      | Some _ => mret false
      | None =>
          d ← get_dir dir;
          fuel ← entry_fuel (dir_inode d);
          '(e, ofs) ← slot_loop fuel (dir_inode d) garbage 0;
          let e := set_inode_sector sector (set_name str (set_in_use true e)) in
          n ← inode_write_at (dir_inode d) e ENTRY_SIZE ofs;
          mret (n =? ENTRY_SIZE)
      end
  end.

Definition dir_remove (dir : Z) (name : cstring) (garbage : list Z) : M fs bool :=
  r ← lookup dir name garbage;
  match r with
  | None => inode_close null;; mret false
  | Some (e, ofs) =>
      inode ← inode_open (inode_sector e);
      if inode =? null then inode_close inode;; mret false else
      let e := set_in_use false e in
      d ← get_dir dir;
      n ← inode_write_at (dir_inode d) e ENTRY_SIZE (s32 ofs);
      if negb (n =? ENTRY_SIZE) then inode_close inode;; mret false else
      inode_remove inode;;
      inode_close inode;;
      mret true
  end.

(** The name copied to the caller's buffer: the characters up to the terminator,
    at most 14. *)
Fixpoint c_string (buf : list Z) : outcome (list Z) :=
  match buf with
  | [] => Undef
  | b :: buf => if b =? 0 then mret [] else l ← c_string buf; mret (b :: l)
  end.

Fixpoint readdir_loop (fuel : nat) (dir : Z) (e : list Z) : M fs (option (list Z)) :=
  match fuel with
  | O => nofuelM
  | S fuel =>
      d ← get_dir dir;
      '(ok, e) ← read_entry (dir_inode d) e (dir_pos d);
      if negb ok then mret None else
      put_dir dir (Dir (dir_inode d) (s32 (dir_pos d + ENTRY_SIZE)));;
      if in_use e then name ← lift (c_string (drop 4 e)); mret (Some (take 14 name))
      else readdir_loop fuel dir e
  end.

Definition dir_readdir (dir : Z) (garbage : list Z) : M fs (option (list Z)) :=
  d ← get_dir dir;
  fuel ← entry_fuel (dir_inode d);
  readdir_loop fuel dir garbage.
