(* ===== verification/Filesys.v ===== *)
(** * filesys/filesys.c

    The file system: a free map and one directory. Fresh memory and stack frames
    hold [garbage]. *)

From S2P Require Import Prelude FsState Inode FreeMap FsFile Directory.

Section Filesys.
(** The contents of the free map's memory, and of a directory entry on the stack. *)
Variable map_garbage : list Z.
Variable garbage : list Z.

Definition do_format : M fs unit :=
  free_map_create;;
  ok ← dir_create ROOT_DIR_SECTOR 16;
  if negb ok then panicM else
  free_map_close.

(** [present]: the disk hd0:1 is there. *)
Definition filesys_init (present format : bool) : M fs unit :=
  if negb present then panicM else
  inode_init;;
  free_map_init map_garbage;;
  (if format then do_format else mret tt);;
  free_map_open.

Definition filesys_done : M fs unit := free_map_close.

(** What the conjunction does behind the test of the name: [inode_sector] is the
    sector that was allocated, and 0 before. *)
Definition create_body (dir : Z) (name : cstring) (initial_size : Z) : M fs (bool * Z) :=
  r ← free_map_allocate 1;
  match r with
  | None => mret (false, 0)
  | Some inode_sector =>
      ok ← inode_create inode_sector initial_size;
      ok ← (if ok : bool then dir_add dir name inode_sector garbage else mret false);
      mret (ok, inode_sector)
  end.

Definition filesys_create (name : cstring) (initial_size : Z) : M fs bool :=
  dir ← dir_open_root;
  '(success, inode_sector) ←
    match name with
    | Some str =>
        if negb (dir =? null) && (Z.of_nat (length str) <=? 14)
        then create_body dir name initial_size else mret (false, 0)
    | None => mret (false, 0)
    end;
  (if negb success && negb (inode_sector =? 0) then free_map_release inode_sector 1 else mret tt);;
  dir_close dir;;
  mret success.

Definition filesys_open (name : cstring) : M fs Z :=
  dir ← dir_open_root;
  inode ← (if negb (dir =? null) then dir_lookup dir name garbage else mret null);
  dir_close dir;;
  if inode =? null then mret null else file_open inode.

Definition filesys_remove (name : cstring) : M fs bool :=
  dir ← dir_open_root;
  success ← (if negb (dir =? null) then dir_remove dir name garbage else mret false);
  dir_close dir;;
  mret success.
End Filesys.
