(* ===== verification/FileTheorems.v ===== *)
(** * The theorems about files

    Reading and writing an open inode is reading and writing its content, and an
    open file implements the storage interface of bitmap.c. *)

From S2P Require Import Prelude Interfaces Bitmap FsState Inode InodeFacts FreeMap.

(** ** Files as storage *)

(** The file [f] is open, its data are on the disk, and memory suffices. *)
Record fs_ready (f : Z) (s : fs) : Prop := {
  fr_disk : disk_ok s;
  fr_memory : no_failures s;
  fr_file : exists x i, files s !! f = Some x /\ open_at s (f_inode x) i
}.

Lemma fs_ready_step f s s' : disk_step s s' -> fs_ready f s -> fs_ready f s'.
Proof.
  intros Hs [H1 H2 (x & i & H3 & H4)]. split; [by apply Hs|by apply Hs|]. exists x, i.
  split; [|by eapply disk_step_open]. by destruct Hs as [(m & l & n & ->) _ _ _].
Qed.

(** What the bytes of a file are after they were written. *)
Lemma bytes_of_overlay s s' d offset bytes :
  (forall a, disk_byte s' a = overlay (disk_byte s) (512 * d_start d + offset) bytes a) ->
  bytes_of s' (d_start d) offset (Z.of_nat (length bytes)) = bytes.
Proof.
  intros Hb. apply list_eq. intros k. destruct (decide (k < length bytes)%nat) as [Hk|Hk].
  - rewrite lookup_bytes_of, Hb by lia. unfold overlay. rewrite (proj2 (Z.leb_le _ _)) by lia.
    replace (Z.to_nat (_ - _)) with k by lia. by destruct (lookup_lt_is_Some_2 bytes k Hk) as [b ->].
  - rewrite !lookup_ge_None_2; [done|lia|]. rewrite length_bytes_of. lia.
Qed.

Lemma wp_run {S A} (m : M S A) (Q : A -> S -> Prop) s a s' : m s = Ok (a, s') -> wp m Q s -> Q a s'.
Proof. intros E (a' & s1 & E' & H). rewrite E in E'. by injection E' as <- <-. Qed.

(** [get_file] and [get_inode] in a [wp] goal. *)
Lemma wp_get_file f x s (Q : file -> fs -> Prop) : files s !! f = Some x -> Q x s -> wp (get_file f) Q s.
Proof. intros Hx HQ. unfold get_file. do 2 wp_step. apply (wp_lift _ x); [by rewrite Hx|done]. Qed.

Lemma wp_get_inode p i s (Q : inode -> fs -> Prop) : inodes s !! p = Some i -> Q i s -> wp (get_inode p) Q s.
Proof. intros Hx HQ. unfold get_inode. do 2 wp_step. apply (wp_lift _ i); [by rewrite Hx|done]. Qed.

Lemma file_read_at_ok f x i size ofs s :
  disk_ok s -> files s !! f = Some x -> open_at s (f_inode x) i -> 0 < next_ptr s ->
  0 <= ofs < 2 ^ 31 -> size < 2 ^ 31 ->
  wp (file_read_at f size ofs) (read_post s (data i) size ofs []) s.
Proof. intros Hd Hx Hp Hn Ho Hs. unfold file_read_at. wp_step. apply (wp_get_file _ x); [done|]. by apply inode_read_ok. Qed.

Lemma file_write_at_ok f x i buffer size ofs s :
  disk_ok s -> files s !! f = Some x -> open_at s (f_inode x) i -> 0 < next_ptr s ->
  0 <= ofs < 2 ^ 31 -> size < 2 ^ 31 -> size <= Z.of_nat (length buffer) -> deny_write_cnt i = 0 ->
  wp (file_write_at f buffer size ofs) (write_post s (data i) buffer size ofs 0) s.
Proof.
  intros Hd Hx Hp Hn Ho Hs Hb Hw. unfold file_write_at. wp_step. apply (wp_get_file _ x); [done|]. by apply inode_write_ok.
Qed.

(** Where writing is denied, nothing is written. *)
Lemma inode_write_denied p i buffer size ofs s :
  inodes s !! p = Some i -> deny_write_cnt i <> 0 -> inode_write_at p buffer size ofs s = Ok (0, s).
Proof.
  intros Hi Hw. unfold inode_write_at, get_inode, mbind, M_mbind, get, lift. rewrite Hi. simpl.
  by rewrite (proj2 (Z.eqb_neq _ _)).
Qed.

Lemma write_then_read f data ofs s s' :
  0 <= ofs < 2 ^ 31 -> Z.of_nat (length data) < 2 ^ 31 -> fs_ready f s ->
  file_write_at f data (Z.of_nat (length data)) ofs s = Ok (Z.of_nat (length data), s') ->
  exists s'', file_read_at f (Z.of_nat (length data)) ofs s' = Ok (data, s'').
Proof.
  intros Ho Hlen Hr Ew. pose proof Hr as [Hd Hnf (x & i & Hx & Hp)].
  destruct (decide (data = [])) as [->|Hne].
  { assert (s' = s) as ->.
    { unfold file_write_at, inode_write_at, get_file, get_inode in Ew.
      unfold mbind, M_mbind, get, lift in Ew. rewrite Hx in Ew. simpl in Ew. rewrite (oa_inode _ _ _ Hp) in Ew. simpl in Ew.
      by destruct (negb _) in Ew; injection Ew. }
    destruct (file_read_at_ok f x i 0 ofs s) as (r & s2 & E & _ & n & [Hm _] & ->); [done..|by apply Hnf|done|done|].
    exists s2. change (Z.of_nat (length [])) with 0. rewrite E. assert (n = 0) as -> by (unfold avail in Hm; lia). done. }
  assert (deny_write_cnt i = 0) as Hw.
  { destruct (decide (deny_write_cnt i = 0)) as [|Hw]; [done|exfalso]. unfold file_write_at in Ew.
    apply bind_Ok in Ew as (x' & s1 & E1 & Ew). unfold get_file, mbind, M_mbind, get, lift in E1. rewrite Hx in E1.
    injection E1 as <- <-. rewrite (inode_write_denied _ i) in Ew; [|by apply Hp|done]. injection Ew as Ew _.
    destruct data; [done|simpl in Ew; lia]. }
  pose proof (file_write_at_ok f x i data _ ofs s Hd Hx Hp ltac:(by apply Hnf) Ho Hlen ltac:(lia) Hw) as Hpost.
  apply (wp_run _ _ _ _ _ Ew) in Hpost as (Hs & n & [Hm1 Hm2] & Hn & Hb). specialize (Hm2 Hnf).
  assert (n = Z.of_nat (length data)) as -> by lia. rewrite Nat2Z.id in Hb. simpl in Hb. rewrite drop_0, firstn_all in Hb.
  destruct (fs_ready_step _ _ _ Hs Hr) as [Hd' Hnf' _].
  assert (files s' !! f = Some x) as Hx' by (by pose proof (ds_only _ _ Hs) as (m & l & k & ->)).
  destruct (file_read_at_ok f x i (Z.of_nat (length data)) ofs s') as (r & s2 & E & _ & n & [_ Hm] & ->);
    [done|done|by eapply disk_step_open|by apply Hnf'|done|done|].
  exists s2. rewrite E. rewrite (Hm Hnf'). rewrite <-Hm2. simpl. by rewrite (bytes_of_overlay s s').
Qed.

(** An open file is storage for bitmaps. *)
#[export] Instance fs_fileio_laws f : FileIOLaws fs (fs_ready f) (H := fs_fileio f).
Proof. split. exact (write_then_read f). Qed.

(** ** A file is a sequence of bytes *)

Inductive file_op : Type :=
  | ReadAt (size ofs : Z)
  | WriteAt (buffer : list Z) (ofs : Z).

(** The bytes that a read returns, or the number that a write has written. *)
Fixpoint run_ops (f : Z) (ops : list file_op) : M fs (list (list Z + Z)) :=
  match ops with
  | [] => mret []
  | ReadAt size ofs :: ops => r ← file_read_at f size ofs; l ← run_ops f ops; mret (inl r :: l)
  | WriteAt buffer ofs :: ops =>
      n ← file_write_at f buffer (Z.of_nat (length buffer)) ofs; l ← run_ops f ops; mret (inr n :: l)
  end.

(** The same on a sequence of bytes that does not grow. *)
Definition bytes_read (size ofs : Z) (l : list Z) : list Z := take (Z.to_nat size) (drop (Z.to_nat ofs) l).
Definition bytes_written (buffer : list Z) (ofs : Z) (l : list Z) : list Z := take (length l - Z.to_nat ofs) buffer.

Fixpoint spec_ops (ops : list file_op) (l : list Z) : list (list Z + Z) * list Z :=
  match ops with
  | [] => ([], l)
  | ReadAt size ofs :: ops => let (r, l') := spec_ops ops l in (inl (bytes_read size ofs l) :: r, l')
  | WriteAt buffer ofs :: ops =>
      let b := bytes_written buffer ofs l in
      let (r, l') := spec_ops ops (splice l (Z.to_nat ofs) b) in (inr (Z.of_nat (length b)) :: r, l')
  end.

Definition op_ok (op : file_op) : Prop :=
  match op with
  | ReadAt size ofs => 0 <= ofs < 2 ^ 31 /\ size < 2 ^ 31
  | WriteAt buffer ofs => 0 <= ofs < 2 ^ 31 /\ Z.of_nat (length buffer) < 2 ^ 31
  end.

Lemma read_spec s d size ofs :
  0 <= ofs -> bytes_of s (d_start d) ofs (avail d size ofs) = bytes_read size ofs (content s d).
Proof.
  intros Ho. unfold bytes_read. rewrite read_content by (unfold avail; lia). unfold avail.
  destruct (decide (size <= d_length d - ofs)).
  - f_equal. lia.
  - rewrite !take_ge; [done|rewrite length_drop, length_content; lia..].
Qed.

Lemma write_spec s d buffer ofs :
  0 <= ofs -> take (Z.to_nat (avail d (Z.of_nat (length buffer)) ofs)) buffer = bytes_written buffer ofs (content s d).
Proof.
  intros Ho. unfold bytes_written, avail. rewrite length_content.
  destruct (decide (Z.of_nat (length buffer) <= d_length d - ofs)).
  - rewrite !take_ge; [done|lia..].
  - f_equal. lia.
Qed.

(** Writing [n] bytes in terms of the content. *)
Lemma write_content s s' d ofs bytes :
  0 <= ofs -> 0 <= d_length d -> ofs + Z.of_nat (length bytes) <= d_length d \/ bytes = [] ->
  (forall a, disk_byte s' a = overlay (disk_byte s) (512 * d_start d + ofs) bytes a) ->
  content s' d = splice (content s d) (Z.to_nat ofs) bytes.
Proof.
  intros Ho Hl [H| ->] Hb; [by apply content_splice|]. unfold splice. simpl. rewrite Nat.add_0_r, take_drop.
  unfold content, bytes_of. apply list_fmap_ext. intros k j _. by rewrite !file_byte_disk, Hb, overlay_nil.
Qed.

(** One write, as a theorem about the content and the rest of the state. *)
Definition written (s : fs) (d : inode_disk) (buffer : list Z) (size ofs : Z) (r : Z) (s' : fs) : Prop :=
  disk_step s s' /\ moved s d size ofs r /\
  content s' d = splice (content s d) (Z.to_nat ofs) (take (Z.to_nat r) buffer) /\
  forall k, 0 <= k < capacity s -> ~ on_sectors d k -> sectors s' !! k = sectors s !! k.

Lemma write_post_written s d buffer size ofs r s' :
  disk_ok s -> data_ok s d -> 0 <= ofs -> write_post s d buffer size ofs 0 r s' -> written s d buffer size ofs r s'.
Proof.
  intros Hd Hda Ho (Hs & n & Hm & -> & Hb). simpl in *. rewrite drop_0 in Hb.
  assert (ofs + Z.of_nat (length (take (Z.to_nat n) buffer)) <= d_length d \/ take (Z.to_nat n) buffer = []) as Hin.
  { destruct Hm as [Hm _]. unfold avail in Hm. rewrite length_take.
    destruct (decide (n = 0)) as [->|]; [by right|left; lia]. }
  split; [done|]. split; [done|]. split.
  - apply write_content; [done|apply Hda|exact Hin|exact Hb].
  - intros k Hk Hn. eapply write_other; [done|exact Hs|exact Ho|exact Hk|exact Hn|apply Hda|exact Hin|exact Hb].
Qed.

Lemma run_ops_ok f x i ops s :
  fs_ready f s -> files s !! f = Some x -> open_at s (f_inode x) i -> deny_write_cnt i = 0 -> Forall op_ok ops ->
  wp (run_ops f ops) (fun r s' =>
    (r, content s' (data i)) = spec_ops ops (content s (data i)) /\ disk_step s s' /\
    forall k, 0 <= k < capacity s -> ~ on_sectors (data i) k -> sectors s' !! k = sectors s !! k) s.
Proof.
  intros Hr Hx Hp Hw Hops. revert s Hr Hx Hp. induction Hops as [|op ops Hop Hops IH]; intros s Hr Hx Hp.
  { apply wp_ret. done. }
  assert (forall s1 (m : list Z + Z), disk_step s s1 -> (forall k, 0 <= k < capacity s -> ~ on_sectors (data i) k -> sectors s1 !! k = sectors s !! k) ->
    wp (l ← run_ops f ops; mret (m :: l)) (fun r s' =>
      (r, content s' (data i)) = (let (r, l') := spec_ops ops (content s1 (data i)) in (m :: r, l')) /\ disk_step s s' /\
      forall k, 0 <= k < capacity s -> ~ on_sectors (data i) k -> sectors s' !! k = sectors s !! k) s1) as Hnext.
  { intros s1 m Hs1 Hk1. pose proof (ds_only _ _ Hs1) as (m' & l & n & E).
    wp_step. eapply wp_mono; [apply IH; [by eapply fs_ready_step|by rewrite E|by eapply disk_step_open]|].
    intros r s2 (E2 & Hs2 & Hk2). cbn beta. wp_step. rewrite <-E2. split; [done|]. split; [by etrans|].
    intros k Hk Hn. rewrite Hk2; [by apply Hk1|by rewrite E|done]. }
  pose proof Hr as [Hd Hnf _]. destruct op as [size ofs|buffer ofs]; destruct Hop as [Ho Hs].
  - simpl. wp_step. eapply wp_mono; [by apply (file_read_at_ok _ x i); [..|apply Hnf| |]|].
    intros r s1 (Hs1 & n & [_ Hm] & ->). cbn beta. rewrite Hm by done. simpl. rewrite read_spec by lia.
    assert (content s1 (data i) = content s (data i)) as Hc by (apply bytes_of_heap, Hs1). rewrite <-Hc.
    apply Hnext; [by apply heap_disk_step|]. by destruct Hs1 as [(l & k & ->) _ _].
  - simpl. wp_step. eapply wp_mono; [by apply (file_write_at_ok _ x i); [..|apply Hnf| | |lia|]|].
    intros r s1 Hpost. cbn beta. apply write_post_written in Hpost as (Hs1 & [_ Hm] & Hc & Hk); [|done|apply Hp|lia].
    specialize (Hm Hnf). subst r. rewrite (write_spec s) in Hc by lia. rewrite <-Hc.
    replace (avail _ _ _) with (Z.of_nat (length (bytes_written buffer ofs (content s (data i))))); [by apply Hnext|].
    rewrite <-write_spec, length_take by lia. unfold avail. lia.
Qed.
