(* ===== verification/DirFacts.v ===== *)
(** * Directories as finite maps

    The entries of a directory, what their names are, and the map from names to
    sectors that they represent. *)

From S2P Require Import Prelude FsState Inode InodeFacts FreeMap FileTheorems Directory.

(** ** Entries *)

(** A name: one to 14 characters, none of them the terminator. *)
Definition name_ok (name : list Z) : Prop :=
  (1 <= length name <= 14)%nat /\ Forall (fun c => 0 < c < 256) name.

(** An entry in use has a terminated name, [name]. *)
Definition has_name (e name : list Z) : Prop := exists rest, drop 4 e = name ++ 0 :: rest.

(** The entries of the directory whose inode is [d], and which [len] has. *)
Definition nentries (d : inode_disk) : Z := d_length d / 20.
Definition entry (s : fs) (d : inode_disk) (k : Z) : list Z := bytes_of s (d_start d) (20 * k) 20.
Definition entries (s : fs) (d : inode_disk) : list (list Z) := entry s d <$> seqZ 0 (nentries d).

(** The name that an entry holds. *)
Fixpoint until_nul (l : list Z) : list Z :=
  match l with [] => [] | b :: l => if b =? 0 then [] else b :: until_nul l end.
Definition entry_name (e : list Z) : list Z := until_nul (drop 4 e).

Lemma until_nul_app name rest : Forall (fun c => 0 < c < 256) name -> until_nul (name ++ 0 :: rest) = name.
Proof.
  induction 1 as [|c l Hc _ IH]; simpl; [done|]. destruct (Z.eqb_spec c 0); [lia|]. by rewrite IH.
Qed.

Lemma has_name_entry e name : Forall (fun c => 0 < c < 256) name -> has_name e name -> entry_name e = name.
Proof. intros Hn (rest & E). unfold entry_name. by rewrite E, until_nul_app. Qed.

Lemma same_string_ok name n rest :
  Forall (fun c => 0 < c < 256) name -> Forall (fun c => 0 < c < 256) n ->
  same_string name (n ++ 0 :: rest) = Ok (bool_decide (n = name)).
Proof.
  intros H1 H2. revert name H1. induction H2 as [|b n Hb _ IH]; intros name H1.
  - cbn [app]. destruct name as [|c name]; [done|]. cbn [same_string]. inversion H1; subst.
    by rewrite (proj2 (Z.eqb_neq c 0)) by lia.
  - cbn [app same_string]. inversion H1 as [|c name' Hc H1']; subst; cbn [same_string].
    + cbn [same_string]. by rewrite (proj2 (Z.eqb_neq b 0)) by lia.
    + destruct (Z.eqb_spec c b) as [->|Hne].
      * rewrite IH by done. f_equal. apply bool_decide_ext. split; [by intros ->|congruence].
      * rewrite bool_decide_false by congruence. done.
Qed.

(** A directory: entries of 20 bytes, terminated names, no name twice. *)
Definition used (e : list Z) : option (list Z * Z) :=
  if in_use e then Some (entry_name e, inode_sector e) else None.

Record dir_wf (l : list (list Z)) : Prop := {
  dw_name e : e ∈ l -> in_use e = true -> exists name, name_ok name /\ has_name e name;
  dw_distinct : NoDup (omap used l).*1
}.

(** The map from names to sectors. *)
Definition dir_map (l : list (list Z)) : gmap (list Z) Z := list_to_map (omap used l).

Lemma elem_of_used (l : list (list Z)) name sector :
  (name, sector) ∈ omap used l <-> exists e, e ∈ l /\ in_use e = true /\ entry_name e = name /\ inode_sector e = sector.
Proof.
  rewrite list_elem_of_omap. split.
  - intros (e & He & Hu). exists e. unfold used in Hu. destruct (in_use e); [|done]. by injection Hu as <- <-.
  - intros (e & He & Hu & <- & <-). exists e. split; [done|]. unfold used. by rewrite Hu.
Qed.

Lemma lookup_dir_map l name sector :
  dir_wf l ->
  dir_map l !! name = Some sector <->
  exists e, e ∈ l /\ in_use e = true /\ entry_name e = name /\ inode_sector e = sector.
Proof.
  intros [_ Hd]. unfold dir_map. rewrite <-elem_of_used. symmetry. by apply elem_of_list_to_map.
Qed.

(** A name is free when no entry in use has it. *)
Lemma lookup_dir_map_none l name :
  dir_map l !! name = None <-> forall e, e ∈ l -> in_use e = true -> entry_name e <> name.
Proof.
  unfold dir_map. rewrite <-not_elem_of_list_to_map. rewrite list_elem_of_fmap. split.
  - intros Hn e He Hu Hname. apply Hn. exists (entry_name e, inode_sector e). split; [done|].
    apply elem_of_used. eauto.
  - intros Hn ([n sec] & Hname & Hin). simpl in Hname. subst n. apply elem_of_used in Hin as (e & He & Hu & H1 & _).
    by apply (Hn e).
Qed.

(** ** Changing one entry *)

Lemma omap_insert (l : list (list Z)) k e :
  (k < length l)%nat -> omap used (<[k := e]> l) = omap used (take k l) ++ omap used [e] ++ omap used (drop (S k) l).
Proof.
  intros Hk. rewrite insert_take_drop by done. rewrite omap_app. f_equal. by rewrite (omap_app _ [e] (drop (S k) l)).
Qed.

Lemma elem_of_inserted {A} (l : list A) k (x e : A) : x ∈ <[k := e]> l -> x = e \/ x ∈ l.
Proof.
  intros (i & Hi)%list_elem_of_lookup. destruct (decide (k = i)) as [->|Hne].
  - left. apply list_lookup_insert_Some in Hi as [(_ & -> & _)|[? _]]; done.
  - right. rewrite list_lookup_insert_ne in Hi by done. by eapply list_elem_of_lookup_2.
Qed.

Lemma used_in e : in_use e = true -> omap used [e] = [(entry_name e, inode_sector e)].
Proof. intros H. simpl. unfold used. by rewrite H. Qed.

Lemma used_free e : in_use e = false -> omap used [e] = [].
Proof. intros H. simpl. unfold used. by rewrite H. Qed.

Lemma omap_split (l : list (list Z)) k e :
  l !! k = Some e -> omap used l = omap used (take k l) ++ omap used [e] ++ omap used (drop (S k) l).
Proof.
  intros H. pose proof (lookup_lt_Some _ _ _ H). rewrite <-omap_insert by done. by rewrite list_insert_id.
Qed.

(** Filling a free slot with a new name. *)
Lemma dir_map_add l k e0 e name :
  dir_wf l -> l !! k = Some e0 -> in_use e0 = false -> in_use e = true -> name_ok name -> has_name e name ->
  dir_map l !! name = None ->
  dir_wf (<[k := e]> l) /\ dir_map (<[k := e]> l) = <[name := inode_sector e]> (dir_map l).
Proof.
  intros Hw Hk H0 He Hn Hh Hfree. pose proof (lookup_lt_Some _ _ _ Hk) as Hlt.
  assert (entry_name e = name) as Hen by (apply has_name_entry; [apply Hn|done]).
  assert (omap used (<[k:=e]> l) ≡ₚ (name, inode_sector e) :: omap used l) as Hperm.
  { rewrite omap_insert, (omap_split l k e0), used_in, used_free, Hen by done. simpl. by rewrite Permutation_middle. }
  assert (NoDup (omap used (<[k:=e]> l)).*1) as Hnd.
  { rewrite Hperm. simpl. constructor; [|apply Hw]. by apply not_elem_of_list_to_map_2. }
  split.
  - split; [|done]. intros e' He' Hu. apply elem_of_inserted in He' as [->|He']; [eauto|].
    by apply (dw_name _ Hw).
  - unfold dir_map. rewrite (list_to_map_proper _ _ Hnd Hperm). done.
Qed.

(** Freeing the slot of a name. *)
Lemma dir_map_remove l k e0 e :
  dir_wf l -> l !! k = Some e0 -> in_use e0 = true -> in_use e = false ->
  dir_wf (<[k := e]> l) /\ dir_map (<[k := e]> l) = delete (entry_name e0) (dir_map l).
Proof.
  intros Hw Hk H0 He. pose proof (lookup_lt_Some _ _ _ Hk) as Hlt.
  assert (omap used l ≡ₚ (entry_name e0, inode_sector e0) :: omap used (<[k:=e]> l)) as Hperm.
  { rewrite omap_insert, (omap_split l k e0), used_in, used_free by done. simpl. by rewrite Permutation_middle. }
  pose proof (dw_distinct _ Hw) as Hnd0. pose proof Hnd0 as Hnd. rewrite Hperm in Hnd. simpl in Hnd.
  apply NoDup_cons in Hnd as [Hout Hnd].
  split.
  - split; [|done]. intros e' He' Hu. apply elem_of_inserted in He' as [->|He']; [congruence|].
    by apply (dw_name _ Hw).
  - unfold dir_map. rewrite (list_to_map_proper _ _ Hnd0 Hperm). simpl. rewrite delete_insert_id; [done|].
    by apply not_elem_of_list_to_map_1.
Qed.

(** ** Writing entries *)

Lemma splice_outside (l new : list Z) ofs i :
  (ofs + length new <= length l)%nat -> ~ (ofs <= i < ofs + length new)%nat -> splice l ofs new !! i = l !! i.
Proof. intros H1 H2. rewrite lookup_splice by done. by rewrite decide_False. Qed.

Lemma drop_splice (l new : list Z) ofs : (ofs + length new <= length l)%nat ->
  drop ofs (splice l ofs new) = new ++ drop (ofs + length new) l.
Proof. intros H1. unfold splice. apply drop_app_length'. rewrite length_take. lia. Qed.

Lemma in_use_lookup e b : e !! 19%nat = Some b -> in_use e = negb (b =? 0).
Proof. intros H. unfold in_use. by rewrite (nth_lookup_Some _ _ _ _ H). Qed.

Lemma in_use_set b e : length e = 20%nat -> in_use (set_in_use b e) = b.
Proof.
  intros H. unfold set_in_use. rewrite (in_use_lookup _ (if b then 1 else 0)); [by destruct b|].
  rewrite lookup_splice by (simpl; lia). done.
Qed.

Lemma length_set_in_use b e : length e = 20%nat -> length (set_in_use b e) = 20%nat.
Proof. intros H. unfold set_in_use. by rewrite length_splice by (simpl; lia). Qed.

Lemma length_set_name name e : length e = 20%nat -> length (set_name name e) = 20%nat.
Proof.
  intros H. unfold set_name. rewrite length_splice; [done|]. rewrite length_app, length_take. cbn [length]. lia.
Qed.

Lemma length_set_sector k e : length e = 20%nat -> length (set_inode_sector k e) = 20%nat.
Proof. intros H. unfold set_inode_sector. by rewrite length_splice by (rewrite length_le_split; lia). Qed.

(** The entry that dir_add writes. *)
Lemma new_entry name sector e :
  length e = 20%nat -> name_ok name -> is_u32 sector ->
  let e' := set_inode_sector sector (set_name name (set_in_use true e)) in
  length e' = 20%nat /\ in_use e' = true /\ has_name e' name /\ inode_sector e' = sector.
Proof.
  intros He [Hn _] Hs e'. pose proof (length_set_in_use true e He) as H1.
  pose proof (length_set_name name _ H1) as H2. split; [by apply length_set_sector|].
  assert (length (take 14 name ++ [0%Z]) = length name + 1)%nat as Hl by (rewrite length_app, length_take; cbn [length]; lia).
  split_and!.
  - pose proof (in_use_set true e He) as Hu. unfold in_use in *. unfold e', set_inode_sector.
    rewrite !nth_lookup in *. rewrite splice_outside by (rewrite length_le_split; lia).
    unfold set_name. by rewrite splice_outside by lia.
  - unfold has_name, e', set_inode_sector, splice. rewrite length_le_split. simpl (take 0 _). simpl.
    rewrite drop_0. unfold set_name. rewrite drop_splice by lia.
    exists (drop (4 + length (take 14 name ++ [0])) (set_in_use true e)). rewrite take_ge by lia. by rewrite <-app_assoc.
  - unfold inode_sector, e', set_inode_sector, splice. rewrite take_0, app_nil_l.
    rewrite take_app_length' by (by rewrite length_le_split). by apply le_combine_split.
Qed.

Lemma length_entry s d k : length (entry s d k) = 20%nat.
Proof. unfold entry. by rewrite length_bytes_of. Qed.

Lemma lookup_entries s d k :
  0 <= k < nentries d -> entries s d !! Z.to_nat k = Some (entry s d k).
Proof. intros H. unfold entries. rewrite list_lookup_fmap, (lookup_seqZ_lt 0) by lia. simpl. f_equal. f_equal. lia. Qed.

Lemma length_entries s d : length (entries s d) = Z.to_nat (nentries d).
Proof. unfold entries. by rewrite length_fmap, length_seqZ. Qed.

Lemma elem_of_entries s d e : e ∈ entries s d <-> exists k, 0 <= k < nentries d /\ e = entry s d k.
Proof.
  unfold entries. rewrite list_elem_of_fmap. split.
  - intros (k & -> & Hk). apply elem_of_seqZ in Hk. exists k. split; [lia|done].
  - intros (k & Hk & ->). exists k. split; [done|]. apply elem_of_seqZ. lia.
Qed.

Lemma entries_ext s s' d :
  (forall k, 0 <= k < nentries d -> entry s' d k = entry s d k) -> entries s' d = entries s d.
Proof.
  intros H. unfold entries. apply list_fmap_ext. intros i k Hk.
  apply H. apply list_elem_of_lookup_2, elem_of_seqZ in Hk. lia.
Qed.

Lemma entries_heap s s' d : heap_step s s' -> entries s' d = entries s d.
Proof. intros [H _ _]. apply entries_ext. intros k _. by apply bytes_of_heap. Qed.

(** Bytes that are not overwritten. *)
Lemma bytes_of_outside s s' d offset bytes ofs n :
  (forall a, disk_byte s' a = overlay (disk_byte s) (512 * d_start d + offset) bytes a) ->
  ofs + n <= offset \/ offset + Z.of_nat (length bytes) <= ofs ->
  bytes_of s' (d_start d) ofs n = bytes_of s (d_start d) ofs n.
Proof.
  intros Hb Ho. unfold bytes_of. apply list_fmap_ext. intros i j Hj.
  apply list_elem_of_lookup_2, elem_of_seqZ in Hj. rewrite !file_byte_disk, Hb. apply overlay_outside. lia.
Qed.

(** Writing at the place of an entry replaces it. *)
Lemma entries_write s s' d k e :
  0 <= k < nentries d -> length e = 20%nat ->
  (forall a, disk_byte s' a = overlay (disk_byte s) (512 * d_start d + 20 * k) e a) ->
  entries s' d = <[Z.to_nat k := e]> (entries s d).
Proof.
  intros Hk He Hb. apply list_eq. intros i. destruct (decide (i < Z.to_nat (nentries d))%nat) as [Hi|Hi].
  - rewrite <-(Nat2Z.id i). rewrite lookup_entries by lia. destruct (decide (Z.of_nat i = k)) as [<-|Hne].
    + rewrite list_lookup_insert_eq by (rewrite length_entries; lia). f_equal. unfold entry.
      pose proof (bytes_of_overlay s s' d (20 * Z.of_nat i) e Hb) as E. by rewrite He in E.
    + rewrite list_lookup_insert_ne, lookup_entries by lia. f_equal. eapply bytes_of_outside; [exact Hb|]. lia.
  - rewrite !lookup_ge_None_2; [done|rewrite length_insert, length_entries; lia|rewrite length_entries; lia].
Qed.

(** Writing behind the last entry changes none. *)
Lemma entries_tail s s' d ofs bytes :
  20 * nentries d <= ofs ->
  (forall a, disk_byte s' a = overlay (disk_byte s) (512 * d_start d + ofs) bytes a) ->
  entries s' d = entries s d.
Proof. intros Ho Hb. apply entries_ext. intros k Hk. eapply bytes_of_outside; [exact Hb|]. lia. Qed.

(** ** The loops over the entries *)

(** An open directory. *)
Record dir_at (s : fs) (p : Z) (i : inode) : Prop := {
  dt_disk : disk_ok s;
  dt_memory : no_failures s;
  dt_open : open_at s p i;
  dt_wf : dir_wf (entries s (data i))
}.

Lemma dir_at_heap s s' p i : heap_step s s' -> dir_at s p i -> dir_at s' p i.
Proof.
  intros Hh [H1 H2 H3 H4]. destruct (heap_step_open _ _ _ _ Hh H1 H3). split; [done|by apply Hh|done|].
  by rewrite (entries_heap s s').
Qed.

Lemma nentries_bounds s d : data_ok s d -> 0 <= nentries d /\ 20 * nentries d <= d_length d < 20 * nentries d + 20.
Proof.
  intros [Hl _ _]. unfold nentries. pose proof (Z.div_mod (d_length d) 20 ltac:(done)).
  pose proof (Z.mod_pos_bound (d_length d) 20 ltac:(done)). lia.
Qed.

Lemma wp_read_entry s p i e k (Q : bool * list Z -> fs -> Prop) :
  dir_at s p i -> length e = 20%nat -> 0 <= k <= nentries (data i) ->
  (forall s', k < nentries (data i) -> heap_step s s' -> Q (true, entry s (data i) k) s') ->
  (forall e' s', k = nentries (data i) -> heap_step s s' -> length e' = 20%nat -> Q (false, e') s') ->
  wp (read_entry p e (20 * k)) Q s.
Proof.
  intros [Hd Hnf Hp _] He Hk HQ1 HQ2. pose proof (nentries_bounds _ _ (oa_data _ _ _ Hp)) as Hn.
  pose proof (da_length _ _ (oa_data _ _ _ Hp)).
  unfold read_entry. wp_step. unfold ENTRY_SIZE. rewrite s32_small by (unfold is_s32; lia).
  eapply wp_mono; [by apply (inode_read_ok p i); [..|apply Hnf|lia|]|].
  intros r s' (Hh & n & [_ Hm] & ->). cbn beta. specialize (Hm Hnf). wp_step. simpl. rewrite length_bytes_of.
  assert (length (splice e 0 (bytes_of s (d_start (data i)) (20 * k) n)) = 20%nat) as Hl.
  { rewrite length_splice; [done|]. rewrite length_bytes_of. unfold avail in Hm. lia. }
  destruct (decide (k < nentries (data i))) as [Hin|Hout].
  - assert (n = 20) as -> by (unfold avail in Hm; lia). rewrite splice_all by (rewrite length_bytes_of; lia). by apply HQ1.
  - rewrite (proj2 (Z.eqb_neq _ _)) by (unfold avail in Hm; lia). apply HQ2; [lia|done|done].
Qed.

Lemma wp_inode_length p i s (Q : Z -> fs -> Prop) :
  inodes s !! p = Some i -> Q (d_length (data i)) s -> wp (inode_length p) Q s.
Proof. intros Hi HQ. unfold inode_length. wp_step. apply (wp_get_inode _ i); [done|]. by wp_step. Qed.

Lemma wp_entry_fuel p i s (Q : nat -> fs -> Prop) :
  inodes s !! p = Some i -> Q (S (S (Z.to_nat (nentries (data i))))) s -> wp (entry_fuel p) Q s.
Proof. intros Hi HQ. unfold entry_fuel. wp_step. apply (wp_inode_length _ i); [done|]. by wp_step. Qed.

(** What a search for [name] from entry [k] on gives. *)
Definition found (s : fs) (d : inode_disk) (name : list Z) (k : Z) (r : option (list Z * Z)) : Prop :=
  match r with
  | Some (e, ofs) => exists j, k <= j < nentries d /\ ofs = 20 * j /\ e = entry s d j /\ in_use e = true /\ entry_name e = name
  | None => forall j, k <= j < nentries d -> in_use (entry s d j) = true -> entry_name (entry s d j) <> name
  end.

Lemma found_next s d name k r :
  (in_use (entry s d k) = true -> entry_name (entry s d k) <> name) -> found s d name (k + 1) r -> found s d name k r.
Proof.
  intros Hk. destruct r as [[e ofs]|]; simpl.
  - intros (j & Hj & H). exists j. split; [lia|done].
  - intros H j Hj. destruct (decide (j = k)) as [->|]; [done|]. apply H. lia.
Qed.

(** Comparing the name of an entry in use. *)
Lemma same_name s d name k :
  dir_wf (entries s d) -> 0 <= k < nentries d -> Forall (fun c => 0 < c < 256) name -> in_use (entry s d k) = true ->
  same_string name (drop 4 (entry s d k)) = Ok (bool_decide (entry_name (entry s d k) = name)).
Proof.
  intros Hw Hk Hname Hu. destruct (dw_name _ Hw (entry s d k)) as (n & [_ Hn] & Hh); [|done|].
  - apply elem_of_entries. eauto.
  - rewrite (has_name_entry _ _ Hn Hh). destruct Hh as (rest & ->). by apply same_string_ok.
Qed.

Lemma lookup_loop_ok fuel p i name e k s :
  dir_at s p i -> length e = 20%nat -> Forall (fun c => 0 < c < 256) name -> 0 <= k <= nentries (data i) ->
  nentries (data i) - k < Z.of_nat fuel ->
  wp (lookup_loop fuel p name e (20 * k)) (fun r s' => heap_step s s' /\ found s (data i) name k r) s.
Proof.
  intros Hp He Hname Hk Hf. revert e k s Hp He Hk Hf. induction fuel as [|fuel IH]; intros e k s Hp He Hk Hf; [lia|].
  pose proof (nentries_bounds _ _ (oa_data _ _ _ (dt_open _ _ _ Hp))) as Hn.
  pose proof (da_length _ _ (oa_data _ _ _ (dt_open _ _ _ Hp))).
  simpl. wp_step. apply (wp_read_entry _ _ i); [done..| |].
  2:{ intros e' s' -> Hh _. cbn beta iota. apply wp_ret. split; [done|]. intros j Hj. lia. }
  intros s' Hin Hh. cbn beta iota. cbn [negb].
  assert ((in_use (entry s (data i) k) = true -> entry_name (entry s (data i) k) <> name) ->
    wp (lookup_loop fuel p name (entry s (data i) k) (u64 (20 * k + ENTRY_SIZE)))
      (fun r s2 => heap_step s s2 /\ found s (data i) name k r) s') as Hnext.
  { intros Hno. unfold ENTRY_SIZE. rewrite u64_small by (unfold is_u64; lia). replace (20 * k + 20) with (20 * (k + 1)) by ring.
    eapply wp_mono; [apply IH; [by eapply dir_at_heap|apply length_entry|lia|lia]|]. intros r s2 [Hh2 Hr].
    split; [by etrans|]. apply found_next; [done|]. clear -Hh Hr. destruct Hh as [Hh _ _].
    unfold found, entry in *. destruct r as [[e ofs]|].
    - destruct Hr as (j & Hr). rewrite (bytes_of_heap s s') in Hr by done. by exists j.
    - intros j. specialize (Hr j). by rewrite (bytes_of_heap s s') in Hr by done. }
  destruct (in_use _) eqn:Hu.
  - wp_step. eapply wp_lift; [apply same_name; [apply Hp|lia|done|done]|]. cbn beta. case_bool_decide as Hname'.
    + apply wp_ret. split; [done|]. exists k. split; [lia|done].
    + by apply Hnext.
  - wp_step. apply wp_ret. by apply Hnext.
Qed.

Lemma wp_get_dir p d s (Q : dir -> fs -> Prop) : dirs s !! p = Some d -> Q d s -> wp (get_dir p) Q s.
Proof. intros Hx HQ. unfold get_dir. do 2 wp_step. apply (wp_lift _ d); [by rewrite Hx|done]. Qed.

Lemma lookup_ok dp d i name garbage s :
  dp <> null -> dirs s !! dp = Some d -> dir_at s (dir_inode d) i -> length garbage = 20%nat ->
  Forall (fun c => 0 < c < 256) name ->
  wp (lookup dp (Some name) garbage) (fun r s' => heap_step s s' /\ found s (data i) name 0 r) s.
Proof.
  intros Hdp Hd Hp Hg Hn. unfold lookup. wp_step. apply wp_assert; [by rewrite (proj2 (Z.eqb_neq _ _))|].
  wp_step. apply (wp_get_dir _ d); [done|]. wp_step. apply (wp_entry_fuel _ i); [apply Hp|].
  pose proof (nentries_bounds _ _ (oa_data _ _ _ (dt_open _ _ _ Hp))).
  change 0 with (20 * 0) at 1. apply lookup_loop_ok; [done..|lia|lia].
Qed.

(** What is found is what the map has. *)
Lemma found_map s d name r :
  dir_wf (entries s d) -> found s d name 0 r ->
  dir_map (entries s d) !! name = (inode_sector ∘ fst <$> r).
Proof.
  intros Hw. destruct r as [[e ofs]|]; simpl.
  - intros (j & Hj & -> & -> & Hu & Hn). apply lookup_dir_map; [done|].
    exists (entry s d j). split; [apply elem_of_entries; by exists j|done].
  - intros H. apply lookup_dir_map_none. intros e (j & Hj & ->)%elem_of_entries. by apply H.
Qed.

(** The free slot that a search from entry [k] on finds, or the end. *)
Definition free_slot (s : fs) (d : inode_disk) (k ofs : Z) : Prop :=
  exists j, k <= j <= nentries d /\ ofs = 20 * j /\
    (forall j', k <= j' < j -> in_use (entry s d j') = true) /\
    (j < nentries d -> in_use (entry s d j) = false).

Lemma slot_loop_ok fuel p i e k s :
  dir_at s p i -> length e = 20%nat -> 0 <= k <= nentries (data i) -> nentries (data i) - k < Z.of_nat fuel ->
  wp (slot_loop fuel p e (20 * k))
    (fun r s' => heap_step s s' /\ length r.1 = 20%nat /\ free_slot s (data i) k r.2) s.
Proof.
  intros Hp He Hk Hf. revert e k s Hp He Hk Hf. induction fuel as [|fuel IH]; intros e k s Hp He Hk Hf; [lia|].
  pose proof (nentries_bounds _ _ (oa_data _ _ _ (dt_open _ _ _ Hp))) as Hn.
  pose proof (da_length _ _ (oa_data _ _ _ (dt_open _ _ _ Hp))).
  simpl. wp_step. apply (wp_read_entry _ _ i); [done..| |].
  2:{ intros e' s' -> Hh He'. cbn beta iota. apply wp_ret. split; [done|]. split; [done|].
      exists (nentries (data i)). split_and!; [lia|lia|done|lia|lia]. }
  intros s' Hin Hh. cbn beta iota. cbn [negb]. destruct (in_use _) eqn:Hu; simpl.
  - unfold ENTRY_SIZE. rewrite s32_small by (unfold is_s32; lia). replace (20 * k + 20) with (20 * (k + 1)) by ring.
    eapply wp_mono; [apply IH; [by eapply dir_at_heap|apply length_entry|lia|lia]|].
    intros r s2 (Hh2 & Hl & j & Hj & Hofs & Hused & Hfree). split; [by etrans|]. split; [done|].
    exists j. split; [lia|]. split; [done|]. unfold entry in *. split.
    + intros j' Hj'. destruct (decide (j' = k)) as [->|]; [done|].
      rewrite <-(bytes_of_heap s s') by apply Hh. apply Hused. lia.
    + intros Hj2. rewrite <-(bytes_of_heap s s') by apply Hh. by apply Hfree.
  - apply wp_ret. split; [done|]. split; [apply length_entry|]. exists k. split; [lia|]. split; [done|]. split; [lia|done].
Qed.

(** ** Adding a name *)

(** What dir_add promises: the name is in the map afterwards if there was room for
    it and it was new, and otherwise nothing has changed. *)
Definition add_post (s : fs) (d : inode_disk) (name : list Z) (sector : Z) (ok : bool) (s' : fs) : Prop :=
  disk_step s s' /\ dir_wf (entries s' d) /\
  (forall k, 0 <= k < capacity s -> ~ on_sectors d k -> sectors s' !! k = sectors s !! k) /\
  (ok = true <-> name_ok name /\ dir_map (entries s d) !! name = None /\ exists e, e ∈ entries s d /\ in_use e = false) /\
  dir_map (entries s' d) = (if ok then <[name := sector]> (dir_map (entries s d)) else dir_map (entries s d)).

Lemma add_post_none s s' d name sector :
  heap_step s s' -> dir_wf (entries s d) ->
  ~ (name_ok name /\ dir_map (entries s d) !! name = None /\ exists e, e ∈ entries s d /\ in_use e = false) ->
  add_post s d name sector false s'.
Proof.
  intros Hh Hw Hn. pose proof (entries_heap s s' d Hh) as He. split; [by apply heap_disk_step|]. rewrite He.
  split; [done|]. split; [by destruct Hh as [(l & k & ->) _ _]|]. split; [|done]. by split.
Qed.

(** The write of the new entry at the slot that was found. *)
Lemma add_write p i name sector e ofs s s1 :
  dir_at s p i -> deny_write_cnt i = 0 -> name_ok name -> is_u32 sector -> length e = 20%nat -> heap_step s s1 ->
  dir_map (entries s (data i)) !! name = None -> free_slot s (data i) 0 ofs ->
  let e' := set_inode_sector sector (set_name name (set_in_use true e)) in
  wp (n ← inode_write_at p e' ENTRY_SIZE ofs; mret (n =? ENTRY_SIZE)) (add_post s (data i) name sector) s1.
Proof.
  intros Hp Hw Hn Hs He Hh Hfree (j & Hj & -> & Hused & Hslot) e'. pose proof (dir_at_heap _ _ _ _ Hh Hp) as Hp1.
  destruct Hp1 as [Hd Hnf Ho Hwf]. pose proof (da_length _ _ (oa_data _ _ _ Ho)).
  pose proof (nentries_bounds _ _ (oa_data _ _ _ Ho)) as Hb.
  destruct (new_entry name sector e He Hn Hs) as (Hl & Hu & Hname & Hsec). fold e' in Hl, Hu, Hname, Hsec.
  unfold ENTRY_SIZE. wp_step. eapply wp_mono; [by apply (inode_write_ok p i); [..|apply Hnf|lia| |lia|]|].
  intros r s2 Hpost. cbn beta. apply wp_ret. pose proof Hpost as (Hds & n & [_ Hm] & -> & Hbytes). specialize (Hm Hnf).
  change (Z.to_nat 0) with 0%nat in Hbytes. rewrite drop_0 in Hbytes. rewrite Z.add_0_l in *.
  apply write_post_written in Hpost as (_ & _ & _ & Hout); [|done|apply Ho|lia].
  rewrite (entries_heap s s1) in Hwf by done.
  assert (capacity s1 = capacity s /\ sectors s1 = sectors s) as [Hcap Hsame] by (by destruct Hh as [(l & k & ->) _ _]).
  rewrite Hcap, Hsame in Hout. split; [etrans; [by apply heap_disk_step|done]|].
  destruct (decide (j < nentries (data i))) as [Hin|Hend].
  - assert (n = 20) as -> by (unfold avail in Hm; lia). rewrite take_ge in Hbytes by lia.
    rewrite (entries_write s1 s2 (data i) j e'), (entries_heap s s1) by (done || lia).
    destruct (dir_map_add (entries s (data i)) (Z.to_nat j) (entry s (data i) j) e' name) as [Hwf2 Hmap];
      [done|apply lookup_entries; lia|by apply Hslot|done..|].
    split; [done|]. split; [done|]. rewrite Hmap, Hsec. split; [|done]. split; [|done]. intros _. split; [done|].
    split; [done|]. exists (entry s (data i) j). split; [|by apply Hslot]. apply elem_of_entries. exists j. split; [lia|done].
  - rewrite (entries_tail s1 s2 (data i) (20 * j) _) by (exact Hbytes || lia). rewrite (entries_heap s s1) by done.
    rewrite (proj2 (Z.eqb_neq _ _)) by (unfold avail in Hm; lia). split; [done|]. split; [done|]. split; [|done].
    split; [done|]. intros (_ & _ & e0 & (k & Hk & ->)%elem_of_entries & Hu0). rewrite Hused in Hu0; [done|lia].
Qed.

Lemma dir_add_ok dp d i name sector garbage s :
  dp <> null -> dirs s !! dp = Some d -> dir_at s (dir_inode d) i -> deny_write_cnt i = 0 ->
  Forall (fun c => 0 < c < 256) name -> is_u32 sector -> length garbage = 20%nat ->
  wp (dir_add dp (Some name) sector garbage) (add_post s (data i) name sector) s.
Proof.
  intros Hdp Hd Hp Hw Hn Hs Hg. unfold dir_add. wp_step. apply wp_assert; [by rewrite (proj2 (Z.eqb_neq _ _))|].
  destruct (_ || _) eqn:Elen.
  { apply wp_ret, add_post_none; [done|apply Hp|]. intros [[Hl _] _]. unfold NAME_MAX in Elen.
    apply orb_true_iff in Elen. rewrite Z.eqb_eq, Z.gtb_lt in Elen. lia. }
  assert (name_ok name) as Hname.
  { split; [|done]. apply orb_false_iff in Elen. unfold NAME_MAX in Elen. rewrite Z.eqb_neq, Z.gtb_ltb, Z.ltb_ge in Elen. lia. }
  wp_step. eapply wp_mono; [by apply (lookup_ok _ d i)|]. intros r s1 [Hh Hf]. cbn beta.
  pose proof (found_map _ _ _ _ (dt_wf _ _ _ Hp) Hf) as Hmap. destruct r as [[e ofs]|]; simpl in Hmap.
  { apply wp_ret, add_post_none; [done|apply Hp|]. intros (_ & Hno & _). by rewrite Hmap in Hno. }
  pose proof (dir_at_heap _ _ _ _ Hh Hp) as Hp1. pose proof (nentries_bounds _ _ (oa_data _ _ _ (dt_open _ _ _ Hp))).
  wp_step. apply (wp_get_dir _ d); [by destruct Hh as [(l & k & ->) _ _]|].
  wp_step. apply (wp_entry_fuel _ i); [apply Hp1|]. wp_step. change 0 with (20 * 0).
  eapply wp_mono; [apply (slot_loop_ok _ _ i); [done|done|lia|lia]|].
  intros [e ofs] s2 (Hh2 & Hl & j & Hj & Hofs & Hused & Hslot). simpl in Hl, Hofs. cbn beta iota.
  apply add_write; [done..|by etrans|done|].
  exists j. split; [lia|]. split; [done|]. unfold entry in *. rewrite (bytes_of_heap s s1) in Hslot by apply Hh.
  split; [|done]. intros j' Hj'. rewrite <-(bytes_of_heap s s1) by apply Hh. apply Hused. lia.
Qed.
