(* ===== verification/FreeMapFacts.v ===== *)
(** * The free map: which sectors are taken

    Allocating takes the first free sectors, releasing makes them free again, and
    both save the map to its file. *)

From S2P Require Import Prelude Interfaces Bitmap FsState Inode InodeFacts FreeMap FileTheorems.

(** The free map's file is [x], its inode [i]: it is open for writing and as long as
    the map. Before the file system is set up there is no file. *)
Record map_ok (s : fs) (x : file) (i : inode) : Prop := {
  mo_wf : bitmap_wf (free_map s);
  mo_disk : disk_ok s;
  mo_memory : no_failures s;
  mo_file : free_map_file s <> null ->
    files s !! free_map_file s = Some x /\ open_at s (f_inode x) i /\ deny_write_cnt i = 0 /\
    d_length (data i) = 8 * Z.of_nat (length (bits (free_map s)))
}.

(** The map on disk is the one in memory. *)
Definition saved (s : fs) (i : inode) : Prop :=
  free_map_file s <> null -> content s (data i) = word_bytes (bits (free_map s)).

(** [s'] is [s] but for the disk's contents and the map, whose other sectors are the
    same. *)
Definition map_step (s s' : fs) (i : inode) : Prop :=
  disk_step (set_free_map (free_map s') s) s' /\
  forall k, 0 <= k < capacity s -> ~ on_sectors (data i) k -> sectors s' !! k = sectors s !! k.

Lemma bitmap_write_ok f x i b s :
  disk_ok s -> no_failures s -> bitmap_wf b -> files s !! f = Some x -> open_at s (f_inode x) i ->
  deny_write_cnt i = 0 -> d_length (data i) = 8 * Z.of_nat (length (bits b)) ->
  wp (bitmap_write (H := fs_fileio f) b)
    (fun ok s' => ok = true /\ disk_step s s' /\ content s' (data i) = word_bytes (bits b) /\
       forall k, 0 <= k < capacity s -> ~ on_sectors (data i) k -> sectors s' !! k = sectors s !! k) s.
Proof.
  intros Hd Hnf Hb Hx Hp Hw Hl. destruct (byte_cnt_eq b Hb) as [Hbc Hlt]. unfold bitmap_write. simpl.
  rewrite s32_small, Hbc by (unfold is_s32; lia). wp_step.
  eapply wp_mono; [by apply (file_write_at_ok f x i); [..|apply Hnf|lia|lia|lia|]|].
  intros r s' Hpost. cbn beta. apply write_post_written in Hpost as (Hds & [_ Hm] & Hc & Hout); [|done|apply Hp|lia].
  specialize (Hm Hnf). rewrite length_word_bytes in Hlt.
  assert (r = Z.of_nat (length (word_bytes (bits b)))) as -> by (rewrite length_word_bytes in *; unfold avail in Hm; lia).
  apply wp_ret. rewrite Z.eqb_refl. split; [done|]. split; [done|]. split; [|done].
  rewrite Hc, Nat2Z.id, firstn_all. simpl. apply splice_all. rewrite length_content, length_word_bytes. lia.
Qed.

Lemma set_map_same s : set_free_map (free_map s) s = s.
Proof. by destruct s. Qed.

Lemma map_step_disk s s' s2 i :
  map_step s s' i -> disk_step s' s2 ->
  (forall k, 0 <= k < capacity s' -> ~ on_sectors (data i) k -> sectors s2 !! k = sectors s' !! k) -> map_step s s2 i.
Proof.
  intros [H1 H2] H3 H4. pose proof (ds_only _ _ H3) as (m & l & n & E). pose proof (ds_only _ _ H1) as (m' & l' & n' & E').
  split.
  - rewrite E at 1. simpl. by etrans.
  - intros k Hk Hn. rewrite H4; [by apply H2|by rewrite E'|done].
Qed.

Lemma length_bits_set b start cnt v b' :
  bitmap_wf b -> bits_set b start cnt v b' -> length (bits b') = length (bits b).
Proof. intros (_ & H1 & _) (H2 & (_ & H3 & _) & _). rewrite H2 in H3. lia. Qed.

(** Storing a new map in memory and, if there is a file, on disk. *)
Lemma map_ok_set s x i b :
  map_ok s x i -> bitmap_wf b -> bit_cnt b = bit_cnt (free_map s) -> map_ok (set_free_map b s) x i.
Proof.
  intros [H1 [H2 H3] H4 H5] Hb Hc. split; [done|by split|done|]. simpl. intros Hf.
  destruct (H5 Hf) as (E1 & [E2 E3 [E4 E5 E6]] & E7 & E8). split; [done|]. split; [split; [done|done|by split]|]. split; [done|].
  rewrite E8. destruct H1 as (_ & H1 & _), Hb as (_ & Hb & _). rewrite Hc in Hb. lia.
Qed.

Lemma map_step_refl s b i : map_step s (set_free_map b s) i.
Proof. split; [done|]. by intros. Qed.

(** The write of the map that follows each change of it. *)
Lemma map_write_ok s x i b :
  map_ok s x i -> bitmap_wf b -> bit_cnt b = bit_cnt (free_map s) -> free_map_file s <> null ->
  wp (bitmap_write (H := fs_fileio (free_map_file s)) b)
    (fun ok s' => ok = true /\ free_map s' = b /\ free_map_file s' = free_map_file s /\ map_step s s' i /\ saved s' i)
    (set_free_map b s).
Proof.
  intros Hm Hb Hc Hf. pose proof (map_ok_set s x i b Hm Hb Hc) as [H1 H2 H3 H4]. destruct (H4 Hf) as (E1 & E2 & E3 & E4).
  eapply wp_mono; [by apply (bitmap_write_ok _ x i)|]. intros ok s' (-> & Hds & Hcon & Hout). split; [done|].
  pose proof (ds_only _ _ Hds) as (m & l & n & E). assert (free_map s' = b) as Hfm by (by rewrite E).
  split; [done|]. split; [by rewrite E|]. split.
  - split; [by rewrite Hfm|]. simpl in Hout. done.
  - intros _. by rewrite Hfm.
Qed.

(** ** Allocating *)

Definition alloc_post (s : fs) (i : inode) (cnt : Z) (r : option Z) (s' : fs) : Prop :=
  map_step s s' i /\ free_map_file s' = free_map_file s /\
  match r with
  | Some k =>
      0 <= k /\ k + cnt <= bit_cnt (free_map s) /\ all_bits (free_map s) k cnt false /\
      (forall j, 0 <= j < k -> ~ all_bits (free_map s) j cnt false) /\
      bits_set (free_map s) k cnt true (free_map s') /\ saved s' i
  | None => free_map s' = free_map s /\ forall j, 0 <= j -> j + cnt <= bit_cnt (free_map s) -> ~ all_bits (free_map s) j cnt false
  end.

Lemma free_map_allocate_ok s x i cnt :
  map_ok s x i -> 0 <= cnt -> wp (free_map_allocate cnt) (alloc_post s i cnt) s.
Proof.
  intros Hm Hcnt. pose proof (mo_wf _ _ _ Hm) as Hb. pose proof Hb as (Hc & _). unfold free_map_allocate. wp_step. wp_step.
  destruct (bitmap_scan_and_flip_ok (free_map s) 0 cnt false Hb ltac:(lia) Hcnt)
    as (idx & b' & E & [(-> & -> & Hnone)|(H1 & H2 & H3 & H4 & H5)]).
  - wp_step. eapply wp_lift; [exact E|]. cbn beta iota. wp_step. wp_step. cbn beta. wp_step. wp_step. cbn beta.
    wp_step. apply wp_ret. apply wp_ret. rewrite set_map_same. split; [|by split].
    split; [by rewrite set_map_same|done].
  - wp_step. eapply wp_lift; [exact E|]. cbn beta iota. wp_step. wp_step. cbn beta. wp_step. wp_step. cbn beta.
    simpl negb in H5. assert (u32 idx = idx) as -> by (apply u32_small; unfold is_u32; lia).
    assert ((idx =? BITMAP_ERROR) = false) as Hidx by (apply Z.eqb_neq; unfold BITMAP_ERROR, SIZE_MAX; lia).
    rewrite Hidx. cbn [negb andb]. simpl free_map_file.
    assert (forall s', map_step s s' i -> free_map s' = b' -> free_map_file s' = free_map_file s -> saved s' i ->
      alloc_post s i cnt (Some idx) s') as Hdone.
    { intros s' Hs' Hfm Hff Hsv. split; [done|]. split; [done|]. rewrite Hfm. auto 10. }
    destruct (Z.eqb_spec (free_map_file s) null) as [Hf|Hf]; cbn [negb].
    + wp_step. apply wp_ret. rewrite Hidx. apply wp_ret. apply Hdone; [apply map_step_refl|done|done|]. by intros [].
    + wp_step. wp_step. destruct H5 as (H5 & H6 & H7). eapply wp_mono; [by apply (map_write_ok _ x i)|].
      intros ok s' (-> & Hfm & Hff & Hms & Hsv). cbn beta. cbn [negb]. apply wp_ret. rewrite Hidx. apply wp_ret.
      by apply Hdone.
Qed.

(** ** Releasing *)

Lemma free_map_release_ok s x i k cnt :
  map_ok s x i -> free_map_file s <> null -> 0 <= k -> 0 <= cnt -> k + cnt <= bit_cnt (free_map s) ->
  all_bits (free_map s) k cnt true ->
  wp (free_map_release k cnt)
    (fun _ s' => map_step s s' i /\ free_map_file s' = free_map_file s /\
       bits_set (free_map s) k cnt false (free_map s') /\ saved s' i) s.
Proof.
  intros Hm Hf Hk Hcnt Hin Hall. pose proof (mo_wf _ _ _ Hm) as Hb. unfold free_map_release. wp_step. wp_step.
  destruct (bitmap_all_ok (free_map s) k cnt Hb Hk Hcnt Hin) as (t & Et & Ht).
  wp_step. eapply wp_lift; [exact Et|]. cbn beta. wp_step. apply wp_assert; [by apply Ht|].
  destruct (bitmap_set_multiple_ok (free_map s) k cnt false Hb Hk Hcnt Hin) as (b' & Eb & Hset).
  wp_step. eapply wp_lift; [exact Eb|]. cbn beta. wp_step. wp_step. cbn beta. wp_step. wp_step. cbn beta.
  pose proof Hset as (H1 & H2 & _). wp_step. simpl free_map_file. eapply wp_mono; [by apply (map_write_ok _ x i)|].
  intros ok s' (-> & Hfm & Hff & Hms & Hsv). cbn beta. apply wp_ret. rewrite Hfm. done.
Qed.

(** A release of sectors that are not all taken stops the kernel. *)
Lemma free_map_release_panics s k cnt :
  bitmap_wf (free_map s) -> 0 <= k -> 0 <= cnt -> k + cnt <= bit_cnt (free_map s) ->
  ~ all_bits (free_map s) k cnt true -> free_map_release k cnt s = Panic.
Proof.
  intros Hb Hk Hcnt Hin Hall. destruct (bitmap_all_ok (free_map s) k cnt Hb Hk Hcnt Hin) as (t & Et & Ht).
  unfold free_map_release. rewrite (bind_run _ _ _ (free_map s) s) by done. rewrite (bind_run _ _ _ t s) by (unfold lift; by rewrite Et).
  apply bind_panic. destruct t; [by destruct Hall; apply Ht|done].
Qed.
