(* ===== verification/OpenInodes.v ===== *)
(** * Creating, opening and closing inodes

    A created file is a sequence of zeros in sectors of its own. The open inodes are
    one for each sector; an inode is open as long as its count is positive. *)

From S2P Require Import Prelude Interfaces Bitmap FsState Inode InodeFacts FreeMap FileTheorems FreeMapFacts.

(** ** Creating *)

Lemma zero_loop_ok n start i s :
  disk_ok s -> 0 <= start -> 0 <= i -> start + i + Z.of_nat n <= capacity s ->
  wp (zero_loop n start i) (fun _ s' => disk_step s s' /\ free_map s' = free_map s /\
    forall k, sectors s' !! k = if decide (start + i <= k < start + i + Z.of_nat n) then Some (replicate 512 0) else sectors s !! k) s.
Proof.
  revert i s. induction n as [|n IH]; intros i s Hd Hs Hi Hc.
  { apply wp_ret. split; [done|]. split; [done|]. intros k. by rewrite decide_False by lia. }
  cbn [zero_loop]. pose proof (do_capacity _ Hd). rewrite u32_small by (unfold is_u32; lia).
  wp_step. apply wp_disk_write; [done|lia|]. set (s1 := set_sectors _ s).
  assert (disk_step s s1) as Hs1 by apply sector_disk_step, length_replicate. pose proof (ds_disk _ _ Hs1 Hd) as Hd1.
  eapply wp_mono; [apply IH; [exact Hd1|lia|lia|simpl; lia]|]. intros [] s2 (Hs2 & Hfm & Hk). split; [by etrans|].
  split; [done|]. intros k. rewrite Hk. unfold s1. cbn [sectors set_sectors]. destruct (decide (k = start + i)) as [->|Hne].
  - rewrite lookup_insert_eq. rewrite decide_False, decide_True by lia. done.
  - rewrite lookup_insert_ne by done. destruct (decide (start + (i + 1) <= k < start + (i + 1) + Z.of_nat n)).
    + by rewrite decide_True by lia.
    + by rewrite decide_False by lia.
Qed.

(** A file whose sectors are all zero. *)
Lemma content_zero s d :
  0 <= d_length d -> (forall k, on_sectors d k -> sectors s !! k = Some (replicate 512 0)) ->
  content s d = replicate (Z.to_nat (d_length d)) 0.
Proof.
  intros Hl Hz. apply list_eq. intros j. destruct (decide (j < Z.to_nat (d_length d))%nat) as [Hj|Hj].
  - rewrite lookup_replicate_2 by done. unfold content. rewrite lookup_bytes_of by done. f_equal.
    unfold disk_byte. set (a := 512 * d_start d + 0 + Z.of_nat j).
    pose proof (Z.div_mod a 512 ltac:(done)). pose proof (Z.mod_pos_bound a 512 ltac:(done)).
    pose proof (nsectors_bounds (d_length d) Hl).
    rewrite (byte_at_list s (a / 512) (replicate 512 0)) by (apply Hz; unfold on_sectors; lia).
    by rewrite lookup_replicate_2 by lia.
  - rewrite !lookup_ge_None_2; [done|rewrite length_replicate; lia|rewrite length_content; lia].
Qed.

Lemma inode_bytes_length d : length (inode_bytes d) = 512%nat.
Proof. unfold inode_bytes. by rewrite !length_app, !length_le_split, length_replicate. Qed.

(** An inode is read back as it was written. *)
Lemma bytes_inode_bytes d :
  is_u32 (d_start d) -> is_s32 (d_length d) -> is_u32 (d_magic d) -> bytes_inode (inode_bytes d) = d.
Proof.
  intros H1 H2 H3. unfold bytes_inode, inode_bytes. rewrite (take_app_length' _ _ 4) by (by rewrite length_le_split).
  rewrite (drop_app_length' _ _ 4) by (by rewrite length_le_split). rewrite take_app_length' by (by rewrite length_le_split).
  replace 8%nat with (4 + 4)%nat by done. rewrite <-drop_drop, (drop_app_length' _ _ 4) by (by rewrite length_le_split).
  rewrite drop_app_length' by (by rewrite length_le_split). rewrite take_app_length' by (by rewrite length_le_split).
  rewrite !le_combine_split; [|done|apply u32_range|done]. destruct d as [st len mg]. simpl in *. f_equal.
  unfold s32, u32, is_s32 in *. destruct (decide (0 <= len)).
  - rewrite (Z.mod_small len) by lia. rewrite Z.mod_small; lia.
  - replace (len mod 2 ^ 32) with (len + 2 ^ 32); [|apply (Z.mod_unique_pos _ _ (-1)); lia].
    replace (len + 2 ^ 32 + 2 ^ 31) with (len + 2 ^ 31 + 1 * 2 ^ 32) by ring. rewrite Z.mod_add by done.
    rewrite Z.mod_small; lia.
Qed.

(** The header of the new file, its data and its sectors in the map. *)
Definition create_post (s : fs) (i : inode) (sector length : Z) (ok : bool) (s' : fs) : Prop :=
  if ok then
    exists start,
      let d := InodeDisk start length INODE_MAGIC in
      sectors s' !! sector = Some (inode_bytes d) /\ bytes_inode (inode_bytes d) = d /\ data_ok s' d /\
      content s' d = replicate (Z.to_nat length) 0 /\
      all_bits (free_map s) start (nsectors length) false /\
      bits_set (free_map s) start (nsectors length) true (free_map s') /\
      (forall k, 0 <= k < capacity s -> k <> sector -> ~ on_sectors d k -> ~ on_sectors (data i) k ->
         sectors s' !! k = sectors s !! k)
  else free_map s' = free_map s /\
    forall j, 0 <= j -> j + nsectors length <= bit_cnt (free_map s) -> ~ all_bits (free_map s) j (nsectors length) false.

Lemma inode_create_ok s x i sector length :
  map_ok s x i -> bit_cnt (free_map s) = capacity s -> 0 <= length < 2 ^ 31 - 512 ->
  0 <= sector < capacity s -> bit (free_map s) sector = true ->
  wp (inode_create sector length) (create_post s i sector length) s.
Proof.
  intros Hm Hcap Hlen Hsec Hbit. pose proof (mo_disk _ _ _ Hm) as Hd. pose proof (do_capacity _ Hd) as Hc.
  pose proof (nsectors_bounds length ltac:(lia)) as Hns. unfold inode_create.
  wp_step. apply wp_assert; [apply Z.geb_le; lia|]. wp_step. apply wp_malloc; [apply Hm|].
  intros p s1 Hh Hnx Hmem _. destruct (Hmem (mo_memory _ _ _ Hm)) as [Hnf1 ->]. cbn beta.
  rewrite (proj2 (Z.eqb_neq _ _)) by (pose proof (mo_memory _ _ _ Hm) as [_ H]; unfold null; lia). cbn [negb].
  assert (map_ok s1 x i /\ free_map s1 = free_map s /\ capacity s1 = capacity s /\ sectors s1 = sectors s) as (Hm1 & Hfm1 & Hcap1 & Hsec1).
  { destruct Hh as (l & n & ->). split; [|done]. destruct Hm as [H1 [H2 H3] H4 H5]. split; [done|by split|done|].
    intros Hf. destruct (H5 Hf) as (E1 & [E2 E3 [E4 E5 E6]] & E7 & E8). split; [done|]. split; [split; [done|done|by split]|done]. }
  wp_step. eapply wp_lift; [apply bytes_to_sectors_ok; lia|]. cbn beta. wp_step.
  eapply wp_mono; [apply (free_map_allocate_ok _ x i); [done|lia]|]. intros [start|] s2 (Hms & Hff & Hpost); cbn beta iota.
  2:{ apply wp_ret. rewrite Hfm1 in Hpost. done. }
  destruct Hpost as (H1 & H2 & H3 & _ & H5 & _). rewrite Hfm1 in *. destruct Hms as [Hds Hout].
  pose proof (ds_only _ _ Hds) as (m & l & n & E). assert (capacity s2 = capacity s) as Hcap2 by (by rewrite E).
  pose proof (ds_disk _ _ Hds ltac:(by destruct (mo_disk _ _ _ Hm1); split)) as Hd2.
  set (d := InodeDisk start length INODE_MAGIC).
  assert (~ (start <= sector < start + nsectors length)) as Hnin.
  { intros Hin. specialize (H3 sector ltac:(lia)). congruence. }
  wp_step. apply wp_disk_write; [done|lia|]. set (s3 := set_sectors _ s2).
  assert (disk_step s2 s3) as Hs3 by apply sector_disk_step, inode_bytes_length.
  assert (wp (if nsectors length >? 0 then zero_loop (Z.to_nat (nsectors length)) start 0 else mret tt)
    (fun _ s' => disk_step s3 s' /\ free_map s' = free_map s3 /\
       forall k, sectors s' !! k = if decide (on_sectors d k) then Some (replicate 512 0) else sectors s3 !! k) s3) as Hz.
  { unfold on_sectors, d. cbn [d_start d_length]. destruct (Z.gtb_spec (nsectors length) 0).
    - eapply wp_mono; [apply zero_loop_ok; [by apply Hs3|lia|lia|simpl; lia]|]. intros [] s4 (? & ? & Hk). split; [done|].
      split; [done|]. intros k. rewrite Hk. rewrite Z2Nat.id, Z.add_0_r by lia. done.
    - apply wp_ret. split; [done|]. split; [done|]. intros k. by rewrite decide_False by lia. }
  wp_step. eapply wp_mono; [exact Hz|]. intros [] s4 (Hs4 & Hfm4 & Hk4). cbn beta. apply wp_ret. exists start. fold d. cbn zeta.
  pose proof (ds_only _ _ Hs4) as (m4 & l4 & n4 & E4). assert (capacity s4 = capacity s) as Hcap4 by (by rewrite E4).
  split; [|split; [|split; [|split; [|split; [done|split]]]]].
  - rewrite Hk4, decide_False by done. apply lookup_insert_eq.
  - apply bytes_inode_bytes; unfold d, is_u32, is_s32, INODE_MAGIC; cbn [d_start d_length d_magic]; lia.
  - split; unfold d; cbn [d_start d_length]; lia.
  - apply content_zero; [unfold d; cbn [d_length]; lia|]. intros k Hk. by rewrite Hk4, decide_True.
  - by rewrite Hfm4.
  - intros k Hk Hne Hnd Hni. rewrite Hk4, decide_False by done. unfold s3. cbn [sectors set_sectors].
    rewrite lookup_insert_ne by done. rewrite Hout by (done || lia). by rewrite Hsec1.
Qed.

(** ** The open inodes *)

(** Every open inode is listed once and has a positive count; no two are of the same
    sector. *)
Record open_wf (s : fs) : Prop := {
  ow_nodup : NoDup (open_inodes s);
  ow_listed p : p ∈ open_inodes s <-> is_Some (inodes s !! p);
  ow_count p i : inodes s !! p = Some i -> 0 < p < next_ptr s /\ 1 <= open_cnt i < 2 ^ 31 /\ 0 <= deny_write_cnt i <= open_cnt i;
  ow_sector p q i j : inodes s !! p = Some i -> inodes s !! q = Some j -> sector i = sector j -> p = q
}.

(** Writing to the disk and allocating memory leave them as they are. *)
Lemma open_wf_disk s s' : disk_step s s' -> open_wf s -> open_wf s'.
Proof.
  intros [(m & l & n & ->) _ Hn _] [H1 H2 H3 H4]. split; [done|done| |done]. intros p i Hi.
  destruct (H3 p i Hi) as [Hp Hc]. simpl in *. split; [lia|done].
Qed.

(** A change of one inode that keeps its sector. *)
Lemma open_wf_put s p i i' :
  open_wf s -> inodes s !! p = Some i -> sector i' = sector i -> 1 <= open_cnt i' < 2 ^ 31 ->
  0 <= deny_write_cnt i' <= open_cnt i' -> open_wf (set_inodes (<[p := i']> (inodes s)) s).
Proof.
  intros [H1 H2 H3 H4] Hi Hs Hc Hdw. split; simpl.
  - done.
  - intros q. rewrite H2. destruct (decide (p = q)) as [->|]; [rewrite lookup_insert_eq, Hi; by split|].
    by rewrite lookup_insert_ne.
  - intros q j. destruct (decide (p = q)) as [->|].
    + rewrite lookup_insert_eq. intros [= <-]. by destruct (H3 q i Hi).
    + rewrite lookup_insert_ne by done. apply H3.
  - intros q q' j j'. destruct (decide (p = q)) as [->|], (decide (q = q')) as [->|]; [done| |done|].
    + rewrite lookup_insert_eq, lookup_insert_ne by done. intros [= <-] Hj'. rewrite Hs. by apply H4.
    + rewrite lookup_insert_ne by done. destruct (decide (p = q')) as [->|].
      * rewrite lookup_insert_eq. intros Hj [= <-]. rewrite Hs. by apply H4.
      * rewrite lookup_insert_ne by done. apply H4.
Qed.

Lemma find_open_ok l sec s :
  open_wf s -> (forall p, p ∈ l -> p ∈ open_inodes s) ->
  wp (find_open l sec) (fun r s' => s' = s /\
    match r with
    | Some p => exists i, inodes s !! p = Some i /\ sector i = sec
    | None => forall p i, p ∈ l -> inodes s !! p = Some i -> sector i <> sec
    end) s.
Proof.
  intros Hw. induction l as [|p l IH]; intros Hl.
  { apply wp_ret. split; [done|]. intros p i Hp. by apply elem_of_nil in Hp. }
  simpl. destruct (proj1 (ow_listed _ Hw p)) as [i Hi]; [apply Hl; mem|]. wp_step. apply (wp_get_inode _ i); [done|].
  destruct (Z.eqb_spec (sector i) sec) as [Hs|Hs]; [apply wp_ret; eauto|].
  eapply wp_mono; [apply IH; intros q Hq; apply Hl; mem|]. intros [q|] s' [-> H]; [done|]. split; [done|].
  intros q j [->|Hq]%elem_of_cons; [|by apply H]. intros Hj. rewrite Hi in Hj. by injection Hj as <-.
Qed.

Definition reopened (i : inode) : inode := Inode (sector i) (open_cnt i + 1) (removed i) (deny_write_cnt i) (data i).

Lemma inode_reopen_ok p i s :
  p <> null -> inodes s !! p = Some i -> 1 <= open_cnt i < 2 ^ 31 - 1 ->
  inode_reopen p s = Ok (p, set_inodes (<[p := reopened i]> (inodes s)) s).
Proof.
  intros Hp Hi Hc. unfold inode_reopen. rewrite (proj2 (Z.eqb_neq _ _)) by done. cbn [negb].
  rewrite (bind_run _ _ _ i s) by (unfold get_inode, mbind, M_mbind, get, lift; by rewrite Hi).
  rewrite (bind_run _ _ _ (open_cnt i + 1) s) by (unfold lift; by rewrite int32_ok by (unfold is_s32; lia)). done.
Qed.

(** What inode_open gives: the open inode of the sector with one more opener, or a
    new one that is read from the disk. *)
Definition open_post (s : fs) (sec : Z) (p : Z) (s' : fs) : Prop :=
  open_wf s' /\ p <> null /\
  ((exists i, inodes s !! p = Some i /\ sector i = sec /\ s' = set_inodes (<[p := reopened i]> (inodes s)) s) \/
   ((forall q i, inodes s !! q = Some i -> sector i <> sec) /\ inodes s !! p = None /\
    exists l i s1, sectors s !! sec = Some l /\ i = Inode sec 1 false 0 (bytes_inode l) /\ heap_step s s1 /\
      s' = set_inodes (<[p := i]> (inodes s)) (set_open_inodes (p :: open_inodes s) s1))).

Lemma inode_open_ok sec s :
  open_wf s -> disk_ok s -> no_failures s -> 0 <= sec < capacity s ->
  (forall p i, inodes s !! p = Some i -> open_cnt i < 2 ^ 31 - 1) ->
  wp (inode_open sec) (open_post s sec) s.
Proof.
  intros Hw Hd Hnf Hsec Hmax. unfold inode_open. wp_step. wp_step. cbn beta. wp_step.
  eapply wp_mono; [by apply find_open_ok|]. intros r s' [-> Hr]. cbn beta. destruct r as [p|].
  - destruct Hr as (i & Hi & Hs). destruct (ow_count _ Hw p i Hi) as (Hp & Hc & Hdw). specialize (Hmax p i Hi).
    exists p, (set_inodes (<[p := reopened i]> (inodes s)) s). split; [apply inode_reopen_ok; [unfold null; lia|done|lia]|].
    split; [apply (open_wf_put s p i); [done|done|done|simpl; lia|simpl; lia]|]. split; [unfold null; lia|]. left. by exists i.
  - assert (forall q i, inodes s !! q = Some i -> sector i <> sec) as Hno.
    { intros q i Hi. apply (Hr q); [|done]. by apply (ow_listed _ Hw). }
    wp_step. apply wp_malloc; [apply Hnf|]. intros p s1 Hh Hn Hmem Hp. destruct (Hmem Hnf) as [Hnf1 ->]. cbn beta.
    assert (next_ptr s1 = next_ptr s + 1) as Hn1 by (destruct Hp as [Hp|[_ Hp]]; [unfold null in Hp; destruct Hnf; lia|done]).
    rewrite (proj2 (Z.eqb_neq _ _)) by (unfold null; destruct Hnf; lia). wp_step. wp_step. cbn beta.
    destruct (do_sectors _ Hd sec Hsec) as (l & Hl & Hll). pose proof Hh as (ml & nx & ->).
    wp_step. apply (wp_disk_read _ _ l); [by destruct Hd; split|done|done|]. cbn beta. wp_step. unfold put_inode. wp_step. cbn beta. wp_step.
    assert (inodes s !! next_ptr s = None) as Hfresh.
    { destruct (inodes s !! next_ptr s) as [i|] eqn:E; [|done]. destruct (ow_count _ Hw _ _ E) as [Hlt _]. lia. }
    assert (next_ptr s <> null) as Hnn by (unfold null; destruct Hnf; lia).
    split; [|split; [done|right]].
    + clear Hp Hmem. destruct Hw as [H1 H2 H3 H4]. simpl in Hn1, Hn. split; simpl.
      * constructor; [|done]. rewrite H2, Hfresh. by intros [].
      * intros q. rewrite elem_of_cons, H2. destruct (decide (q = next_ptr s)) as [->|Hne].
        -- rewrite lookup_insert_eq. split; [by eexists|by left].
        -- rewrite lookup_insert_ne by done. split; [by intros [?|?]|by right].
      * intros q i. destruct (decide (q = next_ptr s)) as [->|Hne].
        -- rewrite lookup_insert_eq. intros [= <-]. simpl. destruct Hnf. lia.
        -- rewrite lookup_insert_ne by done. intros Hi. destruct (H3 q i Hi) as [Hq Hc]. split; [lia|done].
      * intros q q' j j'. destruct (decide (q = next_ptr s)) as [->|], (decide (q' = next_ptr s)) as [->|]; [done| | |].
        -- rewrite lookup_insert_eq, lookup_insert_ne by done. intros [= <-] Hj' E. simpl in E. by destruct (Hno q' j').
        -- rewrite lookup_insert_ne, lookup_insert_eq by done. intros Hj [= <-] E. simpl in E. by destruct (Hno q j).
        -- rewrite !lookup_insert_ne by done. apply H4.
    + split; [done|]. split; [done|]. exists l, (Inode sec 1 false 0 (bytes_inode l)), (set_heap ml nx s).
      split; [done|]. split; [done|]. split; [|done]. split; [by exists ml, nx|done|done].
Qed.

(** ** Closing *)

Definition closed (i : inode) : inode := Inode (sector i) (open_cnt i - 1) (removed i) (deny_write_cnt i) (data i).

(** The state without the inode [p]. *)
Definition forget (p : Z) (s : fs) : fs :=
  set_inodes (delete p (inodes s)) (set_open_inodes (filter (fun q => q ≠ p) (open_inodes s)) s).

Lemma open_wf_forget p s : open_wf s -> open_wf (forget p s).
Proof.
  intros [H1 H2 H3 H4]. split; simpl.
  - by apply NoDup_filter.
  - intros q. rewrite list_elem_of_filter, H2. destruct (decide (q = p)) as [->|Hne].
    + rewrite lookup_delete_eq. split; [by intros [? _]|by intros [? ?]].
    + rewrite lookup_delete_ne by done. split; [by intros [_ ?]|by split].
  - intros q i [_ Hi]%lookup_delete_Some. by apply H3.
  - intros q q' j j' [_ Hj]%lookup_delete_Some [_ Hj']%lookup_delete_Some. by apply H4.
Qed.

Lemma forget_put p i s : forget p (set_inodes (<[p := i]> (inodes s)) s) = forget p s.
Proof. unfold forget, set_inodes, set_open_inodes. simpl. by rewrite delete_insert_eq. Qed.

(** The state just before the last opener's inode is freed. *)
Definition unlisted (p : Z) (i : inode) (s : fs) : fs :=
  set_open_inodes (filter (fun q => q ≠ p) (open_inodes s)) (set_inodes (<[p := closed i]> (inodes s)) s).

Lemma inode_close_step p i s :
  p <> null -> inodes s !! p = Some i -> 1 <= open_cnt i < 2 ^ 31 ->
  inode_close p s =
    if open_cnt i =? 1 then
      ((if removed i then
          free_map_release (sector i) 1;;
          cnt ← lift (bytes_to_sectors (d_length (data i)));
          free_map_release (d_start (data i)) cnt
        else mret tt);; free_inode p) (unlisted p i s)
    else Ok (tt, set_inodes (<[p := closed i]> (inodes s)) s).
Proof.
  intros Hp Hi Hc. unfold inode_close. rewrite (proj2 (Z.eqb_neq p null)) by done.
  rewrite (bind_run _ _ _ i s) by (unfold get_inode, mbind, M_mbind, get, lift; by rewrite Hi).
  rewrite (bind_run _ _ _ (open_cnt i - 1) s) by (unfold lift; by rewrite int32_ok by (unfold is_s32; lia)).
  rewrite (bind_run _ _ _ tt (set_inodes (<[p := closed i]> (inodes s)) s)) by done.
  destruct (Z.eqb_spec (open_cnt i) 1) as [E|E].
  - rewrite E. cbn [Z.sub Z.add Z.opp Z.eqb Z.pos_sub]. done.
  - by rewrite (proj2 (Z.eqb_neq (open_cnt i - 1) 0)) by lia.
Qed.

(** The sectors of a removed file. *)
Definition file_sector (i : inode) (k : Z) : Prop := k = sector i \/ on_sectors (data i) k.

#[export] Instance file_sector_dec i k : Decision (file_sector i k).
Proof. unfold file_sector, on_sectors. apply _. Defined.

Lemma in_range a b k : (a <=? k) && (k <? b) = bool_decide (a <= k < b).
Proof.
  case_bool_decide as H; [by apply andb_true_iff; rewrite Z.leb_le, Z.ltb_lt|].
  apply andb_false_iff. rewrite Z.leb_gt, Z.ltb_ge. lia.
Qed.

(** Releasing them, in a state with the free map's file [fi]. *)
Lemma release_both_ok s x fi i :
  map_ok s x fi -> free_map_file s <> null -> 0 <= sector i < bit_cnt (free_map s) ->
  0 <= d_length (data i) < 2 ^ 31 - 512 -> 0 <= d_start (data i) ->
  d_start (data i) + nsectors (d_length (data i)) <= bit_cnt (free_map s) -> ~ on_sectors (data i) (sector i) ->
  (forall k, file_sector i k -> bit (free_map s) k = true) ->
  wp (free_map_release (sector i) 1;;
      cnt ← lift (bytes_to_sectors (d_length (data i)));
      free_map_release (d_start (data i)) cnt)
    (fun _ s' => map_step s s' fi /\ saved s' fi /\
       forall k, 0 <= k -> bit (free_map s') k = if decide (file_sector i k) then false else bit (free_map s) k) s.
Proof.
  intros Hm Hf Hs Hl Hst Hend Hout Hall. pose proof (nsectors_bounds (d_length (data i)) ltac:(lia)) as Hns.
  wp_step. eapply wp_mono.
  { apply (free_map_release_ok s x fi); [done|done|lia|lia|lia|]. intros k Hk. apply Hall. left. lia. }
  intros [] s1 (Hms1 & Hff1 & (Hc1 & Hw1 & Hb1) & Hsv1). cbn beta. wp_step.
  eapply wp_lift; [apply bytes_to_sectors_ok; lia|]. cbn beta. pose proof Hms1 as [Hds1 Hout1].
  assert (map_ok s1 x fi) as Hm1.
  { pose proof (ds_only _ _ Hds1) as (m & l & n & E). pose proof (map_ok_set s x fi (free_map s1) Hm Hw1 Hc1) as [H1 H2 H3 H4].
    split; [done|by apply Hds1|by apply Hds1|]. intros Hf1. destruct (H4 Hf) as (E1 & E2 & E3 & E4).
    split; [rewrite Hff1, E; exact E1|]. split; [|done]. eapply disk_step_open; [exact Hds1|]. by destruct E2 as [? ? []]. }
  eapply wp_mono.
  { apply (free_map_release_ok s1 x fi); [done|by rewrite Hff1|lia|lia|lia|]. intros k Hk. rewrite Hb1 by lia.
    destruct (_ && _) eqn:E; [|apply Hall; right; done]. apply andb_true_iff in E. rewrite Z.leb_le, Z.ltb_lt in E.
    exfalso. apply Hout. replace (sector i) with k by lia. done. }
  intros [] s2 (Hms2 & Hff2 & (Hc2 & Hw2 & Hb2) & Hsv2). cbn beta. pose proof Hms2 as [Hds2 Hout2].
  split; [|split; [done|]].
  - pose proof (ds_only _ _ Hds1) as (m & l & n & E). split; [|intros k Hk Hn; rewrite Hout2; [by apply Hout1|by rewrite E|done]].
    etrans; [|exact Hds2]. destruct Hds1 as [Ho H1 H2 H3]. split.
    + exists m, l, n. by rewrite E.
    + intros Hd. destruct H1 as [Ha Hb]; [by destruct Hd; split|]. by split.
    + done.
    + done.
  - intros k Hk. rewrite Hb2, Hb1, !in_range by done. unfold file_sector, on_sectors.
    destruct (decide _) as [Hd|Hd]; repeat case_bool_decide; try done; exfalso; lia.
Qed.

Lemma open_wf_ext s s' :
  open_inodes s' = open_inodes s -> inodes s' = inodes s -> next_ptr s <= next_ptr s' -> open_wf s -> open_wf s'.
Proof.
  intros H1 H2 H3 [Ha Hb Hc Hd]. split; rewrite ?H1, ?H2; try done. intros p i Hi.
  destruct (Hc p i Hi). split; [lia|done].
Qed.

(** Whose sectors are in the map, as those of a file are. *)
Record mapped_file (s : fs) (i : inode) : Prop := {
  mf_sector : 0 <= sector i < bit_cnt (free_map s);
  mf_length : 0 <= d_length (data i) < 2 ^ 31 - 512;
  mf_start : 0 <= d_start (data i);
  mf_end : d_start (data i) + nsectors (d_length (data i)) <= bit_cnt (free_map s);
  mf_apart : ~ on_sectors (data i) (sector i);
  mf_taken k : file_sector i k -> bit (free_map s) k = true
}.

(** A closed inode: with other openers it has one less; the last close forgets it, and
    if its file was removed, exactly its sectors become free, also on disk. *)
Definition close_post (s : fs) (fi : inode) (p : Z) (i : inode) (s' : fs) : Prop :=
  open_wf s' /\ (forall q, q <> p -> inodes s' !! q = inodes s !! q) /\
  if decide (open_cnt i = 1) then
    inodes s' !! p = None /\ p ∉ open_inodes s' /\ (removed i = true -> saved s' fi) /\
    forall k, 0 <= k -> bit (free_map s') k = if removed i && bool_decide (file_sector i k) then false else bit (free_map s) k
  else inodes s' !! p = Some (closed i) /\ free_map s' = free_map s.

Lemma close_post_forget s fi p i s' :
  open_wf s -> open_cnt i = 1 -> inodes s' = delete p (inodes s) ->
  open_inodes s' = filter (fun q => q ≠ p) (open_inodes s) -> next_ptr s <= next_ptr s' ->
  (removed i = true -> saved s' fi) ->
  (forall k, 0 <= k -> bit (free_map s') k = if removed i && bool_decide (file_sector i k) then false else bit (free_map s) k) ->
  close_post s fi p i s'.
Proof.
  intros Hw Hc Hi Hl Hn Hsv Hb. split; [by apply (open_wf_ext (forget p s)); [..|apply open_wf_forget]|].
  split; [intros q Hq; by rewrite Hi, lookup_delete_ne|]. rewrite decide_True by done.
  split; [rewrite Hi; apply lookup_delete_eq|]. split; [|done]. rewrite Hl, list_elem_of_filter. by intros [? _].
Qed.

Lemma inode_close_ok s x fi p i :
  map_ok s x fi -> free_map_file s <> null -> open_wf s -> inodes s !! p = Some i -> deny_write_cnt i < open_cnt i ->
  p <> f_inode x -> mapped_file s i ->
  wp (inode_close p) (fun _ s' => close_post s fi p i s') s.
Proof.
  intros Hm Hf Hw Hi Hdw Hpx Hmf. destruct (ow_count _ Hw p i Hi) as (Hp & Hc & Hdn).
  pose proof (inode_close_step p i s ltac:(unfold null; lia) Hi Hc) as Estep.
  destruct (Z.eqb_spec (open_cnt i) 1) as [E1|E1].
  2:{ eexists tt, _. split; [exact Estep|]. split; [apply (open_wf_put s p i); [done|done|done|simpl; lia|simpl; lia]|].
      split; [intros q Hq; by apply lookup_insert_ne|]. rewrite decide_False by done. split; [apply lookup_insert_eq|done]. }
  cut (wp ((if removed i then
          free_map_release (sector i) 1;;
          cnt ← lift (bytes_to_sectors (d_length (data i)));
          free_map_release (d_start (data i)) cnt
        else mret tt);; free_inode p) (fun _ s' => close_post s fi p i s') (unlisted p i s)).
  { intros (a & s' & E & H). exists a, s'. split; [by rewrite Estep|done]. }
  wp_step. destruct (removed i) eqn:Hr.
  2:{ wp_step. unfold free_inode. wp_step. apply close_post_forget; [done|done|apply delete_insert_eq|done|simpl; lia|congruence|].
      intros k Hk. by rewrite Hr. }
  assert (map_ok (unlisted p i s) x fi) as Hm1.
  { destruct Hm as [H1 [H2 H3] H4 H5]. split; [done|by split|done|]. intros Hf1. destruct (H5 Hf1) as (A1 & [A2 A3 [A4 A5 A6]] & A7 & A8).
    split; [done|]. split; [split; [done|simpl; by rewrite lookup_insert_ne|by split]|]. by split. }
  destruct Hmf as [H1 H2 H3 H4 H5 H6].
  eapply wp_mono; [by apply (release_both_ok _ x fi i)|]. intros a s2 ([Hds Hout] & Hsv & Hb). cbn beta. unfold free_inode. wp_step.
  pose proof (ds_only _ _ Hds) as (m & l & n & E). pose proof (ds_next _ _ Hds) as Hn. simpl in Hn.
  apply close_post_forget; [done|done|by rewrite E; apply delete_insert_eq|by rewrite E|done|by intros _|].
  intros k Hk. simpl. rewrite Hb by done. rewrite Hr. simpl. by case_bool_decide; case_decide.
Qed.
