(* ===== verification/FsTheorems.v ===== *)
(** * The theorems about the file system

    Files, the free map, inodes and directories, with a small file system at which
    they are tried. *)

From S2P Require Import Prelude Interfaces Bitmap FsState Inode InodeFacts FreeMap FsFile Directory Filesys.
From S2P Require Import FileTheorems DirFacts FreeMapFacts OpenInodes.

(** ** A small file system *)

(** [n] sectors of zeros. *)
Definition blank_disk (n : Z) : gmap Z (list Z) := list_to_map ((fun k => (k, replicate 512 0)) <$> seqZ 0 n).

Lemma lookup_blank n k : 0 <= k < n -> blank_disk n !! k = Some (replicate 512 0).
Proof.
  intros Hk. unfold blank_disk. apply elem_of_list_to_map_1.
  - rewrite <-list_fmap_compose. unfold compose. simpl. rewrite list_fmap_id. apply NoDup_seqZ.
  - apply list_elem_of_fmap. exists k. split; [done|]. apply elem_of_seqZ. lia.
Qed.

(** 16 sectors: the free map's inode in sector 0 with its data in sector 2, the root
    directory in 1 and 3, and a file of 600 bytes in 4, 5 and 6. *)
Definition ex_map_inode : inode := Inode 0 1 false 0 (InodeDisk 2 8 INODE_MAGIC).
Definition ex_dir_inode : inode := Inode 1 1 false 0 (InodeDisk 3 320 INODE_MAGIC).
Definition ex_file_inode : inode := Inode 4 1 false 0 (InodeDisk 5 600 INODE_MAGIC).
Definition ex_map_file : file := File 1 0 false 1 0.
Definition ex_file : file := File 3 0 false 1 0.

Definition ex_fs : fs :=
  Fs 16 (blank_disk 16) (Bitmap 16 [0x7f]) 10 [1; 2; 3]
     (<[1 := ex_map_inode]> (<[2 := ex_dir_inode]> (<[3 := ex_file_inode]> ∅)))
     (<[10 := ex_map_file]> (<[11 := ex_file]> ∅)) (<[12 := Dir 2 0]> ∅) [] 20.

Lemma ex_disk : disk_ok ex_fs.
Proof.
  split; [simpl; lia|]. intros k Hk. exists (replicate 512 0). split; [by apply lookup_blank|]. apply length_replicate.
Qed.

Lemma ex_memory : no_failures ex_fs.
Proof. split; [constructor|]. simpl. lia. Qed.

Lemma ex_open p i :
  inodes ex_fs !! p = Some i -> p = 1 /\ i = ex_map_inode \/ p = 2 /\ i = ex_dir_inode \/ p = 3 /\ i = ex_file_inode.
Proof.
  simpl. intros [[<- <-]|[_ [[<- <-]|[_ [[<- <-]|[_ H]]%lookup_insert_Some]]%lookup_insert_Some]]%lookup_insert_Some; auto.
  by rewrite lookup_empty in H.
Qed.

Lemma ex_open_at p i : inodes ex_fs !! p = Some i -> open_at ex_fs p i.
Proof.
  intros Hi. destruct (ex_open p i Hi) as [[-> ->]|[[-> ->]|[-> ->]]];
    (split; [done|exact Hi|split; vm_compute; (done || (split; done))]).
Qed.

Lemma ex_open_wf : open_wf ex_fs.
Proof.
  split.
  - simpl. apply (bool_decide_unpack _). vm_compute. done.
  - intros p. simpl. rewrite !elem_of_cons, elem_of_nil. split.
    + intros [->|[->|[->|[]]]]; by eexists.
    + intros [i Hi]. destruct (ex_open p i Hi) as [[-> _]|[[-> _]|[-> _]]]; auto.
  - intros p i Hi. destruct (ex_open p i Hi) as [[-> ->]|[[-> ->]|[-> ->]]]; simpl; lia.
  - intros p q i j Hi Hj. destruct (ex_open p i Hi) as [[-> ->]|[[-> ->]|[-> ->]]],
      (ex_open q j Hj) as [[-> ->]|[[-> ->]|[-> ->]]]; done.
Qed.

Lemma ex_ready : fs_ready 11 ex_fs.
Proof. split; [apply ex_disk|apply ex_memory|]. exists ex_file, ex_file_inode. split; [done|by apply ex_open_at]. Qed.

Lemma ex_map_ok : map_ok ex_fs ex_map_file ex_map_inode.
Proof.
  split; [|apply ex_disk|apply ex_memory|].
  - unfold bitmap_wf. simpl. split_and!; [lia|lia|done|]. repeat constructor; lia.
  - intros _. split; [done|]. split; [by apply ex_open_at|done].
Qed.

Lemma ex_entries : entries ex_fs (data ex_dir_inode) = replicate 16 (replicate 20 0).
Proof. vm_compute. reflexivity. Qed.

Lemma ex_dir_at : dir_at ex_fs 2 ex_dir_inode.
Proof.
  split; [apply ex_disk|apply ex_memory|by apply ex_open_at|]. rewrite ex_entries. split.
  - intros e He Hu. apply elem_of_replicate in He as [-> _]. by vm_compute in Hu.
  - apply NoDup_nil_2.
Qed.

(** ** Files *)

(** C7: An open file is a sequence of bytes of fixed length. Any sequence of reads
    and writes at offsets through the file returns the same bytes and counts as on
    that sequence, where a write stops at the end; what is stored afterwards is what
    the sequence is then, and the sectors of other files are as before. *)
Theorem files_refine_bytes f x i ops s
  (Hready : fs_ready f s) (Hx : files s !! f = Some x) (Hopen : open_at s (f_inode x) i)
  (Hdeny : deny_write_cnt i = 0) (Hops : Forall op_ok ops) :
  wp (run_ops f ops) (fun r s' =>
    (r, content s' (data i)) = spec_ops ops (content s (data i)) /\ disk_step s s' /\
    forall k, 0 <= k < capacity s -> ~ on_sectors (data i) k -> sectors s' !! k = sectors s !! k) s.
Proof. by apply (run_ops_ok f x i). Qed.

Definition ex_ops : list file_op := [WriteAt [1; 2; 3; 4] 510; ReadAt 3 511; WriteAt [5; 6] 599; ReadAt 4 598].

Lemma files_refine_bytes_witness :
  exists s', run_ops 11 ex_ops ex_fs = Ok ([inr 4; inl [2; 3; 4]; inr 1; inl [0; 5]], s').
Proof.
  destruct (files_refine_bytes 11 ex_file ex_file_inode ex_ops ex_fs) as (r & s' & E & H & _);
    [exact ex_ready|reflexivity|by apply ex_open_at|reflexivity|repeat constructor; simpl; lia|].
  exists s'. rewrite E. apply (f_equal fst) in H. vm_compute in H. by rewrite H.
Defined.

(** ** The free map *)



(** ** Inodes *)

(** C17: inode_create makes a file of zeros: it writes an inode that reads back with
    the file's length, the file's content is zero, and its sectors were free and are
    taken. No other sector but the free map's changes. Without enough consecutive
    sectors it fails. *)
Theorem inode_create_zeroed s x i sector length
  (Hmap : map_ok s x i) (Hcap : bit_cnt (free_map s) = capacity s) (Hlen : 0 <= length < 2 ^ 31 - 512)
  (Hsec : 0 <= sector < capacity s) (Htaken : bit (free_map s) sector = true) :
  wp (inode_create sector length) (create_post s i sector length) s.
Proof. by apply (inode_create_ok s x). Qed.

Lemma inode_create_zeroed_witness :
  exists ok s', inode_create 4 700 ex_fs = Ok (ok, s') /\ create_post ex_fs ex_map_inode 4 700 ok s'.
Proof.
  destruct (inode_create_zeroed ex_fs ex_map_file ex_map_inode 4 700 ex_map_ok) as (ok & s' & E & H);
    [reflexivity|lia|simpl; lia|reflexivity|]. by exists ok, s'.
Defined.

(** C18: Opening a sector gives one inode for all who have it open: if it is open, the
    same inode with one more opener, and otherwise a new one with what is on the
    disk. The list of open inodes keeps one inode for each sector. *)
Theorem inode_open_shares sec s
  (Hwf : open_wf s) (Hdisk : disk_ok s) (Hmem : no_failures s) (Hsec : 0 <= sec < capacity s)
  (Hmax : forall p i, inodes s !! p = Some i -> open_cnt i < 2 ^ 31 - 1) :
  wp (inode_open sec) (open_post s sec) s.
Proof. by apply inode_open_ok. Qed.

Lemma inode_open_shares_witness : exists p s', inode_open 4 ex_fs = Ok (p, s') /\ open_post ex_fs 4 p s'.
Proof.
  destruct (inode_open_shares 4 ex_fs ex_open_wf ex_disk ex_memory) as (p & s' & E & H); [simpl; lia| |by exists p, s'].
  intros p i Hi. destruct (ex_open p i Hi) as [[-> ->]|[[-> ->]|[-> ->]]]; simpl; lia.
Defined.

(** C15: Closing an inode that others have open only counts down. The last close
    forgets it; if the file was removed, the sectors of its inode and its data become
    free, no other sector does, and the free map on disk is the new one. *)
Theorem inode_close_releases s x fi p i
  (Hmap : map_ok s x fi) (Hfile : free_map_file s <> null) (Hwf : open_wf s) (Hi : inodes s !! p = Some i)
  (Hdeny : deny_write_cnt i < open_cnt i) (Hother : p <> f_inode x) (Hmf : mapped_file s i) :
  wp (inode_close p) (fun _ s' => close_post s fi p i s') s.
Proof. by apply (inode_close_ok s x). Qed.

(** The file of the example, after inode_remove. *)
Definition ex_removed_inode : inode := Inode 4 1 true 0 (InodeDisk 5 600 INODE_MAGIC).
Definition ex_removed : fs := set_inodes (<[3 := ex_removed_inode]> (inodes ex_fs)) ex_fs.

Lemma ex_removed_run : inode_remove 3 ex_fs = Ok (tt, ex_removed).
Proof. reflexivity. Qed.

Lemma ex_removed_map_ok : map_ok ex_removed ex_map_file ex_map_inode.
Proof.
  pose proof ex_map_ok as [H1 [H2 H3] H4 H5]. split; [done|by split|done|]. intros _. destruct H5 as (A1 & [A2 A3 [A4 A5 A6]] & A7); [done|].
  split; [done|]. split; [split; [done|done|by split]|done].
Qed.

Lemma inode_close_releases_witness :
  exists s', inode_close 3 ex_removed = Ok (tt, s') /\ close_post ex_removed ex_map_inode 3 ex_removed_inode s' /\
    bits (free_map s') = [0x0f].
Proof.
  destruct (inode_close_releases ex_removed ex_map_file ex_map_inode 3 ex_removed_inode) as ([] & s' & E & H).
  - exact ex_removed_map_ok.
  - done.
  - apply (open_wf_put ex_fs 3 ex_file_inode); [exact ex_open_wf|reflexivity|reflexivity|simpl; lia|simpl; lia].
  - reflexivity.
  - simpl. lia.
  - done.
  - split; [simpl; lia|simpl; lia|simpl; lia|vm_compute; done|vm_compute; intros [H1 H2]; by apply H1|].
    intros k [->|[Hk1 Hk2]]; [reflexivity|]. simpl in Hk1. change (nsectors _) with 2 in Hk2. simpl in Hk2.
    assert (k = 5 \/ k = 6) as [->| ->] by lia; reflexivity.
  - exists s'. split; [exact E|]. split; [exact H|].
    assert (outcome_val ((inode_close 3;; b ← gets free_map; mret (bits b)) ex_removed) = Some [0x0f]) as Hv by (vm_compute; reflexivity).
    apply outcome_val_ok in Hv as [s2 Hv]. rewrite (bind_run _ _ _ _ _ E) in Hv. by injection Hv as <- _.
Defined.


(** What file_deny_write does. *)
Lemma file_deny_write_run f x i s s' :
  f <> null -> files s !! f = Some x -> inodes s !! f_inode x = Some i -> f_deny_write x = false ->
  file_deny_write f s = Ok (tt, s') ->
  inodes s' !! f_inode x = Some (Inode (sector i) (open_cnt i) (removed i) (deny_write_cnt i + 1) (data i)) /\
  deny_write_cnt i + 1 <= open_cnt i.
Proof.
  intros Hf Hx Hi Hd Hrun. unfold file_deny_write in Hrun. rewrite (proj2 (Z.eqb_neq _ _) Hf) in Hrun.
  rewrite (bind_run _ _ _ tt s) in Hrun by done.
  rewrite (bind_run _ _ _ x s) in Hrun by (unfold get_file, mbind, M_mbind, get, lift; by rewrite Hx).
  rewrite Hd in Hrun. cbn [negb] in Hrun. apply bind_Ok in Hrun as ([] & s1 & E1 & Hrun). injection E1 as <-.
  unfold inode_deny_write in Hrun.
  apply bind_Ok in Hrun as (i' & s0 & E0 & Hrun). unfold get_inode, mbind, M_mbind, get, lift in E0. cbn in E0.
  rewrite Hi in E0. injection E0 as <- <-.
  apply bind_Ok in Hrun as (n & s2 & E2 & Hrun). unfold lift, int32 in E2. destruct (_ && _) in E2; [|done].
  injection E2 as <- <-. apply bind_Ok in Hrun as ([] & s3 & E3 & Hrun). injection E3 as <-.
  unfold assertM, lift, ASSERT in Hrun. destruct (Z.leb_spec (deny_write_cnt i + 1) (open_cnt i)); [|done].
  injection Hrun as <-. split; [apply lookup_insert_eq|done].
Qed.

(** After file_deny_write on a file no write reaches its inode, through this file
    or through any other that has the inode open: the write returns 0 and changes
    nothing. *)
Theorem denied_inode_unwritable f x i s s'
  (Hnull : f <> null) (Hx : files s !! f = Some x) (Hi : inodes s !! f_inode x = Some i)
  (Hdeny : 0 <= deny_write_cnt i) (Hfirst : f_deny_write x = false) (Hrun : file_deny_write f s = Ok (tt, s')) :
  forall g y buffer size ofs, files s' !! g = Some y -> f_inode y = f_inode x ->
    file_write_at g buffer size ofs s' = Ok (0, s').
Proof.
  intros g y buffer size ofs Hg Hy. destruct (file_deny_write_run f x i s s') as [Hi' _]; [done..|].
  unfold file_write_at. rewrite (bind_run _ _ _ y s') by (unfold get_file, mbind, M_mbind, get, lift; by rewrite Hg).
  rewrite Hy. eapply inode_write_denied; [exact Hi'|simpl; lia].
Qed.

(** Two files with the same inode. *)
Definition ex_shared : fs := set_files (<[13 := ex_file]> (files ex_fs)) ex_fs.

Lemma denied_inode_unwritable_witness :
  exists s', file_deny_write 11 ex_shared = Ok (tt, s') /\ file_write_at 13 [1; 2] 2 0 s' = Ok (0, s').
Proof.
  assert (exists s', file_deny_write 11 ex_shared = Ok (tt, s')) as [s' E] by (eexists; reflexivity).
  exists s'. split; [exact E|]. apply (denied_inode_unwritable 11 ex_file ex_file_inode ex_shared s' ltac:(done) eq_refl eq_refl
    ltac:(simpl; lia) eq_refl E 13 ex_file); [|reflexivity].
  assert (outcome_val ((file_deny_write 11;; gets (fun s => files s !! 13)) ex_shared) = Some (Some ex_file)) as Hv by reflexivity.
  apply outcome_val_ok in Hv as [s2 Hv]. rewrite (bind_run _ _ _ _ _ E) in Hv. by injection Hv as -> _.
Defined.

(** ** Directories *)

(** A directory is a finite map from names to sectors. lookup finds a name
    exactly if the map has it, with the map's sector, and changes nothing. *)
Theorem lookup_refines_map dp d i name garbage s
  (Hnull : dp <> null) (Hd : dirs s !! dp = Some d) (Hdir : dir_at s (dir_inode d) i) (Hg : length garbage = 20%nat)
  (Hname : Forall (fun c => 0 < c < 256) name) :
  wp (lookup dp (Some name) garbage) (fun r s' =>
    heap_step s s' /\ dir_map (entries s (data i)) !! name = (inode_sector ∘ fst <$> r)) s.
Proof.
  eapply wp_mono; [by apply (lookup_ok dp d i)|]. intros r s' [Hh Hf]. split; [done|]. by apply found_map; [apply Hdir|].
Qed.

Definition ex_garbage : list Z := replicate 20 7.

Lemma lookup_refines_map_witness : exists r s', lookup 12 (Some [97]) ex_garbage ex_fs = Ok (r, s') /\ r = None.
Proof.
  destruct (lookup_refines_map 12 (Dir 2 0) ex_dir_inode [97] ex_garbage ex_fs) as (r & s' & E & _ & H);
    [done|reflexivity|exact ex_dir_at|reflexivity|repeat constructor; lia|].
  exists r, s'. split; [exact E|]. rewrite ex_entries in H. by destruct r.
Defined.

(** C8: dir_add inserts into that map: it succeeds exactly if the name has 1 to 14
    characters, is not in the map, and an entry is free; then the map has the name
    with the given sector and is otherwise the same. If it fails the map stays. The
    directory stays well-formed, and only its own sectors are written. *)
Theorem dir_add_refines_insert dp d i name sector garbage s
  (Hnull : dp <> null) (Hd : dirs s !! dp = Some d) (Hdir : dir_at s (dir_inode d) i) (Hdeny : deny_write_cnt i = 0)
  (Hname : Forall (fun c => 0 < c < 256) name) (Hsec : is_u32 sector) (Hg : length garbage = 20%nat) :
  wp (dir_add dp (Some name) sector garbage) (add_post s (data i) name sector) s.
Proof. by apply (dir_add_ok dp d). Qed.

Lemma dir_add_refines_insert_witness :
  exists s', dir_add 12 (Some [97; 98]) 7 ex_garbage ex_fs = Ok (true, s') /\
    dir_map (entries s' (data ex_dir_inode)) = {[ [97; 98] := 7 ]}.
Proof.
  destruct (dir_add_refines_insert 12 (Dir 2 0) ex_dir_inode [97; 98] 7 ex_garbage ex_fs) as (ok & s' & E & _ & _ & _ & Hok & H);
    [done|reflexivity|exact ex_dir_at|reflexivity|repeat constructor; lia|split; lia|reflexivity|].
  exists s'. rewrite ex_entries in Hok, H. assert (ok = true) as ->.
  { apply Hok. split; [split; [simpl; lia|repeat constructor; lia]|]. split; [reflexivity|].
    exists (replicate 20 0). split; [|reflexivity]. apply elem_of_replicate. split; [done|lia]. }
  split; [exact E|]. rewrite H. reflexivity.
Defined.

(** ** The file system *)

(** The number of sectors that are taken. *)
Definition taken (s : fs) : Z := count_bits (free_map s) 0 (Z.to_nat (bit_cnt (free_map s))) true.

(** A disk of 64 sectors. *)
Definition ex_disk64 : fs := Fs 64 (blank_disk 64) (Bitmap 0 []) 0 [] ∅ ∅ ∅ [] 1.
Definition ex_init : M fs unit := filesys_init [5] true true.

(** Format, create a file twice, and count. *)
Definition ex_create_twice : M fs (bool * Z * bool * Z) :=
  ex_init;;
  a ← filesys_create ex_garbage (Some [97]) 600;
  n ← gets taken;
  b ← filesys_create ex_garbage (Some [97]) 600;
  m ← gets taken;
  mret (a, n, b, m).


(** A session: format, create, write, read, remove while open, close. *)
Definition ex_session : M fs (Z * list Z * Z * bool * Z * Z) :=
  ex_init;;
  filesys_create ex_garbage (Some [97; 98]) 600;;
  f ← filesys_open ex_garbage (Some [97; 98]);
  file_seek f 510;;
  n ← file_write f [1; 2; 3; 4] 4;
  file_seek f 509;;
  l ← file_read f 6;
  g ← filesys_open ex_garbage (Some [98]);
  r ← filesys_remove ex_garbage (Some [97; 98]);
  h ← filesys_open ex_garbage (Some [97; 98]);
  file_close f;;
  m ← gets taken;
  mret (n, l, g, r, h, m).

(** Removing frees the sectors with the last close: four stay taken, those of the free
    map and the directory. *)
Lemma ex_session_run : outcome_val (ex_session ex_disk64) = Some (4, [0; 1; 2; 3; 4; 0], null, true, null, 4).
Proof. vm_compute. reflexivity. Qed.
