(* ===== verification/Descriptors.v ===== *)
(** * userprog/syscall.c: the system calls on files

    A process has a table of descriptors. An entry is null, one of the values STDIN
    and STDOUT that stand for the console, or an open file; several descriptors may
    share a file, whose [dup_count] says how many do.

    The state is that of the file system and of the running process. Whether a user
    address can be accessed depends on the page tables, of which the functions that
    check addresses are parameters here; so are the contents of user memory. The lock
    of the file system is held by the running process or free: waiting for another
    process that holds it is not modelled. *)

From S2P Require Import Prelude FsState Inode FreeMap FsFile Directory Filesys VMem.

(** ** The state *)

Definition MAX_FD : Z := 1536.
Definition STDIN : Z := 1.
Definition STDOUT : Z := 2.

(** [input] are the keys that will be typed, [output] is what was printed. *)
Record proc : Type := Proc {
  pfs : fs;
  fd_table : list Z;
  fd_idx : Z;
  stdin_count : Z;
  stdout_count : Z;
  fs_locked : bool;
  exit_status : Z;
  input : list Z;
  output : list Z
}.

Definition set_pfs (x : fs) (s : proc) : proc :=
  Proc x (fd_table s) (fd_idx s) (stdin_count s) (stdout_count s) (fs_locked s) (exit_status s) (input s) (output s).
Definition set_table (l : list Z) (s : proc) : proc :=
  Proc (pfs s) l (fd_idx s) (stdin_count s) (stdout_count s) (fs_locked s) (exit_status s) (input s) (output s).
Definition set_fd_idx (n : Z) (s : proc) : proc :=
  Proc (pfs s) (fd_table s) n (stdin_count s) (stdout_count s) (fs_locked s) (exit_status s) (input s) (output s).
Definition set_counts (i o : Z) (s : proc) : proc :=
  Proc (pfs s) (fd_table s) (fd_idx s) i o (fs_locked s) (exit_status s) (input s) (output s).
Definition set_locked (b : bool) (s : proc) : proc :=
  Proc (pfs s) (fd_table s) (fd_idx s) (stdin_count s) (stdout_count s) b (exit_status s) (input s) (output s).
Definition set_exit (n : Z) (s : proc) : proc :=
  Proc (pfs s) (fd_table s) (fd_idx s) (stdin_count s) (stdout_count s) (fs_locked s) n (input s) (output s).
Definition set_console (i o : list Z) (s : proc) : proc :=
  Proc (pfs s) (fd_table s) (fd_idx s) (stdin_count s) (stdout_count s) (fs_locked s) (exit_status s) i o.

(** A system call returns, or the process exits. *)
Inductive answer (A : Type) : Type :=
  | Ret (a : A)
  | Exited.
Arguments Ret {A} a.
Arguments Exited {A}.

(** Running a function of the file system. *)
Definition in_fs {A} (m : M fs A) : M proc A :=
  fun s => match m (pfs s) with
           | Ok (a, x) => Ok (a, set_pfs x s)
           | Panic => Panic
           | Undef => Undef
           | NoFuel => NoFuel
           end.

(** lock_acquire and lock_release on [filesys_lock], with their assertions. *)
Definition fs_lock_acquire : M proc unit :=
  b ← gets fs_locked; assertM (negb b);; modify (set_locked true).
Definition fs_lock_release : M proc unit :=
  b ← gets fs_locked; assertM b;; modify (set_locked false).

(** What sys_exit leaves for the parent; the rest of the exit is process_exit. *)
Definition sys_exit (status : Z) : M proc unit := modify (set_exit status).

(** ** The table *)

(** An entry; the table has [MAX_FD] of them. *)
Definition get_fd (fd : Z) : M proc Z :=
  l ← gets fd_table;
  if fd <? 0 then lift Undef else lift (from_option_ub (l !! Z.to_nat fd)).

Definition put_fd (fd v : Z) : M proc unit :=
  l ← gets fd_table;
  if (0 <=? fd) && (fd <? Z.of_nat (length l))
  then modify (set_table (<[Z.to_nat fd := v]> l)) else lift Undef.

Definition bad_fd (fd : Z) : bool := (fd <? 0) || (fd >=? MAX_FD).

Definition process_get_file (fd : Z) : M proc Z :=
  if (fd <? 2) || (fd >? MAX_FD) then mret null else get_fd fd.

(** The scan reads the entry at [fd_idx] before it compares with the size. *)
Fixpoint find_fd_loop (fuel : nat) : M proc unit :=
  match fuel with
  | O => nofuelM
  | S fuel =>
      i ← gets fd_idx;
      v ← get_fd i;
      if negb (v =? null) && (i <? MAX_FD) then modify (set_fd_idx (i + 1));; find_fd_loop fuel else mret tt
  end.

Definition find_unused_fd (file : Z) : M proc Z :=
  l ← gets fd_table;
  find_fd_loop (S (length l));;
  i ← gets fd_idx;
  if i >=? MAX_FD then mret (-1) else put_fd i file;; mret i.

(** ** Closing and duplicating *)

Definition sys_close (fd : Z) : M proc unit :=
  if bad_fd fd then mret tt else
  v ← get_fd fd;
  i ← gets stdin_count;
  o ← gets stdout_count;
  i ← (if v =? STDIN then lift (int32 (i - 1)) else mret i);
  o ← (if v =? STDOUT then lift (int32 (o - 1)) else mret o);
  modify (set_counts i o);;
  if (v =? null) || (v =? STDIN) || (v =? STDOUT) then put_fd fd null else
  in_fs (decrease_dup_count v);;
  n ← in_fs (check_dup_count v);
  (if n =? 0 then in_fs (file_close v) else mret tt);;
  put_fd fd null.

Definition sys_dup2 (oldfd newfd : Z) : M proc Z :=
  if bad_fd oldfd then mret (-1) else
  v ← get_fd oldfd;
  if v =? null then mret (-1) else
  if oldfd =? newfd then mret newfd else
  i ← gets stdin_count;
  o ← gets stdout_count;
  (if v =? STDIN then i ← lift (int32 (i + 1)); modify (set_counts i o)
   else if v =? STDOUT then o ← lift (int32 (o + 1)); modify (set_counts i o)
   else in_fs (increase_dup_count v));;
  w ← get_fd newfd;
  (if negb (w =? null) then fs_lock_acquire;; sys_close newfd;; fs_lock_release else mret tt);;
  v ← get_fd oldfd;
  put_fd newfd v;;
  mret newfd.

(** ** Positions and sizes *)

Definition sys_filesize (fd : Z) : M proc Z :=
  if bad_fd fd then mret (-1) else
  file_obj ← get_fd fd;
  if file_obj =? null then mret (-1) else in_fs (file_length file_obj).

(** [position] is unsigned, and the comparison with the length is too. *)
Definition sys_seek (fd position : Z) : M proc unit :=
  if bad_fd fd then mret tt else
  file_obj ← get_fd fd;
  if (file_obj =? STDIN) || (file_obj =? STDOUT) || (file_obj =? null) then mret tt else
  length ← in_fs (file_length file_obj);
  in_fs (file_seek file_obj (s32 (if position >? u32 length then u32 length else position))).

(** The result is unsigned. *)
Definition sys_tell (fd : Z) : M proc Z :=
  if bad_fd fd then mret (u32 (-1)) else
  file_obj ← get_fd fd;
  if file_obj =? null then mret (u32 (-1)) else n ← in_fs (file_tell file_obj); mret (u32 n).

(** ** Names and data *)

Section UserMemory.
(** check_address and check_buffer for an address: whether the page is there, or
    could be brought in, with the access wanted. *)
Variable page_ok : Z -> bool.
Variable page_access : Z -> bool -> bool.
(** The string at a user address, and the bytes. *)
Variable user_string : Z -> list Z.
Variable user_bytes : Z -> Z -> list Z.
(** What a stack frame holds. *)
Variable garbage : list Z.

(** [false]: the process exits with -1. *)
Definition check_address (addr : Z) : M proc bool :=
  if (addr =? null) || negb (is_user_vaddr addr) || negb (page_ok addr) then sys_exit (-1);; mret false else mret true.

Fixpoint check_pages (fuel : nat) (addr last : Z) (write : bool) : M proc bool :=
  match fuel with
  | O => nofuelM
  | S fuel =>
      if addr <=? last then
        if negb (is_user_vaddr addr) || negb (page_access addr write) then sys_exit (-1);; mret false
        else check_pages fuel (u64 (addr + PGSIZE)) last write
      else mret true
  end.

(** The range has at most [size / PGSIZE + 2] pages. *)
Definition check_buffer (buffer size : Z) (write : bool) : M proc bool :=
  let start := pg_round_down buffer in
  let last := pg_round_down (u64 (buffer + size - 1)) in
  check_pages (S (S (S (Z.to_nat (size / PGSIZE))))) start last write.

Definition sys_create (file initial_size : Z) : M proc (answer bool) :=
  fs_lock_acquire;;
  ok ← check_address file;
  if negb ok then mret Exited else
  succ ← in_fs (filesys_create garbage (Some (user_string file)) (s32 initial_size));
  fs_lock_release;;
  mret (Ret succ).

Definition sys_remove (file : Z) : M proc (answer bool) :=
  ok ← check_address file;
  if negb ok then mret Exited else
  fs_lock_acquire;;
  succ ← in_fs (filesys_remove garbage (Some (user_string file)));
  fs_lock_release;;
  mret (Ret succ).

Definition sys_open (file : Z) : M proc (answer Z) :=
  ok ← check_address file;
  if negb ok then mret Exited else
  if bool_decide (user_string file = []) then mret (Ret (-1)) else
  fs_lock_acquire;;
  file_obj ← in_fs (filesys_open garbage (Some (user_string file)));
  if file_obj =? null then fs_lock_release;; mret (Ret (-1)) else
  fd ← find_unused_fd file_obj;
  fs_lock_release;;
  mret (Ret fd).

Definition sys_write (fd buffer size : Z) : M proc (answer Z) :=
  ok ← check_buffer buffer size true;
  if negb ok then mret Exited else
  if bad_fd fd then mret (Ret (-1)) else
  v ← get_fd fd;
  n ← gets stdout_count;
  if (v =? STDOUT) && negb (n =? 0) then
    modify (fun s => set_console (input s) (output s ++ user_bytes buffer size) s);;
    mret (Ret (s32 size))
  else
  f ← process_get_file fd;
  if f =? null then mret (Ret (-1)) else
  fs_lock_acquire;;
  bytes_written ← in_fs (file_write f (user_bytes buffer size) (s32 size));
  fs_lock_release;;
  mret (Ret bytes_written).

(** The keys of input_getc; without a key it waits. *)
Definition input_keys (size : Z) : M proc (list Z) :=
  keys ← gets input;
  if Z.of_nat (length keys) <? size then nofuelM else
  modify (fun s => set_console (drop (Z.to_nat size) keys) (output s) s);;
  mret (take (Z.to_nat size) keys).

(** The result and the bytes that are stored at [buffer]. *)
Definition sys_read (fd buffer size : Z) : M proc (answer (Z * list Z)) :=
  if size =? 0 then mret (Ret (0, [])) else
  ok ← check_buffer buffer size false;
  if negb ok then mret Exited else
  if bad_fd fd then mret (Ret (-1, [])) else
  v ← get_fd fd;
  if v =? STDIN then
    n ← gets stdin_count;
    if negb (n =? 0) then bytes ← input_keys size; mret (Ret (s32 size, bytes)) else mret (Ret (-1, []))
  else
  if (v =? null) || (v =? STDIN) || (v =? STDOUT) then mret (Ret (-1, [])) else
  fs_lock_acquire;;
  bytes ← in_fs (file_read v (s32 size));
  fs_lock_release;;
  mret (Ret (Z.of_nat (length bytes), bytes)).
End UserMemory.

(** ** Processes (process.c) *)

(** The descriptors of a new process. *)
Definition process_init : M proc unit :=
  modify (fun s => set_fd_idx 2 (set_counts 1 1 (set_table (STDIN :: STDOUT :: replicate 1534 null) s))).

(** The loop of __do_fork over the parent's table, from descriptor [fd] on: the
    child's entries. The descriptors 0 and 1 are copied as they are. *)
Fixpoint fork_table (fd : Z) (parent : list Z) : M fs (list Z) :=
  match parent with
  | [] => mret []
  | v :: parent =>
      w ← (if (fd <=? 1) || (v =? null) || (v =? STDIN) || (v =? STDOUT) then mret v else file_duplicate v);
      l ← fork_table (fd + 1) parent;
      mret (w :: l)
  end.

(** The child's descriptors; [None] is the error exit. *)
Definition fork_descriptors : M proc (option proc) :=
  i ← gets fd_idx;
  if i =? MAX_FD then mret None else
  l ← gets fd_table;
  child ← in_fs (fork_table 0 l);
  s ← get;
  mret (Some (set_table child s)).

(** The loop of process_exit that closes all descriptors. *)
Fixpoint close_all (n : nat) (i : Z) : M proc unit :=
  match n with
  | O => mret tt
  | S n =>
      v ← get_fd i;
      (if negb (v =? null) then sys_close i;; put_fd i null else mret tt);;
      close_all n (i + 1)
  end.
