(* ===== verification/DescFacts.v ===== *)
(** * What the functions of the file system keep of the table of files

    Only file_open, file_close and the counting functions change which files there
    are and how many descriptors each has. [keeps] is that of a program, and [keeps]
    of the functions below follows their text. *)

From S2P Require Import Prelude Interfaces Bitmap FsState Inode FreeMap FsFile Directory Filesys Descriptors.

(** The number of descriptors that a file counts. *)
Definition dups (s : fs) (f : Z) : option Z := dup_count <$> files s !! f.

(** If the program returns, the files and their counts are the same, and pointers are
    handed out in increasing order. *)
Definition kept (s s' : fs) : Prop := (forall f, dups s' f = dups s f) /\ next_ptr s <= next_ptr s'.
Definition keeps {A} (m : M fs A) : Prop := forall s a s', m s = Ok (a, s') -> kept s s'.

#[export] Instance kept_preorder : PreOrder kept.
Proof.
  split; [by split|]. intros s1 s2 s3 [H1 H2] [H3 H4]. split; [|lia]. intros f. by rewrite H3.
Qed.

Lemma kept_ret {A} (a : A) : keeps (mret a).
Proof. by intros s a' s' [= <- <-]. Qed.

Lemma kept_bind {A B} (m : M fs A) (k : A -> M fs B) : keeps m -> (forall a, keeps (k a)) -> keeps (m ≫= k).
Proof. intros Hm Hk s b s2 (a & s1 & E1 & E2)%bind_Ok. etrans; [by eapply Hm|by eapply Hk]. Qed.

Lemma keeps_lift {A} (o : outcome A) : keeps (lift o).
Proof. intros s a s' E. unfold lift in E. destruct o; [|done..]. by injection E as <- <-. Qed.

Lemma keeps_assert b : keeps (assertM b).
Proof. apply keeps_lift. Qed.

Lemma keeps_gets {A} (f : fs -> A) : keeps (gets f).
Proof. by intros s a s' [= <- <-]. Qed.

Lemma keeps_get : keeps get.
Proof. by intros s a s' [= <- <-]. Qed.

Lemma keeps_panic {A} : keeps (@panicM fs A).
Proof. done. Qed.

Lemma keeps_nofuel {A} : keeps (@nofuelM fs A).
Proof. done. Qed.

Lemma kept_modify (g : fs -> fs) : (forall s, kept s (g s)) -> keeps (modify g).
Proof. intros H s a s' [= <- <-]. apply H. Qed.

Lemma keeps_if {A} (b : bool) (m1 m2 : M fs A) : keeps m1 -> keeps m2 -> keeps (if b then m1 else m2).
Proof. by destruct b. Qed.

Create HintDb keeps.
#[export] Hint Resolve kept_ret keeps_lift keeps_assert keeps_gets keeps_get keeps_panic keeps_nofuel : keeps.

(** Follow the text of a function. *)
Ltac keep :=
  repeat (cbn beta; match goal with
    | |- keeps (mbind _ _) => apply kept_bind; [|intro]
    | |- keeps (if _ then _ else _) => apply keeps_if
    | |- keeps (match ?x with _ => _ end) => destruct x
    | |- keeps (modify _) => apply kept_modify; intros; by split
    end || (solve [eauto with keeps])).

(** ** The functions *)

Lemma keeps_malloc : keeps malloc.
Proof.
  intros s a s' E. unfold malloc, mbind, M_mbind, get, modify, mret, M_mret in E.
  destruct (mallocs s) as [|[] l]; injection E as <- <-; (split; [done|simpl; lia]).
Qed.
#[export] Hint Resolve keeps_malloc : keeps.

Lemma keeps_get_inode p : keeps (get_inode p). Proof. unfold get_inode. keep. Qed.
Lemma keeps_get_file p : keeps (get_file p). Proof. unfold get_file. keep. Qed.
Lemma keeps_get_dir p : keeps (get_dir p). Proof. unfold get_dir. keep. Qed.
Lemma keeps_put_inode p i : keeps (put_inode p i). Proof. unfold put_inode. keep. Qed.
Lemma keeps_put_dir p i : keeps (put_dir p i). Proof. unfold put_dir. keep. Qed.
Lemma keeps_free_inode p : keeps (free_inode p). Proof. unfold free_inode. keep. Qed.
Lemma keeps_free_dir p : keeps (free_dir p). Proof. unfold free_dir. keep. Qed.
Lemma keeps_disk_read k : keeps (disk_read k). Proof. unfold disk_read, select_sector. keep. Qed.
Lemma keeps_disk_write k l : keeps (disk_write k l). Proof. unfold disk_write, select_sector. keep. Qed.
#[export] Hint Resolve keeps_get_inode keeps_get_file keeps_get_dir keeps_put_inode keeps_put_dir keeps_free_inode
  keeps_free_dir keeps_disk_read keeps_disk_write : keeps.

Lemma keeps_next_chunk p n o : keeps (next_chunk p n o). Proof. unfold next_chunk. keep. Qed.
Lemma keeps_need_bounce b : keeps (need_bounce b). Proof. unfold need_bounce. keep. Qed.
#[export] Hint Resolve keeps_next_chunk keeps_need_bounce : keeps.

Lemma keeps_read_loop fuel p n o b acc : keeps (read_loop fuel p n o b acc).
Proof. revert n o b acc. induction fuel as [|fuel IH]; intros; simpl; keep. Qed.

Lemma keeps_write_loop fuel p l n o w b : keeps (write_loop fuel p l n o w b).
Proof. revert n o w b. induction fuel as [|fuel IH]; intros; simpl; keep. Qed.

Lemma keeps_inode_read_at p n o : keeps (inode_read_at p n o). Proof. apply keeps_read_loop. Qed.
Lemma keeps_inode_write_at p l n o : keeps (inode_write_at p l n o).
Proof. unfold inode_write_at. pose proof keeps_write_loop. keep. Qed.
#[export] Hint Resolve keeps_inode_read_at keeps_inode_write_at : keeps.

Lemma keeps_bitmap_write f b : keeps (bitmap_write (H := fs_fileio f) b).
Proof. unfold bitmap_write. simpl. unfold file_write_at. keep. Qed.
#[export] Hint Resolve keeps_bitmap_write : keeps.

Lemma keeps_free_map_release k n : keeps (free_map_release k n). Proof. unfold free_map_release. keep. Qed.
#[export] Hint Resolve keeps_free_map_release : keeps.

Lemma keeps_inode_close p : keeps (inode_close p). Proof. unfold inode_close. keep. Qed.

Lemma keeps_find_open l sec : keeps (find_open l sec).
Proof. induction l as [|p l IH]; simpl; keep. Qed.

Lemma keeps_inode_reopen p : keeps (inode_reopen p). Proof. unfold inode_reopen. keep. Qed.
#[export] Hint Resolve keeps_inode_close keeps_find_open keeps_inode_reopen : keeps.

Lemma keeps_inode_open sec : keeps (inode_open sec). Proof. unfold inode_open. keep. Qed.
Lemma keeps_inode_length p : keeps (inode_length p). Proof. unfold inode_length. keep. Qed.
Lemma keeps_inode_allow_write p : keeps (inode_allow_write p). Proof. unfold inode_allow_write. keep. Qed.
#[export] Hint Resolve keeps_inode_open keeps_inode_length keeps_inode_allow_write : keeps.

(** Directories. *)
Lemma keeps_read_entry p e o : keeps (read_entry p e o). Proof. unfold read_entry. keep. Qed.
Lemma keeps_entry_fuel p : keeps (entry_fuel p). Proof. unfold entry_fuel. keep. Qed.
#[export] Hint Resolve keeps_read_entry keeps_entry_fuel : keeps.

Lemma keeps_lookup_loop fuel p name e o : keeps (lookup_loop fuel p name e o).
Proof. revert e o. induction fuel as [|fuel IH]; intros; simpl; keep. Qed.
#[export] Hint Resolve keeps_lookup_loop : keeps.

Lemma keeps_lookup d name g : keeps (lookup d name g). Proof. unfold lookup. keep. Qed.
Lemma keeps_dir_open p : keeps (dir_open p). Proof. unfold dir_open. keep. Qed.
Lemma keeps_dir_close d : keeps (dir_close d). Proof. unfold dir_close. keep. Qed.
#[export] Hint Resolve keeps_lookup keeps_dir_open keeps_dir_close : keeps.

Lemma keeps_dir_lookup d name g : keeps (dir_lookup d name g). Proof. unfold dir_lookup. keep. Qed.
Lemma keeps_dir_open_root : keeps dir_open_root. Proof. unfold dir_open_root. keep. Qed.
#[export] Hint Resolve keeps_dir_lookup keeps_dir_open_root : keeps.

(** ** Files *)

Lemma get_file_run f s x s' : get_file f s = Ok (x, s') -> s' = s /\ files s !! f = Some x.
Proof.
  unfold get_file, mbind, M_mbind, get, lift. destruct (files s !! f) eqn:E; simpl; [|done]. by intros [= <- <-].
Qed.

Lemma put_file_run f y s a s' :
  put_file f y s = Ok (a, s') -> (forall g, dups s' g = if decide (g = f) then Some (dup_count y) else dups s g) /\ next_ptr s' = next_ptr s.
Proof.
  intros E. injection E as _ <-. split; [|done]. intros g. unfold dups. simpl. case_decide as H.
  - subst g. by rewrite lookup_insert_eq.
  - by rewrite lookup_insert_ne.
Qed.

(** Updating a file without its count. *)
Lemma put_file_kept f x y s a s' :
  dups s f = Some (dup_count x) -> dup_count y = dup_count x -> put_file f y s = Ok (a, s') -> kept s s'.
Proof.
  intros Hx Hd [H1 H2]%put_file_run. split; [|lia]. intros g. rewrite H1. case_decide as H; [|done].
  subst g. by rewrite Hd, Hx.
Qed.

Lemma dups_file f x s : files s !! f = Some x -> dups s f = Some (dup_count x).
Proof. unfold dups. by intros ->. Qed.

Lemma keeps_file_seek f n : keeps (file_seek f n).
Proof.
  intros s a s' H. unfold file_seek in H. split_run H. destruct (_ =? null); [done|]. destruct (n >=? 0); [|done].
  injection E as <- <-. injection E0 as <- <-. apply get_file_run in E1 as [-> Hx].
  eapply put_file_kept; [| |exact H]; [by apply dups_file|done].
Qed.

Lemma keeps_file_length f : keeps (file_length f). Proof. unfold file_length. keep. Qed.
Lemma keeps_file_tell f : keeps (file_tell f). Proof. unfold file_tell. keep. Qed.

Lemma keeps_file_read f n : keeps (file_read f n).
Proof.
  intros s a s' H. unfold file_read in H. apply bind_Ok in H as (x & s0 & E0 & H). apply get_file_run in E0 as [-> Hx].
  apply bind_Ok in H as (bytes & s1 & E1 & H). apply keeps_inode_read_at in E1 as Hk.
  apply bind_Ok in H as (pos & s2 & E2 & H). apply keeps_lift in E2 as Hk2. apply bind_Ok in H as (u & s3 & E3 & H).
  injection H as _ <-. assert (kept s s2) as Hk3 by (etrans; [exact Hk|exact Hk2]). etrans; [exact Hk3|].
  eapply (put_file_kept f x); [| |exact E3]; [|done]. rewrite (proj1 Hk3). by apply dups_file.
Qed.

Lemma keeps_file_write f l n : keeps (file_write f l n).
Proof.
  intros s a s' H. unfold file_write in H. apply bind_Ok in H as (x & s0 & E0 & H). apply get_file_run in E0 as [-> Hx].
  apply bind_Ok in H as (bytes & s1 & E1 & H). apply keeps_inode_write_at in E1 as Hk.
  apply bind_Ok in H as (pos & s2 & E2 & H). apply keeps_lift in E2 as Hk2. apply bind_Ok in H as (u & s3 & E3 & H).
  injection H as _ <-. assert (kept s s2) as Hk3 by (etrans; [exact Hk|exact Hk2]). etrans; [exact Hk3|].
  eapply (put_file_kept f x); [| |exact E3]; [|done]. rewrite (proj1 Hk3). by apply dups_file.
Qed.

(** Counting. *)
Lemma set_dup_run f g s a s' :
  set_dup_count f g s = Ok (a, s') -> exists n, dups s f = Some n /\ next_ptr s' = next_ptr s /\
    forall h, dups s' h = if decide (h = f) then Some (g n) else dups s h.
Proof.
  intros H. unfold set_dup_count in H. apply bind_Ok in H as (x & s0 & E0 & H). apply get_file_run in E0 as [-> Hx].
  apply bind_Ok in H as (n & s1 & E1 & H). unfold lift, int32 in E1. destruct (_ && _) in E1; [|done]. injection E1 as <- <-.
  apply put_file_run in H as [H1 H2]. exists (dup_count x). split; [by apply dups_file|]. split; [lia|]. exact H1.
Qed.

(** Closing a file forgets it, and no other. *)
Lemma file_close_run f s a s' :
  f <> null -> file_close f s = Ok (a, s') ->
  (forall g, g <> f -> dups s' g = dups s g) /\ next_ptr s <= next_ptr s'.
Proof.
  intros Hf H. unfold file_close in H. rewrite (proj2 (Z.eqb_neq _ _) Hf) in H. cbn [negb] in H.
  apply bind_Ok in H as (u & s1 & E1 & H). apply bind_Ok in H as (x & s2 & E2 & H). apply get_file_run in E2 as [-> Hx].
  apply bind_Ok in H as (v & s3 & E3 & H). apply keeps_inode_close in E3 as [Hk3 Hn3]. injection H as _ <-.
  assert ((forall g, g <> f -> dups s1 g = dups s g) /\ next_ptr s <= next_ptr s1) as [Hk1 Hn1].
  { unfold file_allow_write in E1. apply bind_Ok in E1 as (b & s0 & E0 & E1). apply keeps_assert in E0 as [K0 N0].
    apply bind_Ok in E1 as (y & s4 & E4 & E1). apply get_file_run in E4 as [-> Hy]. destruct (f_deny_write y).
    - apply bind_Ok in E1 as (w & s5 & E5 & E1). apply put_file_run in E5 as [K5 N5]. apply keeps_inode_allow_write in E1 as [K1 N1].
      split; [|lia]. intros g Hg. by rewrite K1, K5, decide_False, K0.
    - injection E1 as _ <-. split; [|lia]. intros g Hg. apply K0. }
  split; [|simpl; lia]. intros g Hg. unfold dups. simpl. rewrite lookup_delete_ne by done. change (dups s3 g = dups s g).
  by rewrite Hk3, Hk1.
Qed.

(** A file that is opened is new and has one descriptor. *)
Lemma file_open_run p s f s' :
  file_open p s = Ok (f, s') -> 0 < next_ptr s ->
  next_ptr s <= next_ptr s' /\
  ((f = null /\ kept s s') \/
   (next_ptr s <= f < next_ptr s' /\ forall g, dups s' g = if decide (g = f) then Some 1 else dups s g)).
Proof.
  intros H Hn. unfold file_open in H. apply bind_Ok in H as (q & s1 & E1 & H). pose proof (keeps_malloc _ _ _ E1) as [K1 N1].
  assert (q = null \/ next_ptr s <= q < next_ptr s1) as Hq.
  { unfold malloc, mbind, M_mbind, get, modify, mret, M_mret in E1.
    destruct (mallocs s) as [|[] l]; injection E1 as <- <-; simpl; [right; lia|right; lia|by left]. }
  destruct (negb (p =? null) && negb (q =? null)) eqn:Eb.
  - apply bind_Ok in H as (u & s2 & E2 & H). apply put_file_run in E2 as [K2 N2]. injection H as <- <-.
    apply andb_true_iff in Eb as [_ Eb]. apply negb_true_iff, Z.eqb_neq in Eb. split; [lia|]. right. split; [lia|].
    intros g. rewrite K2. case_decide; [done|]. apply K1.
  - apply bind_Ok in H as (u & s2 & E2 & H). apply keeps_inode_close in E2 as K2. injection H as <- <-.
    assert (kept s s2) as K by (etrans; [by split|exact K2]). split; [apply K|]. by left.
Qed.

Lemma filesys_open_run garbage name s f s' :
  filesys_open garbage name s = Ok (f, s') -> 0 < next_ptr s ->
  next_ptr s <= next_ptr s' /\
  ((f = null /\ kept s s') \/
   (next_ptr s <= f < next_ptr s' /\ forall g, dups s' g = if decide (g = f) then Some 1 else dups s g)).
Proof.
  intros H Hn. unfold filesys_open in H. apply bind_Ok in H as (d & s1 & E1 & H). apply keeps_dir_open_root in E1 as K1.
  apply bind_Ok in H as (p & s2 & E2 & H). assert (kept s1 s2) as K2.
  { destruct (negb _) in E2; [by apply keeps_dir_lookup in E2|by apply kept_ret in E2]. }
  apply bind_Ok in H as (u & s3 & E3 & H). apply keeps_dir_close in E3 as K3.
  assert (kept s s3) as K by (etrans; [exact K1|etrans; [exact K2|exact K3]]). destruct K as [K N]. destruct (p =? null).
  - injection H as <- <-. split; [done|]. by left.
  - apply file_open_run in H as (N4 & [(-> & K4)|(Hf & K4)]); [| |lia].
    + split; [lia|]. left. split; [done|]. etrans; [by split|exact K4].
    + split; [lia|]. right. split; [lia|]. intros g. rewrite K4. case_decide; [done|apply K].
Qed.
