(* ===== verification/DescTheorems.v ===== *)
(** * The theorems about descriptors

    In every run of the system calls each descriptor denotes an open file that counts
    its descriptors. The calls that break this, or crash the kernel, follow. *)

From S2P Require Import Prelude Interfaces Bitmap FsState Inode FreeMap FsFile Directory Filesys VMem Descriptors DescFacts.
From S2P Require Import InodeFacts FileTheorems DirFacts FsTheorems.

(** ** Counting *)

Definition count (v : Z) (l : list Z) : Z := Z.of_nat (length (filter (fun w => w = v) l)).

Definition here (b : bool) : Z := if b then 1 else 0.

Lemma here_nonneg b : 0 <= here b.
Proof. by destruct b. Qed.

Lemma count_insert v l i w u :
  l !! i = Some u -> count v (<[i := w]> l) = count v l - here (bool_decide (u = v)) + here (bool_decide (w = v)).
Proof.
  intros Hi. unfold count. rewrite insert_take_drop by (by eapply lookup_lt_Some).
  rewrite <-(take_drop_middle l i u Hi) at 3. rewrite !filter_app, !length_app, !filter_cons.
  repeat case_bool_decide; repeat case_decide; simpl; try done; lia.
Qed.

Lemma count_pos v l : v ∈ l <-> 0 < count v l.
Proof.
  unfold count. split.
  - intros H. assert (v ∈ filter (fun w => w = v) l) as Hf by (by apply list_elem_of_filter).
    destruct (filter _ _); [by apply elem_of_nil in Hf|simpl; lia].
  - intros H. destruct (filter (fun w => w = v) l) as [|w l'] eqn:E; [simpl in H; lia|].
    assert (w ∈ filter (fun w => w = v) l) as Hf by (rewrite E; mem). by apply list_elem_of_filter in Hf as [-> ?].
Qed.

(** ** The invariant *)

Definition is_file (v : Z) : Prop := v <> null /\ v <> STDIN /\ v <> STDOUT.

(** [e] has been counted once more than it has descriptors: the file or console that a
    call is about to enter in the table. *)
Record fd_inv (e : Z) (s : proc) : Prop := {
  fi_length : Z.of_nat (length (fd_table s)) = MAX_FD;
  fi_idx : 2 <= fd_idx s <= MAX_FD;
  fi_stdin : stdin_count s = count STDIN (fd_table s) + here (bool_decide (e = STDIN));
  fi_stdout : stdout_count s = count STDOUT (fd_table s) + here (bool_decide (e = STDOUT));
  fi_ptr : 3 <= next_ptr (pfs s);
  fi_bound f : is_file f -> f = e \/ f ∈ fd_table s -> f < next_ptr (pfs s);
  fi_files f : is_file f -> f = e \/ f ∈ fd_table s ->
    dups (pfs s) f = Some (count f (fd_table s) + here (bool_decide (e = f)))
}.

(** Changes of the file system that keep its files. *)
Lemma fd_inv_fs e s x : fd_inv e s -> kept (pfs s) x -> fd_inv e (set_pfs x s).
Proof.
  intros [H1 H2 H3 H4 H5 H6 H7] [K N]. split; simpl; [done..|lia| |].
  - intros f Hf Hin. specialize (H6 f Hf Hin). lia.
  - intros f Hf Hin. rewrite K. by apply H7.
Qed.

Lemma in_fs_run {A} (m : M fs A) s a s' :
  in_fs m s = Ok (a, s') -> exists x, m (pfs s) = Ok (a, x) /\ s' = set_pfs x s.
Proof. unfold in_fs. destruct (m (pfs s)) as [[b x]| | |]; [|done..]. intros [= <- <-]. by exists x. Qed.

Lemma get_fd_run fd s v s' :
  get_fd fd s = Ok (v, s') -> s' = s /\ 0 <= fd /\ fd_table s !! Z.to_nat fd = Some v.
Proof.
  unfold get_fd, mbind, M_mbind, gets. destruct (Z.ltb_spec fd 0); [done|]. unfold lift.
  destruct (fd_table s !! Z.to_nat fd) eqn:E; simpl; [|done]. by intros [= <- <-].
Qed.

Lemma put_fd_run fd v s a s' :
  put_fd fd v s = Ok (a, s') -> 0 <= fd < Z.of_nat (length (fd_table s)) /\ s' = set_table (<[Z.to_nat fd := v]> (fd_table s)) s.
Proof.
  unfold put_fd, mbind, M_mbind, gets. destruct (_ && _) eqn:E; [|done]. intros [= _ <-].
  apply andb_true_iff in E. rewrite Z.leb_le, Z.ltb_lt in E. done.
Qed.

(** Emptying an entry whose content [e] is counted no more. *)
Lemma elem_of_cleared (l : list Z) i f : is_file f -> f ∈ <[i := null]> l -> f ∈ l.
Proof.
  intros [Hf _] (j & Hj)%list_elem_of_lookup. apply list_lookup_insert_Some in Hj as [(_ & E & _)|[_ Hj]]; [congruence|].
  by eapply list_elem_of_lookup_2.
Qed.

(** ** Closing *)

(** The count of the console's descriptors after one of them was closed. *)
Lemma minus_run v k n (s : proc) i s1 :
  (if v =? k then lift (int32 (n - 1)) else mret n) s = Ok (i, s1) -> s1 = s /\ i = n - here (bool_decide (v = k)).
Proof.
  destruct (Z.eqb_spec v k) as [->|Hn].
  - rewrite bool_decide_true by done. unfold lift, int32. destruct (_ && _); [|done]. by intros [= <- <-].
  - rewrite bool_decide_false by done. intros [= <- <-]. simpl. split; [done|lia].
Qed.

(** An emptied entry: the last step of closing, in the file system [x]. *)
Lemma clear_entry e fd v s x b s' :
  fd_inv e s -> fd_table s !! Z.to_nat fd = Some v -> next_ptr (pfs s) <= next_ptr x ->
  let l' := <[Z.to_nat fd := null]> (fd_table s) in
  (forall f, is_file f -> f = e \/ f ∈ l' -> dups x f = Some (count f l' + here (bool_decide (e = f)))) ->
  put_fd fd null (set_pfs x (set_counts (stdin_count s - here (bool_decide (v = STDIN)))
                                        (stdout_count s - here (bool_decide (v = STDOUT))) s)) = Ok (b, s') ->
  fd_inv e s' /\ fs_locked s' = fs_locked s /\ fd_table s' = l'.
Proof.
  intros [H1 H2 H3 H4 H5 H6 H7] Hv Hn l' Hx E. apply put_fd_run in E as [_ ->]. simpl. fold l'. split; [|done]. split; simpl; fold l'.
  - unfold l'. by rewrite length_insert.
  - done.
  - rewrite H3. unfold l'. rewrite (count_insert _ _ _ _ _ Hv). change (bool_decide (null = STDIN)) with false. simpl. lia.
  - rewrite H4. unfold l'. rewrite (count_insert _ _ _ _ _ Hv). change (bool_decide (null = STDOUT)) with false. simpl. lia.
  - lia.
  - intros f Hf Hin. apply Z.lt_le_trans with (next_ptr (pfs s)); [|done]. apply H6; [done|].
    destruct Hin as [->|Hin]; [by left|right]. by eapply elem_of_cleared.
  - exact Hx.
Qed.

(** The counts of the other files. *)
Lemma cleared_others e fd v s f :
  fd_inv e s -> fd_table s !! Z.to_nat fd = Some v -> is_file f -> f <> v ->
  f = e \/ f ∈ <[Z.to_nat fd := null]> (fd_table s) ->
  dups (pfs s) f = Some (count f (<[Z.to_nat fd := null]> (fd_table s)) + here (bool_decide (e = f))).
Proof.
  intros Hinv Hv Hf Hne Hin. rewrite (fi_files _ _ Hinv); [|done|].
  - rewrite (count_insert _ _ _ _ _ Hv). rewrite (bool_decide_false (v = f)) by done.
    rewrite (bool_decide_false (null = f)) by (by destruct Hf). f_equal. simpl. lia.
  - destruct Hin as [->|Hin]; [by left|right]. by eapply elem_of_cleared.
Qed.

(** Counting down a file and closing it if it was the last descriptor. *)
Lemma drop_dup_run e fd v s t x1 n b x2 :
  fd_inv e s -> fd_table s !! Z.to_nat fd = Some v -> is_file v ->
  decrease_dup_count v (pfs s) = Ok (t, x1) -> check_dup_count v x1 = Ok (n, x1) ->
  (if n =? 0 then file_close v else mret tt) x1 = Ok (b, x2) ->
  let l' := <[Z.to_nat fd := null]> (fd_table s) in
  next_ptr (pfs s) <= next_ptr x2 /\
  forall f, is_file f -> f = e \/ f ∈ l' -> dups x2 f = Some (count f l' + here (bool_decide (e = f))).
Proof.
  intros Hinv Hv Hf E1 E2 E3 l'. assert (v ∈ fd_table s) as Hin by (by eapply list_elem_of_lookup_2).
  apply set_dup_run in E1 as (m & Hm & N1 & K1). rewrite (fi_files _ _ Hinv v Hf (or_intror Hin)) in Hm. injection Hm as <-.
  apply bind_Ok in E2 as (y & s2 & E4 & E2). apply get_file_run in E4 as [-> Hy]. injection E2 as <-.
  apply dups_file in Hy. rewrite K1, decide_True in Hy by done. injection Hy as Hy.
  assert (forall f, is_file f -> f <> v -> f = e \/ f ∈ l' -> dups x1 f = Some (count f l' + here (bool_decide (e = f)))) as Hothers.
  { intros f Hff Hne Hin'. rewrite K1, decide_False by done. by apply (cleared_others e fd v). }
  assert (count v l' = count v (fd_table s) - 1) as Hcl.
  { unfold l'. rewrite (count_insert _ _ _ _ _ Hv), bool_decide_true, (bool_decide_false (null = v)) by (done || by destruct Hf). simpl. lia. }
  destruct (Z.eqb_spec (dup_count y) 0) as [E6|E6].
  - apply file_close_run in E3 as [K3 N3]; [|by destruct Hf]. split; [lia|]. intros f Hff Hin'. rewrite K3; [apply Hothers; [done| |done]|].
    all: pose proof (here_nonneg (bool_decide (e = v))); intros ->; destruct Hin' as [->|Hin'%count_pos]; [|lia].
    all: rewrite bool_decide_true in Hy by done; simpl in Hy; pose proof (proj1 (count_pos e (fd_table s)) Hin); lia.
  - injection E3 as _ <-. split; [lia|]. intros f Hff Hin'.
    destruct (decide (f = v)) as [->|Hne]; [|by apply Hothers]. rewrite K1, decide_True, Hcl by done. f_equal. lia.
Qed.

(** Closing does not disturb what else is counted. *)
Lemma sys_close_keeps e fd s a s' :
  fd_inv e s -> sys_close fd s = Ok (a, s') ->
  fd_inv e s' /\ fs_locked s' = fs_locked s /\
  fd_table s' = (if bad_fd fd then fd_table s else <[Z.to_nat fd := null]> (fd_table s)).
Proof.
  intros Hinv H. unfold sys_close in H. destruct (bad_fd fd) eqn:Hbad; [by injection H as _ <-|].
  apply bind_Ok in H as (v & s0 & E0 & H). apply get_fd_run in E0 as (-> & Hfd & Hv).
  apply bind_Ok in H as (i & s1 & E1 & H). injection E1 as <- <-. apply bind_Ok in H as (o & s1 & E1 & H). injection E1 as <- <-.
  apply bind_Ok in H as (i & s1 & E1 & H). apply minus_run in E1 as [-> ->].
  apply bind_Ok in H as (o & s1 & E2 & H). apply minus_run in E2 as [-> ->].
  apply bind_Ok in H as (u & s1 & E3 & H). injection E3 as _ <-.
  destruct ((v =? null) || (v =? STDIN) || (v =? STDOUT)) eqn:Ev.
  - apply (clear_entry e fd v s (pfs s) a); [done|done|lia| |by destruct s].
    intros f Hf Hin. apply (cleared_others e fd v); [done..| |done]. intros ->. destruct Hf as (Hf1 & Hf2 & Hf3).
    apply orb_true_iff in Ev. rewrite orb_true_iff, !Z.eqb_eq in Ev. tauto.
  - assert (is_file v) as Hf.
    { apply orb_false_iff in Ev as [Ev E4]. apply orb_false_iff in Ev as [E5 E6]. rewrite Z.eqb_neq in E4, E5, E6. done. }
    apply bind_Ok in H as (u1 & s1 & E3 & H). apply in_fs_run in E3 as (x1 & E3 & ->).
    apply bind_Ok in H as (n & s1 & E4 & H). apply in_fs_run in E4 as (x2 & E4 & ->). simpl in E3, E4.
    assert (x2 = x1) as ->.
    { pose proof E4 as E5. apply bind_Ok in E5 as (y & s2 & E5 & E6). apply get_file_run in E5 as [-> _]. by injection E6. }
    apply bind_Ok in H as (u2 & s2 & E5 & H).
    assert (exists x3, (if n =? 0 then file_close v else mret tt) x1 = Ok (u2, x3) /\ s2 = set_pfs x3 (set_pfs x1 (set_pfs x1
      (set_counts (stdin_count s - here (bool_decide (v = STDIN))) (stdout_count s - here (bool_decide (v = STDOUT))) s)))) as (x3 & E6 & ->).
    { destruct (n =? 0); [by apply in_fs_run in E5|]. injection E5 as <- <-. by exists x1. }
    destruct (drop_dup_run e fd v s u1 x1 n u2 x3 Hinv Hv Hf E3 E4 E6) as [Hn Hx].
    by apply (clear_entry e fd v s x3 a).
Qed.

(** ** Entering *)

(** An entry that is filled with what has been counted for it. *)
Lemma enter_entry v i s a s' :
  fd_inv v s -> fd_table s !! Z.to_nat i = Some null -> v <> null -> put_fd i v s = Ok (a, s') -> fd_inv null s'.
Proof.
  intros [H1 H2 H3 H4 H5 H6 H7] Hi Hnn E. apply put_fd_run in E as [Hr ->]. split; simpl.
  - by rewrite length_insert.
  - done.
  - rewrite H3, (count_insert _ _ _ _ _ Hi). change (bool_decide (null = STDIN)) with false. simpl. lia.
  - rewrite H4, (count_insert _ _ _ _ _ Hi). change (bool_decide (null = STDOUT)) with false. simpl. lia.
  - done.
  - intros f Hf [->|Hin%elem_of_inserted]; [by destruct Hf|]. apply H6; [done|]. by destruct Hin; [left|right].
  - intros f Hf [->|Hin%elem_of_inserted]; [by destruct Hf|]. rewrite H7; [|done|by destruct Hin; [left|right]].
    rewrite (count_insert _ _ _ _ _ Hi), !(bool_decide_false (null = f)) by (by destruct Hf). f_equal. simpl. lia.
Qed.

Lemma fd_inv_locked e b s : fd_inv e s -> fd_inv e (set_locked b s).
Proof. intros [H1 H2 H3 H4 H5 H6 H7]. by split. Qed.

Lemma fd_inv_idx e i s : fd_inv e s -> 2 <= i <= MAX_FD -> fd_inv e (set_fd_idx i s).
Proof. intros [H1 H2 H3 H4 H5 H6 H7] Hi. by split. Qed.

(** The first free entry from [i] on. *)
Definition first_free (l : list Z) (i j : Z) : Prop :=
  i <= j /\ l !! Z.to_nat j = Some null /\ forall k, i <= k < j -> exists v, l !! Z.to_nat k = Some v /\ v <> null.

Lemma get_fd_some fd v s : 0 <= fd -> fd_table s !! Z.to_nat fd = Some v -> get_fd fd s = Ok (v, s).
Proof.
  intros H Hv. unfold get_fd, mbind, M_mbind, gets. rewrite (proj2 (Z.ltb_ge _ _)) by done. unfold lift. by rewrite Hv.
Qed.

Lemma get_fd_none fd s : fd_table s !! Z.to_nat fd = None -> get_fd fd s = Undef.
Proof. intros Hv. unfold get_fd, mbind, M_mbind, gets. destruct (fd <? 0); [done|]. unfold lift. by rewrite Hv. Qed.

(** The scan finds the first free entry, or reads beyond the table. *)
Lemma find_fd_loop_ok fuel s :
  0 <= fd_idx s <= MAX_FD -> Z.of_nat (length (fd_table s)) = MAX_FD -> MAX_FD - fd_idx s < Z.of_nat fuel ->
  (exists j, first_free (fd_table s) (fd_idx s) j /\ j < MAX_FD /\ find_fd_loop fuel s = Ok (tt, set_fd_idx j s)) \/
  ((forall j, ~ first_free (fd_table s) (fd_idx s) j) /\ find_fd_loop fuel s = Undef).
Proof.
  revert s. induction fuel as [|fuel IH]; intros s Hi Hl Hf; [simpl in Hf; lia|].
  simpl. rewrite (bind_run _ _ _ (fd_idx s) s) by done. destruct (fd_table s !! Z.to_nat (fd_idx s)) as [v|] eqn:Ev.
  - rewrite (bind_run _ _ _ v s) by (apply get_fd_some; [lia|done]). pose proof (lookup_lt_Some _ _ _ Ev) as Hlt.
    rewrite (proj2 (Z.ltb_lt _ _)) by lia. rewrite andb_true_r. destruct (Z.eqb_spec v null) as [->|Hv]; cbn [negb].
    + left. exists (fd_idx s). split; [split; [lia|split; [exact Ev|intros k Hk; lia]]|]. split; [lia|]. by destruct s.
    + rewrite (bind_run _ _ _ tt (set_fd_idx (fd_idx s + 1) s)) by done.
      assert (forall j, first_free (fd_table s) (fd_idx s) j <-> first_free (fd_table s) (fd_idx s + 1) j) as Hff.
      { intros j. unfold first_free. split.
        - intros (Hj & Hn & Hb). destruct (decide (j = fd_idx s)) as [->|]; [congruence|]. split; [lia|]. split; [done|].
          intros k Hk. apply Hb. lia.
        - intros (Hj & Hn & Hb). split; [lia|]. split; [done|]. intros k Hk.
          destruct (decide (k = fd_idx s)) as [->|]; [by exists v|]. apply Hb. lia. }
      destruct (IH (set_fd_idx (fd_idx s + 1) s)) as [(j & H1 & H2 & H3)|[H1 H2]]; simpl in *; [lia|done|lia| |].
      * left. exists j. split; [by apply Hff|]. split; [done|]. rewrite H3. by destruct s.
      * right. split; [|done]. intros j Hj. by apply (H1 j), Hff.
  - right. unfold mbind at 1, M_mbind at 1. rewrite get_fd_none by done. split; [|done].
    intros j (Hj & Hn & _). apply lookup_ge_None in Ev. apply lookup_lt_Some in Hn. lia.
Qed.

Lemma find_unused_fd_ok file s :
  0 <= fd_idx s <= MAX_FD -> Z.of_nat (length (fd_table s)) = MAX_FD ->
  (exists j, first_free (fd_table s) (fd_idx s) j /\ j < MAX_FD /\
     find_unused_fd file s = Ok (j, set_table (<[Z.to_nat j := file]> (fd_table s)) (set_fd_idx j s))) \/
  ((forall j, ~ first_free (fd_table s) (fd_idx s) j) /\ find_unused_fd file s = Undef).
Proof.
  intros Hi Hl. unfold find_unused_fd. rewrite (bind_run _ _ _ (fd_table s) s) by done.
  destruct (find_fd_loop_ok (S (length (fd_table s))) s Hi Hl ltac:(lia)) as [(j & H1 & H2 & H3)|[H1 H2]].
  - left. exists j. split; [done|]. split; [done|]. rewrite (bind_run _ _ _ _ _ H3).
    rewrite (bind_run _ _ _ j (set_fd_idx j s)) by done. rewrite Z.geb_leb, (proj2 (Z.leb_gt _ _)) by done.
    pose proof H1 as (Hj & _). unfold put_fd, mbind, M_mbind, gets. simpl.
    rewrite (proj2 (Z.leb_le _ _)), (proj2 (Z.ltb_lt _ _)) by lia. done.
  - right. split; [done|]. unfold mbind at 1, M_mbind at 1. by rewrite H2.
Qed.

(** ** The calls *)

Create HintDb preserves.

Section Calls.
Variable page_ok : Z -> bool.
Variable page_access : Z -> bool -> bool.
Variable user_string : Z -> list Z.
Variable user_bytes : Z -> Z -> list Z.
Variable garbage : list Z.

Inductive fd_call : Type :=
  | CallOpen (file : Z)
  | CallClose (fd : Z)
  | CallDup2 (oldfd newfd : Z)
  | CallRead (fd buffer size : Z)
  | CallWrite (fd buffer size : Z)
  | CallSeek (fd position : Z).

(** Whether the process is still there. *)
Definition run_call (c : fd_call) : M proc bool :=
  match c with
  | CallOpen file =>
      r ← sys_open page_ok user_string garbage file; mret (match r with Ret _ => true | Exited => false end)
  | CallClose fd => sys_close fd;; mret true
  | CallDup2 oldfd newfd => sys_dup2 oldfd newfd;; mret true
  | CallRead fd buffer size =>
      r ← sys_read page_access fd buffer size; mret (match r with Ret _ => true | Exited => false end)
  | CallWrite fd buffer size =>
      r ← sys_write page_access user_bytes fd buffer size; mret (match r with Ret _ => true | Exited => false end)
  | CallSeek fd position => sys_seek fd position;; mret true
  end.

Fixpoint run_calls (l : list fd_call) : M proc bool :=
  match l with
  | [] => mret true
  | c :: l => alive ← run_call c; if alive : bool then run_calls l else mret false
  end.

(** ** Each call keeps the invariant *)

Definition preserves {A} (m : M proc A) : Prop := forall s a s', fd_inv null s -> m s = Ok (a, s') -> fd_inv null s'.

Lemma preserves_ret {A} (a : A) : preserves (mret a).
Proof. by intros s b s' Hs [= _ <-]. Qed.

Lemma preserves_bind {A B} (m : M proc A) (k : A -> M proc B) : preserves m -> (forall a, preserves (k a)) -> preserves (m ≫= k).
Proof. intros Hm Hk s b s2 Hs (a & s1 & E1 & E2)%bind_Ok. eapply Hk; [by eapply Hm|exact E2]. Qed.

Lemma preserves_if {A} (b : bool) (m1 m2 : M proc A) : preserves m1 -> preserves m2 -> preserves (if b then m1 else m2).
Proof. by destruct b. Qed.

Lemma preserves_lift {A} (o : outcome A) : preserves (lift o).
Proof. intros s a s' Hs E. unfold lift in E. destruct o; [|done..]. by injection E as _ <-. Qed.

Lemma preserves_gets {A} (f : proc -> A) : preserves (gets f).
Proof. by intros s a s' Hs [= _ <-]. Qed.

Lemma preserves_nofuel {A} : preserves (@nofuelM proc A).
Proof. done. Qed.

Lemma preserves_get_fd fd : preserves (get_fd fd).
Proof. intros s a s' Hs E. by apply get_fd_run in E as (-> & _). Qed.

Lemma preserves_fs {A} (m : M fs A) : keeps m -> preserves (in_fs m).
Proof. intros Hm s a s' Hs E. apply in_fs_run in E as (x & E & ->). apply fd_inv_fs; [done|by eapply Hm]. Qed.

Lemma preserves_acquire : preserves fs_lock_acquire.
Proof.
  intros s a s' Hs E. unfold fs_lock_acquire in E. split_run E. injection E0 as <- <-. apply preserves_lift in E1 as Hs1; [|done].
  injection E as _ <-. by apply fd_inv_locked.
Qed.

Lemma preserves_release : preserves fs_lock_release.
Proof.
  intros s a s' Hs E. unfold fs_lock_release in E. split_run E. injection E0 as <- <-. apply preserves_lift in E1 as Hs1; [|done].
  injection E as _ <-. by apply fd_inv_locked.
Qed.

Lemma preserves_exit n : preserves (sys_exit n).
Proof. intros s a s' [H1 H2 H3 H4 H5 H6 H7] [= _ <-]. by split. Qed.

Lemma preserves_console f : preserves (modify (fun s => set_console (f s).1 (f s).2 s)).
Proof. intros s a s' [H1 H2 H3 H4 H5 H6 H7] [= _ <-]. by split. Qed.

Hint Resolve preserves_ret preserves_lift preserves_gets preserves_nofuel preserves_get_fd preserves_fs preserves_acquire
  preserves_release preserves_exit keeps_file_length keeps_file_seek keeps_file_read keeps_file_write : preserves.

Ltac preserve :=
  repeat (cbn beta; match goal with
    | |- preserves (mbind _ _) => apply preserves_bind; [|intro]
    | |- preserves (if _ then _ else _) => apply preserves_if
    end || (solve [eauto with preserves])).

Lemma preserves_check_address a : preserves (check_address page_ok a).
Proof. unfold check_address. preserve. Qed.

Lemma preserves_check_buffer b n w : preserves (check_buffer page_access b n w).
Proof.
  unfold check_buffer. generalize (S (S (S (Z.to_nat (n / PGSIZE))))) as fuel. generalize (pg_round_down b) as addr.
  intros addr fuel. revert addr. induction fuel as [|fuel IH]; intros addr; simpl; preserve.
Qed.
Hint Resolve preserves_check_address preserves_check_buffer : preserves.

Lemma preserves_process_get_file fd : preserves (process_get_file fd).
Proof. unfold process_get_file. preserve. Qed.
Hint Resolve preserves_process_get_file : preserves.

Lemma preserves_close fd : preserves (sys_close fd).
Proof. intros s a s' Hs E. by destruct (sys_close_keeps null fd s a s' Hs E). Qed.

Lemma preserves_seek fd p : preserves (sys_seek fd p).
Proof. unfold sys_seek. preserve. Qed.

Lemma preserves_keys n : preserves (input_keys n).
Proof.
  unfold input_keys. apply preserves_bind; [preserve|]. intros keys. apply preserves_if; [preserve|].
  apply preserves_bind; [apply (preserves_console (fun s => (drop (Z.to_nat n) keys, output s)))|preserve].
Qed.
Hint Resolve preserves_keys : preserves.

Lemma preserves_read fd b n : preserves (sys_read page_access fd b n).
Proof. unfold sys_read. preserve. Qed.

Lemma preserves_write fd b n : preserves (sys_write page_access user_bytes fd b n).
Proof.
  assert (preserves (modify (fun s => set_console (input s) (output s ++ user_bytes b n) s))) as Hc
    by (apply (preserves_console (fun s => (input s, output s ++ user_bytes b n)))).
  unfold sys_write. preserve.
Qed.

(** Opening: the new file enters the table. *)
Lemma enter_file f s j :
  fd_inv f s -> is_file f -> first_free (fd_table s) (fd_idx s) j -> j < MAX_FD ->
  fd_inv null (set_table (<[Z.to_nat j := f]> (fd_table s)) (set_fd_idx j s)).
Proof.
  intros Hs Hf (Hj & Hn & _) Hlt. pose proof (fi_idx _ _ Hs). apply (enter_entry f j (set_fd_idx j s) tt).
  - apply fd_inv_idx; [done|lia].
  - done.
  - by destruct Hf.
  - unfold put_fd, mbind, M_mbind, gets. simpl. rewrite (fi_length _ _ Hs).
    rewrite (proj2 (Z.leb_le _ _)), (proj2 (Z.ltb_lt _ _)) by lia. done.
Qed.

(** A file that is not in the table yet and counts one descriptor. *)
Lemma fd_inv_opened f s x :
  fd_inv null s -> next_ptr (pfs s) <= f < next_ptr x ->
  (forall g, dups x g = if decide (g = f) then Some 1 else dups (pfs s) g) -> fd_inv f (set_pfs x s) /\ is_file f.
Proof.
  intros [H1 H2 H3 H4 H5 H6 H7] Hf Hd.
  assert (is_file f) as Hff by (unfold is_file, null, STDIN, STDOUT; lia). split; [|done].
  assert (f ∉ fd_table s) as Hnot by (intros Hin; specialize (H6 f Hff (or_intror Hin)); lia).
  destruct Hff as (Hf1 & Hf2 & Hf3). split; simpl; [done|done| | |lia| |].
  - rewrite H3. by rewrite !bool_decide_false.
  - rewrite H4. by rewrite !bool_decide_false.
  - intros g Hg [->|Hin]; [lia|]. specialize (H6 g Hg (or_intror Hin)). lia.
  - intros g Hg Hin. rewrite Hd. destruct (decide (g = f)) as [->|E].
    + rewrite bool_decide_true by done. f_equal. pose proof (proj2 (count_pos f (fd_table s))) as Hc.
      assert (0 <= count f (fd_table s)) by (unfold count; lia). destruct (decide (0 < count f (fd_table s))); [by destruct Hnot; apply Hc|simpl; lia].
    + rewrite (bool_decide_false (f = g)) by congruence. destruct Hin as [->|Hin]; [done|]. rewrite H7; [|done|by right].
      rewrite bool_decide_false by (by destruct Hg). done.
Qed.

Lemma preserves_open file : preserves (sys_open page_ok user_string garbage file).
Proof.
  intros s a s' Hs H. unfold sys_open in H. apply bind_Ok in H as (ok & s1 & E1 & H). apply preserves_check_address in E1 as Hs1; [|done].
  destruct (negb ok); [by injection H as _ <-|]. destruct (bool_decide _); [by injection H as _ <-|].
  apply bind_Ok in H as (u & s2 & E2 & H). apply preserves_acquire in E2 as Hs2; [|done].
  apply bind_Ok in H as (f & s3 & E3 & H). apply in_fs_run in E3 as (x & E3 & ->).
  apply filesys_open_run in E3 as (Hn & [(-> & K)|(Hf & K)]); [| |by pose proof (fi_ptr _ _ Hs2); lia].
  - cbn [Z.eqb] in H. change (null =? null) with true in H. cbn iota in H. apply bind_Ok in H as (v & s4 & E4 & H).
    apply preserves_release in E4; [|by apply fd_inv_fs]. by injection H as _ <-.
  - destruct (fd_inv_opened f s2 x Hs2 Hf K) as [Hs3 Hff]. rewrite (proj2 (Z.eqb_neq f null)) in H by (by destruct Hff).
    apply bind_Ok in H as (fd & s4 & E4 & H). pose proof (fi_idx _ _ Hs3).
    destruct (find_unused_fd_ok f (set_pfs x s2)) as [(j & Hj & Hlt & E5)|[_ E5]]; [lia|apply Hs3| |congruence].
    rewrite E5 in E4. injection E4 as <- <-. apply bind_Ok in H as (v & s5 & E6 & H).
    apply preserves_release in E6; [by injection H as _ <-|]. by apply (enter_file f (set_pfs x s2)).
Qed.

(** Duplicating: the entry is counted once more, the other one closed, and filled. *)
Lemma fd_inv_counted v s a s1 :
  fd_inv null s -> v ∈ fd_table s -> v <> null ->
  (if v =? STDIN then i ← lift (int32 (stdin_count s + 1)); modify (set_counts i (stdout_count s))
   else if v =? STDOUT then o ← lift (int32 (stdout_count s + 1)); modify (set_counts (stdin_count s) o)
   else in_fs (increase_dup_count v)) s = Ok (a, s1) ->
  fd_inv v s1 /\ fd_table s1 = fd_table s.
Proof.
  intros [H1 H2 H3 H4 H5 H6 H7] Hin Hv E.
  assert (forall f, is_file f -> f <> v -> f = v \/ f ∈ fd_table s -> dups (pfs s) f = Some (count f (fd_table s) + here (bool_decide (v = f)))) as Hoth.
  { intros f Hf Hne [?|Hi]; [done|]. rewrite H7; [|done|by right]. rewrite !bool_decide_false; [done|congruence|by destruct Hf]. }
  assert (forall f, is_file f -> f = v \/ f ∈ fd_table s -> f < next_ptr (pfs s)) as Hb.
  { intros f Hf [->|Hi]; apply H6; [done|by right|done|by right]. }
  change (bool_decide (null = STDIN)) with false in H3. change (bool_decide (null = STDOUT)) with false in H4. simpl in H3, H4.
  destruct (Z.eqb_spec v STDIN) as [->|Hi]; [|destruct (Z.eqb_spec v STDOUT) as [->|Ho]].
  - apply bind_Ok in E as (i & s2 & E2 & E). unfold lift, int32 in E2. destruct (_ && _) in E2; [|done]. injection E2 as <- <-.
    injection E as _ <-. split; [|done]. split; simpl; [done|done| | |done|done|].
    + lia.
    + rewrite H4. simpl. lia.
    + intros f Hf Hi. apply Hoth; [done| |done]. intros ->. by destruct Hf as (_ & ? & _).
  - apply bind_Ok in E as (i & s2 & E2 & E). unfold lift, int32 in E2. destruct (_ && _) in E2; [|done]. injection E2 as <- <-.
    injection E as _ <-. split; [|done]. split; simpl; [done|done| | |done|done|].
    + rewrite H3. simpl. lia.
    + lia.
    + intros f Hf Ho. apply Hoth; [done| |done]. intros ->. by destruct Hf as (_ & _ & ?).
  - apply in_fs_run in E as (x & E & ->). apply set_dup_run in E as (n & Hn & N & K). split; [|done].
    assert (is_file v) as Hf by done. rewrite (H7 v Hf (or_intror Hin)), bool_decide_false in Hn by done. injection Hn as <-.
    split; simpl; [done|done| | |lia|intros f Hff Hi'; specialize (Hb f Hff Hi'); lia|].
    + rewrite H3, bool_decide_false by done. simpl. lia.
    + rewrite H4, bool_decide_false by done. simpl. lia.
    + intros f Hff Hi'. rewrite K. destruct (decide (f = v)) as [->|E]; [|by apply Hoth]. rewrite bool_decide_true by done. f_equal. simpl. lia.
Qed.

Lemma preserves_dup2 oldfd newfd : preserves (sys_dup2 oldfd newfd).
Proof.
  intros s a s' Hs H. unfold sys_dup2 in H. destruct (bad_fd oldfd); [by injection H as _ <-|].
  apply bind_Ok in H as (v & s1 & E1 & H). apply get_fd_run in E1 as (-> & H0 & Hv).
  destruct (Z.eqb_spec v null) as [->|Hnn]; [by injection H as _ <-|].
  destruct (Z.eqb_spec oldfd newfd) as [->|Hne]; [by injection H as _ <-|].
  apply bind_Ok in H as (i & s1 & E1 & H). injection E1 as <- <-. apply bind_Ok in H as (o & s1 & E1 & H). injection E1 as <- <-.
  apply bind_Ok in H as (u & s1 & E1 & H). apply fd_inv_counted in E1 as [Hs1 Ht1]; [|done|by eapply list_elem_of_lookup_2|done].
  apply bind_Ok in H as (w & s2 & E2 & H). apply get_fd_run in E2 as (-> & Hn0 & Hw).
  apply bind_Ok in H as (u2 & s2 & E2 & H).
  assert (fd_inv v s2 /\ fd_table s2 !! Z.to_nat oldfd = Some v /\ fd_table s2 !! Z.to_nat newfd = Some null) as (Hs2 & Ho2 & Hn2).
  { destruct (Z.eqb_spec w null) as [->|Hwn]; cbn [negb] in E2; [injection E2 as _ <-; rewrite Ht1 in *; done|].
    apply bind_Ok in E2 as (u3 & s3 & E3 & E2). unfold fs_lock_acquire in E3. split_run E3.
    injection E as <- <-. unfold assertM, lift, ASSERT in E0. destruct (negb _) in E0; [|done]. injection E0 as <- <-. injection E3 as _ <-.
    apply bind_Ok in E2 as (u4 & s4 & E4 & E2). apply (sys_close_keeps v) in E4 as (Hs4 & _ & Ht4); [|by apply fd_inv_locked].
    unfold fs_lock_release in E2. split_run E2. injection E as <- <-. unfold assertM, lift, ASSERT in E0.
    destruct (fs_locked s4) in E0; [|done]. injection E0 as <- <-. injection E2 as _ <-.
    split; [by apply fd_inv_locked|]. simpl in *. rewrite Ht4. pose proof (lookup_lt_Some _ _ _ Hw) as Hlt.
    pose proof (fi_length _ _ Hs1). unfold bad_fd. rewrite (proj2 (Z.ltb_ge _ _)), Z.geb_leb, (proj2 (Z.leb_gt _ _)) by lia.
    cbn [orb]. split; [rewrite list_lookup_insert_ne by lia; by rewrite Ht1|by rewrite list_lookup_insert_eq by lia]. }
  apply bind_Ok in H as (v' & s3 & E3 & H). apply get_fd_run in E3 as (-> & _ & Hv'). rewrite Ho2 in Hv'. injection Hv' as <-.
  apply bind_Ok in H as (u5 & s3 & E3 & H). injection H as _ <-. by eapply enter_entry.
Qed.

Lemma run_calls_keep l s a s' : fd_inv null s -> run_calls l s = Ok (a, s') -> fd_inv null s'.
Proof.
  revert s. induction l as [|c l IH]; intros s Hs H; [by injection H as _ <-|]. simpl in H.
  apply bind_Ok in H as (b & s1 & E1 & H). assert (fd_inv null s1) as Hs1.
  { destruct c; simpl in E1; apply bind_Ok in E1 as (r & s2 & E2 & E1); injection E1 as _ <-;
      [eapply preserves_open|eapply preserves_close|eapply preserves_dup2|eapply preserves_read|eapply preserves_write|
       eapply preserves_seek]; eassumption. }
  destruct b; [by apply (IH s1)|by injection H as _ <-].
Qed.
End Calls.

(** ** The theorems *)


(** A process with the example's file system, as process_init leaves it. *)
Definition ex_proc : proc :=
  Proc (set_heap [] 20 ex_fs) (STDIN :: STDOUT :: replicate 1534 null) 2 1 1 false 0 [] [].

Lemma count_replicate v n : v <> null -> count v (replicate n null) = 0.
Proof.
  intros Hv. unfold count. induction n as [|n IH]; [done|]. simpl. rewrite filter_cons. by rewrite decide_False.
Qed.

Lemma count_cons v w l : count v (w :: l) = here (bool_decide (w = v)) + count v l.
Proof. unfold count. rewrite filter_cons. case_bool_decide; [rewrite decide_True by done; simpl; lia|by rewrite decide_False]. Qed.

Lemma ex_proc_inv : fd_inv null ex_proc.
Proof.
  split; cbn [fd_table ex_proc fd_idx stdin_count stdout_count pfs].
  - cbn [length]. rewrite length_replicate. done.
  - unfold MAX_FD. lia.
  - by rewrite !count_cons, count_replicate.
  - by rewrite !count_cons, count_replicate.
  - simpl. lia.
  - intros f Hf [->|Hin]; [by destruct Hf|]. apply elem_of_cons in Hin as [->|[->|[-> _]%elem_of_replicate]%elem_of_cons]; by destruct Hf as (? & ? & ?).
  - intros f Hf [->|Hin]; [by destruct Hf|]. apply elem_of_cons in Hin as [->|[->|[-> _]%elem_of_replicate]%elem_of_cons]; by destruct Hf as (? & ? & ?).
Qed.

(** User memory: every address can be accessed, and every string is the name "a". *)
Definition all_pages (a : Z) : bool := true.
Definition all_access (a : Z) (write : bool) : bool := true.
Definition name_a (a : Z) : list Z := [97].
Definition ones (a n : Z) : list Z := replicate (Z.to_nat n) 1.

Definition ex_calls : list fd_call := [CallDup2 1 5; CallClose 1; CallWrite 5 0x400000 3; CallDup2 5 1].

Lemma ex_calls_run :
  exists s', run_calls all_pages all_access name_a ones [] ex_calls ex_proc = Ok (true, s').
Proof. apply (outcome_val_ok _ true). vm_compute. reflexivity. Qed.



(** *** dup2 *)

Lemma put_fd_ok fd v s :
  0 <= fd < Z.of_nat (length (fd_table s)) -> put_fd fd v s = Ok (tt, set_table (<[Z.to_nat fd := v]> (fd_table s)) s).
Proof.
  intros H. unfold put_fd, mbind, M_mbind, gets. by rewrite (proj2 (Z.leb_le _ _)), (proj2 (Z.ltb_lt _ _)) by lia.
Qed.

Lemma count_bound v l : 0 <= count v l <= Z.of_nat (length l).
Proof. unfold count. pose proof (length_filter (fun w => w = v) l). lia. Qed.

Lemma set_dup_ok f g x s :
  files s !! f = Some x -> is_s32 (g (dup_count x)) ->
  set_dup_count f g s = Ok (tt, set_files (<[f := File (f_inode x) (f_pos x) (f_deny_write x) (g (dup_count x)) (mapping_cnt x)]> (files s)) s).
Proof.
  intros Hx Hg. unfold set_dup_count.
  rewrite (bind_run _ _ _ x s) by (unfold get_file, mbind, M_mbind, get, lift; by rewrite Hx).
  by rewrite (bind_run _ _ _ (g (dup_count x)) s) by (unfold lift; by rewrite int32_ok).
Qed.

Lemma bind_cong {S A B} (m : M S A) (f g : A -> M S B) s :
  (forall a s', m s = Ok (a, s') -> f a s' = g a s') -> (m ≫= f) s = (m ≫= g) s.
Proof. intros H. unfold mbind, M_mbind. destruct (m s) as [[a s']| | |] eqn:E; [|done..]. by apply H. Qed.

(** The state with [v] entered at [newfd] and counted. *)
Lemma sys_dup2_ok s oldfd newfd v :
  fd_inv null s -> bad_fd oldfd = false -> fd_table s !! Z.to_nat oldfd = Some v -> v <> null ->
  0 <= newfd -> fd_table s !! Z.to_nat newfd = Some null ->
  sys_dup2 oldfd newfd s =
    (u ← (if v =? STDIN then i ← lift (int32 (stdin_count s + 1)); modify (set_counts i (stdout_count s))
          else if v =? STDOUT then o ← lift (int32 (stdout_count s + 1)); modify (set_counts (stdin_count s) o)
          else in_fs (increase_dup_count v));
     modify (set_table (<[Z.to_nat newfd := v]> (fd_table s)));; mret newfd) s.
Proof.
  intros Hinv Hold Hv Hopen Hnew Hfree. unfold sys_dup2. rewrite Hold. unfold bad_fd in Hold. apply orb_false_iff in Hold as [Ho1 _].
  apply Z.ltb_ge in Ho1. rewrite (bind_run _ _ _ v s) by (by apply get_fd_some). rewrite (proj2 (Z.eqb_neq _ _) Hopen).
  destruct (Z.eqb_spec oldfd newfd) as [->|Hne]; [congruence|].
  rewrite (bind_run _ _ _ (stdin_count s) s), (bind_run _ _ _ (stdout_count s) s) by done.
  apply bind_cong. intros u s1 Em.
  assert (fd_table s1 = fd_table s) as Ht.
  { destruct (v =? STDIN); [|destruct (v =? STDOUT)].
    - apply bind_Ok in Em as (i & s2 & E2 & Em). unfold lift in E2. destruct (int32 _); [|done..]. injection E2 as <- <-. by injection Em as _ <-.
    - apply bind_Ok in Em as (i & s2 & E2 & Em). unfold lift in E2. destruct (int32 _); [|done..]. injection E2 as <- <-. by injection Em as _ <-.
    - apply in_fs_run in Em as (x & _ & ->). done. }
  rewrite (bind_run _ _ _ null s1) by (apply get_fd_some; [done|by rewrite Ht]). rewrite Z.eqb_refl. cbn [negb].
  rewrite (bind_run _ _ _ tt s1) by done. rewrite (bind_run _ _ _ v s1) by (apply get_fd_some; [done|by rewrite Ht]).
  rewrite (bind_run _ _ _ tt (set_table (<[Z.to_nat newfd := v]> (fd_table s)) s1)); [done|].
  rewrite put_fd_ok by (rewrite Ht; apply lookup_lt_Some in Hfree; lia). by rewrite Ht.
Qed.

Lemma in_range_fd s fd v : fd_inv null s -> 0 <= fd -> fd_table s !! Z.to_nat fd = Some v -> bad_fd fd = false /\ fd < MAX_FD.
Proof.
  intros Hinv Hfd Hv. pose proof (lookup_lt_Some _ _ _ Hv). pose proof (fi_length _ _ Hinv). unfold bad_fd.
  rewrite (proj2 (Z.ltb_ge _ _)), Z.geb_leb, (proj2 (Z.leb_gt _ _)) by lia. split; [done|lia].
Qed.

(** Putting an entry back. *)
Lemma table_restored (l : list Z) i v : l !! i = Some null -> <[i := null]> (<[i := v]> l) = l.
Proof. intros H. rewrite list_insert_insert_eq. by apply list_insert_id. Qed.

(** dup2 onto a free descriptor makes it denote what the old one does, and closing
    it restores the state before, for a file as for the console. *)
Theorem dup2_close s oldfd newfd v
  (Hinv : fd_inv null s) (Hold : bad_fd oldfd = false) (Hv : fd_table s !! Z.to_nat oldfd = Some v) (Hopen : v <> null)
  (Hnew : 0 <= newfd) (Hfree : fd_table s !! Z.to_nat newfd = Some null) :
  exists s1, sys_dup2 oldfd newfd s = Ok (newfd, s1) /\ fd_table s1 = <[Z.to_nat newfd := v]> (fd_table s) /\
    sys_close newfd s1 = Ok (tt, s).
Proof.
  rewrite (sys_dup2_ok s oldfd newfd v) by done. destruct (in_range_fd s newfd null Hinv Hnew Hfree) as [Hb Hlt].
  pose proof (lookup_lt_Some _ _ _ Hfree) as Hlen. pose proof (fi_length _ _ Hinv) as HL. unfold MAX_FD in HL.
  set (l' := <[Z.to_nat newfd := v]> (fd_table s)).
  assert (l' !! Z.to_nat newfd = Some v) as Hl' by (by apply list_lookup_insert_eq).
  assert (forall x i o, sys_close newfd (set_table l' (set_counts i o (set_pfs x s))) =
    (i' ← (if v =? STDIN then lift (int32 (i - 1)) else mret i);
     o' ← (if v =? STDOUT then lift (int32 (o - 1)) else mret o);
     modify (set_counts i' o');;
     if (v =? null) || (v =? STDIN) || (v =? STDOUT) then put_fd newfd null else
     in_fs (decrease_dup_count v);; n ← in_fs (check_dup_count v);
     (if n =? 0 then in_fs (file_close v) else mret tt);; put_fd newfd null) (set_table l' (set_counts i o (set_pfs x s)))) as Hclose.
  { intros x i o. unfold sys_close. rewrite Hb. by rewrite (bind_run _ _ _ v (set_table l' (set_counts i o (set_pfs x s)))) by (by apply get_fd_some). }
  assert (forall x i o, put_fd newfd null (set_table l' (set_counts i o (set_pfs x s))) = Ok (tt, set_counts i o (set_pfs x s))) as Hput.
  { intros x i o. rewrite put_fd_ok by (simpl; unfold l'; rewrite length_insert; lia). cbn [fd_table set_table]. unfold l'.
    rewrite table_restored by done. by destruct s. }
  pose proof (count_bound STDIN (fd_table s)) as Hc1. pose proof (count_bound STDOUT (fd_table s)) as Hc2.
  pose proof (fi_stdin _ _ Hinv) as Hi. pose proof (fi_stdout _ _ Hinv) as Ho.
  change (bool_decide (null = STDIN)) with false in Hi. change (bool_decide (null = STDOUT)) with false in Ho. simpl in Hi, Ho.
  destruct (Z.eqb_spec v STDIN) as [->|Hni]; [|destruct (Z.eqb_spec v STDOUT) as [->|Hno]].
  - exists (set_table l' (set_counts (stdin_count s + 1) (stdout_count s) (set_pfs (pfs s) s))). split; [|split; [done|]].
    + unfold lift. unfold mbind, M_mbind. rewrite int32_ok by (unfold is_s32; lia). by destruct s.
    + rewrite Hclose. unfold lift. unfold mbind, M_mbind. rewrite int32_ok by (unfold is_s32; lia). simpl.
      replace (stdin_count s + 1 - 1) with (stdin_count s) by ring. specialize (Hput (pfs s) (stdin_count s) (stdout_count s)).
      by destruct s.
  - exists (set_table l' (set_counts (stdin_count s) (stdout_count s + 1) (set_pfs (pfs s) s))). split; [|split; [done|]].
    + unfold lift. unfold mbind, M_mbind. rewrite int32_ok by (unfold is_s32; lia). by destruct s.
    + rewrite Hclose. unfold lift. unfold mbind, M_mbind. simpl. rewrite int32_ok by (unfold is_s32; lia). simpl.
      replace (stdout_count s + 1 - 1) with (stdout_count s) by ring. specialize (Hput (pfs s) (stdin_count s) (stdout_count s)).
      by destruct s.
  - assert (is_file v) as Hf by done. pose proof (fi_files _ _ Hinv v Hf) as Hd.
    assert (v ∈ fd_table s) as Hin by (by eapply list_elem_of_lookup_2). specialize (Hd (or_intror Hin)).
    rewrite bool_decide_false in Hd by (by destruct Hf). unfold dups in Hd. destruct (files (pfs s) !! v) as [y|] eqn:Ey; [|done].
    injection Hd as Hd. simpl in Hd. pose proof (count_bound v (fd_table s)). pose proof (proj1 (count_pos v (fd_table s)) Hin) as Hpos.
    set (y' := File (f_inode y) (f_pos y) (f_deny_write y) (dup_count y + 1) (mapping_cnt y)).
    set (x' := set_files (<[v := y']> (files (pfs s))) (pfs s)).
    exists (set_table l' (set_counts (stdin_count s) (stdout_count s) (set_pfs x' s))). split; [|split; [done|]].
    + rewrite (bind_run _ _ _ tt (set_pfs x' s)); [by destruct s|]. unfold in_fs, increase_dup_count.
      by rewrite (set_dup_ok _ _ y) by (done || unfold is_s32; lia).
    + rewrite Hclose. rewrite (bind_run _ _ _ (stdin_count s) (set_table l' (set_counts (stdin_count s) (stdout_count s) (set_pfs x' s)))) by done.
      rewrite (bind_run _ _ _ (stdout_count s) (set_table l' (set_counts (stdin_count s) (stdout_count s) (set_pfs x' s)))) by done.
      rewrite (bind_run _ _ _ tt (set_table l' (set_counts (stdin_count s) (stdout_count s) (set_pfs x' s)))) by done.
      rewrite (proj2 (Z.eqb_neq v null)) by done. cbn [orb].
      rewrite (bind_run _ _ _ tt (set_table l' (set_counts (stdin_count s) (stdout_count s) (set_pfs (pfs s) s)))).
      2:{ unfold in_fs, decrease_dup_count. simpl. rewrite (set_dup_ok _ _ y'); [|apply lookup_insert_eq|unfold is_s32; simpl; lia].
          unfold x', y'. simpl. rewrite insert_insert_eq. replace (dup_count y + 1 - 1) with (dup_count y) by ring.
          replace (File _ _ _ _ _) with y by (by destruct y). rewrite insert_id by done. by destruct s as [[] ? ? ? ? ? ? ? ?]. }
      rewrite (bind_run _ _ _ (dup_count y) (set_table l' (set_counts (stdin_count s) (stdout_count s) (set_pfs (pfs s) s)))).
      2:{ unfold in_fs, check_dup_count, get_file, mbind, M_mbind, get, lift. simpl. rewrite Ey. simpl. by destruct s. }
      rewrite (proj2 (Z.eqb_neq _ _)) by lia. rewrite (bind_run _ _ _ tt (set_table l' (set_counts (stdin_count s) (stdout_count s) (set_pfs (pfs s) s)))) by done.
      rewrite Hput. by destruct s.
Qed.

Lemma dup2_close_witness :
  exists s1, sys_dup2 1 7 ex_proc = Ok (7, s1) /\ sys_close 7 s1 = Ok (tt, ex_proc).
Proof.
  destruct (dup2_close ex_proc 1 7 STDOUT ex_proc_inv eq_refl eq_refl ltac:(done) ltac:(lia) eq_refl) as (s1 & E1 & _ & E2).
  by exists s1.
Defined.

(** dup2 does not check its second argument: with an open descriptor and a number
    outside the table it accesses memory outside the table. *)
Theorem dup2_unchecked s oldfd newfd v
  (Hinv : fd_inv null s) (Hold : bad_fd oldfd = false) (Hv : fd_table s !! Z.to_nat oldfd = Some v) (Hopen : v <> null)
  (Hbad : newfd < 0 \/ MAX_FD <= newfd) :
  sys_dup2 oldfd newfd s = Undef.
Proof.
  unfold sys_dup2. rewrite Hold. unfold bad_fd in Hold. apply orb_false_iff in Hold as [Ho1 Ho2].
  apply Z.ltb_ge in Ho1. rewrite Z.geb_leb in Ho2. apply Z.leb_gt in Ho2.
  rewrite (bind_run _ _ _ v s) by (by apply get_fd_some). rewrite (proj2 (Z.eqb_neq _ _) Hopen), (proj2 (Z.eqb_neq oldfd newfd)) by lia.
  rewrite (bind_run _ _ _ (stdin_count s) s), (bind_run _ _ _ (stdout_count s) s) by done.
  assert (forall s1, fd_table s1 = fd_table s -> get_fd newfd s1 = Undef) as Hget.
  { intros s1 Ht. unfold get_fd, mbind, M_mbind, gets. destruct (Z.ltb_spec newfd 0); [done|]. unfold lift. rewrite Ht.
    rewrite lookup_ge_None_2; [done|]. pose proof (fi_length _ _ Hinv). lia. }
  destruct (in_range_fd s oldfd v Hinv Ho1 Hv) as [_ _].
  assert (forall m : M proc unit, (exists s1, m s = Ok (tt, s1) /\ fd_table s1 = fd_table s) ->
    forall k : unit -> Z -> M proc Z, (u ← m; w ← get_fd newfd; k u w) s = Undef) as Hrun.
  { intros m (s1 & Em & Ht) k. rewrite (bind_run _ _ _ _ _ Em). unfold mbind, M_mbind. by rewrite Hget. }
  apply Hrun. clear Hrun Hget. assert (v ∈ fd_table s) as Hin by (by eapply list_elem_of_lookup_2).
  pose proof (fi_length _ _ Hinv) as HL. unfold MAX_FD in HL.
  pose proof (count_bound STDIN (fd_table s)). pose proof (count_bound STDOUT (fd_table s)).
  pose proof (fi_stdin _ _ Hinv) as Hi. pose proof (fi_stdout _ _ Hinv) as Ho.
  change (bool_decide (null = STDIN)) with false in Hi. change (bool_decide (null = STDOUT)) with false in Ho. simpl in Hi, Ho.
  destruct (Z.eqb_spec v STDIN) as [->|Hni]; [|destruct (Z.eqb_spec v STDOUT) as [->|Hno]].
  - eexists. unfold lift, mbind, M_mbind. rewrite int32_ok by (unfold is_s32; lia). by split.
  - eexists. unfold lift, mbind, M_mbind. rewrite int32_ok by (unfold is_s32; lia). by split.
  - pose proof (fi_files _ _ Hinv v (conj Hopen (conj Hni Hno)) (or_intror Hin)) as Hd.
    rewrite bool_decide_false in Hd by done. unfold dups in Hd. destruct (files (pfs s) !! v) as [y|] eqn:Ey; [|done].
    injection Hd as Hd. simpl in Hd. pose proof (count_bound v (fd_table s)).
    eexists. unfold in_fs, increase_dup_count. rewrite (set_dup_ok _ _ y) by (done || unfold is_s32; lia). by split.
Qed.

Lemma dup2_unchecked_witness : sys_dup2 1 1536 ex_proc = Undef.
Proof. apply (dup2_unchecked ex_proc 1 1536 STDOUT ex_proc_inv eq_refl eq_refl); [done|right; unfold MAX_FD; lia]. Defined.

(** C33: open uses the first free descriptor at or behind [fd_idx] and moves [fd_idx]
    there, so a descriptor below it is never used again once it is closed. If none is
    free from [fd_idx] on, whatever is free below it, the scan reads beyond the table;
    the failure of open that is meant for this case is never reached. *)
Theorem find_unused_fd_first file s
  (Hidx : 0 <= fd_idx s <= MAX_FD) (Hlen : Z.of_nat (length (fd_table s)) = MAX_FD) :
  (exists j, first_free (fd_table s) (fd_idx s) j /\ j < MAX_FD /\
     find_unused_fd file s = Ok (j, set_table (<[Z.to_nat j := file]> (fd_table s)) (set_fd_idx j s))) \/
  ((forall j, ~ first_free (fd_table s) (fd_idx s) j) /\ find_unused_fd file s = Undef).
Proof. by apply find_unused_fd_ok. Qed.

(** A process whose last descriptor is open and whose other ones are closed again. *)
Definition ex_last_open : proc :=
  set_fd_idx 1535 (set_table (STDIN :: STDOUT :: replicate 1533 null ++ [11]) ex_proc).

Lemma find_unused_fd_first_witness : find_unused_fd 13 ex_last_open = Undef.
Proof.
  destruct (find_unused_fd_first 13 ex_last_open) as [(j & (Hj & Hn & _) & Hlt & _)|[_ E]].
  - simpl. unfold MAX_FD. lia.
  - vm_compute. reflexivity.
  - exfalso. change (1535 <= j) in Hj. unfold MAX_FD in Hlt. assert (j = 1535) as -> by lia. vm_compute in Hn. discriminate Hn.
  - exact E.
Defined.

(** *** fork *)

(** Descriptor 2 is the example's file. *)
Definition ex_file_proc : proc := set_table (STDIN :: STDOUT :: 11 :: replicate 1533 null) (set_fd_idx 3 ex_proc).

(** The parent makes descriptor 1 a duplicate of the file and forks. The child closes
    descriptor 1, then the parent closes descriptor 2, and uses 1. *)
Definition ex_fork_shared : M proc (Z * Z) :=
  sys_dup2 2 1;;
  child ← fork_descriptors;
  parent ← gets fd_table;
  match child with
  | None => panicM
  | Some c =>
      modify (set_table (fd_table c));; sys_close 1;;
      modify (set_table parent);; sys_close 2;;
      v ← get_fd 1;
      x ← gets (fun s => files (pfs s) !! v);
      mret (v, match x with Some _ => 1 | None => 0 end)
  end.


(** *** create *)

(** sys_create takes the lock of the file system before it checks the address of
    the name: with a bad address the process exits and the lock stays taken. With a
    size of 2^31 or more, which turns negative, the kernel panics. *)
Theorem create_mishandles page_ok user_string garbage file size s :
  (fs_locked s = false -> file = null \/ is_user_vaddr file = false \/ page_ok file = false ->
   exists s', sys_create page_ok user_string garbage file size s = Ok (Exited, s') /\ fs_locked s' = true) /\
  sys_create all_pages name_a ex_garbage 0x400000 (2 ^ 31)
    (set_pfs (match ex_init ex_disk64 with Ok (_, x) => x | _ => ex_disk64 end) ex_proc) = Panic.
Proof.
  split.
  - intros Hl Hbad. unfold sys_create, fs_lock_acquire. exists (set_exit (-1) (set_locked true s)).
    unfold mbind, M_mbind, gets, modify. rewrite Hl. simpl. unfold check_address.
    assert ((file =? null) || negb (is_user_vaddr file) || negb (page_ok file) = true) as ->; [|done].
    destruct Hbad as [->|[->| ->]]; [done|by rewrite orb_true_r|by rewrite !orb_true_r].
  - vm_compute. reflexivity.
Qed.
