(* ===== verification/VmState.v ===== *)
(** * The virtual memory's state (include/vm/)

    The structures of vm.h, uninit.h, anon.h and file.h, which live on the heap, the
    swap disk, and what each process has of virtual memory: its page table, its
    supplemental page table and its stack pointer. Physical memory and page tables
    are the state of VMem.v, open files that of FsState.v. *)

From S2P Require Import Prelude Bitmap VMem Palloc Mmu Hash FsState Inode FreeMap FsFile.

(** ** The data *)

(** [enum vm_type]; the bits above the lowest three are markers. *)
Definition VM_UNINIT : Z := 0.
Definition VM_ANON : Z := 1.
Definition VM_FILE : Z := 2.
Definition VM_TYPE (type : Z) : Z := Z.land type 7.

(** load_segment leaves [mmap_length] as malloc gave it, which is [None]. *)
Record file_info : Type := FileInfo {
  fi_file : Z; fi_ofs : Z; fi_upage : Z; fi_read_bytes : Z; fi_zero_bytes : Z;
  fi_writable : bool; fi_mmap_length : option Z
}.

(** The tables [uninit_ops], [anon_ops] and [file_ops]. *)
Inductive page_operations : Type := UNINIT_OPS | ANON_OPS | FILE_OPS.

(** The functions that the fields [init] and [page_initializer] point to. *)
Inductive vm_initializer : Type := NULL_INIT | LAZY_LOAD_SEGMENT.
Inductive initializer : Type := ANON_INITIALIZER | FILE_BACKED_INITIALIZER.

#[export] Instance page_operations_eq_dec : EqDecision page_operations.
Proof. solve_decision. Defined.

(** The first word of the union in [struct page] is [uninit.init], [anon.swap_idx]
    or [file.aux], whichever was written last; the other members of [uninit] lie
    behind it and stay. *)
Inductive first_word : Type :=
  | Init (f : vm_initializer)
  | SwapIdx (n : Z)
  | Aux (p : Z).

Record page : Type := Page {
  operations : page_operations;
  va : Z;
  p_frame : Z;
  p_writable : bool;
  word0 : first_word;
  u_type : Z;
  u_aux : Z;
  u_page_initializer : initializer
}.

(** [struct frame]; its place in the frame table is in the state's list. *)
Record vm_frame : Type := Frame { kva : Z; f_page : Z; r_cnt : Z }.

(** What a thread has: [pml4], [spt.spt_hash] and [user_rsp]. The hash table's
    elements are pages, known by their [va] and their pointer. *)
Record uproc : Type := UProc { pml4 : Z; spt : htable (Z * Z); user_rsp : Z }.

(** [lock_held]: the running process holds filesys_lock. *)
Record vms : Type := Vms {
  mem : vmem;
  disk : fs;
  lock_held : bool;
  swap_capacity : Z;
  swap_sectors : gmap Z (list Z);
  swap_table : bitmap;
  vpages : gmap Z page;
  frames : gmap Z vm_frame;
  infos : gmap Z file_info;
  frame_list : list Z;
  procs : gmap Z uproc;
  current : Z
}.

Definition set_mem (x : vmem) (s : vms) : vms :=
  Vms x (disk s) (lock_held s) (swap_capacity s) (swap_sectors s) (swap_table s) (vpages s) (frames s) (infos s) (frame_list s) (procs s) (current s).
Definition set_disk (x : fs) (s : vms) : vms :=
  Vms (mem s) x (lock_held s) (swap_capacity s) (swap_sectors s) (swap_table s) (vpages s) (frames s) (infos s) (frame_list s) (procs s) (current s).
Definition set_lock_held (b : bool) (s : vms) : vms :=
  Vms (mem s) (disk s) b (swap_capacity s) (swap_sectors s) (swap_table s) (vpages s) (frames s) (infos s) (frame_list s) (procs s) (current s).
Definition set_swap (x : gmap Z (list Z)) (b : bitmap) (s : vms) : vms :=
  Vms (mem s) (disk s) (lock_held s) (swap_capacity s) x b (vpages s) (frames s) (infos s) (frame_list s) (procs s) (current s).
Definition set_vpages (x : gmap Z page) (s : vms) : vms :=
  Vms (mem s) (disk s) (lock_held s) (swap_capacity s) (swap_sectors s) (swap_table s) x (frames s) (infos s) (frame_list s) (procs s) (current s).
Definition set_frames (x : gmap Z vm_frame) (s : vms) : vms :=
  Vms (mem s) (disk s) (lock_held s) (swap_capacity s) (swap_sectors s) (swap_table s) (vpages s) x (infos s) (frame_list s) (procs s) (current s).
Definition set_infos (x : gmap Z file_info) (s : vms) : vms :=
  Vms (mem s) (disk s) (lock_held s) (swap_capacity s) (swap_sectors s) (swap_table s) (vpages s) (frames s) x (frame_list s) (procs s) (current s).
Definition set_frame_list (l : list Z) (s : vms) : vms :=
  Vms (mem s) (disk s) (lock_held s) (swap_capacity s) (swap_sectors s) (swap_table s) (vpages s) (frames s) (infos s) l (procs s) (current s).
Definition set_procs (m : gmap Z uproc) (s : vms) : vms :=
  Vms (mem s) (disk s) (lock_held s) (swap_capacity s) (swap_sectors s) (swap_table s) (vpages s) (frames s) (infos s) (frame_list s) m (current s).

(** ** Running the functions of a part *)

Definition zoom {S T A : Type} (part : S -> T) (update : T -> S -> S) (m : M T A) : M S A :=
  fun s => match m (part s) with
           | Ok (a, x) => Ok (a, update x s)
           | Panic => Panic
           | Undef => Undef
           | NoFuel => NoFuel
           end.

Definition in_mem {A} : M vmem A -> M vms A := zoom mem set_mem.
Definition on_disk {A} : M fs A -> M vms A := zoom disk set_disk.

Lemma wp_zoom {S T A} (part : S -> T) update (m : M T A) (Q : A -> S -> Prop) s :
  wp m (fun a x => Q a (update x s)) (part s) -> wp (zoom part update m) Q s.
Proof. intros (a & x & E & H). exists a, (update x s). unfold zoom. by rewrite E. Qed.

Lemma zoom_run {S T A} (part : S -> T) update (m : M T A) s a x :
  m (part s) = Ok (a, x) -> zoom part update m s = Ok (a, update x s).
Proof. intros E. unfold zoom. by rewrite E. Qed.

(** ** Accesses *)

(** Reading and writing through a pointer; what is not there was freed or never
    existed. *)
Definition get_vpage (p : Z) : M vms page := s ← get; lift (from_option_ub (vpages s !! p)).
Definition get_frame (p : Z) : M vms vm_frame := s ← get; lift (from_option_ub (frames s !! p)).
Definition get_info (p : Z) : M vms file_info := s ← get; lift (from_option_ub (infos s !! p)).
Definition put_vpage (p : Z) (x : page) : M vms unit := modify (fun s => set_vpages (<[p := x]> (vpages s)) s).
Definition put_frame (p : Z) (x : vm_frame) : M vms unit := modify (fun s => set_frames (<[p := x]> (frames s)) s).
Definition put_info (p : Z) (x : file_info) : M vms unit := modify (fun s => set_infos (<[p := x]> (infos s)) s).
Definition free_vpage (p : Z) : M vms unit := modify (fun s => set_vpages (delete p (vpages s)) s).
Definition free_frame (p : Z) : M vms unit := modify (fun s => set_frames (delete p (frames s)) s).
Definition free_info (p : Z) : M vms unit := modify (fun s => set_infos (delete p (infos s)) s).

(** [thread_current ()], and another thread. *)
Definition get_proc (t : Z) : M vms uproc := s ← get; lift (from_option_ub (procs s !! t)).
Definition thread_cur : M vms uproc := s ← get; get_proc (current s).
Definition cur_pml4 : M vms Z := t ← thread_cur; mret (pml4 t).

Definition set_spt (t : Z) (h : htable (Z * Z)) : M vms unit :=
  p ← get_proc t; modify (fun s => set_procs (<[t := UProc (pml4 p) h (user_rsp p)]> (procs s)) s).

(** [page->operations = ops] and the like *)
Definition with_frame (f : Z) (x : page) : page :=
  Page (operations x) (va x) f (p_writable x) (word0 x) (u_type x) (u_aux x) (u_page_initializer x).
Definition with_word0 (w : first_word) (x : page) : page :=
  Page (operations x) (va x) (p_frame x) (p_writable x) w (u_type x) (u_aux x) (u_page_initializer x).
Definition with_operations (o : page_operations) (x : page) : page :=
  Page o (va x) (p_frame x) (p_writable x) (word0 x) (u_type x) (u_aux x) (u_page_initializer x).
Definition with_writable (b : bool) (x : page) : page :=
  Page (operations x) (va x) (p_frame x) b (word0 x) (u_type x) (u_aux x) (u_page_initializer x).

Definition update_vpage (p : Z) (f : page -> page) : M vms unit := x ← get_vpage p; put_vpage p (f x).

(** [frame->page = page], and counting references in an int *)
Definition set_frame_page (f p : Z) : M vms unit :=
  x ← get_frame f; put_frame f (Frame (kva x) p (r_cnt x)).
Definition add_r_cnt (f n : Z) : M vms unit :=
  x ← get_frame f; c ← lift (int32 (r_cnt x + n)); put_frame f (Frame (kva x) (f_page x) c).

(** [page->file.aux] and [page->anon.swap_idx]. Reading the word as something else
    than it was written as gives a value that C leaves open. *)
Definition file_aux (x : page) : outcome Z := match word0 x with Aux p => Ok p | _ => Undef end.
Definition swap_idx (x : page) : outcome Z := match word0 x with SwapIdx n => Ok n | _ => Undef end.

(** lock_acquire and lock_release on [filesys_lock], with their assertions. *)
Definition vm_lock_acquire : M vms unit :=
  b ← gets lock_held; assertM (negb b);; modify (set_lock_held true).
Definition vm_lock_release : M vms unit :=
  b ← gets lock_held; assertM b;; modify (set_lock_held false).

(** ** Bytes of a page *)

(** The bytes of the page at kernel address [a]. An access across the end of a page
    would hit the next one; none is meant to, and it is undefined here. *)
Definition page_read (a ofs n : Z) : M vmem (list Z) :=
  ws ← get_page_words (pg_no a); lift (block_read (word_bytes ws) ofs n).

Definition page_write (a ofs : Z) (new : list Z) : M vmem unit :=
  ws ← get_page_words (pg_no a);
  b ← lift (block_write (word_bytes ws) ofs new);
  modify (fun s => set_pages (<[pg_no a := bytes_words PAGE_WORDS b]> (pages s)) s).

(** The page as a client sees it. *)
Definition page_bytes (s : vmem) (pn : Z) : option (list Z) := word_bytes <$> pages s !! pn.
