(* ===== verification/Pager.v ===== *)
(** * vm/uninit.c, vm/anon.c and vm/file.c: the kinds of pages

    The functions that the three tables of page operations hold: bringing a page's
    contents in, writing them out, and destroying the page; and the function that
    fills a page of a program at its first fault, of userprog/process.c. *)

From S2P Require Import Prelude Bitmap VMem Palloc Mmu Hash FsState Inode FreeMap FsFile VmState.

(** ** The swap disk *)

(** disk_read and disk_write, with the assertions of select_sector. *)
Definition swap_read (sec : Z) : M vms (list Z) :=
  c ← gets swap_capacity;
  assertM (sec <? c);;
  assertM (sec <? 2 ^ 28);;
  s ← get; lift (from_option_ub (swap_sectors s !! sec)).

Definition swap_write (sec : Z) (buffer : list Z) : M vms unit :=
  c ← gets swap_capacity;
  assertM (sec <? c);;
  assertM (sec <? 2 ^ 28);;
  modify (fun s => set_swap (<[sec := buffer]> (swap_sectors s)) (swap_table s) s).

(** The sector of a slot's piece [i], an int that becomes a sector number. *)
Definition slot_sector (idx i : Z) : M vms Z := n ← lift (int32 (idx * 8 + i)); mret (u32 n).

Definition set_slot (idx : Z) (used : bool) : M vms unit :=
  b ← gets swap_table;
  b ← lift (bitmap_set b (u64 idx) used);
  modify (fun s => set_swap (swap_sectors s) b s).

(** The loops over the eight sectors of a slot, [n] of them left. *)
Fixpoint slot_read (n : nat) (idx i kva : Z) : M vms unit :=
  match n with
  | O => mret tt
  | S n =>
      sec ← slot_sector idx i;
      buf ← swap_read sec;
      in_mem (page_write kva (i * DISK_SECTOR_SIZE) buf);;
      slot_read n idx (i + 1) kva
  end.

Fixpoint slot_write (n : nat) (idx i kva : Z) : M vms unit :=
  match n with
  | O => mret tt
  | S n =>
      sec ← slot_sector idx i;
      buf ← in_mem (page_read kva (DISK_SECTOR_SIZE * i) DISK_SECTOR_SIZE);
      swap_write sec buf;;
      slot_write n idx (i + 1) kva
  end.

(** ** Anonymous pages (anon.c) *)

(** The capacity of the swap disk and what the two allocations of bitmap_create
    give; a null [swap_table] is not modelled. *)
Definition vm_anon_init (malloc1 malloc2 : bool) (garbage : list Z) : M vms unit :=
  c ← gets swap_capacity;
  b ← lift (bitmap_create (c / (PGSIZE / DISK_SECTOR_SIZE)) malloc1 malloc2 garbage);
  b ← lift (from_option_ub b);
  modify (fun s => set_swap (swap_sectors s) b s).

Definition anon_initializer (page : Z) : M vms bool :=
  if page =? null then mret false else
  update_vpage page (with_operations ANON_OPS);;
  update_vpage page (with_word0 (SwapIdx (-1)));;
  mret true.

Definition anon_swap_in (page kva : Z) : M vms bool :=
  x ← get_vpage page;
  idx ← lift (swap_idx x);
  if negb (idx =? -1) then
    slot_read 8 idx 0 kva;;
    set_slot idx false;;
    update_vpage page (with_word0 (SwapIdx (-1)));;
    mret true
  else mret false.

(** The comparison of the int with BITMAP_ERROR is one of 32-bit numbers. *)
Definition anon_swap_out (page : Z) : M vms bool :=
  if page =? null then mret false else
  x ← get_vpage page;
  b ← gets swap_table;
  '(idx, b) ← lift (bitmap_scan_and_flip b 0 1 false);
  modify (fun s => set_swap (swap_sectors s) b s);;
  let table_idx := s32 idx in
  if u32 table_idx =? BITMAP_ERROR then
    t ← lift (bitmap_test b (u64 table_idx));
    assertM (negb t);;
    mret false
  else
    f ← get_frame (p_frame x);
    slot_write 8 table_idx 0 (kva f);;
    add_r_cnt (p_frame x) (-1);;
    set_frame_page (p_frame x) null;;
    update_vpage page (with_frame null);;
    update_vpage page (with_word0 (SwapIdx table_idx));;
    mret true.

(** list_remove on the frame table. *)
Definition remove_frame (f : Z) : M vms unit :=
  l ← gets frame_list;
  if bool_decide (f ∈ l) then modify (set_frame_list (base.filter (fun x => x <> f) l)) else lift Undef.

Definition anon_destroy (page : Z) : M vms unit :=
  x ← get_vpage page;
  idx ← lift (swap_idx x);
  p ← cur_pml4;
  in_mem (pml4_clear_page p (va x));;
  (if negb (idx =? -1) then set_slot idx false else mret tt);;
  if negb (p_frame x =? null) then
    add_r_cnt (p_frame x) (-1);;
    f ← get_frame (p_frame x);
    if r_cnt f =? 0 then
      remove_frame (p_frame x);;
      in_mem (palloc_free_page (kva f));;
      set_frame_page (p_frame x) null;;
      free_frame (p_frame x)
    else mret tt
  else mret tt.

(** ** Pages of files (file.c) *)

Definition file_backed_initializer (page : Z) : M vms bool :=
  update_vpage page (with_operations FILE_OPS);;
  update_vpage page (fun x => with_word0 (Aux (u_aux x)) x);;
  mret true.

Definition file_backed_swap_in (page kva : Z) : M vms bool :=
  x ← get_vpage page;
  a ← lift (file_aux x);
  fi ← get_info a;
  let length := fi_read_bytes fi in
  vm_lock_acquire;;
  bytes ← on_disk (file_read_at (fi_file fi) (s32 length) (fi_ofs fi));
  in_mem (page_write kva 0 bytes);;
  if negb (Z.of_nat (base.length bytes) =? s32 length) then vm_lock_release;; mret false else
  vm_lock_release;;
  let page_zero_bytes := u64 (PGSIZE - length) in
  (if page_zero_bytes >? 0 then in_mem (page_write kva length (replicate (Z.to_nat page_zero_bytes) 0))
   else mret tt);;
  mret true.

(** What the two functions below and munmap_cleaner share: a page that the process
    has written to goes back to its file. *)
Definition write_back (x : page) (fi : file_info) : M vms unit :=
  p ← cur_pml4;
  dirty ← in_mem (pml4_is_dirty p (va x));
  if dirty : bool then
    vm_lock_acquire;;
    f ← get_frame (p_frame x);
    buffer ← in_mem (page_read (kva f) 0 PGSIZE);
    on_disk (file_write_at (fi_file fi) buffer (s32 (fi_read_bytes fi)) (fi_ofs fi));;
    vm_lock_release;;
    in_mem (pml4_set_dirty p (va x) false)
  else mret tt.

Definition file_backed_swap_out (page : Z) : M vms bool :=
  x ← get_vpage page;
  a ← lift (file_aux x);
  fi ← get_info a;
  write_back x fi;;
  mret true.

Definition file_backed_destroy (page : Z) : M vms unit :=
  x ← get_vpage page;
  a ← lift (file_aux x);
  fi ← get_info a;
  write_back x fi;;
  (if negb (p_frame x =? null) then
     f ← get_frame (p_frame x);
     in_mem (palloc_free_page (kva f));;
     free_frame (p_frame x);;
     update_vpage page (with_frame null)
   else mret tt);;
  p ← cur_pml4;
  in_mem (pml4_clear_page p (va x));;
  free_info a.

(** ** Filling a page of a program (process.c) *)

(** The remaining length is an int that becomes a size_t: past the end of the file
    it is huge, and the read then gives nothing. *)
Definition lazy_load_segment (page aux : Z) : M vms bool :=
  fi ← get_info aux;
  x ← get_vpage page;
  f ← get_frame (p_frame x);
  len ← on_disk (file_length (fi_file fi));
  remaining ← lift (int32 (len - fi_ofs fi));
  let file_remaining := u64 remaining in
  let page_read_bytes := if fi_read_bytes fi <? PGSIZE then fi_read_bytes fi else PGSIZE in
  let page_read_bytes := if page_read_bytes <? file_remaining then page_read_bytes else file_remaining in
  let page_zero_bytes := PGSIZE - page_read_bytes in
  bytes ← on_disk (file_read_at (fi_file fi) (s32 page_read_bytes) (fi_ofs fi));
  in_mem (page_write (kva f) 0 bytes);;
  let bytes_read := Z.of_nat (length bytes) in
  if bytes_read =? s32 page_read_bytes then
    in_mem (page_write (kva f) page_read_bytes (replicate (Z.to_nat page_zero_bytes) 0));; mret true
  else if bytes_read >=? 0 then
    in_mem (page_write (kva f) bytes_read (replicate (Z.to_nat (page_zero_bytes + (page_read_bytes - bytes_read))) 0));;
    mret true
  else mret false.

(** ** Pages that were not used yet (uninit.c) *)

Definition uninit_new (p upage : Z) (init : vm_initializer) (type aux : Z) (init_page : initializer) : M vms unit :=
  assertM (negb (p =? null));;
  put_vpage p (Page UNINIT_OPS upage null false (Init init) type aux init_page).

Definition uninit_initialize (page kva : Z) : M vms bool :=
  x ← get_vpage page;
  init ← lift (match word0 x with Init f => Ok f | _ => Undef end);
  let aux := u_aux x in
  ok ← match u_page_initializer x with
       | ANON_INITIALIZER => anon_initializer page
       | FILE_BACKED_INITIALIZER => file_backed_initializer page
       end;
  if ok : bool then match init with NULL_INIT => mret true | LAZY_LOAD_SEGMENT => lazy_load_segment page aux end
  else mret false.

Definition uninit_destroy (page : Z) : M vms unit :=
  x ← get_vpage page;
  let aux := u_aux x in
  if negb (aux =? null) then
    fi ← get_info aux;
    on_disk (file_close (fi_file fi));;
    free_info aux
  else mret tt.

(** ** The tables of operations *)

(** The macros swap_in, swap_out and destroy; uninit_ops has a null swap_out. *)
Definition swap_in (page kva : Z) : M vms bool :=
  x ← get_vpage page;
  match operations x with
  | UNINIT_OPS => uninit_initialize page kva
  | ANON_OPS => anon_swap_in page kva
  | FILE_OPS => file_backed_swap_in page kva
  end.

Definition swap_out (page : Z) : M vms bool :=
  x ← get_vpage page;
  match operations x with
  | UNINIT_OPS => lift Undef
  | ANON_OPS => anon_swap_out page
  | FILE_OPS => file_backed_swap_out page
  end.

Definition destroy (page : Z) : M vms unit :=
  x ← get_vpage page;
  match operations x with
  | UNINIT_OPS => uninit_destroy page
  | ANON_OPS => anon_destroy page
  | FILE_OPS => file_backed_destroy page
  end.

(** [page->operations->type] *)
Definition ops_type (o : page_operations) : Z :=
  match o with UNINIT_OPS => VM_UNINIT | ANON_OPS => VM_ANON | FILE_OPS => VM_FILE end.
