(* ===== verification/Vm.v ===== *)
(** * vm/vm.c: pages, frames and page faults

    Pages are made without memory and get a frame at their first fault. Frames are
    given out by the page allocator, and taken from other pages, the oldest frame
    first, when it has none. *)

From S2P Require Import Prelude Bitmap VMem Palloc Mmu Hash FsState Inode FreeMap FsFile VmState Pager.

(** ** The supplemental page table *)

(** The null checks of is_less never matter: the table holds elements. *)
Definition is_less (a b : Z * Z) : bool := a.1 <? b.1.
Definition page_hash (e : Z * Z) : Z := hash_bytes (le_split 8 e.1).

Definition USER_STACK : Z := 0x47480000.

Section Memory.
(** Whether the arrays of hash tables get their memory. *)
Variable mem_ok : bool.

Definition spt_find_page (t va : Z) : M vms Z :=
  if va =? null then mret null else
  p ← get_proc t;
  e ← lift (hash_find page_hash is_less (spt p) (pg_round_down va, null));
  mret (match e with None => null | Some e => e.2 end).

Definition spt_insert_page (t page : Z) : M vms bool :=
  assertM (negb (page =? null));;
  x ← get_vpage page;
  p ← get_proc t;
  '(e, h) ← lift (hash_insert page_hash is_less mem_ok (spt p) (va x, page));
  set_spt t h;;
  mret (match e with Some _ => false | None => true end).

Definition spt_remove_page (t page : Z) : M vms unit :=
  x ← get_vpage page;
  p ← get_proc t;
  '(_, h) ← lift (hash_delete page_hash is_less mem_ok (spt p) (va x, page));
  set_spt t h.

(** A failure of hash_init is not noticed. *)
Definition supplemental_page_table_init (t : Z) : M vms unit := set_spt t (hash_init mem_ok).2.

Definition page_get_type (page : Z) : M vms Z :=
  x ← get_vpage page;
  let ty := VM_TYPE (ops_type (operations x)) in
  if ty =? VM_UNINIT then mret (VM_TYPE (u_type x)) else mret ty.

(** The initializer that belongs to a type. *)
Definition initializer_of (type : Z) : option initializer :=
  if VM_TYPE type =? VM_ANON then Some ANON_INITIALIZER
  else if VM_TYPE type =? VM_FILE then Some FILE_BACKED_INITIALIZER
  else None.

Definition vm_alloc_page_with_initializer (type upage : Z) (writable : bool) (init : vm_initializer) (aux : Z) : M vms bool :=
  s ← get;
  let t := current s in
  old ← spt_find_page t upage;
  if old =? null then
    page ← on_disk malloc;
    assertM (negb (page =? null));;
    match initializer_of type with
    | None => free_vpage page;; mret false
    | Some page_initializer =>
        uninit_new page upage init type aux page_initializer;;
        update_vpage page (with_writable writable);;
        ok ← spt_insert_page t page;
        if negb ok then free_vpage page;; mret false else mret true
    end
  else mret false.

(** The macro *)
Definition vm_alloc_page (type upage : Z) (writable : bool) : M vms bool :=
  vm_alloc_page_with_initializer type upage writable NULL_INIT null.

Definition vm_dealloc_page (page : Z) : M vms unit := destroy page;; free_vpage page.

(** ** Frames *)

Definition frame_table_init : M vms unit :=
  p ← on_disk malloc;
  if p =? null then lift Undef else modify (set_frame_list []).

Definition vm_get_victim : M vms Z :=
  l ← gets frame_list;
  assertM (negb (bool_decide (l = [])));;
  victim ← lift (from_option_ub (head l));
  modify (set_frame_list (tail l));;
  mret victim.

Definition vm_evict_frame : M vms Z :=
  victim ← vm_get_victim;
  f ← get_frame victim;
  let page := f_page f in
  if negb (page =? null) then
    ok ← swap_out page;
    if negb ok then mret null else
    p ← cur_pml4;
    x ← get_vpage page;
    in_mem (pml4_clear_page p (va x));;
    update_vpage page (with_frame null);;
    mret victim
  else mret null.

Definition vm_get_frame : M vms Z :=
  frame ← on_disk malloc;
  assertM (negb (frame =? null));;
  a ← in_mem (palloc_get_page (Z.lor PAL_USER PAL_ZERO));
  a ← (if a =? null then
         victim ← vm_evict_frame;
         assertM (negb (victim =? null));;
         f ← get_frame victim;
         free_frame victim;;
         mret (kva f)
       else mret a);
  put_frame frame (Frame a null 0);;
  modify (fun s => set_frame_list (frame_list s ++ [frame]) s);;
  assertM (negb (a =? null));;
  mret frame.

(** Linking a page and a frame, as the two functions below do. *)
Definition link_frame (page frame : Z) : M vms unit :=
  set_frame_page frame page;;
  update_vpage page (with_frame frame);;
  add_r_cnt frame 1.

Definition vm_do_claim_page (page : Z) : M vms bool :=
  frame ← vm_get_frame;
  link_frame page frame;;
  p ← cur_pml4;
  x ← get_vpage page;
  f ← get_frame frame;
  ok ← in_mem (pml4_set_page p (va x) (kva f) (p_writable x));
  if negb ok then panicM else swap_in page (kva f).

Definition vm_claim_page (va : Z) : M vms bool :=
  s ← get;
  page ← spt_find_page (current s) va;
  if page =? null then mret false else vm_do_claim_page page.

(** ** Page faults *)

Definition vm_stack_growth (addr : Z) : M vms unit := vm_alloc_page VM_ANON addr true;; mret tt.

Definition vm_handle_wp (page : Z) : M vms bool :=
  x ← get_vpage page;
  old ← get_frame (p_frame x);
  let old_kva := kva old in
  add_r_cnt (p_frame x) (-1);;
  frame ← vm_get_frame;
  link_frame page frame;;
  p ← cur_pml4;
  x ← get_vpage page;
  f ← get_frame frame;
  ok ← in_mem (pml4_set_page p (va x) (kva f) true);
  if negb ok then panicM else
  in_mem (memcpy_page (kva f) old_kva);;
  mret true.

Definition in_stack_range (rsp addr : Z) : bool :=
  (addr >? u64 (rsp - PGSIZE)) && (addr >=? USER_STACK - Z.shiftl 1 20) && (addr <? USER_STACK).

Definition vm_try_handle_fault (addr : Z) (write not_present : bool) : M vms bool :=
  if negb (is_user_vaddr addr) then mret false else
  s ← get;
  page ← spt_find_page (current s) addr;
  t ← thread_cur;
  let rsp := user_rsp t in
  if negb (page =? null) then
    if write && negb not_present then
      x ← get_vpage page;
      if negb (p_writable x) then mret false else vm_handle_wp page
    else if negb write && negb not_present then mret false
    else vm_do_claim_page page
  else if in_stack_range rsp addr then vm_stack_growth (pg_round_down addr);; mret true
  else mret false.

(** page_fault of userprog/exception.c. [cs] and [rsp] are of the interrupted code;
    [false] is the end of the process, by kill. *)
Definition SEL_KCSEG : Z := 0x08.
Definition SEL_UCSEG : Z := 0x23.
Definition PF_P : Z := 0x1.
Definition PF_W : Z := 0x2.

Definition page_fault (cs rsp fault_addr error_code : Z) : M vms bool :=
  t ← thread_cur;
  (if cs =? SEL_UCSEG then
     modify (fun s => set_procs (<[current s := UProc (pml4 t) (spt t) rsp]> (procs s)) s)
   else mret tt);;
  let not_present := Z.land error_code PF_P =? 0 in
  let write := negb (Z.land error_code PF_W =? 0) in
  ok ← vm_try_handle_fault fault_addr write not_present;
  if ok : bool then mret true
  else if cs =? SEL_KCSEG then panicM
  else mret false.

(** ** Copying and destroying a table *)

(** A null result of malloc is used without a check, as is that of file_reopen. *)
Definition duplicate_aux (src_page type : Z) : M vms Z :=
  x ← get_vpage src_page;
  src ← (if type =? VM_UNINIT then mret (Some (u_aux x))
         else if type =? VM_FILE then a ← lift (file_aux x); mret (Some a)
         else mret None);
  match src with
  | None => mret null
  | Some src =>
      dst ← on_disk malloc;
      i ← get_info src;
      f ← on_disk (file_reopen (fi_file i));
      if dst =? null then lift Undef else
      put_info dst (FileInfo f (fi_ofs i) (fi_upage i) (fi_read_bytes i) (fi_zero_bytes i) (fi_writable i) (fi_mmap_length i));;
      mret dst
  end.

Definition page_table_copy (src_page upage : Z) : M vms bool :=
  s ← get;
  page ← spt_find_page (current s) upage;
  if page =? null then mret false else
  x ← get_vpage page;
  (if p_frame x =? null then
     y ← get_vpage src_page;
     update_vpage page (with_frame (p_frame y));;
     update_vpage page (with_writable (p_writable y));;
     add_r_cnt (p_frame y) 1
   else mret tt);;
  p ← cur_pml4;
  x ← get_vpage page;
  y ← get_vpage src_page;
  f ← get_frame (p_frame y);
  ok ← in_mem (pml4_set_page p (va x) (kva f) false);
  if negb ok then panicM else swap_in page (kva f).

(** The body of the loop of supplemental_page_table_copy. *)
Definition copy_page (dst src_page : Z) : M vms bool :=
  x ← get_vpage src_page;
  let upage := va x in
  match operations x with
  | UNINIT_OPS =>
      init ← lift (match word0 x with Init f => Ok f | _ => Undef end);
      aux ← duplicate_aux src_page VM_UNINIT;
      assertM (negb (aux =? null));;
      vm_alloc_page_with_initializer (u_type x) upage (p_writable x) init aux
  | FILE_OPS =>
      aux ← duplicate_aux src_page VM_FILE;
      assertM (negb (aux =? null));;
      ok ← vm_alloc_page_with_initializer VM_FILE upage (p_writable x) LAZY_LOAD_SEGMENT aux;
      if ok : bool then vm_claim_page upage else mret false
  | ANON_OPS =>
      ok ← vm_alloc_page VM_ANON upage (p_writable x);
      if negb ok then mret false else
      ok ← page_table_copy src_page upage;
      if negb ok then mret false else
      dst_page ← spt_find_page dst upage;
      x ← get_vpage src_page;
      (if negb (p_frame x =? null) then
         y ← get_vpage dst_page;
         fd ← get_frame (p_frame y);
         fs ← get_frame (p_frame x);
         in_mem (memcpy_page (kva fd) (kva fs))
       else mret tt);;
      mret true
  end.

Fixpoint copy_loop (fuel : nat) (dst src : Z) (i : hash_iterator (A := Z * Z)) : M vms bool :=
  match fuel with
  | O => nofuelM
  | S fuel =>
      p ← get_proc src;
      '(e, i) ← lift (hash_next (spt p) i);
      match e with
      | None => mret true
      | Some e => ok ← copy_page dst e.2; if ok : bool then copy_loop fuel dst src i else mret false
      end
  end.

(** [dst] is the running thread. One round for each element, and one to see the end. *)
Definition supplemental_page_table_copy (dst src : Z) : M vms bool :=
  p ← get_proc src;
  copy_loop (S (S (Z.to_nat (hash_size (spt p))))) dst src hash_first.

Definition page_desturctor (e : Z * Z) : M vms unit := vm_dealloc_page e.2.

Fixpoint destroy_all (l : list (Z * Z)) : M vms unit :=
  match l with
  | [] => mret tt
  | e :: l => page_desturctor e;; destroy_all l
  end.

(** hash_clear: every bucket's elements, front first, go to the destructor; then
    the table is empty. *)
Definition supplemental_page_table_kill (t : Z) : M vms unit :=
  p ← get_proc t;
  destroy_all (concat (buckets (spt p)));;
  set_spt t (hash_clear None (spt p) tt).1.
End Memory.
