(* ===== verification/Mmap.v ===== *)
(** * Memory-mapped files (vm/file.c, userprog/syscall.c)

    A mapping is a run of pages of type VM_FILE, each with its own reopened file and
    its part of the file. *)

From S2P Require Import Prelude Bitmap VMem Palloc Mmu Hash FsState Inode FreeMap FsFile VmState Pager Vm.

(** [MAP_FAILED] is null; [MAX_FD] descriptors. *)
Definition MAP_FAILED : Z := 0.
Definition MAX_FDS : Z := 1536.

Section Mmap.
Variable mem_ok : bool.

Definition do_mmap (addr length : Z) (writable : bool) (file offset mmap_length : Z) : M vms Z :=
  aux ← on_disk malloc;
  assertM (negb (aux =? null));;
  f ← on_disk (file_reopen file);
  put_info aux (FileInfo f offset addr (u32 length) (u32 (PGSIZE - length)) writable (Some mmap_length));;
  ok ← vm_alloc_page_with_initializer mem_ok VM_FILE addr writable LAZY_LOAD_SEGMENT aux;
  mret (if ok : bool then addr else null).

Definition munmap_cleaner (page : Z) : M vms unit :=
  x ← get_vpage page;
  aux ← (if bool_decide (operations x = FILE_OPS) then lift (file_aux x) else mret (u_aux x));
  fi ← get_info aux;
  write_back x fi;;
  free_info aux.

Definition do_munmap (addr : Z) : M vms unit :=
  s ← get;
  page ← spt_find_page (current s) addr;
  assertM (negb (page =? null));;
  spt_remove_page mem_ok (current s) page;;
  munmap_cleaner page;;
  p ← cur_pml4;
  in_mem (pml4_clear_page p (pg_round_down addr)).

(** Whether a page from [page] up to [end_page] is in the table. *)
Fixpoint mmap_overlaps (fuel : nat) (page end_page : Z) : M vms bool :=
  match fuel with
  | O => nofuelM
  | S fuel =>
      if page <? end_page then
        s ← get;
        p ← spt_find_page (current s) page;
        if negb (p =? null) then mret true else mmap_overlaps fuel (u64 (page + PGSIZE)) end_page
      else mret false
  end.

(** The loop that makes the pages; [length] is the length of the whole mapping. *)
Fixpoint mmap_loop (fuel : nat) (remain_length cur_addr : Z) (writable : bool) (file cur_offset length : Z) : M vms bool :=
  match fuel with
  | O => nofuelM
  | S fuel =>
      if remain_length >? 0 then
        let allocate_length := if remain_length >? PGSIZE then PGSIZE else remain_length in
        r ← do_mmap cur_addr allocate_length writable file cur_offset length;
        if r =? null then mret false else
        mmap_loop fuel (remain_length - allocate_length) (u64 (cur_addr + allocate_length)) writable file
          (s32 (cur_offset + allocate_length)) length
      else mret true
  end.

(** [fd_table] is the process's table of descriptors. The number of pages is at most
    [length / PGSIZE + 1]. *)
Definition sys_mmap (fd_table : list Z) (addr length writable fd offset : Z) : M vms Z :=
  if (addr =? null) || negb (is_user_vaddr addr) || negb (addr mod PGSIZE =? 0) then mret MAP_FAILED else
  if (fd =? 0) || (fd =? 1) || (fd <? 0) || (fd >=? MAX_FDS) then mret MAP_FAILED else
  file ← lift (from_option_ub (fd_table !! Z.to_nat fd));
  if file =? null then mret MAP_FAILED else
  i ← on_disk (file_get_inode file);
  if i =? null then mret MAP_FAILED else
  if negb (Z.rem offset PGSIZE =? 0) then mret MAP_FAILED else
  filesize ← on_disk (file_length file);
  if (filesize =? 0) || (length =? 0) || (length >? addr) then mret MAP_FAILED else
  overlap ← mmap_overlaps (S (S (Z.to_nat (length / PGSIZE)))) addr (u64 (addr + length));
  if overlap : bool then mret MAP_FAILED else
  ok ← mmap_loop (S (S (Z.to_nat (length / PGSIZE)))) length addr (negb (writable =? 0)) file offset length;
  mret (if ok : bool then addr else MAP_FAILED).

Fixpoint munmap_loop (fuel : nat) (cur_addr end_addr : Z) : M vms unit :=
  match fuel with
  | O => nofuelM
  | S fuel =>
      if cur_addr <? end_addr then do_munmap cur_addr;; munmap_loop fuel (u64 (cur_addr + PGSIZE)) end_addr
      else mret tt
  end.

(** The first page's [file.aux] is read whatever the page's kind is. *)
Definition sys_munmap (addr : Z) : M vms unit :=
  s ← get;
  page ← spt_find_page (current s) addr;
  x ← get_vpage page;
  aux ← lift (file_aux x);
  fi ← get_info aux;
  target_length ← lift (from_option_ub (fi_mmap_length fi));
  munmap_loop (S (S (Z.to_nat (target_length / PGSIZE)))) addr (u64 (addr + target_length)).
End Mmap.
