(* ===== verification/Args.v ===== *)
(** * Command lines (userprog/process.c)

    parse_args splits the copy of a command line that process_exec keeps in its
    frame. The words stay where they are, with terminators written between them. *)

From S2P Require Import Prelude CString.

Definition MAX_ARGS : Z := 128.
Definition MAX_BUF : Z := 128.

Section Args.
(** Where the literal string of the delimiters is. *)
Variable delimiters : Z.

(** The loop; [argv] are the pointers stored so far. A store behind the array's end
    is undefined. *)
Fixpoint parse_loop (fuel : nat) (token save_ptr : Z) (argv : list Z) : M mem_t (list Z) :=
  match fuel with
  | O => nofuelM
  | S fuel =>
      if token =? null then mret argv
      else if Z.of_nat (length argv) <? MAX_ARGS then
        '(next, save_ptr) ← strtok_r null delimiters save_ptr;
        parse_loop fuel next save_ptr (argv ++ [token])
      else lift Undef
  end.

(** The terminating null pointer takes an entry too. The result is [argv] without
    it; argc is its length. *)
Definition parse_args (target : Z) : M mem_t (list Z) :=
  fuel ← str_fuel;
  '(token, save_ptr) ← strtok_r target delimiters null;
  argv ← parse_loop fuel token save_ptr [];
  if Z.of_nat (length argv) <? MAX_ARGS then mret argv else lift Undef.
End Args.

(** The string at an address. *)
Fixpoint read_string_loop (fuel : nat) (p : Z) : M mem_t (list Z) :=
  match fuel with
  | O => nofuelM
  | S fuel => c ← ld p; if c =? 0 then mret [] else l ← read_string_loop fuel (p + 1); mret (c :: l)
  end.

Definition read_string (p : Z) : M mem_t (list Z) := fuel ← str_fuel; read_string_loop fuel p.

Fixpoint read_strings (l : list Z) : M mem_t (list (list Z)) :=
  match l with
  | [] => mret []
  | p :: l => s ← read_string p; r ← read_strings l; mret (s :: r)
  end.

(** A memory with the bytes [l] from [p] on. *)
Definition bytes_memory (p : Z) (l : list Z) : mem_t := list_to_map (zip (seqZ p (Z.of_nat (length l))) l).
