(* ===== verification/Loader.v ===== *)
(** * userprog/process.c: loading a program

    Reading an ELF file's headers, the pages of its segments, the first page of the
    stack and the arguments on it; exec and the memory of fork. The two versions of
    load_segment are here: the one that is built, which makes pages that are filled
    at their first fault, and the one of the build without virtual memory. *)

From S2P Require Import Prelude CString Args Bitmap VMem Palloc Mmu Hash FsState Inode FreeMap FsFile Directory Filesys VmState Pager Vm.

(** ** ELF headers *)

Definition PT_LOAD : Z := 1.
Definition PT_DYNAMIC : Z := 2.
Definition PT_INTERP : Z := 3.
Definition PT_SHLIB : Z := 5.
Definition ELF_PF_W : Z := 2.

(** The members of the two structures that are used. *)
Record elf_hdr : Type := ElfHdr {
  e_ident : list Z; e_type : Z; e_machine : Z; e_version : Z; e_entry : Z; e_phoff : Z;
  e_phentsize : Z; e_phnum : Z
}.
Record elf_phdr : Type := ElfPhdr {
  p_type : Z; p_flags : Z; p_offset : Z; p_vaddr : Z; p_filesz : Z; p_memsz : Z
}.

(** The [n] bytes from [ofs] on, as a number. *)
Definition field (l : list Z) (ofs n : nat) : Z := le_combine (take n (drop ofs l)).

Definition read_ehdr (l : list Z) : elf_hdr :=
  ElfHdr (take 16 l) (field l 16 2) (field l 18 2) (field l 20 4) (field l 24 8) (field l 32 8)
         (field l 54 2) (field l 56 2).
Definition read_phdr (l : list Z) : elf_phdr :=
  ElfPhdr (field l 0 4) (field l 4 4) (field l 8 8) (field l 16 8) (field l 32 8) (field l 40 8).

Definition ELF_MAGIC : list Z := [0x7f; 0x45; 0x4c; 0x46; 2; 1; 1].

Definition ehdr_ok (h : elf_hdr) : bool :=
  bool_decide (take 7 (e_ident h) = ELF_MAGIC) && (e_type h =? 2) && (e_machine h =? 0x3E) &&
  (e_version h =? 1) && (e_phentsize h =? 56) && negb (e_phnum h >? 1024).

(** [length] is the file's; the additions are of 64-bit numbers. *)
Definition segment_ok (ph : elf_phdr) (length : Z) : bool :=
  if negb (Z.land (p_offset ph) PGMASK =? Z.land (p_vaddr ph) PGMASK) then false else
  if p_offset ph >? u64 length then false else
  if p_memsz ph <? p_filesz ph then false else
  if p_memsz ph =? 0 then false else
  if negb (is_user_vaddr (p_vaddr ph)) then false else
  if negb (is_user_vaddr (u64 (p_vaddr ph + p_memsz ph))) then false else
  if u64 (p_vaddr ph + p_memsz ph) <? p_vaddr ph then false else
  negb (p_vaddr ph <? PGSIZE).

Definition validate_segment (ph : elf_phdr) (file : Z) : M fs bool :=
  len ← file_length file; mret (segment_ok ph len).

(** What load computes from a program header: the offset in the file, the address,
    and the two lengths, which are cut to 32 bits. *)
Definition segment_args (ph : elf_phdr) : Z * Z * Z * Z :=
  let file_page := Z.land (p_offset ph) (u64 (Z.lnot PGMASK)) in
  let mem_page := Z.land (p_vaddr ph) (u64 (Z.lnot PGMASK)) in
  let page_offset := Z.land (p_vaddr ph) PGMASK in
  if p_filesz ph >? 0 then
    let read_bytes := u32 (page_offset + p_filesz ph) in
    (s32 file_page, mem_page, read_bytes, u32 (ROUND_UP (u64 (page_offset + p_memsz ph)) PGSIZE - read_bytes))
  else (s32 file_page, mem_page, 0, u32 (ROUND_UP (u64 (page_offset + p_memsz ph)) PGSIZE)).

(** ** Segments *)

(** The assertions that both versions begin with. *)
Definition assert_segment {S} (ofs upage read_bytes zero_bytes : Z) : M S unit :=
  assertM (u32 (read_bytes + zero_bytes) mod PGSIZE =? 0);;
  assertM (pg_ofs upage =? 0);;
  assertM (Z.rem ofs PGSIZE =? 0).

(** The number of pages of a segment is what the loops' counters start with. *)
Definition segment_pages (read_bytes zero_bytes : Z) : nat := Z.to_nat ((read_bytes + zero_bytes) / PGSIZE).

Section Load.
Variable mem_ok : bool.

(** A page that will be filled by lazy_load_segment: the body of the loop. *)
Definition load_page (file ofs upage read_bytes zero_bytes : Z) (writable : bool) : M vms bool :=
  aux ← on_disk malloc;
  if aux =? null then mret false else
  f ← on_disk (file_reopen file);
  put_info aux (FileInfo f ofs upage read_bytes zero_bytes writable None);;
  vm_alloc_page_with_initializer mem_ok VM_ANON upage writable LAZY_LOAD_SEGMENT aux.

Fixpoint load_segment_loop (fuel : nat) (file ofs upage read_bytes zero_bytes : Z) (writable : bool) : M vms bool :=
  match fuel with
  | O => nofuelM
  | S fuel =>
      if (read_bytes >? 0) || (zero_bytes >? 0) then
        let page_read_bytes := if read_bytes <? PGSIZE then read_bytes else PGSIZE in
        let page_zero_bytes := PGSIZE - page_read_bytes in
        ok ← load_page file ofs upage read_bytes zero_bytes writable;
        if negb ok then mret false else
        load_segment_loop fuel file (s32 (ofs + page_read_bytes)) (u64 (upage + PGSIZE))
          (u32 (read_bytes - page_read_bytes)) (u32 (zero_bytes - page_zero_bytes)) writable
      else mret true
  end.

Definition load_segment (file ofs upage read_bytes zero_bytes : Z) (writable : bool) : M vms bool :=
  assert_segment ofs upage read_bytes zero_bytes;;
  load_segment_loop (S (segment_pages read_bytes zero_bytes)) file ofs upage read_bytes zero_bytes writable.

(** The version without virtual memory. *)
Definition install_page (upage kpage : Z) (writable : bool) : M vms bool :=
  p ← cur_pml4;
  k ← in_mem (pml4_get_page p upage);
  if k =? null then in_mem (pml4_set_page p upage kpage writable) else mret false.

Fixpoint load_now_loop (fuel : nat) (file upage read_bytes zero_bytes : Z) (writable : bool) : M vms bool :=
  match fuel with
  | O => nofuelM
  | S fuel =>
      if (read_bytes >? 0) || (zero_bytes >? 0) then
        let page_read_bytes := if read_bytes <? PGSIZE then read_bytes else PGSIZE in
        let page_zero_bytes := PGSIZE - page_read_bytes in
        kpage ← in_mem (palloc_get_page PAL_USER);
        if kpage =? null then mret false else
        bytes ← on_disk (file_read file page_read_bytes);
        in_mem (page_write kpage 0 bytes);;
        if negb (Z.of_nat (length bytes) =? page_read_bytes) then
          in_mem (palloc_free_page kpage);; mret false
        else
        in_mem (page_write kpage page_read_bytes (replicate (Z.to_nat page_zero_bytes) 0));;
        ok ← install_page upage kpage writable;
        if negb ok then in_mem (palloc_free_page kpage);; mret false
        else
        load_now_loop fuel file (u64 (upage + PGSIZE))
          (u32 (read_bytes - page_read_bytes)) (u32 (zero_bytes - page_zero_bytes)) writable
      else mret true
  end.

Definition load_segment_now (file ofs upage read_bytes zero_bytes : Z) (writable : bool) : M vms bool :=
  assert_segment ofs upage read_bytes zero_bytes;;
  on_disk (file_seek file ofs);;
  load_now_loop (S (segment_pages read_bytes zero_bytes)) file upage read_bytes zero_bytes writable.

(** ** The stack *)

(** The result is the new stack pointer. *)
Definition setup_stack : M vms (option Z) :=
  let stack_bottom := USER_STACK - PGSIZE in
  ok ← vm_alloc_page mem_ok VM_ANON stack_bottom true;
  if negb ok then mret None else
  ok ← vm_claim_page stack_bottom;
  mret (if ok : bool then Some USER_STACK else None).

Definition setup_stack_now : M vms (option Z) :=
  kpage ← in_mem (palloc_get_page (Z.lor PAL_USER PAL_ZERO));
  if kpage =? null then mret None else
  ok ← install_page (USER_STACK - PGSIZE) kpage true;
  if ok : bool then mret (Some USER_STACK) else in_mem (palloc_free_page kpage);; mret None.

(** A byte stored by the kernel at a user address. A page that is not present is a
    page fault, after which the processor tries again; making a page of the stack
    takes one and giving it a frame another. *)
Fixpoint user_store (fuel : nat) (a b : Z) : M vms unit :=
  match fuel with
  | O => nofuelM
  | S fuel =>
      p ← cur_pml4;
      k ← in_mem (pml4_get_page p a);
      if k =? null then page_fault mem_ok SEL_KCSEG 0 a PF_W;; user_store fuel a b
      else in_mem (page_write k (pg_ofs k) [b])
  end.

Fixpoint user_write (a : Z) (l : list Z) : M vms unit :=
  match l with
  | [] => mret tt
  | b :: l => user_store 3 a b;; user_write (a + 1) l
  end.

(** The strings, last argument first; [ptrs] are the addresses stored so far, of the
    arguments behind. *)
Fixpoint push_strings (args : list (list Z)) (rsp : Z) (ptrs : list Z) : M vms (Z * list Z) :=
  match args with
  | [] => mret (rsp, ptrs)
  | s :: args =>
      let rsp := rsp - (Z.of_nat (length s) + 1) in
      user_write rsp (s ++ [0]);;
      push_strings args rsp (rsp :: ptrs)
  end.

Fixpoint align_stack (fuel : nat) (rsp : Z) : M vms Z :=
  match fuel with
  | O => nofuelM
  | S fuel => if negb (rsp mod 8 =? 0) then user_write (rsp - 1) [0];; align_stack fuel (rsp - 1) else mret rsp
  end.

(** The pointers, last argument first. *)
Fixpoint push_pointers (ptrs : list Z) (rsp : Z) : M vms Z :=
  match ptrs with
  | [] => mret rsp
  | p :: ptrs => user_write (rsp - 8) (le_split 8 p);; push_pointers ptrs (rsp - 8)
  end.

(** What load leaves in the interrupt frame. *)
Record if_regs : Type := IfRegs { if_rip : Z; if_rsp : Z; if_rdi : Z; if_rsi : Z }.

Definition push_arguments (args : list (list Z)) (rsp : Z) : M vms (Z * Z * Z) :=
  '(rsp, ptrs) ← push_strings (rev args) rsp [];
  rsp ← align_stack 8 rsp;
  user_write (rsp - 8) (replicate 8 0);;
  rsp ← push_pointers (rev ptrs) (rsp - 8);
  user_write (rsp - 8) (replicate 8 0);;
  mret (rsp - 8, Z.of_nat (length args), rsp).

(** ** load *)

(** The loop over the program headers, [n] of them left. *)
Fixpoint load_headers (n : nat) (file file_ofs : Z) : M vms bool :=
  match n with
  | O => mret true
  | S n =>
      len ← on_disk (file_length file);
      if (file_ofs <? 0) || (file_ofs >? len) then mret false else
      on_disk (file_seek file file_ofs);;
      bytes ← on_disk (file_read file 56);
      if negb (Z.of_nat (length bytes) =? 56) then mret false else
      let phdr := read_phdr bytes in
      let file_ofs := s32 (file_ofs + 56) in
      if (p_type phdr =? PT_DYNAMIC) || (p_type phdr =? PT_INTERP) || (p_type phdr =? PT_SHLIB) then mret false
      else if p_type phdr =? PT_LOAD then
        ok ← on_disk (validate_segment phdr file);
        if negb ok then mret false else
        let writable := negb (Z.land (p_flags phdr) ELF_PF_W =? 0) in
        let '(file_page, mem_page, read_bytes, zero_bytes) := segment_args phdr in
        ok ← load_segment file file_page mem_page read_bytes zero_bytes writable;
        if negb ok then mret false else load_headers n file file_ofs
      else load_headers n file file_ofs
  end.

Definition set_pml4 (a : Z) : M vms unit :=
  t ← thread_cur;
  modify (fun s => set_procs (<[current s := UProc a (spt t) (user_rsp t)]> (procs s)) s).

(** From the opened file on. *)
Definition load_file (file : Z) (args : list (list Z)) : M vms (option if_regs) :=
  bytes ← on_disk (file_read file 64);
  let ehdr := read_ehdr bytes in
  if negb (Z.of_nat (length bytes) =? 64) || negb (ehdr_ok ehdr) then mret None else
  ok ← load_headers (Z.to_nat (e_phnum ehdr)) file (s32 (e_phoff ehdr));
  if negb ok then mret None else
  rsp ← setup_stack;
  match rsp with
  | None => mret None
  | Some rsp =>
      '(rsp, rdi, rsi) ← push_arguments args rsp;
      mret (Some (IfRegs (e_entry ehdr) rsp rdi rsi))
  end.

(** [m] is the memory with the command line at [file_name], and is changed by
    parse_args; [delimiters] points to a string in it. [garbage] is what the
    stack frame of directory.c's functions holds. *)
Definition process_load (garbage : list Z) (delimiters file_name : Z) (m : mem_t) : M vms (option if_regs * mem_t) :=
  '(argv, m) ← lift (parse_args delimiters file_name m);
  '(args, _) ← lift (read_strings argv m);
  '(name, _) ← lift (read_string file_name m);
  a ← in_mem pml4_create;
  set_pml4 a;;
  if a =? null then mret (None, m) else
  in_mem (pml4_activate a);;
  vm_lock_acquire;;
  file ← on_disk (filesys_open garbage (Some name));
  vm_lock_release;;
  if file =? null then mret (None, m) else
  r ← load_file file args;
  on_disk (file_close file);;
  mret (r, m).

(** ** exec and fork *)

(** The page table is taken out of the thread before it is destroyed. *)
Definition process_cleanup : M vms unit :=
  s ← get;
  supplemental_page_table_kill (current s);;
  a ← cur_pml4;
  if negb (a =? null) then
    set_pml4 null;;
    in_mem (pml4_activate null);;
    in_mem (pml4_destroy a)
  else mret tt.

(** [name] is the command line in the kernel page [f_name]; its copy on the stack is
    at [buf], of MAX_BUF bytes. The result is the registers and the running file;
    [None] is the return of -1. *)
Definition process_exec (garbage : list Z) (delimiters buf : Z) (rest : mem_t) (f_name : Z) (name : list Z) :
    M vms (option (if_regs * Z)) :=
  if Z.of_nat (length name) + 1 >? MAX_BUF then lift Undef else
  let m := bytes_memory buf (name ++ 0 :: replicate (Z.to_nat MAX_BUF - S (length name)) 0) ∪ rest in
  process_cleanup;;
  s ← get;
  supplemental_page_table_init mem_ok (current s);;
  '(r, m) ← process_load garbage delimiters buf m;
  in_mem (palloc_free_page f_name);;
  match r with
  | None => mret None
  | Some regs =>
      '(file_name, _) ← lift (read_string buf m);
      vm_lock_acquire;;
      running_file ← on_disk (filesys_open garbage (Some file_name));
      vm_lock_release;;
      (if negb (running_file =? null) then on_disk (file_deny_write running_file) else mret tt);;
      mret (Some (regs, running_file))
  end.

(** __do_fork up to the descriptors: the running thread is the child. *)
Definition fork_memory (parent : Z) : M vms bool :=
  a ← in_mem pml4_create;
  set_pml4 a;;
  if a =? null then mret false else
  in_mem (pml4_activate a);;
  s ← get;
  supplemental_page_table_init mem_ok (current s);;
  supplemental_page_table_copy mem_ok (current s) parent.
End Load.

(** The same without virtual memory: what is given to pml4_for_each. *)
Definition duplicate_pte (current_pml4 parent_pml4 pte va : Z) : M vmem bool :=
  if is_kernel_vaddr va then mret true else
  parent_page ← pml4_get_page parent_pml4 va;
  if parent_page =? null then mret true else
  newpage ← palloc_get_page (Z.lor PAL_USER PAL_ZERO);
  if newpage =? null then mret false else
  memcpy_page newpage parent_page;;
  e ← load64 pte;
  ok ← pml4_set_page current_pml4 va newpage (pte_has e PTE_W);
  if negb ok then palloc_free_page newpage;; mret false else mret true.
