(* ===== verification/UserMem.v ===== *)
(** * User pages as virtual memory sees them

    What the page allocator, the page tables and writes to pages do to a client that
    holds pages of the user pool: their bytes, which of them are free, and where the
    user's addresses lead. *)

From S2P Require Import Prelude Bitmap VMem Palloc PallocFacts Mmu MmuFacts MmuTheorems FsState InodeFacts VmState.

(** ** Bytes and words *)

Definition bytes (l : list Z) : Prop := Forall (fun b => 0 <= b < 256) l.

Lemma le_combine_bound l : bytes l -> 0 <= le_combine l < 256 ^ Z.of_nat (length l).
Proof.
  induction 1 as [|b l Hb Hl IH]; [done|]. cbn [le_combine length]. rewrite Nat2Z.inj_succ, Z.pow_succ_r by lia. lia.
Qed.

Lemma le_split_of_combine l : bytes l -> le_split (length l) (le_combine l) = l.
Proof.
  induction 1 as [|b l Hb Hl IH]; [done|]. cbn [le_combine length le_split].
  rewrite (Z.mul_comm 256), Z.mod_add, Z.mod_small, Z.div_add, Z.div_small, Z.add_0_l by lia. by rewrite IH.
Qed.

Lemma word_bytes_words n l : length l = (8 * n)%nat -> bytes l -> word_bytes (bytes_words n l) = l.
Proof.
  revert l. induction n as [|n IH]; intros l Hl Hb; [by destruct l|].
  cbn [bytes_words]. unfold word_bytes in *. cbn [mbind list_bind].
  rewrite IH; [|rewrite length_drop; lia|by apply Forall_drop].
  rewrite <-(take_drop 8 l) at 3. f_equal.
  assert (length (take 8 l) = 8%nat) as Ht by (rewrite length_take; lia).
  rewrite <-Ht at 1. apply le_split_of_combine. by apply Forall_take.
Qed.

Lemma bytes_words_u64 n l : bytes l -> length (bytes_words n l) = n /\ Forall is_u64 (bytes_words n l).
Proof.
  revert l. induction n as [|n IH]; intros l Hb; [done|]. cbn [bytes_words]. destruct (IH (drop 8 l)) as [IH1 IH2].
  { by apply Forall_drop. }
  split; [simpl; by rewrite IH1|]. constructor; [|done].
  pose proof (le_combine_bound (take 8 l) ltac:(by apply Forall_take)) as H. rewrite length_take in H.
  assert (256 ^ Z.of_nat (8 `min` length l) <= 256 ^ 8) by (apply Z.pow_le_mono_r; lia). unfold is_u64.
  change (2 ^ 64) with (256 ^ 8). lia.
Qed.

Lemma bytes_word_bytes ws : bytes (word_bytes ws).
Proof. unfold word_bytes. apply Forall_bind. apply Forall_true. intros w. apply le_split_byte. Qed.

Lemma bytes_splice l ofs new : bytes l -> bytes new -> bytes (splice l ofs new).
Proof. intros Hl Hn. unfold splice. apply Forall_app_2; [by apply Forall_take|]. apply Forall_app_2; [done|by apply Forall_drop]. Qed.

(** ** The invariant of memory *)

Record mem_inv (m : vmem) (root : Z) : Prop := {
  mi_vm : vm_ok m;
  mi_tree : tree_ok m root;
  mi_root : 4096 * root <> base_pml4 m
}.

(** A page of the user pool that is in use. *)
Definition user_page (m : vmem) (pn : Z) : Prop := in_pool (user_pool m) pn /\ ~ free_page m USER_POOL pn.

(** A step of the client: [pn] is the page whose contents it may change. *)
Record mem_step (root pn : Z) (m m' : vmem) : Prop := {
  ms_inv : mem_inv m' root;
  ms_layout : same_layout m m';
  ms_pages j : in_pool (user_pool m) j -> j <> pn -> pages m' !! j = pages m !! j
}.

Lemma user_page_range m root pn : mem_inv m root -> in_pool (user_pool m) pn -> KERN_PAGE <= pn < 2 ^ 52.
Proof.
  intros [Hv _ _] Hp. pose proof (vm_kernel _ Hv USER_POOL) as Hk. pose proof (po_range _ (pa_pools _ (vm_palloc _ Hv) USER_POOL)).
  unfold in_pool in Hp. simpl in *. lia.
Qed.

Lemma user_not_tree m root pn : mem_inv m root -> in_pool (user_pool m) pn -> ~ in_tree m root pn /\ ~ free_page m KERNEL_POOL pn.
Proof.
  intros [Hv Ht _] Hp. split.
  - intros Hin. destruct (in_tree_page _ _ _ Hv Ht Hin) as (_ & _ & _ & Hk). by apply (pa_apart _ (vm_palloc _ Hv) pn).
  - intros [Hk _]. by apply (pa_apart _ (vm_palloc _ Hv) pn).
Qed.

Lemma page_bytes_length m root pn l : mem_inv m root -> page_bytes m pn = Some l -> length l = 4096%nat /\ bytes l.
Proof.
  intros [Hv _ _]. unfold page_bytes. destruct (pages m !! pn) as [ws|] eqn:E; [|done]. intros [= <-].
  destruct (vm_pages _ Hv _ _ E) as [Hl _]. rewrite length_word_bytes, Hl. split; [done|apply bytes_word_bytes].
Qed.

Lemma user_page_step m m' j :
  same_layout m m' -> (forall j, free_page m' USER_POOL j -> free_page m USER_POOL j) -> user_page m j -> user_page m' j.
Proof. intros Hl Hf [H1 H2]. split; [by apply (in_pool_same _ _ USER_POOL j Hl)|]. intros H. by apply H2, Hf. Qed.

(** A tree depends on its tables only. *)
Lemma tree_same m m' root :
  tree_ok m root -> same_layout m m' ->
  (forall t, in_tree m root t -> pages m' !! t = pages m !! t) ->
  (forall t, in_tree m root t -> free_page m' KERNEL_POOL t -> free_page m KERNEL_POOL t) ->
  tree_ok m' root /\ forall va, mapping m' root va = mapping m root va.
Proof.
  intros Ht Hl Hp Hf.
  assert (forall t i, in_tree m root t -> table_entry m' t i = table_entry m t i) as He
    by (intros t i Hin; unfold table_entry; by rewrite Hp).
  assert (forall q, path_ok q -> table_at m' root q = table_at m root q) as Hat.
  { apply table_at_ext. intros t i Hin _. unfold child. by rewrite He. }
  split.
  - split.
    + intros q t Hq. rewrite Hat by done. intros Hq'. destruct (tr_used _ _ Ht _ _ Hq Hq') as (H1 & H2 & H3).
      assert (in_tree m root t) as Hin by by exists q.
      split; [by rewrite Hp|]. split; [by apply (in_pool_same _ _ KERNEL_POOL t Hl)|]. intros H. by apply H3, Hf.
    + intros p q t Hp' Hq. rewrite !Hat by done. by apply (tr_inj _ _ Ht).
  - intros va. apply mapping_ext; [intros; by apply Hat|]. intros q t j Hq _ Hqt _. apply He. by exists q.
Qed.

(** ** Allocating a page *)

Lemma user_allocated m m' root pn :
  mem_inv m root -> allocated USER_POOL pn 1 m m' -> (exists ws, pages m' !! pn = Some ws /\ length ws = PAGE_WORDS /\ Forall is_u64 ws) ->
  mem_step root pn m m' /\ forall va, mapping m' root va = mapping m root va.
Proof.
  intros Hi Ha (ws & Hws & Hlen & Hu). pose proof Hi as [Hv Ht Hr].
  assert (in_pool (user_pool m) pn) as Hpn by (apply (al_run _ _ _ _ _ Ha pn); lia).
  assert (vm_ok m') as Hv'.
  { split; [apply Ha| |].
    - intros r. rewrite (sl_base _ _ (al_layout _ _ _ _ _ Ha)). exact (vm_kernel _ Hv r).
    - intros i ws' Hi'. destruct (decide (i = pn)) as [->|]; [rewrite Hws in Hi'; by injection Hi' as <-|].
      rewrite (al_pages _ _ _ _ _ Ha) in Hi' by lia. by apply (vm_pages _ Hv i). }
  destruct (tree_same m m' root Ht (al_layout _ _ _ _ _ Ha)) as [Ht' Hmap].
  - intros t Hin. apply (al_pages _ _ _ _ _ Ha). intros ?. assert (t = pn) as -> by lia.
    destruct (user_not_tree m root pn Hi Hpn) as [Hn _]. exact (Hn Hin).
  - intros t _ H. by apply (al_free _ _ _ _ _ Ha) in H as [H _].
  - split; [|done]. split.
    + split; [exact Hv'|exact Ht'|]. by rewrite (proj1 (sl_regs _ _ (al_layout _ _ _ _ _ Ha))).
    + apply Ha.
    + intros j _ Hj. apply (al_pages _ _ _ _ _ Ha). lia.
Qed.

(** palloc_get_page on the user pool, with or without zeroing. *)
Lemma alloc_user_cases (zero : bool) m root :
  mem_inv m root ->
  (exists pn m', palloc_get_page (if zero then Z.lor PAL_USER PAL_ZERO else PAL_USER) m = Ok (4096 * pn, m') /\
    free_page m USER_POOL pn /\ 4096 * pn <> null /\ mem_step root pn m m' /\
    (forall va, mapping m' root va = mapping m root va) /\
    (forall j, free_page m' USER_POOL j <-> free_page m USER_POOL j /\ j <> pn) /\ is_Some (page_bytes m' pn)) \/
  (palloc_get_page (if zero then Z.lor PAL_USER PAL_ZERO else PAL_USER) m = Ok (null, m) /\
    forall pn, ~ free_page m USER_POOL pn).
Proof.
  intros Hi. pose proof Hi as [Hv _ _]. unfold palloc_get_page. set (flags := if zero then _ else _).
  assert (pool_of flags = USER_POOL) as Hp by by destruct zero.
  destruct (palloc_get_cases flags 1 m (vm_palloc _ Hv) ltac:(lia)) as [(pn & m' & E & Hrun & Ha & Hc)|[Hno E]]; rewrite Hp in *.
  2:{ right. split; [rewrite E; by destruct zero|]. intros pn0 Hfree. destruct (Hno pn0) as [H|H].
      - intros i Hrange. assert (i = pn0) as -> by lia. done.
      - destruct Hfree as [Hin _]. unfold in_pool in Hin. lia.
      - destruct Hfree as [Hin _]. unfold in_pool in Hin. lia. }
  left. exists pn, m'. split; [exact E|].
  assert (free_page m USER_POOL pn) as Hf by (apply (al_run _ _ _ _ _ Ha); lia).
  assert (exists ws, pages m' !! pn = Some ws /\ length ws = PAGE_WORDS /\ Forall is_u64 ws) as Hws.
  { unfold contents_ok in Hc. destruct (flag_set flags PAL_ZERO).
    - eexists. split; [apply Hc; lia|]. split; [apply length_replicate|]. apply Forall_replicate. split; [done|reflexivity].
    - rewrite Hc. destruct (pa_ram _ (vm_palloc _ Hv) _ _ Hf) as [ws Hws]. exists ws. split; [done|]. by apply (vm_pages _ Hv pn). }
  destruct (user_allocated m m' root pn Hi Ha Hws) as [Hs Hmap]. split_and!; [done| |done|done| |].
  - destruct Hrun as [Hpos _]. unfold null. lia.
  - intros j. rewrite (al_free _ _ _ _ _ Ha). split; intros [H1 H2]; (split; [done|lia]).
  - destruct Hws as (ws & Hws & _). unfold page_bytes. rewrite Hws. by eexists.
Qed.

(** ** Writing to a page *)

Lemma write_user m root pn ofs new l :
  mem_inv m root -> in_pool (user_pool m) pn -> page_bytes m pn = Some l ->
  0 <= ofs -> ofs + Z.of_nat (length new) <= 4096 -> bytes new ->
  exists m', page_write (4096 * pn) ofs new m = Ok (tt, m') /\ mem_step root pn m m' /\
    (forall va, mapping m' root va = mapping m root va) /\
    (forall r j, free_page m' r j <-> free_page m r j) /\ page_bytes m' pn = Some (splice l (Z.to_nat ofs) new).
Proof.
  intros Hi Hp Hl Ho Hn Hb. destruct (page_bytes_length _ _ _ _ Hi Hl) as [Hlen Hbl]. pose proof Hi as [Hv Ht Hr].
  unfold page_bytes in Hl. destruct (pages m !! pn) as [ws|] eqn:Hws; [|done]. injection Hl as Hl.
  set (b := splice l (Z.to_nat ofs) new).
  assert (length b = 4096%nat) as Hbn by (unfold b; rewrite length_splice; lia).
  assert (bytes b) as Hbb by by apply bytes_splice.
  destruct (bytes_words_u64 PAGE_WORDS b Hbb) as [Hl1 Hu1].
  pose proof (word_bytes_words PAGE_WORDS b Hbn Hbb) as Hwb.
  remember (bytes_words PAGE_WORDS b) as ws' eqn:Ews.
  exists (set_pages (<[pn := ws']> (pages m)) m).
  assert (same_layout m (set_pages (<[pn := ws']> (pages m)) m)) as Hlay by (split; intros; by rewrite ?the_pool_pages).
  assert (forall r j, free_page (set_pages (<[pn := ws']> (pages m)) m) r j <-> free_page m r j) as Hfree.
  { intros r j. unfold free_page. by rewrite the_pool_pages. }
  destruct (tree_same m (set_pages (<[pn := ws']> (pages m)) m) root Ht Hlay) as [Ht' Hmap].
  { intros t Hin. simpl. rewrite lookup_insert_ne; [done|]. intros ->. destruct (user_not_tree m root t Hi Hp) as [Hx _]. exact (Hx Hin). }
  { intros t _. exact (proj1 (Hfree KERNEL_POOL t)). }
  split_and!; [| |exact Hmap|exact Hfree|].
  - unfold page_write. rewrite (bind_run _ _ m ws m).
    2:{ unfold get_page_words. rewrite pg_no_page. unfold mbind, M_mbind, get, lift. by rewrite Hws. }
    rewrite (bind_run (lift _) _ m b m); [unfold modify; by rewrite pg_no_page, Ews|].
    unfold lift. by rewrite Hl, block_write_ok by lia.
  - split; [split; [|exact Ht'|exact Hr]|exact Hlay|].
    + destruct Hv as [[H1 H2 H3] H4 H5]. split.
      * split; [intros r; rewrite the_pool_pages; apply H1|done|].
        intros r j. rewrite Hfree. intros H. simpl. apply lookup_insert_is_Some'. right. by apply (H3 r).
      * intros r. rewrite the_pool_pages. apply H4.
      * simpl. intros i ws0. rewrite lookup_insert_Some. intros [[<- <-]|[_ H]]; [done|by apply (H5 i)].
    + intros j _ Hj. simpl. by rewrite lookup_insert_ne.
  - unfold page_bytes. simpl. rewrite lookup_insert_eq. simpl. by rewrite Hwb.
Qed.

(** Reading it. *)
Lemma read_user m pn ofs n l :
  page_bytes m pn = Some l -> 0 <= ofs -> 0 <= n -> ofs + n <= Z.of_nat (length l) ->
  page_read (4096 * pn) ofs n m = Ok (take (Z.to_nat n) (drop (Z.to_nat ofs) l), m).
Proof.
  unfold page_bytes, page_read. destruct (pages m !! pn) as [ws|] eqn:Hws; [|done]. intros [= <-] Ho Hn Hl.
  rewrite (bind_run _ _ m ws m).
  - unfold lift. by rewrite block_read_ok.
  - unfold get_page_words. rewrite pg_no_page. unfold mbind, M_mbind, get, lift. by rewrite Hws.
Qed.

(** ** Mapping a page *)

Lemma map_user m root upage pn (rw : bool) :
  mem_inv m root -> is_user upage -> pg_ofs upage = 0 -> in_pool (user_pool m) pn ->
  exists b m', pml4_set_page (4096 * root) upage (4096 * pn) rw m = Ok (b, m') /\ mem_step root (-1) m m' /\
    (forall va, is_user va -> mapping m' root va =
       if b && (pg_no va =? pg_no upage) then Some (4096 * (pn - KERN_PAGE) + leaf_flags rw) else mapping m root va) /\
    (forall j, free_page m' USER_POOL j <-> free_page m USER_POOL j).
Proof.
  intros Hi Hu Ho Hp. pose proof Hi as [Hv Ht Hr]. pose proof (user_page_range _ _ _ Hi Hp) as Hk.
  destruct (set_page_effect m root upage pn rw Hv Ht Hr Hu Ho Hk) as (b & m' & E & Hv' & Ht' & Hmap & _ & Hpages).
  exists b, m'. split; [exact E|].
  assert (same_layout m m' /\ forall j, free_page m' USER_POOL j <-> free_page m USER_POOL j) as [Hlay Hfree].
  { destruct (set_page_cases m root upage pn rw) as (a & s1 & Hw & [[_ E1]|(t & s2 & _ & _ & Hst & E1)]); try done;
      rewrite E in E1; injection E1 as _ ->.
    - split; [exact (wk_layout _ _ _ _ _ Hw)|]. intros j. split; [exact (wk_free _ _ _ _ _ Hw USER_POOL j)|exact (wk_user _ _ _ _ _ Hw j)].
    - split; [eapply same_layout_trans; [exact (wk_layout _ _ _ _ _ Hw)|by eapply stored_layout]|].
      intros j. rewrite (stored_free _ _ _ _ _ Hst). split; [exact (wk_free _ _ _ _ _ Hw USER_POOL j)|exact (wk_user _ _ _ _ _ Hw j)]. }
  split; [|split; [exact Hmap|exact Hfree]]. split; [split; [exact Hv'|exact Ht'|]|exact Hlay|].
  - by rewrite (proj1 (sl_regs _ _ Hlay)).
  - intros j Hj _. destruct (user_not_tree m root j Hi Hj). by apply Hpages.
Qed.

(** Where an address leads after that. *)
Lemma mapped_translate m root va pn (rw : bool) :
  mapping m root va = Some (4096 * (pn - KERN_PAGE) + leaf_flags rw) -> KERN_PAGE <= pn < 2 ^ 52 ->
  translate m root va = 4096 * pn + pg_ofs va.
Proof. intros H Hk. unfold translate. by rewrite H, translate_value. Qed.

Lemma mem_step_inv root pn m m' : mem_step root pn m m' -> mem_inv m' root.
Proof. apply ms_inv. Qed.

Lemma mem_step_pool root pn m m' j : mem_step root pn m m' -> in_pool (user_pool m') j <-> in_pool (user_pool m) j.
Proof. intros H. by apply (in_pool_same m m' USER_POOL), H. Qed.

Lemma mem_step_bytes root pn m m' j :
  mem_step root pn m m' -> in_pool (user_pool m) j -> j <> pn -> page_bytes m' j = page_bytes m j.
Proof. intros H Hj Hne. unfold page_bytes. by rewrite (ms_pages _ _ _ _ H). Qed.

Lemma mem_step_trans root pn m1 m2 m3 : mem_step root pn m1 m2 -> mem_step root pn m2 m3 -> mem_step root pn m1 m3.
Proof.
  intros H1 H2. split; [apply H2|by eapply same_layout_trans; [apply H1|apply H2]|].
  intros j Hj Hne. rewrite (ms_pages _ _ _ _ H2); [by apply H1|by apply (mem_step_pool _ _ _ _ _ H1)|done].
Qed.

Lemma mem_step_weaken root pn m m' : mem_inv m root -> mem_step root (-1) m m' -> mem_step root pn m m'.
Proof.
  intros Hi H. split; [apply H|apply H|]. intros j Hj _. apply H; [done|]. intros ->.
  pose proof (user_page_range _ _ _ Hi Hj) as Hr. rewrite KERN_PAGE_eq in Hr. lia.
Qed.
