(* ===== verification/VmFacts.v ===== *)
(** * Lemmas about virtual memory

    The supplemental page table as a finite map, through the interface [ElemSet];
    taking a frame for a page; filling a page from a file. *)

From S2P Require Import Prelude Interfaces Bitmap VMem Palloc PallocFacts Mmu MmuFacts MmuTheorems Hash HashTheorems FsState Inode InodeFacts FreeMap FsFile FileTheorems VmState UserMem Pager Vm.

(** ** Tables of pages *)

Section Table.
Context {T : Type} {set : ElemSet (Z * Z) T} {same : Z * Z -> Z * Z -> bool} {repr : T -> list (Z * Z) -> Prop}.
Context {laws : ElemSetLaws (Z * Z) T same repr}.
Hypothesis same_key : forall a b, same a b = (a.1 =? b.1).
Hypothesis repr_perm : forall t l l', repr t l -> l ≡ₚ l' -> repr t l'.

(** The table holds a map from keys to values. *)
Definition table_map (t : T) (m : gmap Z Z) : Prop := repr t (map_to_list m).

Lemma table_find t m k x : table_map t m -> es_find t (k, x) = Ok ((fun p => (k, p)) <$> m !! k).
Proof.
  intros Ht. destruct (es_find_ok t _ (k, x) Ht) as (r & -> & Hr). f_equal.
  destruct (m !! k) as [p|] eqn:E; simpl.
  - apply Hr. rewrite same_key. split; [by apply elem_of_map_to_list|by apply Z.eqb_eq].
  - destruct r as [[k' p]|]; [|done]. destruct (proj1 (Hr (k', p)) eq_refl) as [Hin Hk].
    rewrite same_key in Hk. apply Z.eqb_eq in Hk. simpl in Hk. subst k'. apply elem_of_map_to_list in Hin. congruence.
Qed.

Lemma table_insert t m k p :
  table_map t m -> Z.of_nat (size m) < 2 ^ 64 - 1 ->
  exists old t', es_insert t (k, p) = Ok (old, t') /\
    match m !! k with
    | None => old = None /\ table_map t' (<[k := p]> m)
    | Some q => old = Some (k, q) /\ table_map t' m
    end.
Proof.
  intros Ht Hl. destruct (es_insert_ok t _ (k, p) Ht) as (old & t' & l' & E & Ht' & Hold).
  { rewrite length_map_to_list. exact Hl. }
  exists old, t'. split; [exact E|]. destruct (m !! k) as [q|] eqn:Em.
  - apply elem_of_map_to_list in Em. destruct old as [[k' q']|].
    + destruct Hold as (Hin & Hk & Hp). rewrite same_key in Hk. apply Z.eqb_eq in Hk. simpl in Hk. subst k'.
      apply elem_of_map_to_list in Hin. apply elem_of_map_to_list in Em. split; [congruence|]. by eapply repr_perm.
    + destruct Hold as [Hno _]. specialize (Hno _ Em). rewrite same_key in Hno. simpl in Hno.
      by rewrite Z.eqb_refl in Hno.
  - destruct old as [[k' q']|].
    + destruct Hold as (Hin & Hk & _). rewrite same_key in Hk. apply Z.eqb_eq in Hk. simpl in Hk. subst k'.
      apply elem_of_map_to_list in Hin. congruence.
    + destruct Hold as [_ Hp]. split; [done|]. unfold table_map. eapply repr_perm; [exact Ht'|].
      rewrite Hp. by rewrite map_to_list_insert.
Qed.

Lemma table_delete t m k x :
  table_map t m ->
  exists r t', es_delete t (k, x) = Ok (r, t') /\ r = (fun p => (k, p)) <$> m !! k /\ table_map t' (delete k m).
Proof.
  intros Ht. destruct (es_delete_ok t _ (k, x) Ht) as (r & t' & l' & E & Ht' & Hr).
  exists r, t'. split; [exact E|]. destruct r as [[k' p]|].
  - destruct Hr as [Hk Hp]. rewrite same_key in Hk. apply Z.eqb_eq in Hk. simpl in Hk. subst k'.
    assert (m !! k = Some p) as Em by (apply elem_of_map_to_list; rewrite Hp; by left).
    rewrite Em. split; [done|]. unfold table_map. eapply repr_perm; [exact Ht'|].
    rewrite <-(insert_id m k p Em) in Hp. rewrite <-insert_delete_eq in Hp.
    rewrite map_to_list_insert in Hp by apply lookup_delete_eq. symmetry. by apply (Permutation_cons_inv (a := (k, p))).
  - destruct Hr as [Hno Hp]. assert (m !! k = None) as Em.
    { destruct (m !! k) as [p|] eqn:Em; [|done]. apply elem_of_map_to_list in Em. specialize (Hno _ Em).
      rewrite same_key in Hno. simpl in Hno. by rewrite Z.eqb_refl in Hno. }
    rewrite Em. split; [done|]. rewrite delete_id by done. by eapply repr_perm.
Qed.
End Table.

(** The hash tables of pages are such tables. *)
Definition spt_repr (h : htable (Z * Z)) (l : list (Z * Z)) : Prop := hash_ok page_hash is_less h /\ elems h ≡ₚ l.
Definition spt_map (h : htable (Z * Z)) (m : gmap Z Z) : Prop := table_map (repr := spt_repr) h m.

#[export] Instance spt_set (mem_ok : bool) : ElemSet (Z * Z) (htable (Z * Z)) := hash_elem_set page_hash is_less mem_ok.

Lemma page_key a b : same is_less a b = (a.1 =? b.1).
Proof.
  unfold same, is_less. destruct (Z.ltb_spec a.1 b.1), (Z.ltb_spec b.1 a.1), (Z.eqb_spec a.1 b.1); done || lia.
Qed.

Lemma page_hash_same a b : same is_less a b = true -> page_hash a = page_hash b.
Proof. rewrite page_key. unfold page_hash. by intros ->%Z.eqb_eq. Qed.

#[export] Instance spt_laws (mem_ok : bool) : ElemSetLaws (Z * Z) (htable (Z * Z)) (same is_less) spt_repr (H := spt_set mem_ok).
Proof. exact (hash_elem_set_laws page_hash is_less page_hash_same mem_ok). Qed.

Lemma spt_perm h l l' : spt_repr h l -> l ≡ₚ l' -> spt_repr h l'.
Proof. intros [H1 H2] H. split; [done|]. by rewrite H2. Qed.

Lemma spt_find h m k x : spt_map h m -> hash_find page_hash is_less h (k, x) = Ok ((fun p => (k, p)) <$> m !! k).
Proof. exact (table_find (laws := spt_laws true) page_key h m k x). Qed.

Lemma spt_insert mem_ok h m k p :
  spt_map h m -> Z.of_nat (size m) < 2 ^ 64 - 1 ->
  exists old h', hash_insert page_hash is_less mem_ok h (k, p) = Ok (old, h') /\
    match m !! k with
    | None => old = None /\ spt_map h' (<[k := p]> m)
    | Some q => old = Some (k, q) /\ spt_map h' m
    end.
Proof. exact (table_insert (laws := spt_laws mem_ok) page_key spt_perm h m k p). Qed.

Lemma spt_delete mem_ok h m k x :
  spt_map h m ->
  exists r h', hash_delete page_hash is_less mem_ok h (k, x) = Ok (r, h') /\
    r = (fun p => (k, p)) <$> m !! k /\ spt_map h' (delete k m).
Proof. exact (table_delete (laws := spt_laws mem_ok) page_key spt_perm h m k x). Qed.

(** ** Accesses *)

Lemma wpp_zoom {S T A} (part : S -> T) update (m : M T A) (Q : A -> S -> Prop) s :
  wpp m (fun a x => Q a (update x s)) (part s) -> wpp (zoom part update m) Q s.
Proof. unfold wpp, zoom. by destruct (m (part s)) as [[]| | |]. Qed.

Section Accesses.
Implicit Type s : vms.

Lemma get_vpage_run s p x : vpages s !! p = Some x -> get_vpage p s = Ok (x, s).
Proof. intros H. unfold get_vpage, mbind, M_mbind, get, lift. by rewrite H. Qed.

Lemma get_frame_run s f x : frames s !! f = Some x -> get_frame f s = Ok (x, s).
Proof. intros H. unfold get_frame, mbind, M_mbind, get, lift. by rewrite H. Qed.

Lemma get_info_run s a x : infos s !! a = Some x -> get_info a s = Ok (x, s).
Proof. intros H. unfold get_info, mbind, M_mbind, get, lift. by rewrite H. Qed.

Lemma update_vpage_run s p x g :
  vpages s !! p = Some x -> update_vpage p g s = Ok (tt, set_vpages (<[p := g x]> (vpages s)) s).
Proof. intros H. unfold update_vpage. by rewrite (bind_run _ _ _ _ _ (get_vpage_run s p x H)). Qed.

Lemma cur_pml4_run s t : procs s !! current s = Some t -> cur_pml4 s = Ok (pml4 t, s).
Proof.
  intros H. unfold cur_pml4, thread_cur, get_proc, mbind, M_mbind, get, lift. by rewrite H.
Qed.

Lemma zoom_Ok {T A} (part : vms -> T) update (m : M T A) s a x :
  m (part s) = Ok (a, x) -> zoom part update m s = Ok (a, update x s).
Proof. intros E. unfold zoom. by rewrite E. Qed.
End Accesses.

(** Linking a page and a frame. *)
Lemma link_frame_run s p x f k q n :
  vpages s !! p = Some x -> frames s !! f = Some (Frame k q n) -> - 2 ^ 31 <= n < 2 ^ 31 - 1 ->
  link_frame p f s =
    Ok (tt, set_frames (<[f := Frame k p (n + 1)]> (frames s)) (set_vpages (<[p := with_frame f x]> (vpages s)) s)).
Proof.
  intros Hp Hf Hn. unfold link_frame, set_frame_page.
  rewrite (bind_run _ _ s tt (set_frames (<[f := Frame k p n]> (frames s)) s)).
  2:{ by rewrite (bind_run _ _ _ _ _ (get_frame_run s f _ Hf)). }
  rewrite (bind_run _ _ _ _ _ (update_vpage_run (set_frames (<[f := Frame k p n]> (frames s)) s) p x _ Hp)).
  unfold add_r_cnt.
  erewrite (bind_run _ _ _ _ _); [|apply get_frame_run; apply lookup_insert_eq].
  rewrite (bind_run (lift _) _ _ (n + 1) _) by (unfold lift; rewrite int32_ok by (unfold is_s32; simpl; lia); done).
  unfold put_frame, modify. simpl. unfold set_frames. simpl. by rewrite insert_insert_eq.
Qed.
