(* ===== verification/Claim.v ===== *)
(** * Giving a page a frame

    vm_get_frame when the user pool has a page left, vm_do_claim_page, and the
    contents that lazy_load_segment gives a page of a program. *)

From S2P Require Import Prelude Interfaces Bitmap VMem Palloc PallocFacts Mmu MmuFacts MmuTheorems Hash FsState Inode InodeFacts FreeMap FsFile FileTheorems VmState UserMem Pager Vm VmFacts.

(** ** The running process *)

(** Its page table's root and the map that its supplemental page table holds. *)
Record proc_env (s : vms) (root : Z) (m : gmap Z Z) : Prop := {
  pe_proc : exists t, procs s !! current s = Some t /\ pml4 t = 4096 * root /\ spt_map (spt t) m;
  pe_mem : mem_inv (mem s) root
}.

Lemma env_pml4 s root m : proc_env s root m -> cur_pml4 s = Ok (4096 * root, s).
Proof. intros [(t & Ht & <- & _) _]. by apply cur_pml4_run. Qed.

Lemma find_page_run s root m a :
  proc_env s root m -> a <> null ->
  spt_find_page (current s) a s = Ok (default null (m !! pg_round_down a), s).
Proof.
  intros [(t & Ht & _ & Hm) _] Ha. unfold spt_find_page. rewrite (proj2 (Z.eqb_neq a null)) by done.
  unfold get_proc, mbind, M_mbind, get, lift. rewrite Ht. simpl. rewrite (spt_find _ _ _ _ Hm). by destruct (m !! _).
Qed.

(** The running process with another table. *)
Definition with_spt (t : uproc) (h : htable (Z * Z)) (s : vms) : vms :=
  set_procs (<[current s := UProc (pml4 t) h (user_rsp t)]> (procs s)) s.

Lemma get_proc_run s t : procs s !! current s = Some t -> get_proc (current s) s = Ok (t, s).
Proof. intros Ht. unfold get_proc, mbind, M_mbind, get, lift. by rewrite Ht. Qed.

Lemma set_spt_run s t h : procs s !! current s = Some t -> set_spt (current s) h s = Ok (tt, with_spt t h s).
Proof. intros Ht. unfold set_spt. by rewrite (bind_run _ _ _ _ _ (get_proc_run s t Ht)). Qed.

Lemma with_spt_env s root tab t h tab' :
  proc_env s root tab -> procs s !! current s = Some t -> spt_map h tab' -> proc_env (with_spt t h s) root tab'.
Proof.
  intros [(t' & Ht' & Hpml & _) Hi] Ht Hm. assert (t' = t) as -> by congruence.
  split; [|done]. exists (UProc (pml4 t) h (user_rsp t)). split; [apply lookup_insert_eq|done].
Qed.

(** Inserting and removing a page. *)
Lemma insert_page_run mem_ok s root tab p x :
  proc_env s root tab -> vpages s !! p = Some x -> p <> null -> Z.of_nat (size tab) < 2 ^ 64 - 1 ->
  exists t h, spt_insert_page mem_ok (current s) p s = Ok (bool_decide (tab !! va x = None), with_spt t h s) /\
    proc_env (with_spt t h s) root (if decide (tab !! va x = None) then <[va x := p]> tab else tab).
Proof.
  intros He Hx Hp Hsz. pose proof He as [(t & Ht & _ & Hmap) _].
  destruct (spt_insert mem_ok (spt t) tab (va x) p Hmap Hsz) as (old & h & Eh & Hh). exists t, h. split.
  - unfold spt_insert_page. rewrite (bind_run _ _ s tt s) by (by rewrite (proj2 (Z.eqb_neq p null))).
    rewrite (bind_run _ _ _ _ _ (get_vpage_run s p x Hx)), (bind_run _ _ _ _ _ (get_proc_run s t Ht)).
    rewrite (bind_run (lift _) _ s (old, h) s) by (unfold lift; by rewrite Eh).
    rewrite (bind_run _ _ _ _ _ (set_spt_run s t h Ht)).
    destruct (tab !! va x); destruct Hh as [-> _]; reflexivity.
  - eapply with_spt_env; [exact He|exact Ht|]. by destruct (tab !! va x); destruct Hh as [_ Hh].
Qed.

Lemma remove_page_run mem_ok s root tab p x :
  proc_env s root tab -> vpages s !! p = Some x ->
  exists t h, spt_remove_page mem_ok (current s) p s = Ok (tt, with_spt t h s) /\
    proc_env (with_spt t h s) root (delete (va x) tab).
Proof.
  intros He Hx. pose proof He as [(t & Ht & _ & Hmap) _].
  destruct (spt_delete mem_ok (spt t) tab (va x) p Hmap) as (r & h & Eh & _ & Hh). exists t, h. split.
  - unfold spt_remove_page. rewrite (bind_run _ _ _ _ _ (get_vpage_run s p x Hx)), (bind_run _ _ _ _ _ (get_proc_run s t Ht)).
    rewrite (bind_run (lift _) _ s (r, h) s) by (unfold lift; by rewrite Eh). by apply set_spt_run.
  - by eapply with_spt_env.
Qed.

(** ** Taking a frame *)

Definition push_frame (f : Z) (x : vm_frame) (s : vms) : vms :=
  set_frame_list (frame_list s ++ [f]) (set_frames (<[f := x]> (frames s)) s).

(** What a fresh user page is. *)
Record fresh_page (root pn : Z) (m m' : vmem) : Prop := {
  fp_free : free_page m USER_POOL pn;
  fp_step : mem_step root pn m m';
  fp_map va : mapping m' root va = mapping m root va;
  fp_others j : free_page m' USER_POOL j <-> free_page m USER_POOL j /\ j <> pn;
  fp_bytes : is_Some (page_bytes m' pn)
}.

Lemma malloc_run s : no_failures s -> exists s', malloc s = Ok (next_ptr s, s') /\ heap_step s s' /\ next_ptr s <> null /\
  next_ptr s' = next_ptr s + 1.
Proof.
  intros Hn. pose proof Hn as [_ Hp].
  assert (wp malloc (fun p s' => p = next_ptr s /\ heap_step s s' /\ next_ptr s' = next_ptr s + 1) s) as (p & s' & E & -> & H & H').
  { apply wp_malloc; [done|]. intros p s' H1 H2 H3 H4. destruct (H3 Hn) as [H5 ->]. split; [done|]. split; [by split|].
    destruct H4 as [H4|[_ H4]]; [unfold FsState.null in H4; lia|done]. }
  exists s'. split; [done|]. split; [done|]. split; [unfold null; lia|done].
Qed.

Lemma get_frame_ok s root pn0 :
  mem_inv (mem s) root -> no_failures (disk s) -> free_page (mem s) USER_POOL pn0 ->
  exists pn d m', vm_get_frame s = Ok (next_ptr (disk s), push_frame (next_ptr (disk s)) (Frame (4096 * pn) null 0) (set_mem m' (set_disk d s))) /\
    fresh_page root pn (mem s) m' /\ heap_step (disk s) d /\ next_ptr (disk s) <> null /\ next_ptr d = next_ptr (disk s) + 1.
Proof.
  intros Hi Hn Hfree. destruct (malloc_run _ Hn) as (d & Em & Hd & Hp & Hnp).
  destruct (alloc_user_cases true (mem s) root Hi) as [(pn & m' & Ea & H1 & H2 & H3 & H4 & H5 & H6)|[_ Hno]];
    [|by destruct (Hno pn0)].
  exists pn, d, m'. split; [|split; [by split|done]]. unfold vm_get_frame.
  rewrite (bind_run _ _ s (next_ptr (disk s)) (set_disk d s)) by (by apply zoom_Ok).
  rewrite (bind_run (assertM _) _ _ tt (set_disk d s)) by (by rewrite (proj2 (Z.eqb_neq _ _)) by done).
  rewrite (bind_run _ _ _ (4096 * pn) (set_mem m' (set_disk d s))) by (by apply zoom_Ok).
  rewrite (proj2 (Z.eqb_neq (4096 * pn) null)) by done.
  unfold mbind, M_mbind, mret, M_mret, put_frame, modify, assertM, lift.
  by rewrite (proj2 (Z.eqb_neq (4096 * pn) null)) by done.
Qed.

(** ** Claiming *)

(** [s'] is [s] with frame [f] on page [pn] linked to page [p], which is [x]. *)
Record claimed (root p f pn : Z) (x : page) (s s' : vms) : Prop := {
  cl_state : exists m' d, s' = set_mem m' (set_vpages (<[p := with_frame f x]> (vpages s))
               (push_frame f (Frame (4096 * pn) p 1) (set_disk d s)));
  cl_free : free_page (mem s) USER_POOL pn;
  cl_step : mem_step root pn (mem s) (mem s');
  cl_map a : is_user a -> mapping (mem s') root a =
    if pg_no a =? pg_no (va x) then Some (4096 * (pn - KERN_PAGE) + leaf_flags (p_writable x)) else mapping (mem s) root a;
  cl_others j : free_page (mem s') USER_POOL j <-> free_page (mem s) USER_POOL j /\ j <> pn;
  cl_bytes : is_Some (page_bytes (mem s') pn);
  cl_disk : heap_step (disk s) (disk s');
  cl_frame : f = next_ptr (disk s) /\ f <> null /\ next_ptr (disk s') = f + 1
}.

Lemma claim_ok s root m p x pn0 (Q : bool -> vms -> Prop) :
  proc_env s root m -> no_failures (disk s) -> free_page (mem s) USER_POOL pn0 ->
  vpages s !! p = Some x -> is_user (va x) -> pg_ofs (va x) = 0 ->
  (forall f pn s', claimed root p f pn x s s' -> wpp (swap_in p (4096 * pn)) Q s') ->
  wpp (vm_do_claim_page p) Q s.
Proof.
  intros He Hn Hfree Hx Hu Ho HQ. pose proof He as [(t & Ht & Hpml & _) Hi].
  destruct (get_frame_ok s root pn0 Hi Hn Hfree) as (pn & d & m' & E & [Hf Hs Hmap Hoth Hby] & Hd & Hp & Hnp).
  set (f := next_ptr (disk s)) in *.
  set (s1 := push_frame f (Frame (4096 * pn) null 0) (set_mem m' (set_disk d s))) in *.
  assert (E2 : link_frame p f s1 = Ok (tt, set_frames (<[f := Frame (4096 * pn) p 1]> (frames s1))
            (set_vpages (<[p := with_frame f x]> (vpages s1)) s1))).
  { rewrite (link_frame_run s1 p x f (4096 * pn) null 0); [done|exact Hx|apply lookup_insert_eq|lia]. }
  set (s2 := set_frames _ _) in E2.
  assert (in_pool (user_pool m') pn) as Hpool by (apply (mem_step_pool _ _ _ _ pn Hs), Hf).
  destruct (map_user m' root (va x) pn (p_writable x) (ms_inv _ _ _ _ Hs) Hu Ho Hpool)
    as (b & m2 & Es & Hs2 & Hmap2 & Hfree2).
  unfold wpp, vm_do_claim_page. rewrite (bind_run _ _ _ _ _ E), (bind_run _ _ _ _ _ E2).
  rewrite (bind_run _ _ s2 (4096 * root) s2) by (rewrite <-Hpml; by apply cur_pml4_run).
  rewrite (bind_run _ _ s2 (with_frame f x) s2) by (apply get_vpage_run; apply lookup_insert_eq).
  rewrite (bind_run _ _ s2 (Frame (4096 * pn) p 1) s2) by (apply get_frame_run; apply lookup_insert_eq).
  rewrite (bind_run _ _ s2 b (set_mem m2 s2)) by (by apply zoom_Ok).
  destruct b; [|done]. cbn [negb]. apply (HQ f pn). split; [| | | | | | |by split_and!].
  - exists m2, d. unfold s2.
    assert (<[f := Frame (4096 * pn) p 1]> (frames s1) = <[f := Frame (4096 * pn) p 1]> (frames s)) as ->
      by apply insert_insert_eq.
    reflexivity.
  - exact Hf.
  - eapply mem_step_trans; [exact Hs|]. apply mem_step_weaken; [exact (ms_inv _ _ _ _ Hs)|exact Hs2].
  - intros a Ha. change (mem (set_mem m2 s2)) with m2. rewrite Hmap2 by done. cbn [andb]. destruct (_ =? _); [done|apply Hmap].
  - intros j. change (mem (set_mem m2 s2)) with m2. rewrite Hfree2. apply Hoth.
  - change (mem (set_mem m2 s2)) with m2. rewrite (mem_step_bytes root (-1) m' m2 pn Hs2 Hpool); [done|].
    intros ->. pose proof (user_page_range _ _ _ (ms_inv _ _ _ _ Hs) Hpool) as Hr. rewrite KERN_PAGE_eq in Hr. lia.
  - exact Hd.
Qed.

(** ** Filling a page from a file *)

(** An open file whose sectors hold bytes. *)
Record file_env (d : fs) (f : Z) (di : inode_disk) : Prop := {
  fe_disk : disk_ok d;
  fe_memory : no_failures d;
  fe_bytes k l : sectors d !! k = Some l -> bytes l;
  fe_file : f <> null /\ exists y i, files d !! f = Some y /\ open_at d (f_inode y) i /\ data i = di
}.

Lemma file_env_step d d' f di : heap_step d d' -> file_env d f di -> file_env d' f di.
Proof.
  intros Hh [Hd Hn Hb (Hf & y & i & Hy & Ho & E)]. destruct (heap_step_open _ _ _ _ Hh Hd Ho) as [Hd' Ho'].
  pose proof Hh as [(l & n & ->) _ _]. split; [done|by apply Hh|done|]. split; [done|]. by exists y, i.
Qed.

Lemma content_bytes d di : (forall k l, sectors d !! k = Some l -> bytes l) -> bytes (content d di).
Proof.
  intros Hb. unfold content, bytes_of. apply Forall_fmap, Forall_true. intros j. simpl.
  unfold file_byte, byte_at. destruct (sectors d !! _) as [l|] eqn:E; simpl; [|lia].
  destruct (l !! _) as [b|] eqn:El; simpl; [|lia]. specialize (Hb _ _ E). by apply (Forall_lookup_1 _ _ _ _ Hb El).
Qed.

(** The [n] bytes of the file from [ofs] on, as many as there are, then zeros. *)
Definition page_image (file : list Z) (ofs n : Z) : list Z :=
  let b := take (Z.to_nat n) (drop (Z.to_nat ofs) file) in b ++ replicate (4096 - length b) 0.

Lemma length_page_image file ofs n : n <= 4096 -> length (page_image file ofs n) = 4096%nat.
Proof. intros Hn. unfold page_image. rewrite length_app, length_replicate, length_take. lia. Qed.

(** Writing bytes and then zeros up to the end of a page. *)
Lemma splice_page l b :
  length l = 4096%nat -> (length b <= 4096)%nat ->
  splice (splice l 0 b) (length b) (replicate (4096 - length b) 0) = b ++ replicate (4096 - length b) 0.
Proof.
  intros Hl Hb. unfold splice. change (take 0 l) with (@nil Z). rewrite app_nil_l, take_app_length.
  rewrite length_replicate, drop_ge; [by rewrite app_nil_r|]. rewrite length_app, length_drop. lia.
Qed.

(** The state after a page's memory and the disk's heap have changed. *)
Definition with_mem_disk (m : vmem) (d : fs) (s : vms) : vms := set_mem m (set_disk d s).

(** [b] are the bytes that were read; the two writes that fill the page [pn]. *)
Lemma fill_page root pn (b : list Z) m :
  mem_inv m root -> in_pool (user_pool m) pn -> is_Some (page_bytes m pn) -> bytes b -> (length b <= 4096)%nat ->
  exists m1 m2, page_write (4096 * pn) 0 b m = Ok (tt, m1) /\
    page_write (4096 * pn) (Z.of_nat (length b)) (replicate (4096 - length b) 0) m1 = Ok (tt, m2) /\
    mem_step root pn m m2 /\ (forall va, mapping m2 root va = mapping m root va) /\
    (forall r j, free_page m2 r j <-> free_page m r j) /\
    page_bytes m2 pn = Some (b ++ replicate (4096 - length b) 0).
Proof.
  intros Hi Hp [l Hl] Hb Hlen. destruct (page_bytes_length _ _ _ _ Hi Hl) as [Hl4 _].
  destruct (write_user m root pn 0 b l Hi Hp Hl) as (m1 & E1 & Hs1 & Hm1 & Hf1 & Hb1); [done|lia|done|].
  assert (in_pool (user_pool m1) pn) as Hp1 by by apply (mem_step_pool _ _ _ _ _ Hs1).
  destruct (write_user m1 root pn (Z.of_nat (length b)) (replicate (4096 - length b) 0) _ (ms_inv _ _ _ _ Hs1) Hp1 Hb1)
    as (m2 & E2 & Hs2 & Hm2 & Hf2 & Hb2); [lia|rewrite length_replicate; lia|by apply Forall_replicate|].
  exists m1, m2. split; [exact E1|]. split; [exact E2|]. split; [by eapply mem_step_trans|].
  split; [intros va; by rewrite Hm2|]. split; [intros r j; by rewrite Hf2|].
  rewrite Hb2, Nat2Z.id. f_equal. by apply splice_page.
Qed.

Lemma file_length_run d f di : file_env d f di -> file_length f d = Ok (d_length di, d).
Proof.
  intros [_ _ _ (Hf & y & i & Hy & Ho & <-)]. unfold file_length.
  rewrite (bind_run _ _ d tt d) by (by rewrite (proj2 (Z.eqb_neq f FsState.null))).
  rewrite (bind_run _ _ d y d); [|by unfold get_file, mbind, M_mbind, get, lift; rewrite Hy].
  unfold inode_length. rewrite (bind_run _ _ d i d); [done|].
  unfold get_inode, mbind, M_mbind, get, lift. by rewrite (oa_inode _ _ _ Ho).
Qed.

(** What file_read_at gives, in terms of the contents. *)
Lemma file_read_at_run d f di size ofs :
  file_env d f di -> 0 <= ofs < 2 ^ 31 -> size < 2 ^ 31 ->
  exists d', file_read_at f size ofs d = Ok (bytes_read size ofs (content d di), d') /\ heap_step d d'.
Proof.
  intros [Hd Hn _ (_ & y & i & Hy & Ho & <-)] Hofs Hsz.
  destruct (file_read_at_ok f y i size ofs d Hd Hy Ho ltac:(apply Hn) Hofs Hsz) as (r & d' & E & Hh & n & [_ Hm] & ->).
  exists d'. split; [|done]. rewrite E. do 2 f_equal. simpl. rewrite Hm by done. by apply read_spec, Hofs.
Qed.

(** The page's size and the rest of the file, whichever is less: past its end the
    rest is huge and nothing is read. *)
Lemma lazy_bytes (file : list Z) ofs rb :
  0 <= ofs < 2 ^ 31 -> 0 <= rb -> Z.of_nat (length file) < 2 ^ 31 ->
  let n := if rb <? PGSIZE then rb else PGSIZE in
  let rest := u64 (Z.of_nat (length file) - ofs) in
  let n' := if n <? rest then n else rest in
  0 <= n' <= 4096 /\ bytes_read n' ofs file = take (Z.to_nat (Z.min rb 4096)) (drop (Z.to_nat ofs) file).
Proof.
  intros Ho Hr Hl n rest n'. assert (n = Z.min rb 4096) as En by (unfold n; rewrite PGSIZE_eq; destruct (Z.ltb_spec rb 4096); lia).
  unfold bytes_read. rewrite <-En. destruct (Z.leb_spec ofs (Z.of_nat (length file))) as [Hle|Hgt].
  - assert (rest = Z.of_nat (length file) - ofs) as Er by (apply u64_small; unfold is_u64; lia).
    unfold n'. destruct (Z.ltb_spec n rest); [split; [lia|done]|]. split; [lia|].
    rewrite !take_ge; [done|rewrite length_drop; lia..].
  - assert (4096 < rest) as Hrest.
    { unfold rest, u64. rewrite <-(Z.mod_unique_pos (Z.of_nat (length file) - ofs) (2 ^ 64) (-1)
        (Z.of_nat (length file) - ofs + 2 ^ 64)) by lia. lia. }
    unfold n'. destruct (Z.ltb_spec n rest); [|lia]. split; [lia|done].
Qed.

Lemma set_disk_same s : set_disk (disk s) s = s.
Proof. by destruct s. Qed.

Lemma file_env_length d f di : file_env d f di -> Z.of_nat (length (content d di)) = d_length di /\ 0 <= d_length di < 2 ^ 31.
Proof.
  intros [_ _ _ (_ & y & i & _ & Ho & <-)]. destruct (da_length _ _ (oa_data _ _ _ Ho)). rewrite length_content. lia.
Qed.

(** lazy_load_segment fills the page's frame with its part of the file. *)
Lemma lazy_load_ok s root p aux fi x pn q c di :
  mem_inv (mem s) root -> infos s !! aux = Some fi -> vpages s !! p = Some x ->
  frames s !! p_frame x = Some (Frame (4096 * pn) q c) -> in_pool (user_pool (mem s)) pn ->
  is_Some (page_bytes (mem s) pn) -> file_env (disk s) (fi_file fi) di ->
  0 <= fi_ofs fi < 2 ^ 31 -> 0 <= fi_read_bytes fi ->
  exists m' d, lazy_load_segment p aux s = Ok (true, with_mem_disk m' d s) /\ heap_step (disk s) d /\
    mem_step root pn (mem s) m' /\ (forall va, mapping m' root va = mapping (mem s) root va) /\
    (forall r j, free_page m' r j <-> free_page (mem s) r j) /\
    page_bytes m' pn = Some (page_image (content (disk s) di) (fi_ofs fi) (Z.min (fi_read_bytes fi) 4096)).
Proof.
  intros Hi Ha Hp Hf Hpool Hby He Ho Hr.
  set (file := content (disk s) di). destruct (file_env_length _ _ _ He) as [Hfl Hlen]. fold file in Hfl.
  destruct (lazy_bytes file (fi_ofs fi) (fi_read_bytes fi) Ho Hr ltac:(lia)) as [Hn Hb]. cbv zeta in Hn, Hb.
  unfold lazy_load_segment.
  rewrite (bind_run _ _ _ _ _ (get_info_run _ _ _ Ha)), (bind_run _ _ _ _ _ (get_vpage_run _ _ _ Hp)),
    (bind_run _ _ _ _ _ (get_frame_run _ _ _ Hf)).
  rewrite (bind_run _ _ s (d_length di) s).
  2:{ rewrite <-(set_disk_same s) at 2. apply zoom_Ok. by apply file_length_run. }
  rewrite <-Hfl. rewrite (bind_run (lift _) _ s (Z.of_nat (length file) - fi_ofs fi) s).
  2:{ unfold lift. rewrite int32_ok; [done|]. unfold is_s32. lia. }
  set (n := if fi_read_bytes fi <? PGSIZE then fi_read_bytes fi else PGSIZE) in *.
  set (rest := u64 (Z.of_nat (length file) - fi_ofs fi)) in *. cbv zeta.
  set (n' := if n <? rest then n else rest) in *.
  rewrite (s32_small n') by (unfold is_s32; lia).
  destruct (file_read_at_run (disk s) (fi_file fi) di n' (fi_ofs fi) He Ho ltac:(lia)) as (d & E & Hd).
  fold file in E. rewrite Hb in E. set (b := take (Z.to_nat (Z.min (fi_read_bytes fi) 4096)) (drop (Z.to_nat (fi_ofs fi)) file)) in *.
  assert (bytes b) as Hbb by (apply Forall_take, Forall_drop, content_bytes; apply He).
  assert (length b <= Z.to_nat n')%nat as Hbl by (rewrite <-Hb; unfold bytes_read; rewrite length_take; lia).
  destruct (fill_page root pn b (mem s) Hi Hpool Hby Hbb ltac:(lia)) as (m1 & m2 & E1 & E2 & H1 & H2 & H3 & H4).
  rewrite (bind_run _ _ s b (set_disk d s)) by (by apply zoom_Ok).
  cbn [kva]. rewrite (bind_run (in_mem _) _ _ tt (set_mem m1 (set_disk d s))) by (by apply zoom_Ok).
  exists m2, d. split; [|split_and!; done].
  assert (forall k, k = Z.of_nat (4096 - length b) ->
    (in_mem (page_write (4096 * pn) (Z.of_nat (length b)) (replicate (Z.to_nat k) 0));; mret true) (set_mem m1 (set_disk d s))
    = Ok (true, with_mem_disk m2 d s)) as Hw.
  { intros k ->. rewrite Nat2Z.id.
    rewrite (bind_run (in_mem _) _ _ tt (set_mem m2 (set_mem m1 (set_disk d s)))) by (by apply zoom_Ok). reflexivity. }
  destruct (Z.eqb_spec (Z.of_nat (length b)) n') as [Heq|Hne].
  - rewrite <-Heq at 1. apply Hw. rewrite PGSIZE_eq. lia.
  - rewrite (proj2 (Z.geb_le _ 0)) by lia. apply Hw. rewrite PGSIZE_eq. lia.
Qed.

(** A page of a program before its first fault, and after it. *)
Definition lazy_page (upage : Z) (w : bool) (aux : Z) : page :=
  Page UNINIT_OPS upage null w (Init LAZY_LOAD_SEGMENT) VM_ANON aux ANON_INITIALIZER.

Definition loaded_page (upage f : Z) (w : bool) (aux : Z) : page :=
  Page ANON_OPS upage f w (SwapIdx (-1)) VM_ANON aux ANON_INITIALIZER.

Lemma uninit_swap_in s p x kva :
  vpages s !! p = Some x -> operations x = UNINIT_OPS -> word0 x = Init LAZY_LOAD_SEGMENT ->
  u_page_initializer x = ANON_INITIALIZER -> p <> null ->
  swap_in p kva s = lazy_load_segment p (u_aux x)
    (set_vpages (<[p := with_word0 (SwapIdx (-1)) (with_operations ANON_OPS x)]> (vpages s)) s).
Proof.
  intros Hx Ho Hw Hi Hp. unfold swap_in. rewrite (bind_run _ _ _ _ _ (get_vpage_run _ _ _ Hx)), Ho.
  unfold uninit_initialize. rewrite (bind_run _ _ _ _ _ (get_vpage_run _ _ _ Hx)), Hw.
  rewrite (bind_run (lift _) _ s LAZY_LOAD_SEGMENT s) by done. rewrite Hi. unfold anon_initializer.
  rewrite (proj2 (Z.eqb_neq p null)) by done.
  set (s1 := set_vpages (<[p := with_operations ANON_OPS x]> (vpages s)) s).
  erewrite (bind_run _ _ s true).
  2:{ rewrite (bind_run _ _ _ _ _ (update_vpage_run s p x _ Hx)).
      rewrite (bind_run _ _ _ _ _ (update_vpage_run s1 p (with_operations ANON_OPS x) _ (lookup_insert_eq _ _ _))).
      reflexivity. }
  assert (<[p := with_word0 (SwapIdx (-1)) (with_operations ANON_OPS x)]> (vpages s1)
    = <[p := with_word0 (SwapIdx (-1)) (with_operations ANON_OPS x)]> (vpages s)) as -> by apply insert_insert_eq.
  reflexivity.
Qed.
