(* ===== verification/VmExample.v ===== *)
(** * A small machine with a process

    The twelve pages of memory and the sixteen sectors at which the page allocator
    and the file system are tried, and a process with an empty address space. The
    theorems about virtual memory and loading are tried on it. *)

From S2P Require Import Prelude Interfaces Bitmap VMem Palloc PallocFacts PallocTheorems Mmu MmuFacts MmuTheorems Hash HashTheorems FsState Inode InodeFacts FreeMap FsFile FileTheorems FsTheorems VmState UserMem Pager Vm VmFacts Claim.

(** The file 11 of that file system has 600 bytes, the first 512 of them are 7. *)
Definition vm_fs : fs := set_sectors (<[5 := replicate 512 7]> (blank_disk 16)) ex_fs.

(** Process 1 has the page table in page [RAM + 1]; 2 is a child without one. *)
Definition ex_uproc : uproc := UProc (4096 * (RAM + 1)) (hash_init true).2 USER_STACK.
Definition ex_child : uproc := UProc null (hash_init true).2 0.

(** Swap slots for eight pages, all free. *)
Definition ex_vms : vms :=
  Vms small_vmem vm_fs false 64 (blank_disk 64) (Bitmap 8 [0]) ∅ ∅ ∅ [] (<[1 := ex_uproc]> {[2 := ex_child]}) 1.

Lemma vm_fs_sectors : sectors vm_fs = <[5 := replicate 512 7]> (blank_disk 16).
Proof. reflexivity. Qed.

Lemma vm_fs_ok : disk_ok vm_fs.
Proof.
  split; [change (capacity vm_fs) with 16; lia|]. change (capacity vm_fs) with 16. rewrite vm_fs_sectors. intros k Hk.
  destruct (decide (k = 5)) as [->|Hne].
  - exists (replicate 512 7). split; [apply lookup_insert_eq|apply length_replicate].
  - exists (replicate 512 0). split; [|apply length_replicate]. rewrite lookup_insert_ne by done. by apply lookup_blank.
Qed.

Lemma vm_fs_bytes k l : sectors vm_fs !! k = Some l -> bytes l.
Proof.
  rewrite vm_fs_sectors. intros [[_ <-]|[_ H]]%lookup_insert_Some; [apply Forall_replicate; lia|].
  unfold blank_disk in H. apply elem_of_list_to_map_2, list_elem_of_fmap in H as (j & E & _).
  apply (f_equal snd) in E. change (l = replicate 512 0) in E. subst l. apply Forall_replicate. lia.
Qed.

Lemma vm_fs_open : open_at vm_fs 3 ex_file_inode.
Proof. destruct (ex_open_at 3 ex_file_inode eq_refl) as [H1 H2 [H3 H4 H5]]. split; [exact H1|exact H2|by split]. Qed.

Lemma empty_spt_map : spt_map (hash_init true).2 ∅.
Proof. split; [by apply hash_init_ok|]. reflexivity. Qed.

Lemma ex_mem_inv : mem_inv small_vmem (RAM + 1).
Proof. split; [apply small_vm_ok|apply small_tree_ok|]. vm_compute. discriminate. Qed.

Lemma ex_env : proc_env ex_vms (RAM + 1) ∅.
Proof. split; [|exact ex_mem_inv]. exists ex_uproc. split; [reflexivity|]. split; [reflexivity|exact empty_spt_map]. Qed.

Lemma ex_memory_ok : no_failures (disk ex_vms).
Proof. exact ex_memory. Qed.

(** The four pages of the user pool are free. *)
Lemma ex_free j : RAM + 8 <= j < RAM + 12 -> free_page (mem ex_vms) USER_POOL j.
Proof.
  intros Hj. assert (j = RAM + 8 \/ j = RAM + 9 \/ j = RAM + 10 \/ j = RAM + 11) as [->|[->|[->| ->]]] by lia;
    (split; [split; vm_compute; (discriminate || reflexivity)|reflexivity]).
Qed.
