(* ===== verification/Faults.v ===== *)
(** * Page faults on the pages of a program

    A page that is pending has an entry in the supplemental page table and its part
    of a file; a page that is resident has a frame with contents. A fault makes the
    one the other, and leaves the rest of the process as it is. *)

From S2P Require Import Prelude Interfaces Bitmap VMem Palloc PallocFacts Mmu MmuFacts MmuTheorems Hash FsState Inode InodeFacts FreeMap FsFile FileTheorems VmState UserMem Pager Vm VmFacts Claim.

(** Page [p] will have the contents [img]. Its pointers are below the next one that
    the allocator gives. *)
Record pending (s : vms) (upage : Z) (w : bool) (p : Z) (img : list Z) : Prop := Pending {
  pd_ptr : 0 < p < next_ptr (disk s);
  pd_info : exists aux fi di, vpages s !! p = Some (lazy_page upage w aux) /\
    infos s !! aux = Some fi /\ aux < next_ptr (disk s) /\ file_env (disk s) (fi_file fi) di /\
    fi_file fi < next_ptr (disk s) /\ 0 <= fi_ofs fi < 2 ^ 31 /\ 0 <= fi_read_bytes fi /\
    img = page_image (content (disk s) di) (fi_ofs fi) (Z.min (fi_read_bytes fi) 4096)
}.

(** The user address [upage] leads to a page in use with these bytes. *)
Definition resident (m : vmem) (root upage : Z) (img : list Z) : Prop :=
  exists pn, translate m root upage = 4096 * pn /\ user_page m pn /\ page_bytes m pn = Some img.

Lemma translate_ext m m' root a : mapping m' root a = mapping m root a -> translate m' root a = translate m root a.
Proof. unfold translate. by intros ->. Qed.

(** A free page of memory has got the contents [img] and is what [upage] leads to. *)
Definition paged (root upage : Z) (w : bool) (img : list Z) (m m' : vmem) : Prop :=
  exists pn, free_page m USER_POOL pn /\ mem_step root pn m m' /\ page_bytes m' pn = Some img /\
    (forall j, free_page m' USER_POOL j <-> free_page m USER_POOL j /\ j <> pn) /\
    (forall a, is_user a -> mapping m' root a =
      if pg_no a =? pg_no upage then Some (4096 * (pn - KERN_PAGE) + leaf_flags w) else mapping m root a).

Section Paged.
Variables (m m' : vmem) (root upage : Z) (w : bool) (img : list Z).
Hypothesis Hi : mem_inv m root.
Hypothesis Hu : is_user upage.
Hypothesis Ho : pg_ofs upage = 0.
Hypothesis Hpg : paged root upage w img m m'.

Lemma paged_resident : resident m' root upage img.
Proof.
  destruct Hpg as (pn & Hf & Hs & Hb & Hoth & Hmap). exists pn.
  split; [|split; [|exact Hb]].
  - rewrite (mapped_translate _ _ _ pn w); [by rewrite Ho, Z.add_0_r| |by apply (user_page_range _ _ _ Hi), Hf].
    rewrite Hmap by done. by rewrite Z.eqb_refl.
  - split; [by apply (mem_step_pool _ _ _ _ pn Hs), Hf|]. rewrite Hoth. tauto.
Qed.

Lemma paged_resident_other upage2 img2 :
  is_user upage2 -> pg_no upage2 <> pg_no upage -> resident m root upage2 img2 -> resident m' root upage2 img2.
Proof.
  intros Hu2 Hne (pn2 & Ht & [Hin Hnf] & Hb2). destruct Hpg as (pn & Hf & Hs & _ & Hoth & Hmap).
  assert (pn2 <> pn) as Hpn by (intros ->; by apply Hnf).
  exists pn2. split; [|split; [split|]].
  - rewrite (translate_ext m); [done|]. rewrite Hmap by done. by rewrite (proj2 (Z.eqb_neq _ _)) by done.
  - by apply (mem_step_pool _ _ _ _ _ Hs).
  - rewrite Hoth. tauto.
  - by rewrite (mem_step_bytes _ _ _ _ _ Hs).
Qed.
End Paged.

(** ** One fault *)

Record faulted (root p upage : Z) (w : bool) (img : list Z) (s s' : vms) : Prop := {
  fa_state : exists m' d f pn aux, s' = set_mem m' (set_vpages (<[p := loaded_page upage f w aux]> (vpages s))
    (push_frame f (Frame (4096 * pn) p 1) (set_disk d s)));
  fa_disk : heap_step (disk s) (disk s');
  fa_mem : paged root upage w img (mem s) (mem s')
}.

Section Fault.
Variables (mem_ok : bool) (s : vms) (root : Z) (tab : gmap Z Z) (upage : Z) (w : bool) (p : Z) (img : list Z).
Hypothesis Henv : proc_env s root tab.
Hypothesis Hn : no_failures (disk s).
Hypothesis Hp : pending s upage w p img.
Hypothesis Hu : is_user upage.
Hypothesis Ho : pg_ofs upage = 0.

Lemma claim_pending pn0 :
  free_page (mem s) USER_POOL pn0 ->
  wpp (vm_do_claim_page p) (fun ok s' => ok = true /\ faulted root p upage w img s s') s.
Proof.
  intros Hfree. destruct Hp as [Hptr (aux & fi & di & Hx & Ha & _ & Hf & _ & Hofs & Hrb & Himg)].
  eapply (claim_ok s root tab p _ pn0); [exact Henv|exact Hn|exact Hfree|exact Hx|exact Hu|exact Ho|].
  intros f pn s' [(m' & d & Es) Hpn Hs Hmap Hoth Hby Hd (Ef & Hf0 & _)].
  assert (vpages s' !! p = Some (with_frame f (lazy_page upage w aux))) as Hx' by (rewrite Es; apply lookup_insert_eq).
  set (s1 := set_vpages (<[p := loaded_page upage f w aux]> (vpages s')) s').
  assert (in_pool (user_pool (mem s')) pn) as Hpool by (apply (mem_step_pool _ _ _ _ pn Hs), Hpn).
  destruct (lazy_load_ok s1 root p aux fi (loaded_page upage f w aux) pn p 1 di)
    as (m2 & d2 & E & Hd2 & Hs2 & Hm2 & Hf2 & Hb2).
  { exact (ms_inv _ _ _ _ Hs). }
  { unfold s1. rewrite Es. exact Ha. }
  { apply lookup_insert_eq. }
  { unfold s1. rewrite Es. apply lookup_insert_eq. }
  { exact Hpool. }
  { exact Hby. }
  { apply (file_env_step (disk s)); [exact Hd|exact Hf]. }
  { exact Hofs. }
  { exact Hrb. }
  apply wpp_wp. exists true, (with_mem_disk m2 d2 s1). split.
  { rewrite (uninit_swap_in s' p _ (4096 * pn) Hx' eq_refl eq_refl eq_refl); [exact E|unfold null; lia]. }
  split; [done|]. split.
  - exists m2, d2, f, pn, aux. unfold s1. rewrite Es. unfold with_mem_disk.
    assert (forall x y (g : gmap Z page), <[p := x]> (<[p := y]> g) = <[p := x]> g) as Hins by (intros; apply insert_insert_eq).
    cbn [vpages set_mem set_vpages]. rewrite Hins. reflexivity.
  - etrans; [exact Hd|exact Hd2].
  - exists pn. split; [exact Hpn|]. split; [by eapply mem_step_trans|]. split.
    + change (mem (with_mem_disk m2 d2 s1)) with m2. rewrite Hb2, Himg.
      assert (content (disk s1) di = content (disk s) di) as ->; [|reflexivity].
      change (disk s1) with (disk s'). exact (bytes_of_heap _ _ _ _ _ (hs_only _ _ Hd)).
    + split.
      * intros j. change (mem (with_mem_disk m2 d2 s1)) with m2. rewrite Hf2. apply Hoth.
      * intros a Hua. change (mem (with_mem_disk m2 d2 s1)) with m2. rewrite Hm2. by apply Hmap.
Qed.

(** The handler, for an address of the page, whatever the access is. *)
Lemma fault_pending a (write : bool) pn0 :
  free_page (mem s) USER_POOL pn0 -> tab !! upage = Some p -> is_user a -> a <> null -> pg_round_down a = upage ->
  wpp (vm_try_handle_fault mem_ok a write true) (fun ok s' => ok = true /\ faulted root p upage w img s s') s.
Proof.
  intros Hfree Ht Hua Ha Hr. unfold vm_try_handle_fault. rewrite (user_vaddr _ Hua). cbn [negb].
  unfold wpp. rewrite (bind_run _ _ s s s eq_refl).
  rewrite (bind_run _ _ _ _ _ (find_page_run s root tab a Henv Ha)), Hr, Ht. cbn [default].
  destruct Henv as [(t & Hpt & _) _]. rewrite (bind_run _ _ s t s).
  2:{ unfold thread_cur, get_proc, mbind, M_mbind, get, lift. by rewrite Hpt. }
  pose proof (pd_ptr _ _ _ _ _ Hp). cbn [default id]. rewrite (proj2 (Z.eqb_neq p null)) by (unfold null; lia). cbn [negb].
  rewrite !andb_false_r. by apply (claim_pending pn0).
Qed.
End Fault.

(** ** What a fault leaves *)

Lemma filter_ne (l : list Z) x : x ∉ l -> base.filter (fun j => j <> x) l = l.
Proof.
  induction l as [|y l IH]; intros Hx; [done|]. rewrite filter_cons. apply not_elem_of_cons in Hx as [Hne Hx].
  rewrite decide_True by done. by rewrite IH.
Qed.

Section After.
Variables (s s' : vms) (root p upage : Z) (w : bool) (img : list Z).
Hypothesis Hu : is_user upage.
Hypothesis Ho : pg_ofs upage = 0.
Hypothesis Hfa : faulted root p upage w img s s'.

Lemma faulted_env tab : proc_env s root tab -> proc_env s' root tab.
Proof.
  intros [Ht _]. destruct Hfa as [(m' & d & f & pn & aux & ->) _ (pn' & _ & Hs & _)]. split; [exact Ht|apply Hs].
Qed.

Lemma faulted_memory : no_failures (disk s) -> no_failures (disk s').
Proof. apply (fa_disk _ _ _ _ _ _ _ Hfa). Qed.

Lemma faulted_pending upage2 w2 q img2 : q <> p -> pending s upage2 w2 q img2 -> pending s' upage2 w2 q img2.
Proof.
  intros Hq [Hptr (aux & fi & di & Hx & Ha & Hab & Hf & Hfb & Hofs & Hrb & ->)].
  pose proof (fa_disk _ _ _ _ _ _ _ Hfa) as Hd. pose proof (hs_next _ _ Hd).
  split; [lia|]. exists aux, fi, di.
  assert (vpages s' !! q = vpages s !! q /\ infos s' = infos s) as [-> ->].
  { destruct (fa_state _ _ _ _ _ _ _ Hfa) as (m' & d & f & pn & aux' & ->). split; [|done]. by apply lookup_insert_ne. }
  split; [exact Hx|]. split; [exact Ha|]. split; [lia|]. split; [by eapply file_env_step|]. split; [lia|].
  split; [exact Hofs|]. split; [exact Hrb|].
  assert (content (disk s') di = content (disk s) di) as ->; [|reflexivity].
  exact (bytes_of_heap _ _ _ _ _ (hs_only _ _ Hd)).
Qed.

Lemma faulted_free l : NoDup l -> (forall j, j ∈ l -> free_page (mem s) USER_POOL j) ->
  exists l', NoDup l' /\ (length l <= S (length l'))%nat /\ forall j, j ∈ l' -> free_page (mem s') USER_POOL j.
Proof.
  intros Hnd Hl. destruct (fa_mem _ _ _ _ _ _ _ Hfa) as (pn & _ & _ & _ & Hoth & _).
  exists (base.filter (fun j => j <> pn) l). split; [by apply NoDup_filter|]. split.
  - destruct (decide (pn ∈ l)) as [Hin|Hin].
    + apply list_elem_of_split in Hin as (l1 & l2 & ->). rewrite list.filter_app, filter_cons_False by auto. apply NoDup_app in Hnd as (_ & Hd1 & [Hd2 _]%NoDup_cons).
      rewrite !filter_ne, !length_app; [simpl; lia|done|].
      intros Hx. apply (Hd1 pn Hx). by left.
    + rewrite filter_ne; [lia|done].
  - intros j Hj. apply list_elem_of_filter in Hj as [Hj1 Hj2]. apply Hoth. auto.
Qed.
End After.

(** ** Addresses of pages *)

Lemma round_down_user a : is_user a -> pg_round_down a = a / 4096 * 4096 /\ is_user (pg_round_down a) /\ pg_ofs (pg_round_down a) = 0.
Proof.
  unfold is_user, KERN_BASE. intros Ha.
  assert (pg_round_down a = a / 4096 * 4096) as ->.
  { unfold pg_round_down. change (u64 (Z.lnot PGMASK)) with (u64 (Z.lnot 0xfff)). apply clear_low_bits. unfold is_u64. lia. }
  pose proof (Z.div_mod a 4096 ltac:(done)). pose proof (Z.mod_pos_bound a 4096 ltac:(done)).
  assert (0 <= a / 4096) by (apply Z.div_pos; lia).
  split; [done|]. split; [lia|]. rewrite pg_ofs_eq. by apply Z.mod_mul.
Qed.

Lemma aligned_pg_no u v : pg_ofs u = 0 -> pg_ofs v = 0 -> pg_no u = pg_no v -> u = v.
Proof. intros Hu Hv E. rewrite (page_of_aligned u Hu), (page_of_aligned v Hv). by rewrite E. Qed.

(** ** Sequences of faults *)

(** The accesses of a process that fault, each with whether it writes; the process
    ends at the first that is not handled. *)
Fixpoint faults (mem_ok : bool) (l : list (Z * bool)) : M vms bool :=
  match l with
  | [] => mret true
  | (a, write) :: l =>
      ok ← vm_try_handle_fault mem_ok a write true;
      if ok : bool then faults mem_ok l else mret false
  end.

(** The pages of the accesses. *)
Definition touched (l : list (Z * bool)) : list Z := (fun x => pg_round_down x.1) <$> l.

Section Sequence.
Variables (mem_ok : bool) (root : Z) (tab : gmap Z Z) (W : Z -> bool) (P : Z -> Z) (IMG : Z -> list Z).

(** An access to a page that is pending. *)
Definition expected (s : vms) (a : Z) : Prop :=
  let u := pg_round_down a in
  is_user a /\ a <> null /\ tab !! u = Some (P u) /\ pending s u (W u) (P u) (IMG u).

Lemma pending_inj s u v w1 w2 p i1 i2 : pending s u w1 p i1 -> pending s v w2 p i2 -> u = v.
Proof. intros [_ (? & ? & ? & H1 & _)] [_ (? & ? & ? & H2 & _)]. rewrite H1 in H2. by injection H2. Qed.

Lemma faults_ok l : forall (s : vms) (fl R : list Z),
  proc_env s root tab -> no_failures (disk s) ->
  NoDup fl -> (forall j, j ∈ fl -> free_page (mem s) USER_POOL j) -> (length l <= length fl)%nat ->
  (forall x, x ∈ l -> expected s x.1) -> NoDup (touched l) ->
  (forall u, u ∈ R -> is_user u /\ pg_ofs u = 0 /\ (u ∉ touched l) /\ resident (mem s) root u (IMG u)) ->
  wpp (faults mem_ok l) (fun ok s' => ok = true /\
    forall u, u ∈ R \/ u ∈ touched l -> resident (mem s') root u (IMG u)) s.
Proof.
  induction l as [|[a write] l IH]; intros s fl R He Hn Hnd Hfl Hlen Hl Hndl HR.
  - apply wpp_ret. split; [done|]. intros u [Hu|Hu]; [by apply HR|by apply elem_of_nil in Hu].
  - cbn [faults]. unfold touched in *. rewrite fmap_cons in *. fold (touched l) in *. apply NoDup_cons in Hndl as [Hnin Hndl]. simpl in Hnin, Hndl, HR.
    destruct fl as [|pn0 fl0]; [simpl in Hlen; lia|].
    destruct (Hl (a, write) ltac:(by left)) as (Hua & Ha0 & Ht & Hp). destruct (round_down_user a Hua) as (_ & Hu & Ho).
    cbn [fst] in *. set (u := pg_round_down a) in *.
    apply wpp_bind. eapply wpp_mono; [eapply (fault_pending mem_ok s root tab u (W u) (P u) (IMG u) He Hn Hp Hu Ho a write pn0)|].
    + apply Hfl. by left.
    + exact Ht.
    + exact Hua.
    + exact Ha0.
    + reflexivity.
    + intros ok s' [-> Hfa]. cbn beta iota.
      destruct (faulted_free _ _ _ _ _ _ _ Hfa (pn0 :: fl0) Hnd Hfl) as (fl' & Hnd' & Hlen' & Hfl').
      eapply wpp_mono; [apply (IH s' fl' (u :: R))|].
      * by eapply faulted_env.
      * by eapply faulted_memory.
      * exact Hnd'.
      * exact Hfl'.
      * simpl in Hlen, Hlen'. lia.
      * intros [b wb] Hb. destruct (Hl (b, wb) ltac:(by right)) as (Hub & Hb0 & Htb & Hpb). cbn [fst] in *.
        split; [done|]. split; [done|]. split; [done|]. eapply faulted_pending; [exact Hfa| |exact Hpb].
        intros E. rewrite E in Hpb. apply Hnin. rewrite (pending_inj _ _ _ _ _ _ _ _ Hp Hpb).
        apply list_elem_of_fmap. by exists (b, wb).
      * exact Hndl.
      * intros v [->|Hv]%elem_of_cons.
        { split; [done|]. split; [done|]. split; [done|]. eapply paged_resident; [apply He|exact Hu|exact Ho|apply (fa_mem _ _ _ _ _ _ _ Hfa)]. }
        destruct (HR v Hv) as (Huv & Hov & Hnv & Hrv). apply not_elem_of_cons in Hnv as [Hne Hnv].
        split; [done|]. split; [done|]. split; [done|]. eapply paged_resident_other; [apply (fa_mem _ _ _ _ _ _ _ Hfa)|exact Huv| |exact Hrv].
        intros E. apply Hne. by apply aligned_pg_no.
      * intros ok s2 [Hok Hres]. split; [exact Hok|]. intros v Hv. apply Hres.
        rewrite !elem_of_cons in *. tauto.
Qed.
End Sequence.
