(* ===== verification/SegLoad.v ===== *)
(** * The segments of a program

    Making the pages of a segment, to be filled at their first faults, and loading a
    segment at once: both give the same contents. *)

From S2P Require Import Prelude Interfaces Bitmap VMem Palloc PallocFacts Mmu MmuFacts MmuTheorems Hash FsState Inode InodeFacts FreeMap FsFile FileTheorems VmState UserMem Pager Vm Loader VmFacts Claim Faults.

(** ** What making a page leaves as it is *)

(** The disk after files have been opened and memory allocated. *)
Record disk_grown (d d' : fs) : Prop := {
  dg_sectors : sectors d' = sectors d;
  dg_capacity : capacity d' = capacity d;
  dg_files f : f < next_ptr d -> files d' !! f = files d !! f;
  dg_inodes p i : inodes d !! p = Some i -> exists i', inodes d' !! p = Some i' /\ data i' = data i;
  dg_memory : no_failures d -> no_failures d';
  dg_next : next_ptr d <= next_ptr d'
}.

#[export] Instance disk_grown_preorder : PreOrder disk_grown.
Proof.
  split.
  - intros d. split; try done. intros p i Hp. by exists i.
  - intros d1 d2 d3 [H1 H2 H3 H4 H5 H6] [G1 G2 G3 G4 G5 G6]. split.
    + by rewrite G1.
    + by rewrite G2.
    + intros f Hf. rewrite G3 by lia. by apply H3.
    + intros p i Hi. destruct (H4 p i Hi) as (i2 & Hi2 & E2). destruct (G4 p i2 Hi2) as (i3 & Hi3 & E3).
      exists i3. split; [done|congruence].
    + auto.
    + lia.
Qed.

Lemma heap_grown d d' : heap_step d d' -> disk_grown d d'.
Proof. intros [(l & n & ->) Hn Hf]. split; try done. intros p i Hp. by exists i. Qed.

Lemma content_sectors d d' di : sectors d' = sectors d -> content d' di = content d di.
Proof. intros E. unfold content, bytes_of, file_byte, byte_at. by rewrite E. Qed.

Lemma open_at_grown d d' p i : disk_grown d d' -> open_at d p i ->
  exists i', open_at d' p i' /\ data i' = data i.
Proof.
  intros Hg [H1 H2 H3]. destruct (dg_inodes _ _ Hg p i H2) as (i' & Hi' & E). exists i'. split; [|done].
  split; [done|done|]. rewrite E. destruct H3 as [G1 G2 G3]. split; [done|done|]. by rewrite (dg_capacity _ _ Hg).
Qed.

Lemma disk_ok_grown d d' : disk_grown d d' -> disk_ok d -> disk_ok d'.
Proof. intros Hg [H1 H2]. split; rewrite (dg_capacity _ _ Hg), ?(dg_sectors _ _ Hg); done. Qed.

Lemma file_env_grown d d' f di : disk_grown d d' -> f < next_ptr d -> file_env d f di -> file_env d' f di.
Proof.
  intros Hg Hf [Hd Hn Hb (Hf0 & y & i & Hy & Ho & E)]. split.
  - by eapply disk_ok_grown.
  - by apply Hg.
  - rewrite (dg_sectors _ _ Hg). exact Hb.
  - split; [done|]. destruct (open_at_grown _ _ _ _ Hg Ho) as (i' & Ho' & E'). exists y, i'.
    split; [by rewrite (dg_files _ _ Hg)|]. split; [done|congruence].
Qed.

Record grown (s s' : vms) : Prop := {
  gr_mem : mem s' = mem s;
  gr_pages q : q < next_ptr (disk s) -> vpages s' !! q = vpages s !! q;
  gr_infos q : q < next_ptr (disk s) -> infos s' !! q = infos s !! q;
  gr_disk : disk_grown (disk s) (disk s')
}.

#[export] Instance grown_preorder : PreOrder grown.
Proof.
  split; [done|]. intros s1 s2 s3 [H1 H2 H3 H4] [G1 G2 G3 G4]. pose proof (dg_next _ _ H4). split.
  - by rewrite G1.
  - intros q Hq. rewrite G2 by lia. by apply H2.
  - intros q Hq. rewrite G3 by lia. by apply H3.
  - by etrans.
Qed.

Lemma pending_grown s s' upage w p img : grown s s' -> pending s upage w p img -> pending s' upage w p img.
Proof.
  intros [_ Hp Hi Hg] [Hptr (aux & fi & di & Hx & Ha & Hab & Hf & Hfb & Hofs & Hrb & ->)].
  pose proof (dg_next _ _ Hg). split; [lia|]. exists aux, fi, di.
  split; [by rewrite Hp by lia|]. split; [by rewrite Hi|]. split; [lia|]. split; [by eapply file_env_grown|].
  split; [lia|]. split; [exact Hofs|]. split; [exact Hrb|].
  by rewrite (content_sectors _ _ _ (dg_sectors _ _ Hg)).
Qed.

(** ** Reopening a file *)

Lemma file_reopen_run d f y i :
  no_failures d -> files d !! f = Some y -> open_at d (f_inode y) i -> - 2 ^ 31 <= open_cnt i < 2 ^ 31 - 1 ->
  exists d', file_reopen f d = Ok (next_ptr d, d') /\ disk_grown d d' /\ next_ptr d' = next_ptr d + 1 /\
    files d' !! next_ptr d = Some (File (f_inode y) 0 false 1 0) /\
    inodes d' !! f_inode y = Some (Inode (sector i) (open_cnt i + 1) (removed i) (deny_write_cnt i) (data i)).
Proof.
  intros Hn Hy [Hp Hi Hda] Hc. set (p := f_inode y) in *.
  set (i' := Inode (sector i) (open_cnt i + 1) (removed i) (deny_write_cnt i) (data i)).
  set (d1 := set_inodes (<[p := i']> (inodes d)) d).
  destruct (malloc_run d1 Hn) as (d2 & Em & Hh & Hnp & Hn2).
  assert (next_ptr d1 = next_ptr d) as En by done. rewrite En in *.
  set (g := File p 0 false 1 0). exists (set_files (<[next_ptr d := g]> (files d2)) d2).
  pose proof Hh as [(l & n & E2) Hle _].
  split; [|split; [|split; [done|split; [apply lookup_insert_eq|]]]].
  - unfold file_reopen. rewrite (bind_run _ _ d y d) by (by unfold get_file, mbind, M_mbind, get, lift; rewrite Hy).
    fold p. rewrite (bind_run _ _ d p d1).
    2:{ unfold inode_reopen. rewrite (proj2 (Z.eqb_neq p FsState.null)) by done. cbn [negb].
        rewrite (bind_run _ _ d i d) by (by unfold get_inode, mbind, M_mbind, get, lift; rewrite Hi).
        rewrite (bind_run (lift _) _ d (open_cnt i + 1) d); [reflexivity|].
        unfold lift. rewrite int32_ok; [done|]. unfold is_s32. lia. }
    unfold file_open. rewrite (bind_run _ _ d1 (next_ptr d) d2) by exact Em.
    rewrite (proj2 (Z.eqb_neq p FsState.null)), (proj2 (Z.eqb_neq (next_ptr d) FsState.null)) by done. reflexivity.
  - split; [by rewrite E2|by rewrite E2| | | |done].
    + intros x Hx. simpl. rewrite lookup_insert_ne by lia. by rewrite E2.
    + intros q j Hq. simpl. rewrite E2. simpl. destruct (decide (q = p)) as [->|].
      * exists i'. split; [apply lookup_insert_eq|]. assert (j = i) as -> by congruence. done.
      * exists j. by rewrite lookup_insert_ne.
    + intros _. destruct Hh as [_ _ Hf]. by destruct (Hf Hn).
  - simpl. rewrite E2. apply lookup_insert_eq.
Qed.

(** ** Making a page *)

Lemma alloc_page_run mem_ok s root tab type upage w init aux ini :
  proc_env s root tab -> no_failures (disk s) -> initializer_of type = Some ini ->
  upage <> null -> pg_round_down upage = upage -> tab !! upage = None -> Z.of_nat (size tab) < 2 ^ 64 - 1 ->
  exists s', vm_alloc_page_with_initializer mem_ok type upage w init aux s = Ok (true, s') /\
    proc_env s' root (<[upage := next_ptr (disk s)]> tab) /\
    vpages s' = <[next_ptr (disk s) := Page UNINIT_OPS upage null w (Init init) type aux ini]> (vpages s) /\
    infos s' = infos s /\ mem s' = mem s /\ heap_step (disk s) (disk s') /\ next_ptr (disk s') = next_ptr (disk s) + 1.
Proof.
  intros He Hn Hini Hu Hr Htab Hsz.
  destruct (malloc_run _ Hn) as (d & Em & Hd & Hp & Hnp). set (p := next_ptr (disk s)) in *.
  set (x := Page UNINIT_OPS upage null w (Init init) type aux ini).
  set (s1 := set_disk d s). set (s2 := set_vpages (<[p := x]> (vpages s)) s1).
  assert (proc_env s2 root tab) as He2 by (destruct He as [H1 H2]; split; [exact H1|exact H2]).
  destruct (insert_page_run mem_ok s2 root tab p x He2 (lookup_insert_eq _ _ _) Hp Hsz) as (t & h & E & He').
  rewrite decide_True in He' by exact Htab. rewrite bool_decide_eq_true_2 in E by exact Htab.
  exists (with_spt t h s2). split; [|split; [exact He'|split_and!; done]].
  unfold vm_alloc_page_with_initializer. rewrite (bind_run _ _ s s s eq_refl).
  rewrite (bind_run _ _ _ _ _ (find_page_run s root tab upage He Hu)), Hr, Htab. cbn [default Z.eqb null].
  rewrite (bind_run _ _ s p s1) by (by apply zoom_Ok).
  rewrite (bind_run (assertM _) _ s1 tt s1) by (by rewrite (proj2 (Z.eqb_neq p null))). rewrite Hini.
  rewrite (bind_run (uninit_new _ _ _ _ _ _) _ s1 tt (set_vpages (<[p := with_writable false x]> (vpages s)) s1)).
  2:{ unfold uninit_new. by rewrite (bind_run (assertM _) _ s1 tt s1) by (by rewrite (proj2 (Z.eqb_neq p null))). }
  rewrite (bind_run (update_vpage _ _) _ _ tt s2).
  2:{ rewrite (update_vpage_run _ p (with_writable false x)) by apply lookup_insert_eq. unfold s2. do 2 f_equal.
      cbn [vpages set_vpages]. rewrite insert_insert_eq. reflexivity. }
  rewrite (bind_run _ _ _ _ _ E). reflexivity.
Qed.

(** ** One page of a segment *)

(** [file] is open as [y] on inode [i], and [n] pages can be made. *)
Record seg_env (s : vms) (root : Z) (tab : gmap Z Z) (file : Z) (y : FsState.file) (i : inode) (n : Z) : Prop := {
  se_proc : proc_env s root tab;
  se_file : file < next_ptr (disk s) /\ files (disk s) !! file = Some y /\ open_at (disk s) (f_inode y) i;
  se_disk : disk_ok (disk s);
  se_memory : no_failures (disk s);
  se_bytes k l : sectors (disk s) !! k = Some l -> bytes l;
  se_count : - 2 ^ 31 <= open_cnt i /\ open_cnt i + n < 2 ^ 31;
  se_size : Z.of_nat (size tab) + n < 2 ^ 64
}.

Lemma open_at_unique d p i j : open_at d p i -> inodes d !! p = Some j -> j = i.
Proof. intros [_ H _] H'. congruence. Qed.

Lemma load_page_ok mem_ok s root tab file y i n ofs upage rb zb w :
  seg_env s root tab file y i (n + 1) -> 0 <= n -> upage <> null -> pg_round_down upage = upage -> tab !! upage = None ->
  0 <= ofs < 2 ^ 31 -> 0 <= rb ->
  exists s' p i', load_page mem_ok file ofs upage rb zb w s = Ok (true, s') /\
    seg_env s' root (<[upage := p]> tab) file y i' n /\ data i' = data i /\ grown s s' /\
    pending s' upage w p (page_image (content (disk s) (data i)) ofs (Z.min rb 4096)).
Proof.
  intros [He (Hfb & Hy & Hopen) Hd Hn Hby Hcnt Hsz] Hn0 Hu Hr Htab Hofs Hrb.
  destruct (malloc_run _ Hn) as (d1 & E1 & Hh1 & Haux & Hnp1). set (aux := next_ptr (disk s)) in *.
  pose proof (heap_grown _ _ Hh1) as Hg1. pose proof Hh1 as [(l1 & n1 & Ed1) _ Hf1].
  destruct (open_at_grown _ _ _ _ Hg1 Hopen) as (i1 & Hopen1 & Ei1).
  assert (i1 = i) as ->.
  { assert (inodes d1 !! f_inode y = Some i) as H by (rewrite Ed1; apply Hopen). symmetry. by apply (open_at_unique _ _ _ _ Hopen1). }
  destruct (file_reopen_run d1 file y i) as (d2 & E2 & Hg2 & Hnp2 & Hf2 & Hi2);
    [by apply Hf1|by rewrite (dg_files _ _ Hg1)|exact Hopen1|lia|]. rewrite Hnp1 in *.
  set (i' := Inode _ _ _ _ _) in Hi2.
  assert (disk_grown (disk s) d2) as Hg by (by etrans).
  set (fi := FileInfo (aux + 1) ofs upage rb zb w None).
  set (s3 := set_infos (<[aux := fi]> (infos s)) (set_disk d2 s)).
  assert (proc_env s3 root tab) as He3 by (destruct He as [H1 H2]; split; [exact H1|exact H2]).
  assert (no_failures (disk s3)) as Hn3 by (by apply Hg).
  destruct (alloc_page_run mem_ok s3 root tab VM_ANON upage w LAZY_LOAD_SEGMENT aux ANON_INITIALIZER)
    as (s4 & E4 & He4 & Hv4 & Hinf4 & Hm4 & Hh4 & Hnp4); [done|done|done|done|done|done|lia|].
  change (next_ptr (disk s3)) with (next_ptr d2) in *. change (disk s3) with d2 in Hh4. rewrite Hnp2 in *.
  assert (disk_grown (disk s) (disk s4)) as Hg4 by (etrans; [exact Hg|by apply heap_grown]).
  pose proof Hn as [_ Hpos]. fold aux in Hpos.
  assert (disk_ok d2) as Hd2 by (by eapply disk_ok_grown).
  assert (open_at d2 (f_inode y) i') as Ho2.
  { destruct (open_at_grown _ _ _ _ Hg Hopen) as (j & Ho & _).
    assert (i' = j) as -> by (by apply (open_at_unique _ _ _ _ Ho)). exact Ho. }
  destruct (heap_step_open _ _ _ _ Hh4 Hd2 Ho2) as [Hd4 Ho4].
  exists s4, (aux + 1 + 1), i'. split; [|split; [|split; [done|split]]].
  - unfold load_page. rewrite (bind_run _ _ s aux (set_disk d1 s)) by (by apply zoom_Ok).
    rewrite (proj2 (Z.eqb_neq aux null)) by done.
    rewrite (bind_run _ _ _ (aux + 1) (set_disk d2 (set_disk d1 s))) by (by apply zoom_Ok).
    rewrite (bind_run (put_info _ _) _ _ tt s3) by done. exact E4.
  - destruct Hh4 as [(l4 & n4 & Ed4) _ Hf4]. split.
    + exact He4.
    + split; [rewrite Hnp4; lia|]. split; [|exact Ho4]. rewrite Ed4. simpl. by rewrite (dg_files _ _ Hg).
    + exact Hd4.
    + by apply Hg4.
    + rewrite (dg_sectors _ _ Hg4). exact Hby.
    + simpl. lia.
    + rewrite map_size_insert_None by done. lia.
  - split; [exact Hm4| | |exact Hg4].
    + intros q Hq. rewrite Hv4. apply lookup_insert_ne. fold aux in Hq. lia.
    + intros q Hq. rewrite Hinf4. apply lookup_insert_ne. fold aux in Hq. lia.
  - split; [rewrite Hnp4; lia|]. exists aux, fi, (data i). split; [rewrite Hv4; apply lookup_insert_eq|].
    split; [rewrite Hinf4; apply lookup_insert_eq|]. split; [rewrite Hnp4; lia|]. split.
    + apply (file_env_step d2); [exact Hh4|]. split.
      * exact Hd2.
      * by apply Hg.
      * rewrite (dg_sectors _ _ Hg). exact Hby.
      * split; [unfold null in *; simpl; lia|]. exists (File (f_inode y) 0 false 1 0), i'. by split.
    + split; [rewrite Hnp4; simpl; lia|]. split; [exact Hofs|]. split; [exact Hrb|].
      by rewrite (content_sectors _ _ _ (dg_sectors _ _ Hg4)).
Qed.

(** ** The loop *)

(** The contents of page [k] of a segment. *)
Definition seg_image (file : list Z) (ofs rb k : Z) : list Z :=
  page_image file (ofs + Z.min rb (4096 * k)) (Z.min (Z.max 0 (rb - 4096 * k)) 4096).

Lemma seg_image_0 file ofs rb : 0 <= rb -> seg_image file ofs rb 0 = page_image file ofs (Z.min rb 4096).
Proof.
  intros H. unfold seg_image. replace (ofs + Z.min rb (4096 * 0)) with ofs by lia.
  by replace (Z.min (Z.max 0 (rb - 4096 * 0)) 4096) with (Z.min rb 4096) by lia.
Qed.

Lemma seg_image_S file ofs rb k :
  0 <= rb -> 1 <= k -> seg_image file (ofs + Z.min rb 4096) (rb - Z.min rb 4096) (k - 1) = seg_image file ofs rb k.
Proof.
  intros H Hk. unfold seg_image.
  replace (ofs + Z.min rb 4096 + Z.min (rb - Z.min rb 4096) (4096 * (k - 1))) with (ofs + Z.min rb (4096 * k)) by lia.
  by replace (Z.max 0 (rb - Z.min rb 4096 - 4096 * (k - 1))) with (Z.max 0 (rb - 4096 * k)) by lia.
Qed.

(** The lengths of a segment of [n] pages from user address [upage] on. *)
Record seg_ok (upage rb zb : Z) (n : nat) : Prop := {
  so_total : rb + zb = 4096 * Z.of_nat n;
  so_read : 0 <= rb < 2 ^ 31;
  so_zero : 0 <= zb < 2 ^ 32;
  so_start : 0 < upage /\ pg_ofs upage = 0;
  so_end : upage + 4096 * Z.of_nat n <= KERN_BASE
}.

(** One page less: what both loops compute for the next round. *)
Lemma seg_next upage rb zb n :
  seg_ok upage rb zb (S n) ->
  let m := if rb <? PGSIZE then rb else PGSIZE in
  m = Z.min rb 4096 /\ u64 (upage + PGSIZE) = upage + 4096 /\ u32 (rb - m) = rb - m /\
  u32 (zb - (PGSIZE - m)) = zb - (4096 - m) /\ seg_ok (upage + 4096) (rb - m) (zb - (4096 - m)) n.
Proof.
  intros [H1 H2 H3 [H4 H4'] H5] m. rewrite PGSIZE_eq in *. unfold KERN_BASE in *.
  assert (m = Z.min rb 4096) as -> by (unfold m; rewrite PGSIZE_eq; destruct (Z.ltb_spec rb 4096); lia).
  split; [done|]. rewrite u64_small by (unfold is_u64; lia). rewrite !u32_small by (unfold is_u32; lia).
  split; [done|]. split; [done|]. split; [done|]. split; [lia|lia|lia| |unfold KERN_BASE; lia].
  split; [lia|]. rewrite pg_ofs_eq in *. by rewrite <-Zplus_mod_idemp_l, H4'.
Qed.

Lemma seg_more upage rb zb n : seg_ok upage rb zb n -> (rb >? 0) || (zb >? 0) = negb (Nat.eqb n 0).
Proof.
  intros [H1 H2 H3 _ _]. destruct n as [|n]; simpl.
  - destruct (Z.gtb_spec rb 0), (Z.gtb_spec zb 0); try done; lia.
  - destruct (Z.gtb_spec rb 0), (Z.gtb_spec zb 0); try done; lia.
Qed.

Lemma round_down_aligned u : is_user u -> pg_ofs u = 0 -> pg_round_down u = u.
Proof.
  intros Hu Ho. destruct (round_down_user u Hu) as (-> & _). rewrite pg_ofs_eq in Ho.
  pose proof (Z.div_mod u 4096 ltac:(done)). lia.
Qed.

Section Lazy.
Variables (mem_ok : bool) (root file : Z) (y : FsState.file) (w : bool).

(** The pages of the segment are pending in [s'], whose table is [tab']. *)
Record segment_pending (s s' : vms) (tab tab' : gmap Z Z) (upage : Z) (n : nat) (img : Z -> list Z) : Prop := {
  sp_proc : proc_env s' root tab';
  sp_memory : no_failures (disk s');
  sp_grown : grown s s';
  sp_pages k : 0 <= k < Z.of_nat n ->
    exists p, tab' !! (upage + 4096 * k) = Some p /\ pending s' (upage + 4096 * k) w p (img k);
  sp_others u : (forall k, 0 <= k < Z.of_nat n -> u <> upage + 4096 * k) -> tab' !! u = tab !! u
}.

Lemma load_segment_loop_ok n : forall fuel s tab i ofs upage rb zb,
  seg_env s root tab file y i (Z.of_nat n) -> seg_ok upage rb zb n -> 0 <= ofs -> ofs + rb < 2 ^ 31 -> (n < fuel)%nat ->
  (forall k, 0 <= k < Z.of_nat n -> tab !! (upage + 4096 * k) = None) ->
  exists s' tab', load_segment_loop mem_ok fuel file ofs upage rb zb w s = Ok (true, s') /\
    segment_pending s s' tab tab' upage n (seg_image (content (disk s) (data i)) ofs rb).
Proof.
  induction n as [|n IH]; intros [|fuel] s tab i ofs upage rb zb He Hs Ho Hob Hf Htab; try lia.
  - exists s, tab. cbn [load_segment_loop]. rewrite (seg_more _ _ _ _ Hs). split; [done|].
    split; [apply He|apply He|done|lia|done].
  - cbn [load_segment_loop]. rewrite (seg_more _ _ _ _ Hs). cbn [Nat.eqb negb].
    destruct (seg_next _ _ _ _ Hs) as (Em & E1 & E2 & E3 & Hs'). rewrite E1, E2, E3. clear E1 E2 E3.
    set (m := if rb <? PGSIZE then rb else PGSIZE) in *.
    pose proof Hs as [Ht Hr _ [Hu Hal] Hend]. assert (is_user upage) as Hus by (unfold is_user; lia).
    destruct (load_page_ok mem_ok s root tab file y i (Z.of_nat n) ofs upage rb zb w) as (s1 & p & i1 & E & He1 & Ei & Hg1 & Hp1).
    { by rewrite Nat2Z.inj_succ in He. }
    { lia. }
    { unfold null. lia. }
    { by apply round_down_aligned. }
    { rewrite <-(Z.add_0_r upage) at 1. apply (Htab 0). lia. }
    { lia. }
    { lia. }
    rewrite (bind_run _ _ _ _ _ E). cbn [negb]. rewrite (s32_small (ofs + m)) by (unfold is_s32; lia).
    destruct (IH fuel s1 (<[upage := p]> tab) i1 (ofs + m) (upage + 4096) (rb - m) (zb - (4096 - m)) He1 Hs')
      as (s2 & tab2 & E2 & [G1 G2 G3 G4 G5]); [lia|lia|lia| |].
    { intros k Hk. rewrite lookup_insert_ne by lia. replace (upage + 4096 + 4096 * k) with (upage + 4096 * (k + 1)) by lia.
      apply Htab. lia. }
    exists s2, tab2. split; [exact E2|]. split; [exact G1|exact G2|by etrans| |].
    + intros k Hk. destruct (decide (k = 0)) as [->|Hk0].
      * exists p. rewrite Z.mul_0_r, Z.add_0_r. split.
        { rewrite G5 by lia. apply lookup_insert_eq. }
        rewrite seg_image_0 by lia. by eapply pending_grown.
      * destruct (G4 (k - 1) ltac:(lia)) as (q & Hq1 & Hq2).
        replace (upage + 4096 + 4096 * (k - 1)) with (upage + 4096 * k) in * by lia. exists q. split; [done|].
        rewrite Ei, (content_sectors _ _ _ (dg_sectors _ _ (gr_disk _ _ Hg1))), Em, seg_image_S in Hq2 by lia. exact Hq2.
    + intros u Huk. rewrite G5.
      * apply lookup_insert_ne. intros ->. apply (Huk 0); lia.
      * intros k Hk ->. apply (Huk (k + 1)); lia.
Qed.
End Lazy.
