(* ===== verification/LoadTheorems.v ===== *)
(** * The theorems about loading programs

    Loading a segment at its page faults is loading it at once. *)

From S2P Require Import Prelude Interfaces Bitmap VMem Palloc PallocFacts Mmu MmuFacts MmuTheorems Hash FsState Inode InodeFacts FreeMap FsFile FileTheorems VmState UserMem Pager Vm Loader VmFacts Claim Faults SegLoad.
From S2P Require Import PallocTheorems FsTheorems VmExample.

(** ** Loading at once *)

(** [file] is open as [y] on inode [i]. *)
Record now_env (s : vms) (root : Z) (tab : gmap Z Z) (file : Z) (y : FsState.file) (i : inode) : Prop := {
  ne_proc : proc_env s root tab;
  ne_file : files (disk s) !! file = Some y /\ open_at (disk s) (f_inode y) i /\ 0 <= f_pos y < 2 ^ 31;
  ne_disk : disk_ok (disk s);
  ne_memory : no_failures (disk s);
  ne_bytes k l : sectors (disk s) !! k = Some l -> bytes l
}.

Definition at_pos (y : FsState.file) (pos : Z) : FsState.file :=
  File (f_inode y) pos (f_deny_write y) (dup_count y) (mapping_cnt y).

Lemma file_read_run d f y i size :
  disk_ok d -> no_failures d -> files d !! f = Some y -> open_at d (f_inode y) i -> 0 <= f_pos y < 2 ^ 31 -> size < 2 ^ 31 ->
  exists d1, let b := bytes_read size (f_pos y) (content d (data i)) in
    file_read f size d = Ok (b, set_files (<[f := at_pos y (f_pos y + Z.of_nat (length b))]> (files d1)) d1) /\
    heap_step d d1 /\ f_pos y + Z.of_nat (length b) < 2 ^ 31.
Proof.
  intros Hd Hn Hy Ho Hp Hsz.
  destruct (inode_read_ok (f_inode y) i size (f_pos y) d Hd Ho ltac:(apply Hn) Hp Hsz) as (r & d1 & E & Hh & n & [_ Hm] & ->).
  specialize (Hm Hn). simpl in E. rewrite Hm, read_spec in E by lia.
  set (b := bytes_read size (f_pos y) (content d (data i))) in *.
  assert (f_pos y + Z.of_nat (length b) < 2 ^ 31) as Hlt.
  { unfold b, bytes_read. rewrite length_take, length_drop, length_content. destruct (da_length _ _ (oa_data _ _ _ Ho)). lia. }
  exists d1. split; [|by split]. unfold file_read.
  rewrite (bind_run _ _ d y d) by (by unfold get_file, mbind, M_mbind, get, lift; rewrite Hy).
  rewrite (bind_run _ _ _ _ _ E).
  rewrite (bind_run (lift _) _ d1 (f_pos y + Z.of_nat (length b)) d1); [reflexivity|].
  unfold lift. rewrite int32_ok; [done|]. unfold is_s32. lia.
Qed.

(** install_page, when it maps the page. *)
Lemma install_run s root tab upage pn w :
  proc_env s root tab -> is_user upage -> pg_ofs upage = 0 -> in_pool (user_pool (mem s)) pn ->
  (exists m', install_page upage (4096 * pn) w s = Ok (true, set_mem m' s) /\ mem_step root (-1) (mem s) m' /\
    (forall va, is_user va -> mapping m' root va =
       if pg_no va =? pg_no upage then Some (4096 * (pn - KERN_PAGE) + leaf_flags w) else mapping (mem s) root va) /\
    (forall j, free_page m' USER_POOL j <-> free_page (mem s) USER_POOL j)) \/
  exists s', install_page upage (4096 * pn) w s = Ok (false, s').
Proof.
  intros He Hu Ho Hp. pose proof He as [_ Hi].
  assert (install_page upage (4096 * pn) w s =
    if translate (mem s) root upage =? null then in_mem (pml4_set_page (4096 * root) upage (4096 * pn) w) s else Ok (false, s)) as ->.
  { unfold install_page. rewrite (bind_run _ _ _ _ _ (env_pml4 _ _ _ He)).
    rewrite (bind_run (in_mem _) _ s (translate (mem s) root upage) (set_mem (mem s) s)).
    - assert (set_mem (mem s) s = s) as -> by by destruct s. by destruct (_ =? _).
    - apply zoom_Ok. apply get_page_run; [apply Hi|apply Hi|done]. }
  destruct (translate _ _ _ =? null); [|right; by exists s].
  destruct (map_user (mem s) root upage pn w Hi Hu Ho Hp) as (b & m' & E & Hs & Hmap & Hf). destruct b.
  - left. exists m'. split; [by apply zoom_Ok|]. by split.
  - right. exists (set_mem m' s). by apply zoom_Ok.
Qed.

(** ** One round *)

Section Now.
Variables (root file : Z) (w : bool).

Lemma load_now_round fuel s s' tab y i upage rb zb n :
  now_env s root tab file y i -> seg_ok upage rb zb (S n) ->
  load_now_loop (S fuel) file upage rb zb w s = Ok (true, s') ->
  let m := Z.min rb 4096 in
  exists s1 y1, load_now_loop fuel file (upage + 4096) (rb - m) (zb - (4096 - m)) w s1 = Ok (true, s') /\
    now_env s1 root tab file y1 i /\ f_pos y1 = f_pos y + m /\ content (disk s1) (data i) = content (disk s) (data i) /\
    paged root upage w (page_image (content (disk s) (data i)) (f_pos y) m) (mem s) (mem s1).
Proof.
  intros [He (Hy & Hopen & Hpos) Hd Hn Hby] Hs H m. pose proof He as [_ Hi].
  cbn [load_now_loop] in H. rewrite (seg_more _ _ _ _ Hs) in H. cbn [Nat.eqb negb] in H.
  destruct (seg_next _ _ _ _ Hs) as (Em & E1 & E2 & E3 & Hs'). rewrite E1, E2, E3, Em in H. fold m in H. clear E1 E2 E3 Em.
  pose proof Hs as [Ht Hr _ [Hu0 Hal] Hend]. assert (is_user upage) as Hu by (unfold is_user; lia).
  destruct (alloc_user_cases false (mem s) root Hi) as [(pn & m1 & Ea & Hfr & Hp0 & Hst & Hmap & Hoth & Hpb)|[Ea _]].
  2:{ rewrite (bind_run (in_mem _) _ s null (set_mem (mem s) s)) in H by (by apply zoom_Ok). discriminate H. }
  rewrite (bind_run (in_mem _) _ s (4096 * pn) (set_mem m1 s)) in H by (by apply zoom_Ok).
  rewrite (proj2 (Z.eqb_neq (4096 * pn) null)) in H by done.
  destruct (file_read_run (disk s) file y i m Hd Hn Hy Hopen Hpos ltac:(lia)) as (d1 & Er & Hh & Hlt).
  set (b := bytes_read m (f_pos y) (content (disk s) (data i))) in *.
  set (y1 := at_pos y (f_pos y + Z.of_nat (length b))) in *. set (d2 := set_files (<[file := y1]> (files d1)) d1) in *.
  set (s2 := set_disk d2 (set_mem m1 s)).
  rewrite (bind_run (on_disk _) _ _ b s2) in H by (by apply zoom_Ok).
  assert (in_pool (user_pool m1) pn) as Hpool by (apply (mem_step_pool _ _ _ _ pn Hst), Hfr).
  assert (bytes b) as Hbb by (by apply Forall_take, Forall_drop, content_bytes).
  assert (length b <= Z.to_nat m)%nat as Hbl by (unfold b, bytes_read; rewrite length_take; lia).
  destruct (fill_page root pn b m1 (ms_inv _ _ _ _ Hst) Hpool Hpb Hbb ltac:(lia)) as (m2 & m3 & Ew1 & Ew2 & Hst3 & Hmap3 & Hf3 & Hb3).
  rewrite (bind_run (in_mem _) _ s2 tt (set_mem m2 s2)) in H by (by apply zoom_Ok).
  destruct (Z.eqb_spec (Z.of_nat (length b)) m) as [Hbm|_]; cbn [negb] in H.
  2:{ apply bind_Ok in H as (? & ? & _ & H). discriminate H. }
  replace (Z.to_nat (PGSIZE - m)) with (4096 - length b)%nat in H by (rewrite PGSIZE_eq; lia). rewrite <-Hbm in H at 1.
  rewrite (bind_run (in_mem _) _ (set_mem m2 s2) tt (set_mem m3 (set_mem m2 s2))) in H by (by apply zoom_Ok).
  set (s3 := set_mem m3 (set_mem m2 s2)) in *.
  assert (proc_env s3 root tab) as He3 by (destruct He as [P1 _]; split; [exact P1|apply Hst3]).
  assert (mem_step root pn (mem s) m3) as Hst13 by (by eapply mem_step_trans).
  assert (in_pool (user_pool (mem s3)) pn) as Hpool3 by (by apply (mem_step_pool _ _ _ _ pn Hst3)).
  destruct (install_run s3 root tab upage pn w He3 Hu Hal Hpool3) as [(m4 & Ei & Hst4 & Hmap4 & Hf4)|(s4 & Ei)];
    rewrite (bind_run _ _ _ _ _ Ei) in H; cbn [negb] in H.
  2:{ apply bind_Ok in H as (? & ? & _ & H). discriminate H. }
  exists (set_mem m4 s3), y1. split; [exact H|].
  destruct (heap_step_open _ _ _ _ Hh Hd Hopen) as [Hd1 Ho1]. pose proof Hh as [(l & k & Ed) _ Hfl].
  assert (disk (set_mem m4 s3) = d2) as Edk by reflexivity.
  split; [|split; [|split]].
  - split; rewrite ?Edk.
    + destruct He as [P1 _]. split; [exact P1|apply Hst4].
    + split; [apply lookup_insert_eq|]. split; [|simpl; lia]. destruct Ho1 as [O1 O2 [O3 O4 O5]]. split; [exact O1|exact O2|by split].
    + destruct Hd1 as [D1 D2]. split; [exact D1|exact D2].
    + exact (Hfl Hn).
    + simpl. rewrite Ed. exact Hby.
  - simpl. lia.
  - rewrite Edk. apply content_sectors. simpl. by rewrite Ed.
  - exists pn. split; [exact Hfr|]. split; [eapply mem_step_trans; [exact Hst13|apply mem_step_weaken; [apply Hst3|exact Hst4]]|].
    split; [|split].
    + change (mem (set_mem m4 s3)) with m4. rewrite (mem_step_bytes root (-1) m3 m4 pn Hst4 Hpool3); [exact Hb3|].
      intros ->. pose proof (user_page_range _ _ _ (ms_inv _ _ _ _ Hst3) Hpool3) as Hrg. rewrite KERN_PAGE_eq in Hrg. lia.
    + intros j. change (mem (set_mem m4 s3)) with m4. rewrite Hf4. change (mem s3) with m3. rewrite Hf3. apply Hoth.
    + intros a Ha. change (mem (set_mem m4 s3)) with m4. rewrite Hmap4 by done.
      destruct (_ =? _); [done|]. change (mem s3) with m3. by rewrite Hmap3, Hmap.
Qed.

Lemma page_beyond upage k : 0 <= upage -> pg_ofs upage = 0 -> upage + 4096 * k + 4096 <= KERN_BASE -> 0 <= k ->
  is_user (upage + 4096 * k) /\ pg_ofs (upage + 4096 * k) = 0.
Proof.
  intros Hu Ho He Hk. split; [unfold is_user; lia|]. rewrite pg_ofs_eq in *. by rewrite Z.mul_comm, Z.mod_add.
Qed.

Lemma load_now_loop_ok n : forall fuel s s' tab y i upage rb zb,
  now_env s root tab file y i -> seg_ok upage rb zb n -> (n < fuel)%nat ->
  load_now_loop fuel file upage rb zb w s = Ok (true, s') ->
  (forall k, 0 <= k < Z.of_nat n ->
    resident (mem s') root (upage + 4096 * k) (seg_image (content (disk s) (data i)) (f_pos y) rb k)) /\
  (forall v img, is_user v -> pg_ofs v = 0 -> (forall k, 0 <= k < Z.of_nat n -> v <> upage + 4096 * k) ->
    resident (mem s) root v img -> resident (mem s') root v img).
Proof.
  induction n as [|n IH]; intros [|fuel] s s' tab y i upage rb zb He Hs Hf H; try lia.
  - cbn [load_now_loop] in H. rewrite (seg_more _ _ _ _ Hs) in H. injection H as <-. split; [lia|done].
  - destruct (load_now_round fuel s s' tab y i upage rb zb n He Hs H) as (s1 & y1 & H1 & He1 & Ep & Ec & Hpg).
    destruct (seg_next _ _ _ _ Hs) as (Em & _ & _ & _ & Hs'). rewrite Em in Hs'.
    pose proof Hs as [Ht Hr _ [Hu0 Hal] Hend].
    destruct (page_beyond upage 0) as [Hu _]; [lia|done|lia|lia|]. rewrite Z.mul_0_r, Z.add_0_r in Hu.
    destruct (IH fuel s1 s' tab y1 i _ _ _ He1 Hs' ltac:(lia) H1) as [IH1 IH2]. rewrite Ec, Ep in IH1.
    pose proof (pe_mem _ _ _ (ne_proc _ _ _ _ _ _ He)) as Hi. split.
    + intros k Hk. destruct (decide (k = 0)) as [->|Hk0].
      * rewrite seg_image_0, Z.mul_0_r, Z.add_0_r by lia. apply IH2; [done|done|lia|].
        exact (paged_resident _ _ _ _ _ _ Hi Hu Hal Hpg).
      * specialize (IH1 (k - 1) ltac:(lia)). rewrite seg_image_S in IH1 by lia.
        by replace (upage + 4096 + 4096 * (k - 1)) with (upage + 4096 * k) in IH1 by lia.
    + intros v img Hv Hov Hne Hres. apply IH2; [done|done| |].
      * intros k Hk ->. apply (Hne (k + 1)); lia.
      * apply (paged_resident_other _ _ _ _ _ _ Hpg v img Hv); [|exact Hres].
        intros E. apply (Hne 0 ltac:(lia)). rewrite Z.mul_0_r, Z.add_0_r. by apply aligned_pg_no.
Qed.
End Now.

(** ** Lazy and eager loading *)

(** The bytes of the page that a user address is in. *)
Definition user_bytes (m : vmem) (root a : Z) : option (list Z) := page_bytes m (pg_no (translate m root (pg_round_down a))).

Lemma resident_bytes m root a img : resident m root (pg_round_down a) img -> user_bytes m root a = Some img.
Proof. intros (pn & Ht & _ & Hb). unfold user_bytes. by rewrite Ht, pg_no_page. Qed.

Lemma segment_pages_eq upage rb zb n : seg_ok upage rb zb n -> segment_pages rb zb = n.
Proof. intros [H _ _ _ _]. unfold segment_pages. rewrite H, PGSIZE_eq, Z.mul_comm, Z.div_mul by done. lia. Qed.

(** The page of an address in the segment. *)
Lemma segment_page upage rb zb n a :
  seg_ok upage rb zb n -> upage <= a < upage + 4096 * Z.of_nat n ->
  exists k, 0 <= k < Z.of_nat n /\ pg_round_down a = upage + 4096 * k /\ is_user a /\ a <> null.
Proof.
  intros [_ _ _ [Hu Ho] Hend] Ha. assert (is_user a) as Hua by (unfold is_user; lia).
  destruct (round_down_user a Hua) as (E & _). rewrite pg_ofs_eq in Ho.
  pose proof (Z.div_mod upage 4096 ltac:(done)). pose proof (Z.div_mod a 4096 ltac:(done)).
  pose proof (Z.mod_pos_bound a 4096 ltac:(done)).
  exists (a / 4096 - upage / 4096). split; [lia|]. split; [lia|]. split; [done|unfold null; lia].
Qed.

Lemma page_index upage k : (upage + 4096 * k - upage) / 4096 = k.
Proof. replace (upage + 4096 * k - upage) with (k * 4096) by lia. by apply Z.div_mul. Qed.

Lemma assertM_Ok {S} b (s s' : S) u : assertM b s = Ok (u, s') -> s' = s.
Proof. destruct b; [by intros [= _ <-]|done]. Qed.

Lemma file_seek_Ok f pos y d u d' :
  file_seek f pos d = Ok (u, d') -> files d !! f = Some y -> d' = set_files (<[f := at_pos y pos]> (files d)) d.
Proof.
  intros H Hy. apply bind_Ok in H as (u1 & d1 & E & H). apply assertM_Ok in E as ->.
  apply bind_Ok in H as (u1' & d1' & E & H). apply assertM_Ok in E as ->.
  rewrite (bind_run _ _ d y d) in H by (by unfold get_file, mbind, M_mbind, get, lift; rewrite Hy). by injection H as _ <-.
Qed.

(** What the accesses to a segment's pages give, when it was loaded lazily: [l] are
    the accesses, [free] pages of memory for them. *)
Definition segment_filled (mem_ok : bool) (root upage : Z) (n : nat) (img : Z -> list Z) (s s2 : vms) : Prop :=
  forall (l : list (Z * bool)) (free : list Z), (forall x, x ∈ l -> upage <= x.1 < upage + 4096 * Z.of_nat n) -> NoDup (touched l) ->
    NoDup free -> (forall j, j ∈ free -> free_page (mem s) USER_POOL j) -> (length l <= length free)%nat ->
    wpp (faults mem_ok l) (fun ok s3 => ok = true /\
      forall x, x ∈ l -> user_bytes (mem s3) root x.1 = Some (img ((pg_round_down x.1 - upage) / 4096))) s2.

Lemma load_segment_filled mem_ok s root tab file y i ofs upage rb zb w n :
  seg_env s root tab file y i (Z.of_nat n) -> seg_ok upage rb zb n -> 0 <= ofs /\ ofs + rb < 2 ^ 31 ->
  (forall k, 0 <= k < Z.of_nat n -> tab !! (upage + 4096 * k) = None) ->
  assert_segment ofs upage rb zb s = Ok (tt, s) ->
  exists s2, load_segment mem_ok file ofs upage rb zb w s = Ok (true, s2) /\
    segment_filled mem_ok root upage n (seg_image (content (disk s) (data i)) ofs rb) s s2.
Proof.
  intros Henv Hseg Hofs Htab Ea. set (img := seg_image (content (disk s) (data i)) ofs rb).
  unfold load_segment. rewrite (segment_pages_eq _ _ _ _ Hseg), (bind_run _ _ _ _ _ Ea).
  destruct (load_segment_loop_ok mem_ok root file y w n (S n) s tab i ofs upage rb zb Henv Hseg)
    as (s2 & tab2 & E2 & [P1 P2 P3 P4 _]); [lia|lia|lia|exact Htab|]. exists s2. split; [exact E2|].
  intros l free Hl Hnd Hndf Hfree Hlen.
  set (P := fun u => default null (tab2 !! u)). set (IMG := fun u => img ((u - upage) / 4096)).
  eapply wpp_mono; [apply (faults_ok mem_ok root tab2 (fun _ => w) P IMG l s2 free [])|].
  - exact P1.
  - exact P2.
  - exact Hndf.
  - rewrite (gr_mem _ _ P3). exact Hfree.
  - exact Hlen.
  - intros x Hx. destruct (segment_page _ _ _ _ _ Hseg (Hl x Hx)) as (k & Hk & Er & Hua & Ha0).
    destruct (P4 k Hk) as (p & Hp & Hpd). unfold expected. rewrite Er. unfold IMG. rewrite page_index.
    unfold P. rewrite Hp. by split_and!.
  - exact Hnd.
  - intros u Hu. by apply elem_of_nil in Hu.
  - intros ok s3 [-> Hres]. split; [done|]. intros x Hx. apply resident_bytes. apply (Hres (pg_round_down x.1)).
    right. unfold touched. apply list_elem_of_fmap. by exists x.
Qed.

(** C9: Loading a segment lazily is loading it eagerly. When the version of
    load_segment without virtual memory succeeds, so does the one that only makes
    pages; and after any sequence of accesses to distinct pages of the segment, each
    handled by the page-fault handler, every page accessed holds the bytes that the
    eager version has put there. The kernel may only stop when it has no memory left
    for page tables. *)
Theorem lazy_load_equals_eager mem_ok s root tab file y i ofs upage rb zb w n s1
  (Henv : seg_env s root tab file y i (Z.of_nat n)) (Hseg : seg_ok upage rb zb n)
  (Hofs : 0 <= ofs /\ ofs + rb < 2 ^ 31)
  (Htab : forall k, 0 <= k < Z.of_nat n -> tab !! (upage + 4096 * k) = None)
  (Hnow : load_segment_now file ofs upage rb zb w s = Ok (true, s1)) :
  exists s2, load_segment mem_ok file ofs upage rb zb w s = Ok (true, s2) /\
    forall (l : list (Z * bool)) (free : list Z), (forall x, x ∈ l -> upage <= x.1 < upage + 4096 * Z.of_nat n) -> NoDup (touched l) ->
      NoDup free -> (forall j, j ∈ free -> free_page (mem s) USER_POOL j) -> (length l <= length free)%nat ->
      wpp (faults mem_ok l) (fun ok s3 => ok = true /\
        forall x, x ∈ l -> is_Some (user_bytes (mem s3) root x.1) /\
          user_bytes (mem s3) root x.1 = user_bytes (mem s1) root x.1) s2.
Proof.
  unfold load_segment_now in Hnow. rewrite (segment_pages_eq _ _ _ _ Hseg) in Hnow.
  apply bind_Ok in Hnow as ([] & sa & Easserts & Hnow). assert (sa = s) as ->.
  { unfold assert_segment in Easserts. split_run Easserts.
    by repeat match goal with H : assertM _ _ = Ok _ |- _ => apply assertM_Ok in H as -> end. }
  destruct (load_segment_filled mem_ok s root tab file y i ofs upage rb zb w n Henv Hseg Hofs Htab Easserts) as (s2 & E2 & Hfill).
  exists s2. split; [exact E2|]. set (img := seg_image (content (disk s) (data i)) ofs rb) in *.
  assert (forall k, 0 <= k < Z.of_nat n -> resident (mem s1) root (upage + 4096 * k) (img k)) as Hres1.
  { apply bind_Ok in Hnow as ([] & sb & Eseek & Hnow). destruct Henv as [He (_ & Hy & Ho) Hd Hn Hb _ _].
    assert (sb = set_disk (set_files (<[file := at_pos y ofs]> (files (disk s))) (disk s)) s) as ->.
    { unfold on_disk, zoom in Eseek. destruct (file_seek file ofs (disk s)) as [[[] d]| | |] eqn:E; try done.
      injection Eseek as <-. by rewrite (file_seek_Ok _ _ _ _ _ _ E Hy). }
    assert (now_env (set_disk (set_files (<[file := at_pos y ofs]> (files (disk s))) (disk s)) s) root tab file (at_pos y ofs) i) as Hne.
    { split.
      - destruct He as [H1 H2]. split; [exact H1|exact H2].
      - split; [apply lookup_insert_eq|]. split; [|pose proof (so_read _ _ _ _ Hseg); simpl; lia].
        destruct Ho as [O1 O2 [O3 O4 O5]]. split; [exact O1|exact O2|by split].
      - destruct Hd as [D1 D2]. split; [exact D1|exact D2].
      - exact Hn.
      - exact Hb. }
    exact (proj1 (load_now_loop_ok root file w n (S n) _ s1 tab _ i upage rb zb Hne Hseg ltac:(lia) Hnow)). }
  intros l free Hl Hnd Hndf Hfree Hlen.
  eapply wpp_mono; [exact (Hfill l free Hl Hnd Hndf Hfree Hlen)|].
  intros ok s3 [-> Hb3]. split; [done|]. intros x Hx. rewrite (Hb3 x Hx). split; [done|].
  destruct (segment_page _ _ _ _ _ Hseg (Hl x Hx)) as (k & Hk & Er & _).
  symmetry. apply resident_bytes. rewrite Er, page_index. by apply Hres1.
Qed.

Lemma ex_segment : seg_env ex_vms (RAM + 1) ∅ 11 ex_file ex_file_inode 2 /\ seg_ok 0x400000 600 7592 2.
Proof.
  split.
  - split; [exact ex_env| |exact vm_fs_ok|exact ex_memory_ok|exact vm_fs_bytes|done|done].
    split; [done|]. split; [reflexivity|exact vm_fs_open].
  - split; [done|lia|lia|done|done].
Qed.

Lemma lazy_load_equals_eager_witness :
  exists s1 s2 s3, load_segment_now 11 0 0x400000 600 7592 true ex_vms = Ok (true, s1) /\
    load_segment true 11 0 0x400000 600 7592 true ex_vms = Ok (true, s2) /\
    faults true [(0x401010, true); (0x400020, false)] s2 = Ok (true, s3) /\
    user_bytes (mem s3) (RAM + 1) 0x400020 = user_bytes (mem s1) (RAM + 1) 0x400020 /\
    user_bytes (mem s3) (RAM + 1) 0x401010 = user_bytes (mem s1) (RAM + 1) 0x401010.
Proof.
  assert (H1 : outcome_val (load_segment_now 11 0 0x400000 600 7592 true ex_vms) = Some true) by (vm_compute; reflexivity).
  destruct (outcome_val_ok _ _ H1) as [s1 E1]. destruct ex_segment as [He Hs].
  destruct (lazy_load_equals_eager true ex_vms (RAM + 1) ∅ 11 ex_file ex_file_inode 0 0x400000 600 7592 true 2 s1 He Hs)
    as (s2 & E2 & H); [lia|done|exact E1|].
  assert (H3 : outcome_val ((load_segment true 11 0 0x400000 600 7592 true ≫= fun _ => faults true [(0x401010, true); (0x400020, false)]) ex_vms)
    = Some true) by (vm_compute; reflexivity).
  rewrite (bind_run _ _ _ _ _ E2) in H3. destruct (outcome_val_ok _ _ H3) as [s3 E3].
  exists s1, s2, s3. split; [exact E1|]. split; [exact E2|]. split; [exact E3|].
  specialize (H [(0x401010, true); (0x400020, false)] [RAM + 8; RAM + 9]).
  apply wpp_run with (1 := E3) in H as [_ H].
  - split; [apply (H (0x400020, false))|apply (H (0x401010, true))]; mem.
  - intros x Hx. apply elem_of_cons in Hx as [->|[->|[]%elem_of_nil]%elem_of_cons]; simpl; lia.
  - apply (bool_decide_unpack _). vm_compute. exact I.
  - apply (bool_decide_unpack (NoDup [RAM + 8; RAM + 9])). vm_compute. exact I.
  - intros j Hj. apply ex_free. apply elem_of_cons in Hj as [->|[->|[]%elem_of_nil]%elem_of_cons]; lia.
  - simpl. lia.
Defined.
