(* ===== verification/ElfTheorems.v ===== *)
(** * The theorems about segments of an executable

    What a program header that load accepts makes of the process's memory. *)

From S2P Require Import Prelude Interfaces Bitmap VMem Palloc PallocFacts Mmu MmuFacts MmuTheorems Hash FsState Inode InodeFacts FreeMap FsFile FileTheorems VmState UserMem Pager Vm Loader VmFacts Claim Faults SegLoad.
From S2P Require Import PallocTheorems FsTheorems VmExample LoadTheorems.

(** ** The numbers of a program header *)

(** The members are numbers of their widths. *)
Record phdr_wf (ph : elf_phdr) : Prop := {
  pw_offset : is_u64 (p_offset ph);
  pw_vaddr : is_u64 (p_vaddr ph);
  pw_filesz : is_u64 (p_filesz ph);
  pw_memsz : is_u64 (p_memsz ph)
}.

Lemma round_page x : is_u64 x -> Z.land x (u64 (Z.lnot PGMASK)) = x - x mod 4096.
Proof.
  intros Hx. change (u64 (Z.lnot PGMASK)) with (u64 (Z.lnot 0xfff)). rewrite clear_low_bits by done.
  pose proof (Z.div_mod x 4096 ltac:(done)). lia.
Qed.

Lemma round_up_page x : 0 <= x < 2 ^ 63 -> exists k, ROUND_UP x PGSIZE = 4096 * k /\ x <= 4096 * k < x + 4096.
Proof.
  intros Hx. unfold ROUND_UP. rewrite PGSIZE_eq, (u64_small (x + 4096 - 1)) by (unfold is_u64; lia).
  pose proof (Z.div_mod (x + 4096 - 1) 4096 ltac:(done)). pose proof (Z.mod_pos_bound (x + 4096 - 1) 4096 ltac:(done)).
  exists ((x + 4096 - 1) / 4096). rewrite u64_small by (unfold is_u64; lia). lia.
Qed.

(** What an accepted header says. *)
Record accepted (ph : elf_phdr) (length : Z) : Prop := {
  ac_same : p_offset ph mod 4096 = p_vaddr ph mod 4096;
  ac_offset : p_offset ph <= length;
  ac_sizes : p_filesz ph <= p_memsz ph /\ 0 < p_memsz ph;
  ac_start : 4096 <= p_vaddr ph;
  ac_end : p_vaddr ph + p_memsz ph < KERN_BASE
}.

Lemma is_user_vaddr_spec a : is_user_vaddr a = (a <? KERN_BASE).
Proof. unfold is_user_vaddr, is_kernel_vaddr. destruct (Z.geb_spec a KERN_BASE), (Z.ltb_spec a KERN_BASE); try done; lia. Qed.

Lemma segment_ok_spec ph length :
  phdr_wf ph -> 0 <= length < 2 ^ 31 -> segment_ok ph length = true <-> accepted ph length.
Proof.
  intros [Ho Hv Hf Hm] Hl. unfold segment_ok. rewrite !is_user_vaddr_spec, PGSIZE_eq, (u64_small length) by (unfold is_u64; lia).
  fold (pg_ofs (p_offset ph)) (pg_ofs (p_vaddr ph)). rewrite !pg_ofs_eq. unfold is_u64 in *.
  assert (KERN_BASE < 2 ^ 63) as HK by reflexivity.
  destruct (Z.eqb_spec (p_offset ph mod 4096) (p_vaddr ph mod 4096)); cbn [negb]; [|split; [done|intros []; congruence]].
  destruct (Z.gtb_spec (p_offset ph) length); [split; [done|intros []; lia]|].
  destruct (Z.ltb_spec (p_memsz ph) (p_filesz ph)); [split; [done|intros []; lia]|].
  destruct (Z.eqb_spec (p_memsz ph) 0); [split; [done|intros []; lia]|].
  destruct (Z.ltb_spec (p_vaddr ph) KERN_BASE); cbn [negb]; [|split; [done|intros []; lia]].
  destruct (Z.ltb_spec (u64 (p_vaddr ph + p_memsz ph)) KERN_BASE) as [Ha|Ha]; cbn [negb].
  2:{ split; [done|]. intros [_ _ _ _ He]. rewrite u64_small in Ha by (unfold is_u64; lia). lia. }
  destruct (Z.ltb_spec (u64 (p_vaddr ph + p_memsz ph)) (p_vaddr ph)) as [Hb|Hb].
  { split; [done|]. intros [_ _ _ _ He]. rewrite u64_small in Hb by (unfold is_u64; lia). lia. }
  assert (u64 (p_vaddr ph + p_memsz ph) = p_vaddr ph + p_memsz ph) as E.
  { unfold u64 in *. destruct (Z.ltb_spec (p_vaddr ph + p_memsz ph) (2 ^ 64)); [by rewrite Z.mod_small by lia|].
    assert ((p_vaddr ph + p_memsz ph) mod 2 ^ 64 = p_vaddr ph + p_memsz ph - 2 ^ 64); [|lia].
    symmetry. apply (Z.mod_unique_pos _ _ 1); lia. }
  rewrite E in *. destruct (Z.ltb_spec (p_vaddr ph) 4096); cbn [negb]; [split; [done|intros []; lia]|].
  split; [|done]. intros _. split; lia.
Qed.

(** The header of a segment that fits into the numbers that load uses. *)
Record loadable (ph : elf_phdr) (length : Z) : Prop := {
  lo_wf : phdr_wf ph;
  lo_ok : segment_ok ph length = true;
  lo_file : p_offset ph + p_filesz ph < 2 ^ 31;
  lo_memory : p_memsz ph <= 2 ^ 32 - 8192
}.

(** What load computes from it. *)
Lemma segment_args_ok ph length :
  0 <= length < 2 ^ 31 -> loadable ph length ->
  exists ofs upage rb zb n, segment_args ph = (ofs, upage, rb, zb) /\ seg_ok upage rb zb n /\
    0 <= ofs /\ ofs + rb < 2 ^ 31 /\ ofs mod 4096 = 0 /\
    (0 < p_filesz ph -> rb = p_vaddr ph - upage + p_filesz ph) /\ (p_filesz ph = 0 -> rb = 0) /\
    p_offset ph - ofs = p_vaddr ph - upage /\ upage <= p_vaddr ph /\
    p_vaddr ph + p_memsz ph <= upage + 4096 * Z.of_nat n /\
    p_vaddr ph - 4096 < upage /\ upage + 4096 * Z.of_nat n < p_vaddr ph + p_memsz ph + 4096.
Proof.
  intros Hl [Hw Hok Hf Hm]. apply segment_ok_spec in Hok; [|done..]. destruct Hw as [Ho Hv Hfs Hms].
  destruct Hok as [A1 A2 [A3 A3'] A4 A5]. unfold segment_args. rewrite !round_page by done.
  fold (pg_ofs (p_vaddr ph)). rewrite !pg_ofs_eq. unfold is_u64 in *.
  set (pofs := p_vaddr ph mod 4096) in *. pose proof (Z.mod_pos_bound (p_vaddr ph) 4096 ltac:(done)) as Hp. fold pofs in Hp.
  rewrite A1. assert ((p_vaddr ph - pofs) mod 4096 = 0) as Hup.
  { unfold pofs. rewrite Zminus_mod_idemp_r, Z.sub_diag. done. }
  assert ((p_offset ph - pofs) mod 4096 = 0) as Hop by (rewrite <-A1, Zminus_mod_idemp_r, Z.sub_diag; done).
  pose proof (Z.mod_le (p_offset ph) 4096 ltac:(lia) ltac:(done)).
  rewrite (s32_small (p_offset ph - pofs)) by (unfold is_s32; lia).
  rewrite !(u64_small (pofs + p_memsz ph)) by (unfold is_u64; lia).
  destruct (round_up_page (pofs + p_memsz ph) ltac:(lia)) as (k & -> & Hk).
  pose proof (Z.div_mod (p_vaddr ph - pofs) 4096 ltac:(done)) as Hdiv.
  assert (p_vaddr ph - pofs + 4096 * k <= KERN_BASE) as Hend.
  { change KERN_BASE with (4096 * 134234112) in *. lia. }
  exists (p_offset ph - pofs), (p_vaddr ph - pofs), (if p_filesz ph >? 0 then pofs + p_filesz ph else 0),
    (4096 * k - if p_filesz ph >? 0 then pofs + p_filesz ph else 0), (Z.to_nat k).
  destruct (Z.gtb_spec (p_filesz ph) 0).
  - rewrite (u32_small (pofs + p_filesz ph)), (u32_small (4096 * k - _)) by (unfold is_u32; lia).
    split; [done|]. split; [|split_and!; lia]. split; [lia|lia|lia| |lia]. split; [lia|by rewrite pg_ofs_eq].
  - rewrite (u32_small (4096 * k)), Z.sub_0_r by (unfold is_u32; lia).
    split; [done|]. split; [|split_and!; lia]. split; [lia|lia|lia| |lia]. split; [lia|by rewrite pg_ofs_eq].
Qed.

(** ** The bytes of a page *)

(** The byte of a file at a position, 0 behind its end. *)
Definition byte_from (file : list Z) (pos : Z) : Z := default 0 (file !! Z.to_nat pos).

Lemma page_image_byte file ofs n j :
  0 <= ofs -> 0 <= n <= 4096 -> 0 <= j < 4096 ->
  page_image file ofs n !! Z.to_nat j = Some (if j <? n then byte_from file (ofs + j) else 0).
Proof.
  intros Ho Hn Hj. unfold page_image, byte_from. rewrite Z2Nat.inj_add by lia. set (b := take _ _).
  assert (length b <= Z.to_nat n)%nat as Hb by (unfold b; rewrite length_take; lia).
  destruct (decide (Z.to_nat j < length b)%nat) as [Hlt|Hge].
  - rewrite lookup_app_l by done. rewrite (proj2 (Z.ltb_lt j n)) by lia. unfold b in *.
    rewrite lookup_take_lt, lookup_drop by lia. rewrite length_take, length_drop in Hlt.
    destruct (lookup_lt_is_Some_2 file (Z.to_nat ofs + Z.to_nat j)) as [x ->]; [lia|done].
  - rewrite lookup_app_r by lia. rewrite lookup_replicate_2 by lia. f_equal.
    destruct (Z.ltb_spec j n); [|done]. unfold b in Hge. rewrite length_take, length_drop in Hge.
    rewrite lookup_ge_None_2; [done|lia].
Qed.

(** The byte at a user address. *)
Definition user_byte (m : vmem) (root a : Z) : option Z := user_bytes m root a ≫= fun l => l !! Z.to_nat (pg_ofs a).

(** The byte of a segment at the distance [x] from its first page. *)
Lemma seg_image_byte file ofs rb x :
  0 <= ofs -> 0 <= rb -> 0 <= x ->
  seg_image file ofs rb (x / 4096) !! Z.to_nat (x mod 4096) = Some (if x <? rb then byte_from file (ofs + x) else 0).
Proof.
  intros Ho Hr Hx. pose proof (Z.div_mod x 4096 ltac:(done)) as Hd. pose proof (Z.mod_pos_bound x 4096 ltac:(done)) as Hm.
  assert (0 <= x / 4096) by (apply Z.div_pos; lia). set (k := x / 4096) in *. set (j := x mod 4096) in *.
  unfold seg_image. rewrite page_image_byte by lia. f_equal. destruct (Z.ltb_spec x rb) as [Hlt|Hge].
  - rewrite (proj2 (Z.ltb_lt j _)) by lia. rewrite Z.min_r by lia. f_equal. lia.
  - by rewrite (proj2 (Z.ltb_ge j _)) by lia.
Qed.

(** ** The segment in memory *)

(** The assertions of load_segment hold. *)
Lemma assert_segment_ok {S} ofs upage rb zb n (s : S) :
  seg_ok upage rb zb n -> 0 <= ofs -> ofs mod 4096 = 0 -> assert_segment ofs upage rb zb s = Ok (tt, s).
Proof.
  intros [Ht _ _ [_ Hal] _] Ho Hoa. unfold assert_segment. rewrite PGSIZE_eq, Ht, Hal, Z.rem_mod_nonneg, Hoa by lia.
  assert (u32 (4096 * Z.of_nat n) mod 4096 = 0) as ->; [|done].
  unfold u32. change (2 ^ 32) with (4096 * 1048576). rewrite Z.mul_mod_distr_l, Z.mul_comm by done. by apply Z.mod_mul.
Qed.

(** The page and the offset in it, of an address at a distance from a page. *)
Lemma page_distance u a :
  pg_ofs u = 0 -> (a / 4096 * 4096 - u) / 4096 = (a - u) / 4096 /\ pg_ofs a = (a - u) mod 4096.
Proof.
  rewrite !pg_ofs_eq. intros Hu. pose proof (Z.div_mod u 4096 ltac:(done)) as H. rewrite Hu, Z.add_0_r in H.
  set (q := u / 4096) in *. rewrite H. replace (a / 4096 * 4096 - 4096 * q) with ((a / 4096 - q) * 4096) by lia.
  replace (a - 4096 * q) with (a + (- q) * 4096) by lia. rewrite Z.div_mul, Z.div_add, Z.mod_add by done. lia.
Qed.

(** C10: A program header that validate_segment accepts, and whose sizes fit into the
    numbers that load uses, is loaded as the format says. load_segment passes its
    assertions and succeeds, and an access by the process to any byte of the segment's
    memory, in any order of its pages, is handled by the page-fault handler and then
    finds the byte of the file at the segment's offset for the first p_filesz bytes,
    and zero for the others. *)
Theorem segment_in_memory mem_ok s root tab file y i ph w ofs upage rb zb
  (Hph : loadable ph (d_length (data i)))
  (Hargs : segment_args ph = (ofs, upage, rb, zb))
  (Henv : seg_env s root tab file y i (Z.of_nat (segment_pages rb zb)))
  (Htab : forall a, p_vaddr ph - 4096 < a < p_vaddr ph + p_memsz ph -> tab !! a = None) :
  exists s2, load_segment mem_ok file ofs upage rb zb w s = Ok (true, s2) /\
    forall (l : list (Z * bool)) (free : list Z),
      (forall x, x ∈ l -> p_vaddr ph <= x.1 < p_vaddr ph + p_memsz ph) -> NoDup (touched l) ->
      NoDup free -> (forall j, j ∈ free -> free_page (mem s) USER_POOL j) -> (length l <= length free)%nat ->
      wpp (faults mem_ok l) (fun ok s3 => ok = true /\ forall x, x ∈ l ->
        let d := x.1 - p_vaddr ph in
        user_byte (mem s3) root x.1 =
          Some (if d <? p_filesz ph then byte_from (content (disk s) (data i)) (p_offset ph + d) else 0)) s2.
Proof.
  assert (0 <= d_length (data i) < 2 ^ 31) as Hl by (destruct (se_file _ _ _ _ _ _ _ Henv) as (_ & _ & [_ _ Hda]); apply Hda).
  pose proof (lo_wf _ _ Hph) as [_ _ Hfs _]. unfold is_u64 in *.
  destruct (segment_args_ok ph _ Hl Hph) as (ofs' & upage' & rb' & zb' & n & E & Hseg & Ho & Hob & Hoa & Hr1 & Hr0 & Hd & Hv & He & Hv4 & He4).
  rewrite E in Hargs. injection Hargs as -> -> -> ->. pose proof Hseg as [Ht Hr Hz [Hu Hal] Hend].
  rewrite (segment_pages_eq _ _ _ _ Hseg) in Henv.
  assert (assert_segment ofs upage rb zb s = Ok (tt, s)) as Ea by (by apply (assert_segment_ok _ _ _ _ n)).
  destruct (load_segment_filled mem_ok s root tab file y i ofs upage rb zb w n Henv Hseg (conj Ho Hob)) as (s2 & E2 & Hfill);
    [intros k Hk; apply Htab; lia|exact Ea|].
  exists s2. split; [exact E2|]. intros l free Hin Hnd Hndf Hfree Hlen.
  assert (forall x, x ∈ l -> upage <= x.1 < upage + 4096 * Z.of_nat n) as Hin2 by (intros x Hx; specialize (Hin x Hx); lia).
  eapply wpp_mono; [exact (Hfill l free Hin2 Hnd Hndf Hfree Hlen)|].
  intros ok s3 [-> Hb]. split; [done|]. intros x Hx. specialize (Hin x Hx). cbn zeta.
  unfold user_byte. rewrite (Hb x Hx). cbn [mbind option_bind].
  assert (is_user x.1) as Hux by (unfold is_user; lia). destruct (round_down_user _ Hux) as (-> & _).
  destruct (page_distance upage x.1 Hal) as [-> ->]. rewrite seg_image_byte by lia.
  f_equal. destruct (Z.ltb_spec (x.1 - upage) rb), (Z.ltb_spec (x.1 - p_vaddr ph) (p_filesz ph)); try lia.
  f_equal. lia.
Qed.

(** A segment of 584 bytes of the example's file and 4416 zeros. *)
Definition ex_phdr : elf_phdr := ElfPhdr 1 6 16 0x400010 584 5000.

Lemma ex_loadable : loadable ex_phdr 600.
Proof. split; [split; vm_compute; split; (discriminate || reflexivity)|reflexivity|done|done]. Qed.

Lemma ex_segment_env : seg_env ex_vms (RAM + 1) ∅ 11 ex_file ex_file_inode 2.
Proof. apply ex_segment. Qed.

Lemma segment_in_memory_witness :
  exists s2 s3, load_segment true 11 0 0x400000 600 7592 true ex_vms = Ok (true, s2) /\
    faults true [(0x401010, true); (0x400020, false)] s2 = Ok (true, s3) /\
    user_byte (mem s3) (RAM + 1) 0x400020 = Some 7 /\ user_byte (mem s3) (RAM + 1) 0x401010 = Some 0.
Proof.
  destruct (segment_in_memory true ex_vms (RAM + 1) ∅ 11 ex_file ex_file_inode ex_phdr true 0 0x400000 600 7592
    ex_loadable eq_refl ex_segment_env) as (s2 & E2 & H); [done|].
  assert (H3 : outcome_val ((load_segment true 11 0 0x400000 600 7592 true ≫= fun _ => faults true [(0x401010, true); (0x400020, false)]) ex_vms)
    = Some true) by (vm_compute; reflexivity).
  rewrite (bind_run _ _ _ _ _ E2) in H3. destruct (outcome_val_ok _ _ H3) as [s3 E3].
  exists s2, s3. split; [exact E2|]. split; [exact E3|].
  specialize (H [(0x401010, true); (0x400020, false)] [RAM + 8; RAM + 9]).
  apply wpp_run with (1 := E3) in H as [_ H].
  - split.
    + etrans; [apply (H (0x400020, false)); mem|]. vm_compute. reflexivity.
    + etrans; [apply (H (0x401010, true)); mem|]. vm_compute. reflexivity.
  - intros x Hx. apply elem_of_cons in Hx as [->|[->|[]%elem_of_nil]%elem_of_cons]; simpl; lia.
  - apply (bool_decide_unpack _). vm_compute. exact I.
  - apply (bool_decide_unpack (NoDup [RAM + 8; RAM + 9])). vm_compute. exact I.
  - intros j Hj. apply ex_free. apply elem_of_cons in Hj as [->|[->|[]%elem_of_nil]%elem_of_cons]; lia.
  - simpl. lia.
Defined.
