(* ===== verification/SwapTheorems.v ===== *)
(** * The theorems about swapping

    The swap table and the swap disk hold the contents of the anonymous pages that
    have no frame: swapping a page out stores its contents under the page, swapping it
    in takes them out again, and neither touches the contents of other pages. *)

From S2P Require Import Prelude Interfaces Bitmap VMem Palloc PallocFacts Mmu MmuFacts MmuTheorems Hash FsState Inode InodeFacts FreeMap FsFile VmState UserMem Pager Vm VmFacts.
From S2P Require Import PallocTheorems FsTheorems Claim VmExample.

(** ** What the swap disk holds *)

(** The piece [k] of a page's contents. *)
Definition piece (l : list Z) (k : Z) : list Z := take 512 (drop (Z.to_nat (512 * k)) l).

Definition slot_holds (s : vms) (i : Z) (l : list Z) : Prop :=
  length l = 4096%nat /\ bytes l /\ forall k, 0 <= k < 8 -> swap_sectors s !! (8 * i + k) = Some (piece l k).

(** Page [p] is an anonymous page whose contents are in slot [i]. *)
Definition slot_of (s : vms) (p i : Z) : Prop :=
  exists x, vpages s !! p = Some x /\ operations x = ANON_OPS /\ word0 x = SwapIdx i /\ i <> -1.

(** The contents of page [p] are [l] and are on the swap disk. *)
Definition swapped (s : vms) (p : Z) (l : list Z) : Prop := exists i, slot_of s p i /\ slot_holds s i l.

(** The slots are on the disk; each page's slot is marked as used and is its own. *)
Record swap_ok (s : vms) : Prop := {
  sw_table : bitmap_wf (swap_table s);
  sw_size : 8 * bit_cnt (swap_table s) <= swap_capacity s <= 2 ^ 28;
  sw_used p i : slot_of s p i -> 0 <= i < bit_cnt (swap_table s) /\ bit (swap_table s) i = true;
  sw_own p q i : slot_of s p i -> slot_of s q i -> p = q
}.

Lemma length_piece l k : length l = 4096%nat -> 0 <= k < 8 -> length (piece l k) = 512%nat.
Proof. intros Hl Hk. unfold piece. rewrite length_take, length_drop. lia. Qed.

Lemma slot_sector_run i k s : 0 <= i < 2 ^ 27 -> 0 <= k < 8 -> slot_sector i k s = Ok (8 * i + k, s).
Proof.
  intros Hi Hk. unfold slot_sector. rewrite (bind_run _ _ s (i * 8 + k) s).
  - unfold mret, M_mret. do 2 f_equal. rewrite u32_small by (unfold is_u32; lia). lia.
  - unfold lift. rewrite int32_ok; [done|]. unfold is_s32. lia.
Qed.

(** ** The loops over the sectors of a slot *)

Lemma slot_write_run n : forall s i k pn l,
  page_bytes (mem s) pn = Some l -> length l = 4096%nat -> 0 <= i -> 8 * i + 8 <= swap_capacity s <= 2 ^ 28 -> 0 <= k -> k + Z.of_nat n = 8 ->
  exists sw, slot_write n i k (4096 * pn) s = Ok (tt, set_swap sw (swap_table s) s) /\
    (forall j, k <= j < 8 -> sw !! (8 * i + j) = Some (piece l j)) /\
    (forall a, a < 8 * i + k \/ 8 * i + 8 <= a -> sw !! a = swap_sectors s !! a).
Proof.
  induction n as [|n IH]; intros s i k pn l Hl Hlen Hi Hc Hk Hn; cbn [slot_write].
  - exists (swap_sectors s). split; [by destruct s|]. split; [lia|done].
  - rewrite (bind_run _ _ _ _ _ (slot_sector_run i k s ltac:(lia) ltac:(lia))).
    rewrite (bind_run (in_mem _) _ s (piece l k) s).
    2:{ unfold in_mem. rewrite (zoom_Ok _ _ _ _ _ _ (read_user (mem s) pn (DISK_SECTOR_SIZE * k) DISK_SECTOR_SIZE l Hl
          ltac:(unfold DISK_SECTOR_SIZE; lia) ltac:(done) ltac:(unfold DISK_SECTOR_SIZE; lia))). by destruct s. }
    set (s1 := set_swap (<[8 * i + k := piece l k]> (swap_sectors s)) (swap_table s) s).
    rewrite (bind_run _ _ s tt s1).
    2:{ unfold swap_write. rewrite (bind_run _ _ s (swap_capacity s) s eq_refl).
        rewrite (proj2 (Z.ltb_lt (8 * i + k) (swap_capacity s))), (proj2 (Z.ltb_lt (8 * i + k) (2 ^ 28))) by lia. reflexivity. }
    destruct (IH s1 i (k + 1) pn l Hl Hlen Hi Hc ltac:(lia) ltac:(lia)) as (sw & E & H1 & H2).
    exists sw. split; [exact E|]. split.
    + intros j Hj. destruct (decide (j = k)) as [->|Hne]; [|apply H1; lia].
      rewrite H2 by lia. apply lookup_insert_eq.
    + intros a Ha. rewrite H2 by lia. apply lookup_insert_ne. lia.
Qed.

(** Filling a page piece by piece. *)
Lemma splice_piece l0 l k :
  length l0 = 4096%nat -> length l = 4096%nat -> 0 <= k < 8 -> take (Z.to_nat (512 * k)) l0 = take (Z.to_nat (512 * k)) l ->
  take (Z.to_nat (512 * (k + 1))) (splice l0 (Z.to_nat (512 * k)) (piece l k)) = take (Z.to_nat (512 * (k + 1))) l.
Proof.
  intros Hl0 Hl Hk E. unfold splice. rewrite E, app_assoc. replace (Z.to_nat (512 * (k + 1))) with (Z.to_nat (512 * k) + 512)%nat by lia.
  assert (take (Z.to_nat (512 * k)) l ++ piece l k = take (Z.to_nat (512 * k) + 512) l) as ->.
  { unfold piece. rewrite <-(take_drop (Z.to_nat (512 * k)) (take (Z.to_nat (512 * k) + 512) l)). rewrite take_take, Nat.min_l by lia.
    by rewrite <-take_drop_commute. }
  rewrite take_app_le by (rewrite length_take; lia). by rewrite take_take, Nat.min_id.
Qed.

Lemma slot_read_run n : forall s root i k pn l0 l,
  mem_inv (mem s) root -> in_pool (user_pool (mem s)) pn -> page_bytes (mem s) pn = Some l0 -> slot_holds s i l ->
  0 <= i -> 8 * i + 8 <= swap_capacity s <= 2 ^ 28 -> 0 <= k -> k + Z.of_nat n = 8 ->
  take (Z.to_nat (512 * k)) l0 = take (Z.to_nat (512 * k)) l ->
  exists m, slot_read n i k (4096 * pn) s = Ok (tt, set_mem m s) /\ mem_step root pn (mem s) m /\
    (forall a, mapping m root a = mapping (mem s) root a) /\ page_bytes m pn = Some l.
Proof.
  induction n as [|n IH]; intros s root i k pn l0 l Hm Hp Hl0 Hs Hi Hc Hk Hn Et; cbn [slot_read];
    destruct (page_bytes_length _ _ _ _ Hm Hl0) as [Hlen0 _]; pose proof Hs as (Hlen & Hb & Hsec).
  - exists (mem s). split; [by destruct s|]. split; [by split|]. split; [done|].
    rewrite !take_ge in Et by lia. by rewrite <-Et.
  - rewrite (bind_run _ _ _ _ _ (slot_sector_run i k s ltac:(lia) ltac:(lia))).
    rewrite (bind_run _ _ s (piece l k) s).
    2:{ unfold swap_read. rewrite (bind_run _ _ s (swap_capacity s) s eq_refl).
        rewrite (proj2 (Z.ltb_lt (8 * i + k) (swap_capacity s))), (proj2 (Z.ltb_lt (8 * i + k) (2 ^ 28))) by lia.
        do 2 rewrite (bind_run (assertM true) _ s tt s eq_refl).
        rewrite (bind_run get _ s s s eq_refl). unfold lift. by rewrite Hsec by lia. }
    pose proof (length_piece l k Hlen ltac:(lia)) as Hpl.
    destruct (write_user (mem s) root pn (512 * k) (piece l k) l0 Hm Hp Hl0 ltac:(lia) ltac:(lia)) as (m1 & E1 & Hs1 & Hmap1 & _ & Hb1).
    { by apply Forall_take, Forall_drop. }
    rewrite (bind_run (in_mem _) _ s tt (set_mem m1 s)).
    2:{ apply zoom_Ok. unfold DISK_SECTOR_SIZE. by rewrite (Z.mul_comm k). }
    destruct (IH (set_mem m1 s) root i (k + 1) pn (splice l0 (Z.to_nat (512 * k)) (piece l k)) l (ms_inv _ _ _ _ Hs1)) as (m2 & E2 & Hs2 & Hmap2 & Hb2).
    + by apply (mem_step_pool _ _ _ _ _ Hs1).
    + exact Hb1.
    + exact Hs.
    + exact Hi.
    + exact Hc.
    + lia.
    + lia.
    + apply splice_piece; [done|done|lia|done].
    + exists m2. split; [exact E2|]. split; [by eapply mem_step_trans|]. split; [|exact Hb2].
      intros a. rewrite Hmap2. apply Hmap1.
Qed.

(** ** Slots and pages *)

Lemma slot_range s p i : swap_ok s -> slot_of s p i -> 0 <= i < 2 ^ 25 /\ 8 * i + 8 <= swap_capacity s <= 2 ^ 28.
Proof. intros Hs Hp. destruct (sw_used _ Hs _ _ Hp) as [Hi _]. pose proof (sw_size _ Hs). lia. Qed.

(** A state whose pages other than [p] are those of [s]. *)
Definition same_pages_but (p : Z) (s s' : vms) : Prop := forall q, q <> p -> vpages s' !! q = vpages s !! q.

Lemma slot_of_other p s s' q i : same_pages_but p s s' -> q <> p -> slot_of s' q i <-> slot_of s q i.
Proof. intros H Hq. unfold slot_of. by rewrite (H q Hq). Qed.

Lemma slot_of_eq s p x i : vpages s !! p = Some x -> slot_of s p i -> operations x = ANON_OPS /\ word0 x = SwapIdx i /\ i <> -1.
Proof. intros Hx (y & Hy & H). assert (y = x) as -> by congruence. done. Qed.

(** Storing in a free slot keeps the other slots. *)
Lemma slot_holds_other s s' i j l :
  (forall a, a < 8 * i \/ 8 * i + 8 <= a -> swap_sectors s' !! a = swap_sectors s !! a) -> i <> j ->
  slot_holds s j l -> slot_holds s' j l.
Proof. intros H Hne (H1 & H2 & H3). split; [done|]. split; [done|]. intros k Hk. rewrite H by lia. by apply H3. Qed.

(** ** Swapping out *)

Section Out.
Variables (s : vms) (p pn : Z) (x : page) (fr : vm_frame) (l : list Z).
Hypothesis Hs : swap_ok s.
Hypothesis Hp : p <> null.
Hypothesis Hx : vpages s !! p = Some x.
Hypothesis Hop : operations x = ANON_OPS.
Hypothesis Hf : frames s !! p_frame x = Some fr.
Hypothesis Hkva : kva fr = 4096 * pn.
Hypothesis Hcnt : 0 < r_cnt fr < 2 ^ 31.
Hypothesis Hl : page_bytes (mem s) pn = Some l.
Hypothesis Hlen : length l = 4096%nat /\ bytes l.

Definition out_page (i : Z) : page := with_word0 (SwapIdx i) (with_frame null x).
Definition out_state (i : Z) (sw : gmap Z (list Z)) (b : bitmap) : vms :=
  set_vpages (<[p := out_page i]> (vpages s))
    (set_frames (<[p_frame x := Frame (kva fr) null (r_cnt fr - 1)]> (frames s)) (set_swap sw b s)).

Lemma swap_out_anon : swap_out p s = anon_swap_out p s.
Proof. unfold swap_out. rewrite (bind_run _ _ _ _ _ (get_vpage_run s p x Hx)). by rewrite Hop. Qed.

Lemma swap_out_scan i b :
  bitmap_scan_and_flip (swap_table s) 0 1 false = Ok (i, b) ->
  anon_swap_out p s =
    (if u32 (s32 i) =? BITMAP_ERROR then
       t ← lift (bitmap_test b (u64 (s32 i))); assertM (negb t);; mret false
     else
       f ← get_frame (p_frame x);
       slot_write 8 (s32 i) 0 (kva f);;
       add_r_cnt (p_frame x) (-1);;
       set_frame_page (p_frame x) null;;
       update_vpage p (with_frame null);;
       update_vpage p (with_word0 (SwapIdx (s32 i)));;
       mret true) (set_swap (swap_sectors s) b s).
Proof.
  intros E. unfold anon_swap_out. rewrite (proj2 (Z.eqb_neq p null)) by done.
  rewrite (bind_run _ _ _ _ _ (get_vpage_run s p x Hx)), (bind_run _ _ s (swap_table s) s eq_refl).
  rewrite (bind_run (lift _) _ s (i, b) s) by (unfold lift; by rewrite E).
  by rewrite (bind_run _ _ s tt (set_swap (swap_sectors s) b s) eq_refl).
Qed.

Lemma swap_out_full : (forall i, 0 <= i < bit_cnt (swap_table s) -> bit (swap_table s) i = true) -> swap_out p s = Panic.
Proof.
  intros Hall. rewrite swap_out_anon. pose proof (sw_table _ Hs) as Hw. pose proof Hw as (Hc & _).
  destruct (bitmap_scan_and_flip_ok _ 0 1 false Hw ltac:(lia) ltac:(lia)) as (i & b & E & [(-> & -> & _)|(H1 & H2 & H3 & _)]).
  2:{ specialize (H3 i ltac:(lia)). rewrite Hall in H3 by lia. done. }
  rewrite (swap_out_scan _ _ E). change (u32 (s32 BITMAP_ERROR) =? BITMAP_ERROR) with true. cbv iota.
  apply bind_panic. unfold lift, bitmap_test. change (u64 (s32 BITMAP_ERROR)) with (2 ^ 64 - 1).
  by rewrite (proj2 (Z.ltb_ge (2 ^ 64 - 1) _)) by lia.
Qed.

Lemma swap_out_run j : 0 <= j < bit_cnt (swap_table s) -> bit (swap_table s) j = false ->
  exists i sw b, swap_out p s = Ok (true, out_state i sw b) /\
    0 <= i < bit_cnt (swap_table s) /\ bit (swap_table s) i = false /\ bits_set (swap_table s) i 1 true b /\
    (forall k, 0 <= k < 8 -> sw !! (8 * i + k) = Some (piece l k)) /\
    (forall a, a < 8 * i \/ 8 * i + 8 <= a -> sw !! a = swap_sectors s !! a).
Proof.
  intros Hj Hfree. rewrite swap_out_anon. pose proof (sw_table _ Hs) as Hw. pose proof Hw as (Hc & _). pose proof (sw_size _ Hs) as Hsz.
  destruct (bitmap_scan_and_flip_ok _ 0 1 false Hw ltac:(lia) ltac:(lia)) as (i & b & E & [(_ & _ & H)|(H1 & H2 & H3 & _ & Hb)]).
  { exfalso. apply (H j); [lia|lia|]. intros j' Hj'. assert (j' = j) as -> by lia. done. }
  assert (8 * i + 8 <= swap_capacity s <= 2 ^ 28) as Hcap by lia.
  destruct (slot_write_run 8 (set_swap (swap_sectors s) b s) i 0 pn l Hl (proj1 Hlen)) as (sw & Ew & Hin & Hout); [lia|exact Hcap|lia|lia|].
  exists i, sw, b. split.
  - rewrite (swap_out_scan _ _ E). rewrite (s32_small i), (u32_small i) by (unfold is_s32, is_u32; lia).
    rewrite (proj2 (Z.eqb_neq i BITMAP_ERROR)) by (unfold BITMAP_ERROR, SIZE_MAX; lia).
    rewrite (bind_run _ _ _ _ _ (get_frame_run (set_swap (swap_sectors s) b s) _ fr Hf)), Hkva, (bind_run _ _ _ _ _ Ew).
    set (s2 := set_swap sw _ _). assert (frames s2 !! p_frame x = Some fr) as Hf2 by exact Hf.
    set (s3 := set_frames (<[p_frame x := Frame (kva fr) (f_page fr) (r_cnt fr - 1)]> (frames s)) s2).
    rewrite (bind_run (add_r_cnt _ _) _ s2 tt s3).
    2:{ unfold add_r_cnt. rewrite (bind_run _ _ _ _ _ (get_frame_run _ _ _ Hf2)).
        rewrite (bind_run (lift _) _ s2 (r_cnt fr - 1) s2); [reflexivity|].
        unfold lift. rewrite int32_ok; [done|unfold is_s32; lia]. }
    set (s4 := set_frames (<[p_frame x := Frame (kva fr) null (r_cnt fr - 1)]> (frames s)) s2).
    rewrite (bind_run (set_frame_page _ _) _ s3 tt s4).
    2:{ unfold set_frame_page. rewrite (bind_run _ _ _ _ _ (get_frame_run s3 _ _ (lookup_insert_eq _ _ _))).
        unfold put_frame, modify, s3, s4. cbn [frames set_frames]. by rewrite insert_insert_eq. }
    assert (vpages s4 !! p = Some x) as Hx4 by exact Hx.
    rewrite (bind_run _ _ _ _ _ (update_vpage_run s4 p x (with_frame null) Hx4)).
    rewrite (bind_run _ _ _ _ _ (update_vpage_run _ p (with_frame null x) (with_word0 (SwapIdx i)) (lookup_insert_eq _ _ _))).
    unfold mret, M_mret. do 2 f_equal. unfold out_state, s4, s2. cbn [vpages set_vpages]. rewrite insert_insert_eq. reflexivity.
  - split; [lia|]. split; [apply H3; lia|]. split; [exact Hb|]. split; [exact Hin|].
    intros a Ha. apply Hout. lia.
Qed.
End Out.

(** ** Swapping in *)

Definition in_state (p i : Z) (x : page) (m : vmem) (b : bitmap) (s : vms) : vms :=
  set_vpages (<[p := with_word0 (SwapIdx (-1)) x]> (vpages s)) (set_swap (swap_sectors s) b (set_mem m s)).

Lemma swap_in_run s root p pn x i l l0 :
  swap_ok s -> vpages s !! p = Some x -> slot_of s p i -> slot_holds s i l ->
  mem_inv (mem s) root -> in_pool (user_pool (mem s)) pn -> page_bytes (mem s) pn = Some l0 ->
  exists m b, swap_in p (4096 * pn) s = Ok (true, in_state p i x m b s) /\ mem_step root pn (mem s) m /\
    (forall a, mapping m root a = mapping (mem s) root a) /\ page_bytes m pn = Some l /\
    bit_cnt b = bit_cnt (swap_table s) /\ bitmap_wf b /\
    (forall j, 0 <= j -> bit b j = if j =? i then false else bit (swap_table s) j).
Proof.
  intros Hs Hx Hsl Hh Hm Hp Hl0. destruct (slot_of_eq _ _ _ _ Hx Hsl) as (Hop & Hw0 & Hi1).
  destruct (slot_range _ _ _ Hs Hsl) as [Hi Hcap]. destruct (sw_used _ Hs _ _ Hsl) as [Hib _].
  destruct (slot_read_run 8 s root i 0 pn l0 l Hm Hp Hl0 Hh ltac:(lia) Hcap ltac:(lia) ltac:(lia) eq_refl) as (m & E & H1 & H2 & H3).
  destruct (bitmap_set_ok (swap_table s) i false (sw_table _ Hs) Hib) as (b & Eb & Hc & Hw & Hb).
  exists m, b. split; [|by split_and!]. unfold swap_in. rewrite (bind_run _ _ _ _ _ (get_vpage_run s p x Hx)), Hop.
  unfold anon_swap_in. rewrite (bind_run _ _ _ _ _ (get_vpage_run s p x Hx)).
  rewrite (bind_run (lift _) _ s i s) by (unfold lift, swap_idx; by rewrite Hw0).
  rewrite (proj2 (Z.eqb_neq i (-1))) by done. cbn [negb]. rewrite (bind_run _ _ _ _ _ E).
  set (s1 := set_mem m s). rewrite (bind_run (set_slot _ _) _ s1 tt (set_swap (swap_sectors s) b s1)).
  2:{ unfold set_slot. rewrite (bind_run _ _ s1 (swap_table s) s1 eq_refl), u64_small by (unfold is_u64; lia).
      rewrite (bind_run (lift _) _ s1 b s1) by (unfold lift; by rewrite Eb). reflexivity. }
  assert (vpages (set_swap (swap_sectors s) b s1) !! p = Some x) as Hx1 by exact Hx.
  by rewrite (bind_run _ _ _ _ _ (update_vpage_run _ p x (with_word0 (SwapIdx (-1))) Hx1)).
Qed.

(** ** The theorems *)

(** C12: Swapping out an anonymous page stores its contents under the page. If a slot
    is free, the page loses its frame, its contents are then on the swap disk, memory
    is not changed, and the contents of every other page that was swapped out are still
    there. Without a free slot the kernel panics: the assertion of anon_swap_out looks
    up a bit that does not exist. *)
Theorem swap_out_stores s p pn x fr l
  (Hs : swap_ok s) (Hp : p <> null) (Hx : vpages s !! p = Some x) (Hop : operations x = ANON_OPS)
  (Hf : frames s !! p_frame x = Some fr) (Hkva : kva fr = 4096 * pn) (Hcnt : 0 < r_cnt fr < 2 ^ 31)
  (Hl : page_bytes (mem s) pn = Some l) (Hlen : length l = 4096%nat /\ bytes l) :
  ((forall i, 0 <= i < bit_cnt (swap_table s) -> bit (swap_table s) i = true) -> swap_out p s = Panic) /\
  (forall j, 0 <= j < bit_cnt (swap_table s) -> bit (swap_table s) j = false ->
    exists s', swap_out p s = Ok (true, s') /\ mem s' = mem s /\ swap_ok s' /\ swapped s' p l /\
      (exists y, vpages s' !! p = Some y /\ p_frame y = null) /\
      forall q l', q <> p -> swapped s q l' -> swapped s' q l').
Proof.
  split; [by eapply (swap_out_full s p x)|]. intros j Hj Hfree.
  destruct (swap_out_run s p pn x fr l Hs Hp Hx Hop Hf Hkva Hcnt Hl Hlen j Hj Hfree)
    as (i & sw & b & E & Hi & Hbi & (Hbc & Hbw & Hbb) & Hin & Hout).
  exists (out_state s p x fr i sw b). split; [exact E|]. split; [reflexivity|].
  assert (vpages (out_state s p x fr i sw b) !! p = Some (out_page x i)) as Hx' by apply lookup_insert_eq.
  assert (same_pages_but p s (out_state s p x fr i sw b)) as Hsame by (intros q Hq; by apply lookup_insert_ne).
  assert (slot_of (out_state s p x fr i sw b) p i) as Hslot by (exists (out_page x i); split_and!; [done|exact Hop|done|lia]).
  assert (forall a, slot_of (out_state s p x fr i sw b) p a -> a = i) as Heq.
  { intros a Ha. destruct (slot_of_eq _ _ _ _ Hx' Ha) as (_ & [= ->] & _). done. }
  assert (forall q a, q <> p -> slot_of s q a -> a <> i) as Hother.
  { intros q a _ Ha ->. destruct (sw_used _ Hs _ _ Ha). congruence. }
  split; [split|split; [|split]].
  - exact Hbw.
  - change (8 * bit_cnt b <= swap_capacity s <= 2 ^ 28). rewrite Hbc. apply Hs.
  - intros q a Hq. change (0 <= a < bit_cnt b /\ bit b a = true). rewrite Hbc. destruct (decide (q = p)) as [->|Hne].
    + apply Heq in Hq as ->. split; [done|]. rewrite Hbb, (proj2 (Z.leb_le i i)), (proj2 (Z.ltb_lt i (i + 1))) by lia. done.
    + apply (slot_of_other _ _ _ _ _ Hsame Hne) in Hq. destruct (sw_used _ Hs _ _ Hq) as [Ha Hba]. split; [done|].
      rewrite Hbb, Hba by lia. by destruct (_ && _).
  - intros q r a Hq Hr. destruct (decide (q = p)) as [->|Hne], (decide (r = p)) as [->|Hne2]; [done| | |].
    + apply (slot_of_other _ _ _ _ _ Hsame Hne2) in Hr. apply Heq in Hq as ->. by destruct (Hother r i Hne2 Hr).
    + apply (slot_of_other _ _ _ _ _ Hsame Hne) in Hq. apply Heq in Hr as ->. by destruct (Hother q i Hne Hq).
    + apply (slot_of_other _ _ _ _ _ Hsame Hne) in Hq. apply (slot_of_other _ _ _ _ _ Hsame Hne2) in Hr. by apply (sw_own _ Hs q r a).
  - exists i. split; [done|]. split; [apply Hlen|]. split; [apply Hlen|]. exact Hin.
  - by exists (out_page x i).
  - intros q l' Hq (a & Ha & Hh). exists a. split; [by apply (slot_of_other _ _ _ _ _ Hsame Hq)|].
    apply (slot_holds_other s _ i); [exact Hout|by apply not_eq_sym, (Hother q)|done].
Qed.

(** C11: Swapping in restores what was swapped out: the bytes of the page are in its
    new frame, other user pages and all mappings are as before, the page has no slot
    any more, its slot is free, and the contents of every other page that was swapped
    out are still there. *)
Theorem swap_in_restores s root p pn l
  (Hs : swap_ok s) (Hp : swapped s p l) (Hm : mem_inv (mem s) root) (Hpn : in_pool (user_pool (mem s)) pn)
  (Hb : is_Some (page_bytes (mem s) pn)) :
  exists s', swap_in p (4096 * pn) s = Ok (true, s') /\ page_bytes (mem s') pn = Some l /\
    mem_step root pn (mem s) (mem s') /\ (forall a, mapping (mem s') root a = mapping (mem s) root a) /\
    swap_ok s' /\ (forall i, ~ slot_of s' p i) /\
    (forall i, slot_of s p i -> bit (swap_table s') i = false) /\
    forall q l', q <> p -> swapped s q l' -> swapped s' q l'.
Proof.
  destruct Hp as (i & Hi & Hh). pose proof Hi as (x & Hx & _). destruct Hb as [l0 Hl0].
  destruct (swap_in_run s root p pn x i l l0 Hs Hx Hi Hh Hm Hpn Hl0) as (m & b & E & Hst & Hmap & Hl & Hbc & Hbw & Hbb).
  set (s' := in_state p i x m b s) in *. exists s'. split; [exact E|]. split; [exact Hl|]. split; [exact Hst|]. split; [exact Hmap|].
  assert (same_pages_but p s s') as Hsame by (intros q Hq; by apply lookup_insert_ne).
  assert (forall a, ~ slot_of s' p a) as Hno.
  { intros a Ha. destruct (slot_of_eq s' p (with_word0 (SwapIdx (-1)) x) a (lookup_insert_eq _ _ _) Ha) as (_ & [= <-] & Hne). done. }
  assert (forall q a, q <> p -> slot_of s q a -> a <> i) as Hother by (intros q a Hq Ha ->; by apply Hq, (sw_own _ Hs q p i)).
  split; [split|split; [exact Hno|split]].
  - exact Hbw.
  - change (8 * bit_cnt b <= swap_capacity s <= 2 ^ 28). rewrite Hbc. apply Hs.
  - intros q a Hq. change (0 <= a < bit_cnt b /\ bit b a = true). rewrite Hbc.
    destruct (decide (q = p)) as [->|Hne]; [by destruct (Hno a)|]. apply (slot_of_other _ _ _ _ _ Hsame Hne) in Hq.
    destruct (sw_used _ Hs _ _ Hq) as [Ha Hba]. split; [done|].
    rewrite Hbb, (proj2 (Z.eqb_neq a i)) by (try lia; by apply (Hother q)). done.
  - intros q r a Hq Hr. destruct (decide (q = p)) as [->|Hne]; [by destruct (Hno a)|].
    destruct (decide (r = p)) as [->|Hne2]; [by destruct (Hno a)|].
    apply (slot_of_other _ _ _ _ _ Hsame Hne) in Hq. apply (slot_of_other _ _ _ _ _ Hsame Hne2) in Hr. by apply (sw_own _ Hs q r a).
  - intros a Ha. change (bit b a = false). destruct (slot_of_eq _ _ _ _ Hx Ha) as (_ & Hw & _).
    destruct (slot_of_eq _ _ _ _ Hx Hi) as (_ & Hw' & _). rewrite Hw in Hw'. injection Hw' as ->.
    rewrite Hbb, Z.eqb_refl; [done|]. pose proof (slot_range _ _ _ Hs Hi). lia.
  - intros q l' Hq (a & Ha & Hh'). exists a. split; [by apply (slot_of_other _ _ _ _ _ Hsame Hq)|]. exact Hh'.
Qed.

(** ** Examples *)

(** The page 20 of the running process, with the frame 30 and on the swap disk. *)
Definition ex_anon (f idx : Z) : page := Page ANON_OPS 0x10000 f true (SwapIdx idx) VM_ANON null ANON_INITIALIZER.
Definition ex_resident : vms :=
  set_vpages {[20 := ex_anon 30 (-1)]} (set_frames {[30 := Frame (4096 * (RAM + 8)) 20 1]} ex_vms).
Definition ex_swapped : vms := set_vpages {[20 := ex_anon null 0]} (set_swap (blank_disk 64) (Bitmap 8 [1]) ex_vms).

Lemma ex_slots f idx (s : vms) p i : vpages s = {[20 := ex_anon f idx]} -> slot_of s p i -> p = 20 /\ i = idx /\ idx <> -1.
Proof.
  intros E (x & Hx & _ & Hw & Hi). rewrite E in Hx. apply lookup_singleton_Some in Hx as [<- <-].
  injection Hw as <-. done.
Qed.

Lemma small_bitmap_wf w : 0 <= w < 256 -> bitmap_wf (Bitmap 8 [w]).
Proof.
  intros Hw. split_and!; simpl; [lia|lia|reflexivity|]. constructor; [unfold is_u64; lia|constructor].
Qed.

Lemma ex_resident_ok : swap_ok ex_resident.
Proof.
  split.
  - by apply small_bitmap_wf.
  - split; vm_compute; discriminate.
  - intros p i H. by apply (ex_slots 30 (-1)) in H as (_ & _ & []).
  - intros p q i H. by apply (ex_slots 30 (-1)) in H as (_ & _ & []).
Qed.

Lemma ex_swapped_ok : swap_ok ex_swapped.
Proof.
  split.
  - by apply small_bitmap_wf.
  - split; vm_compute; discriminate.
  - intros p i H. apply (ex_slots null 0) in H as (_ & -> & _); [|done]. split; [|reflexivity].
    change (0 <= 0 < 8). lia.
  - intros p q i H H'. apply (ex_slots null 0) in H as (-> & _ & _); [|done]. by apply (ex_slots null 0) in H' as (-> & _ & _).
Qed.

Lemma ex_zeros : swapped ex_swapped 20 (replicate 4096 0).
Proof.
  exists 0. split; [by exists (ex_anon null 0)|]. split; [apply length_replicate|]. split; [apply Forall_replicate; lia|].
  intros k Hk. change (swap_sectors ex_swapped) with (blank_disk 64). rewrite lookup_blank by lia. f_equal.
  unfold piece. rewrite drop_replicate, take_replicate. f_equal. lia.
Qed.

Lemma swap_out_stores_witness :
  exists s' l, swap_out 20 ex_resident = Ok (true, s') /\ swapped s' 20 l /\
    page_bytes (mem ex_resident) (RAM + 8) = Some l.
Proof.
  destruct (page_bytes (mem ex_resident) (RAM + 8)) as [l|] eqn:El; [|by vm_compute in El].
  destruct (swap_out_stores ex_resident 20 (RAM + 8) (ex_anon 30 (-1)) (Frame (4096 * (RAM + 8)) 20 1) l ex_resident_ok) as [_ H];
    [done|reflexivity|reflexivity|reflexivity|reflexivity|simpl; lia|exact El|exact (page_bytes_length _ _ _ _ ex_mem_inv El)|].
  destruct (H 0) as (s' & E & _ & _ & Hsw & _); [change (0 <= 0 < 8); lia|reflexivity|].
  exists s', l. split; [exact E|]. split; [exact Hsw|done].
Defined.

Lemma swap_in_restores_witness :
  exists s', swap_in 20 (4096 * (RAM + 8)) ex_swapped = Ok (true, s') /\ page_bytes (mem s') (RAM + 8) = Some (replicate 4096 0).
Proof.
  destruct (swap_in_restores ex_swapped (RAM + 1) 20 (RAM + 8) (replicate 4096 0) ex_swapped_ok ex_zeros ex_mem_inv) as (s' & E & Hb & _).
  - apply (ex_free (RAM + 8)). lia.
  - destruct (page_bytes (mem ex_swapped) (RAM + 8)) eqn:El; [by eexists|by vm_compute in El].
  - exists s'. split; [exact E|exact Hb].
Defined.
