(* ===== verification/FaultTheorems.v ===== *)
(** * The theorem about the page-fault handler

    What vm_try_handle_fault decides, for every kind of access. *)

From S2P Require Import Prelude Interfaces Bitmap VMem Palloc PallocFacts Mmu MmuFacts MmuTheorems Hash FsState Inode InodeFacts FreeMap FsFile FileTheorems VmState UserMem Pager Vm Loader VmFacts Claim Faults SegLoad.
From S2P Require Import PallocTheorems FsTheorems VmExample.

(** The addresses that a stack at [rsp] may grow to: at most a page below the stack
    pointer, and in the megabyte below the top. *)
Definition stack_address (rsp a : Z) : Prop := rsp - 4096 < a /\ USER_STACK - 2 ^ 20 <= a < USER_STACK.

Lemma in_stack_range_spec rsp a : 4096 <= rsp < 2 ^ 64 -> in_stack_range rsp a = true <-> stack_address rsp a.
Proof.
  intros Hr. unfold in_stack_range, stack_address. rewrite PGSIZE_eq, u64_small by (unfold is_u64; lia).
  change (Z.shiftl 1 20) with (2 ^ 20). rewrite !andb_true_iff, Z.gtb_lt, Z.geb_le, Z.ltb_lt. lia.
Qed.

(** A page of the stack that was not used yet. *)
Definition stack_page (u : Z) : page := Page UNINIT_OPS u null true (Init NULL_INIT) VM_ANON null ANON_INITIALIZER.

(** The handler at a user address: the lookup and what follows. *)
Lemma fault_lookup mem_ok s root tab t a (write not_present : bool) :
  proc_env s root tab -> procs s !! current s = Some t -> is_user a -> a <> null ->
  vm_try_handle_fault mem_ok a write not_present s =
    (if negb (default null (tab !! pg_round_down a) =? null) then
       if write && negb not_present then
         x ← get_vpage (default null (tab !! pg_round_down a));
         if negb (p_writable x) then mret false else vm_handle_wp (default null (tab !! pg_round_down a))
       else if negb write && negb not_present then mret false
       else vm_do_claim_page (default null (tab !! pg_round_down a))
     else if in_stack_range (user_rsp t) a then vm_stack_growth mem_ok (pg_round_down a);; mret true
     else mret false) s.
Proof.
  intros He Ht Hu Ha. unfold vm_try_handle_fault. rewrite (user_vaddr _ Hu). cbn [negb].
  rewrite (bind_run _ _ s s s eq_refl), (bind_run _ _ _ _ _ (find_page_run s root tab a He Ha)).
  rewrite (bind_run _ _ s t s); [done|]. by apply get_proc_run.
Qed.


