(* ===== verification/ArgTheorems.v ===== *)
(** * The theorems about a program's arguments

    What push_arguments leaves on the stack of a new process: the strings, padding,
    the array of their addresses with its null pointer, and a return address. *)

From S2P Require Import Prelude Interfaces Bitmap CString VMem Palloc PallocFacts Mmu MmuFacts MmuTheorems Hash FsState Inode InodeFacts FreeMap FsFile DirFacts VmState UserMem Pager Vm Args Loader VmFacts Claim Faults.
From S2P Require Import PallocTheorems FsTheorems VmExample.

(** ** The page of the stack *)

Definition STACK_PAGE : Z := USER_STACK - 4096.

(** The first page of the running process's stack is page [pn] of memory, which holds
    [img]. *)
Record stack_env (s : vms) (root pn : Z) (img : list Z) : Prop := {
  st_proc : exists t, procs s !! current s = Some t /\ pml4 t = 4096 * root;
  st_mem : mem_inv (mem s) root;
  st_pool : in_pool (user_pool (mem s)) pn;
  st_map a : STACK_PAGE <= a < USER_STACK -> translate (mem s) root a = 4096 * pn + (a - STACK_PAGE);
  st_bytes : page_bytes (mem s) pn = Some img
}.

(** A page's addresses lead where its first one does. *)
Lemma translate_page m root u a pn :
  is_user u -> is_user a -> pg_ofs u = 0 -> pg_no a = pg_no u -> translate m root u = 4096 * pn -> 0 < pn < 2 ^ 52 ->
  translate m root a = 4096 * pn + pg_ofs a.
Proof.
  intros Huu Hua Hu Hp Ht Hpn. unfold translate in *. assert (mapping m root a = mapping m root u) as ->.
  { unfold mapping. destruct (proj2 (indices_page u a Huu Hua) Hp) as [-> ->]. done. }
  destruct (mapping m root u) as [e|]; [|assert (0 = 4096 * pn) by exact Ht; lia].
  rewrite Hu, Z.add_0_r in Ht. unfold ptov in *. unfold u64 in *. rewrite Z.mod_mod in Ht by done. rewrite Ht.
  rewrite pg_ofs_eq. pose proof (Z.mod_pos_bound a 4096 ltac:(done)). apply Z.mod_small. lia.
Qed.

Lemma resident_stack_env s root tab pn img :
  proc_env s root tab -> translate (mem s) root STACK_PAGE = 4096 * pn -> in_pool (user_pool (mem s)) pn ->
  page_bytes (mem s) pn = Some img -> stack_env s root pn img.
Proof.
  intros [(t & Ht & Hp & _) Hm] Htr Hpool Hb. split; [by exists t|done|done| |done].
  intros a Ha. unfold STACK_PAGE, USER_STACK in *. pose proof (user_page_range _ _ _ Hm Hpool) as Hr. rewrite KERN_PAGE_eq in Hr.
  assert (is_user a) as Hua by (unfold is_user, KERN_BASE; lia).
  assert (pg_no a = pg_no (0x47480000 - 4096)) as Hpg.
  { rewrite !pg_no_eq. symmetry. apply (Z.div_unique a 4096 0x4747f (a - 0x4747f000)); lia. }
  rewrite (translate_page _ _ (0x47480000 - 4096) a pn) by (done || lia).
  rewrite pg_ofs_eq. f_equal. symmetry. apply Z.mod_unique with 0x4747f; lia.
Qed.

(** ** Storing bytes *)

Lemma splice_cons (img : list Z) (o : nat) b l :
  (o + S (length l) <= length img)%nat -> splice (splice img o [b]) (o + 1) l = splice img o (b :: l).
Proof.
  intros Hl. unfold splice. cbn [length].
  assert (length (take o img ++ [b]) = (o + 1)%nat) as Hlen by (rewrite length_app, length_take; simpl; lia).
  rewrite (app_assoc (take o img) [b]), (take_app_length' _ _ (o + 1) (eq_sym Hlen)).
  assert (forall D : list Z, drop (o + 1 + length l) ((take o img ++ [b]) ++ D) = drop (length l) D) as ->.
  { intros D. rewrite drop_app_ge by lia. f_equal. lia. }
  rewrite drop_drop, <-app_assoc. by replace (o + 1 + length l)%nat with (o + S (length l))%nat by lia.
Qed.

Section Stores.
Variables (mem_ok : bool) (root pn : Z).

Lemma user_store_run s img a b :
  stack_env s root pn img -> STACK_PAGE <= a < USER_STACK -> 0 <= b < 256 ->
  exists m, user_store mem_ok 3 a b s = Ok (tt, set_mem m s) /\ mem_step root pn (mem s) m /\
    stack_env (set_mem m s) root pn (splice img (Z.to_nat (a - STACK_PAGE)) [b]).
Proof.
  intros [(t & Ht & Hpm) Hm Hp Hmap Hb] Ha Hby. destruct (page_bytes_length _ _ _ _ Hm Hb) as [Hlen _].
  assert (is_user a) as Hu by (unfold is_user, STACK_PAGE, USER_STACK, KERN_BASE in *; lia).
  pose proof (user_page_range _ _ _ Hm Hp) as Hr. rewrite KERN_PAGE_eq in Hr. pose proof (Hmap a Ha) as Hk.
  assert (0 <= a - STACK_PAGE < 4096) as Hofs by (unfold STACK_PAGE in *; lia).
  destruct (write_user (mem s) root pn (a - STACK_PAGE) [b] img Hm Hp Hb) as (m & E & Hst & Hmp & _ & Hb');
    [lia|simpl; lia|by constructor|].
  exists m. split; [|split; [exact Hst|]].
  - cbn [user_store]. rewrite (bind_run _ _ _ _ _ (cur_pml4_run s t Ht)), Hpm.
    rewrite (bind_run (in_mem _) _ s (translate (mem s) root a) s).
    2:{ unfold in_mem. rewrite (zoom_Ok _ _ _ _ _ _ (get_page_run (mem s) root a (mi_vm _ _ Hm) (mi_tree _ _ Hm) Hu)). by destruct s. }
    rewrite Hk, (proj2 (Z.eqb_neq _ null)) by (unfold null; lia). apply zoom_Ok.
    assert (pg_ofs (4096 * pn + (a - STACK_PAGE)) = a - STACK_PAGE) as ->.
    { rewrite pg_ofs_eq, Z.add_comm, Z.mul_comm, Z.mod_add by done. by apply Z.mod_small. }
    rewrite <-E. unfold page_write. assert (pg_no (4096 * pn + (a - STACK_PAGE)) = pg_no (4096 * pn)) as ->; [|done].
    rewrite pg_no_page, pg_no_eq, Z.add_comm, Z.mul_comm, Z.div_add by done. rewrite Z.div_small by done. lia.
  - split; [by exists t|exact (ms_inv _ _ _ _ Hst)|by apply (mem_step_pool _ _ _ _ _ Hst)| |exact Hb'].
    intros c Hc. change (translate m root c = 4096 * pn + (c - STACK_PAGE)).
    rewrite (translate_ext (mem s)); [by apply Hmap|apply Hmp].
Qed.

Lemma user_write_run l : forall s img a,
  stack_env s root pn img -> STACK_PAGE <= a -> a + Z.of_nat (length l) <= USER_STACK -> bytes l ->
  exists m, user_write mem_ok a l s = Ok (tt, set_mem m s) /\ mem_step root pn (mem s) m /\
    stack_env (set_mem m s) root pn (splice img (Z.to_nat (a - STACK_PAGE)) l).
Proof.
  induction l as [|b l IH]; intros s img a He Ha Hend Hb; cbn [user_write]; pose proof He as [_ Hm _ _ Hi];
    destruct (page_bytes_length _ _ _ _ Hm Hi) as [Hlen _].
  - exists (mem s). assert (set_mem (mem s) s = s) as -> by by destruct s. split; [done|]. split; [by split|].
    unfold splice. cbn [length]. rewrite Nat.add_0_r, app_nil_l, take_drop. exact He.
  - cbn [length] in Hend. apply Forall_cons in Hb as [Hb0 Hb].
    destruct (user_store_run s img a b He) as (m1 & E1 & Hs1 & He1); [unfold STACK_PAGE in *; lia|done|].
    rewrite (bind_run _ _ _ _ _ E1). destruct (IH _ _ (a + 1) He1) as (m2 & E2 & Hs2 & He2); [lia|lia|done|].
    exists m2. split; [exact E2|]. split; [by eapply mem_step_trans|].
    replace (Z.to_nat (a + 1 - STACK_PAGE)) with (Z.to_nat (a - STACK_PAGE) + 1)%nat in He2 by lia.
    rewrite splice_cons in He2; [exact He2|]. unfold STACK_PAGE in *. lia.
Qed.

(** ** Pushing *)

(** The bytes from [a] up to the top of the stack are [st]. *)
Definition stacked (s : vms) (a : Z) (st : list Z) : Prop :=
  STACK_PAGE <= a /\ a + Z.of_nat (length st) = USER_STACK /\
  exists img, stack_env s root pn img /\ drop (Z.to_nat (a - STACK_PAGE)) img = st.

(** [m] pushes [new]: from a state where [st] is on the stack at [a]. *)
Definition pushes {A} (m : M vms A) (r : A) (a : Z) (new st : list Z) (s : vms) : Prop :=
  exists v, m s = Ok (r, set_mem v s) /\ mem_step root pn (mem s) v /\
    stacked (set_mem v s) (a - Z.of_nat (length new)) (new ++ st).

Lemma push_run s a st l :
  stacked s a st -> STACK_PAGE <= a - Z.of_nat (length l) -> bytes l ->
  pushes (user_write mem_ok (a - Z.of_nat (length l)) l) tt a l st s.
Proof.
  intros (Ha & Hend & img & He & Hst) Hl Hb. pose proof He as [_ Hm _ _ Hi].
  destruct (page_bytes_length _ _ _ _ Hm Hi) as [Hlen _].
  destruct (user_write_run l s img (a - Z.of_nat (length l)) He Hl) as (v & E & Hs & He'); [lia|done|].
  exists v. split; [exact E|]. split; [exact Hs|]. split; [done|]. split; [rewrite length_app; lia|].
  eexists. split; [exact He'|]. unfold STACK_PAGE, USER_STACK in *. rewrite drop_splice by lia.
  f_equal. rewrite <-Hst. f_equal. lia.
Qed.

Lemma pushes_nil {A} (r : A) a st s : mem_inv (mem s) root -> stacked s a st -> pushes (mret r) r a [] st s.
Proof.
  intros Hm Hs. exists (mem s). assert (set_mem (mem s) s = s) as -> by by destruct s. split; [done|]. split; [by split|].
  cbn [length app]. by rewrite Z.sub_0_r.
Qed.

Lemma stacked_inv s a st : stacked s a st -> mem_inv (mem s) root.
Proof. intros (_ & _ & img & [_ H _ _ _] & _). exact H. Qed.

(** One push after another. *)
Lemma pushes_bind {A B} (m : M vms A) (f : A -> M vms B) r r2 a l1 l2 st s :
  pushes m r a l1 st s ->
  (forall v, stacked (set_mem v s) (a - Z.of_nat (length l1)) (l1 ++ st) ->
     pushes (f r) r2 (a - Z.of_nat (length l1)) l2 (l1 ++ st) (set_mem v s)) ->
  pushes (m ≫= f) r2 a (l2 ++ l1) st s.
Proof.
  intros (v & E & Hs & Hst) H. destruct (H v Hst) as (v2 & E2 & Hs2 & Hst2). exists v2.
  split; [by rewrite (bind_run _ _ _ _ _ E)|]. split; [by eapply mem_step_trans|].
  rewrite length_app, Nat2Z.inj_add, <-app_assoc. replace (a - (Z.of_nat (length l2) + Z.of_nat (length l1)))
    with (a - Z.of_nat (length l1) - Z.of_nat (length l2)) by lia. exact Hst2.
Qed.

(** The same when the second part pushes nothing. *)
Lemma pushes_then {A B} (m : M vms A) (f : A -> M vms B) r r2 a l st s :
  pushes m r a l st s ->
  (forall v, stacked (set_mem v s) (a - Z.of_nat (length l)) (l ++ st) -> f r (set_mem v s) = Ok (r2, set_mem v s)) ->
  pushes (m ≫= f) r2 a l st s.
Proof.
  intros (v & E & Hs & Hst) H. exists v. split; [by rewrite (bind_run _ _ _ _ _ E), H|]. by split.
Qed.

(** ** The parts of the stack *)

(** The strings with their terminators, and their addresses below [top]. *)
Definition c_strings (args : list (list Z)) : list Z := args ≫= (fun s => s ++ [0]).
Fixpoint string_ptrs (top : Z) (args : list (list Z)) : list Z :=
  match args with
  | [] => []
  | s :: r => (top - Z.of_nat (length (c_strings (s :: r)))) :: string_ptrs top r
  end.
Definition c_pointers (ptrs : list Z) : list Z := ptrs ≫= le_split 8.

Lemma c_strings_snoc args s : c_strings (args ++ [s]) = c_strings args ++ s ++ [0].
Proof. unfold c_strings. rewrite bind_app. simpl. by rewrite app_nil_r. Qed.

Lemma string_ptrs_snoc args s top :
  string_ptrs top (args ++ [s]) =
    string_ptrs (top - Z.of_nat (length (s ++ [0]))) args ++ [top - Z.of_nat (length (s ++ [0]))].
Proof.
  induction args as [|t args IH]; cbn [string_ptrs app].
  - do 2 f_equal. unfold c_strings. simpl. by rewrite app_nil_r.
  - rewrite IH. f_equal. rewrite app_comm_cons, c_strings_snoc, length_app. lia.
Qed.

Lemma bytes_c_strings args : Forall bytes args -> bytes (c_strings args).
Proof.
  intros H. unfold c_strings. apply Forall_bind. eapply Forall_impl; [exact H|]. intros s Hs.
  apply Forall_app_2; [exact Hs|]. constructor; [lia|constructor].
Qed.

Lemma push_strings_run args : forall s a st ptrs,
  stacked s a st -> Forall bytes args -> STACK_PAGE <= a - Z.of_nat (length (c_strings args)) ->
  pushes (push_strings mem_ok (rev args) a ptrs) (a - Z.of_nat (length (c_strings args)), string_ptrs a args ++ ptrs)
    a (c_strings args) st s.
Proof.
  induction args as [|x args IH] using rev_ind; intros s a st ptrs Hs Hb Hfit.
  - cbn [rev push_strings c_strings]. rewrite Z.sub_0_r. apply pushes_nil; [by eapply stacked_inv|done].
  - rewrite rev_app_distr. cbn [rev app push_strings]. apply Forall_app in Hb as [Hb [Hx _]%Forall_cons].
    rewrite c_strings_snoc, length_app in *. assert (bytes (x ++ [0])) as Hx0.
    { apply Forall_app_2; [exact Hx|]. constructor; [lia|constructor]. }
    replace (Z.of_nat (length x) + 1) with (Z.of_nat (length (x ++ [0]))) by (rewrite length_app; simpl; lia).
    rewrite string_ptrs_snoc, <-app_assoc.
    eapply pushes_bind; [apply push_run; [exact Hs|lia|exact Hx0]|]. intros v Hv.
    replace (a - Z.of_nat (length (c_strings args) + length (x ++ [0])))
      with (a - Z.of_nat (length (x ++ [0])) - Z.of_nat (length (c_strings args))) by lia.
    apply IH; [exact Hv|exact Hb|lia].
Qed.

Lemma align_stack_run fuel : forall s a st,
  stacked s a st -> a mod 8 < Z.of_nat fuel -> STACK_PAGE <= a - a mod 8 ->
  pushes (align_stack mem_ok fuel a) (a - a mod 8) a (replicate (Z.to_nat (a mod 8)) 0) st s.
Proof.
  induction fuel as [|fuel IH]; intros s a st Hs Hf Hfit; pose proof (Z.mod_pos_bound a 8 ltac:(done)) as Hm; [lia|].
  cbn [align_stack]. destruct (Z.eqb_spec (a mod 8) 0) as [E|E]; cbn [negb].
  - rewrite E, Z.sub_0_r. apply pushes_nil; [by eapply stacked_inv|done].
  - assert ((a - 1) mod 8 = a mod 8 - 1) as Em.
    { pose proof (Z.div_mod a 8 ltac:(done)). symmetry. apply (Z.mod_unique_pos _ _ (a / 8)); lia. }
    replace (a - a mod 8) with (a - 1 - (a - 1) mod 8) by lia.
    assert (replicate (Z.to_nat (a mod 8)) 0 = replicate (Z.to_nat ((a - 1) mod 8)) 0 ++ [0]) as ->.
    { replace (Z.to_nat (a mod 8)) with (Z.to_nat ((a - 1) mod 8) + 1)%nat by lia. by rewrite replicate_add. }
    eapply pushes_bind; [apply (push_run s a st [0]); [exact Hs|simpl; lia|constructor; [lia|constructor]]|].
    intros v Hv. apply IH; [exact Hv|lia|lia].
Qed.

Lemma length_c_pointers ptrs : length (c_pointers ptrs) = (8 * length ptrs)%nat.
Proof. induction ptrs as [|p ptrs IH]; [done|]. unfold c_pointers in *. cbn [mbind list_bind]. rewrite length_app, IH, length_le_split. simpl. lia. Qed.

Lemma push_pointers_run ptrs : forall s a st,
  stacked s a st -> STACK_PAGE <= a - 8 * Z.of_nat (length ptrs) ->
  pushes (push_pointers mem_ok (rev ptrs) a) (a - 8 * Z.of_nat (length ptrs)) a (c_pointers ptrs) st s.
Proof.
  induction ptrs as [|p ptrs IH] using rev_ind; intros s a st Hs Hfit.
  - cbn [rev push_pointers length]. rewrite Z.sub_0_r. apply pushes_nil; [by eapply stacked_inv|done].
  - rewrite rev_app_distr. cbn [rev app push_pointers]. rewrite length_app in *. cbn [length] in *.
    assert (c_pointers (ptrs ++ [p]) = c_pointers ptrs ++ le_split 8 p) as ->.
    { unfold c_pointers. rewrite bind_app. cbn [mbind list_bind]. by rewrite app_nil_r. }
    replace (a - 8 * Z.of_nat (length ptrs + 1)) with (a - 8 - 8 * Z.of_nat (length ptrs)) by lia.
    eapply pushes_bind; [apply (push_run s a st (le_split 8 p)); [exact Hs|rewrite length_le_split; lia|apply le_split_byte]|].
    rewrite length_le_split. intros v Hv. apply IH; [exact Hv|lia].
Qed.
End Stores.

(** ** The arguments *)

(** What push_arguments makes of [args], from the lowest address on: a return address,
    the array argv with its null pointer, padding and the strings. *)
Definition argument_block (args : list (list Z)) : list Z :=
  let pad := (USER_STACK - Z.of_nat (length (c_strings args))) mod 8 in
  replicate 8 0 ++ c_pointers (string_ptrs USER_STACK args) ++ replicate 8 0 ++ replicate (Z.to_nat pad) 0 ++ c_strings args.

Lemma length_string_ptrs top args : length (string_ptrs top args) = length args.
Proof. induction args as [|s args IH]; cbn [string_ptrs length]; [done|by rewrite IH]. Qed.

Lemma length_argument_block args :
  let n := Z.of_nat (length (c_strings args)) in
  Z.of_nat (length (argument_block args)) = n + (USER_STACK - n) mod 8 + 8 * (Z.of_nat (length args) + 2).
Proof.
  cbn zeta. unfold argument_block. pose proof (Z.mod_pos_bound (USER_STACK - Z.of_nat (length (c_strings args))) 8 ltac:(done)).
  rewrite !length_app, !length_replicate, length_c_pointers, length_string_ptrs. lia.
Qed.

Lemma string_ptrs_lookup top args i : (i < length args)%nat ->
  string_ptrs top args !! i = Some (top - Z.of_nat (length (c_strings (drop i args)))).
Proof.
  revert i. induction args as [|s args IH]; intros [|i] Hi; cbn [length] in Hi; try lia; [done|].
  cbn [string_ptrs drop lookup list_lookup]. apply IH. lia.
Qed.

(** Behind the address of an argument is the argument. *)
Lemma argument_behind args i x :
  args !! i = Some x ->
  drop (length (argument_block args) - length (c_strings (drop i args))) (argument_block args) =
    x ++ [0] ++ c_strings (drop (S i) args).
Proof.
  intros Hx. assert (c_strings args = c_strings (take i args) ++ c_strings (drop i args)) as E.
  { unfold c_strings. by rewrite <-bind_app, take_drop. }
  unfold argument_block. rewrite E, !app_assoc. rewrite drop_app_length' by (rewrite length_app; lia).
  rewrite (drop_S _ _ _ Hx). change (c_strings (x :: drop (S i) args)) with ((x ++ [0]) ++ c_strings (drop (S i) args)).
  by rewrite <-app_assoc.
Qed.

(** C14: The arguments of a program reach it as the calling convention says. When they
    fit into the first page of the stack, push_arguments, which stores byte by byte
    through user addresses, succeeds and leaves from the new stack pointer up to the
    top exactly a null return address, the array argv, its null pointer, padding and
    the strings; the stack pointer is a multiple of 8; rdi is the number of arguments,
    rsi the address of argv; and each entry of argv points to its argument with a
    terminating zero. *)
Theorem arguments_on_stack mem_ok s root tab pn img args
  (Henv : proc_env s root tab) (Hpage : translate (mem s) root STACK_PAGE = 4096 * pn)
  (Hpool : in_pool (user_pool (mem s)) pn) (Himg : page_bytes (mem s) pn = Some img)
  (Hargs : Forall bytes args)
  (Hfit : Z.of_nat (length (c_strings args)) + 8 * Z.of_nat (length args) + 23 <= 4096) :
  let block := argument_block args in
  let rsp := USER_STACK - Z.of_nat (length block) in
  exists s', push_arguments mem_ok args USER_STACK s = Ok ((rsp, Z.of_nat (length args), rsp + 8), s') /\
    rsp mod 8 = 0 /\ stacked root pn s' rsp block /\
    (forall i x, args !! i = Some x -> exists p rest,
      string_ptrs USER_STACK args !! i = Some p /\ rsp <= p < USER_STACK /\
      drop (Z.to_nat (p - rsp)) block = x ++ [0] ++ rest).
Proof.
  intros block rsp. pose proof (resident_stack_env _ _ _ _ _ Henv Hpage Hpool Himg) as He.
  pose proof He as [_ Hm _ _ _]. destruct (page_bytes_length _ _ _ _ Hm Himg) as [Hlen _].
  assert (stacked root pn s USER_STACK []) as Hs.
  { split; [unfold STACK_PAGE; lia|]. split; [cbn [length]; lia|]. exists img. split; [exact He|].
    apply drop_ge. unfold STACK_PAGE. lia. }
  pose proof (length_argument_block args) as Hblk. cbn zeta in Hblk. fold block in Hblk.
  set (n := Z.of_nat (length (c_strings args))) in *. set (a := USER_STACK - n) in *.
  pose proof (Z.mod_pos_bound a 8 ltac:(done)) as Hpad. set (b := a - a mod 8).
  set (ptrs := string_ptrs USER_STACK args). assert (length ptrs = length args) as Hpl by apply length_string_ptrs.
  assert (STACK_PAGE = USER_STACK - 4096) as Htop by done.
  assert (rsp = b - 8 - 8 * Z.of_nat (length ptrs) - 8) as Ersp by (unfold rsp, b, a in *; lia).
  assert (Hp : pushes root pn (push_arguments mem_ok args USER_STACK) (rsp, Z.of_nat (length args), rsp + 8)
    USER_STACK ((((replicate 8 0 ++ c_pointers ptrs) ++ replicate 8 0) ++ replicate (Z.to_nat (a mod 8)) 0) ++ c_strings args) [] s).
  { unfold push_arguments. eapply pushes_bind.
    { apply (push_strings_run mem_ok root pn args s USER_STACK [] []); [exact Hs|exact Hargs|fold n; lia]. }
    rewrite !app_nil_r. fold ptrs n a. intros v1 H1. eapply pushes_bind; [apply align_stack_run; [exact H1|lia|lia]|].
    fold b. rewrite length_replicate, Z2Nat.id by lia. fold b. intros v2 H2.
    eapply pushes_bind; [apply (push_run mem_ok root pn _ b _ (replicate 8 0)); [exact H2|simpl; lia|by apply Forall_replicate]|].
    change (Z.of_nat (length (replicate 8 0))) with 8. intros v3 H3.
    eapply pushes_bind; [apply push_pointers_run; [exact H3|lia]|]. rewrite length_c_pointers.
    replace (b - 8 - Z.of_nat (8 * length ptrs)) with (b - 8 - 8 * Z.of_nat (length ptrs)) by lia. intros v4 H4.
    eapply pushes_then; [apply (push_run mem_ok root pn _ _ _ (replicate 8 0)); [exact H4|simpl; lia|by apply Forall_replicate]|].
    intros v5 _. unfold mret, M_mret. do 2 f_equal. f_equal; [f_equal|]; lia. }
  destruct Hp as (v & E & _ & Hst). rewrite app_nil_r, <-!app_assoc in Hst.
  exists (set_mem v s). split; [exact E|]. split.
  - rewrite Ersp. replace (b - 8 - 8 * Z.of_nat (length ptrs) - 8) with (8 * (a / 8 - 2 - Z.of_nat (length ptrs))).
    + rewrite Z.mul_comm. by apply Z.mod_mul.
    + pose proof (Z.div_mod a 8 ltac:(done)). unfold b. lia.
  - split; [exact Hst|]. intros i x Hx. pose proof (lookup_lt_Some _ _ _ Hx) as Hi.
    exists (USER_STACK - Z.of_nat (length (c_strings (drop i args)))), (c_strings (drop (S i) args)).
    split; [by apply string_ptrs_lookup|].
    assert (length (c_strings (drop i args)) <= length block /\ 0 < length (c_strings (drop i args)))%nat as [Hle Hpos].
    { pose proof (f_equal length (argument_behind _ _ _ Hx)) as El. rewrite length_drop, !length_app in El. fold block in El.
      assert (c_strings (drop i args) = (x ++ [0]) ++ c_strings (drop (S i) args)) as Ec by (by rewrite (drop_S _ _ _ Hx)).
      apply (f_equal length) in Ec. rewrite !length_app in Ec. cbn [length] in El, Ec. lia. }
    split; [unfold rsp; lia|]. rewrite <-(argument_behind _ _ _ Hx). fold block. f_equal. unfold rsp. lia.
Qed.

(** The small machine's process with a stack page, and the command line "ab c". *)
Lemma arguments_on_stack_witness :
  exists m s', pml4_set_page (4096 * (RAM + 1)) STACK_PAGE (4096 * (RAM + 8)) true small_vmem = Ok (true, m) /\
    push_arguments true [[97; 98]; [99]] USER_STACK (set_mem m ex_vms) =
      Ok ((USER_STACK - 40, 2, USER_STACK - 32), s') /\
    stacked (RAM + 1) (RAM + 8) s' (USER_STACK - 40)
      (replicate 8 0 ++ le_split 8 (USER_STACK - 5) ++ le_split 8 (USER_STACK - 2) ++ replicate 8 0 ++
       [0; 0; 0; 97; 98; 0; 99; 0]).
Proof.
  assert (in_pool (user_pool small_vmem) (RAM + 8)) as Hp by (apply (ex_free (RAM + 8)); lia).
  assert (is_user STACK_PAGE) as Hu by (vm_compute; split; (discriminate || reflexivity)).
  destruct (map_user small_vmem (RAM + 1) STACK_PAGE (RAM + 8) true ex_mem_inv Hu eq_refl Hp) as (b & m & E & Hs & Hmap & _).
  assert (Hb : outcome_val (pml4_set_page (4096 * (RAM + 1)) STACK_PAGE (4096 * (RAM + 8)) true small_vmem) = Some true)
    by (vm_compute; reflexivity).
  rewrite E in Hb. injection Hb as ->.
  destruct (page_bytes small_vmem (RAM + 8)) as [img|] eqn:Ei; [|by vm_compute in Ei].
  destruct (arguments_on_stack true (set_mem m ex_vms) (RAM + 1) ∅ (RAM + 8) img [[97; 98]; [99]]) as (s' & E2 & _ & Hst & _).
  - destruct ex_env as [H1 _]. split; [exact H1|apply Hs].
  - change (translate m (RAM + 1) STACK_PAGE = 4096 * (RAM + 8)).
    rewrite (mapped_translate _ _ _ (RAM + 8) true); [reflexivity|by rewrite Hmap, Z.eqb_refl|].
    exact (user_page_range _ _ _ ex_mem_inv Hp).
  - by apply (mem_step_pool _ _ _ _ _ Hs).
  - change (page_bytes m (RAM + 8) = Some img). by rewrite (mem_step_bytes _ _ _ _ _ Hs Hp).
  - repeat constructor; simpl; lia.
  - simpl. lia.
  - exists m, s'. split; [exact E|]. split; [exact E2|exact Hst].
Defined.
