(* ===== verification/VmDefects.v ===== *)
(** * What virtual memory gets wrong

    Short histories of one or two processes, run in the model, in which the code does
    not do what it means to. *)

From S2P Require Import Prelude Interfaces Bitmap VMem Palloc PallocFacts Mmu MmuFacts MmuTheorems Hash FsState Inode InodeFacts FreeMap FsFile VmState UserMem Pager Vm Mmap Loader.
From S2P Require Import PallocTheorems FsTheorems VmExample.

(** ** Histories *)

(** The small machine with eight more pages for the kernel; four are for users. *)
Definition wide_vms : vms :=
  set_mem (VMem (Pool (Bitmap 16 [3]) (4096 * RAM)) (Pool (Bitmap 4 [0]) (4096 * (RAM + 16))) (ram RAM 20) (4096 * RAM) 0 []) ex_vms.

(** The processor runs process [t]. *)
Definition run_process (t : Z) : M vms unit := modify (fun s =>
  Vms (mem s) (disk s) (lock_held s) (swap_capacity s) (swap_sectors s) (swap_table s) (vpages s) (frames s) (infos s)
      (frame_list s) (procs s) t).

(** The process touches new anonymous pages. *)
Fixpoint touch (l : list Z) : M vms unit :=
  match l with
  | [] => mret tt
  | a :: l =>
      ok ← vm_alloc_page true VM_ANON a true;
      assertM ok;;
      ok ← vm_claim_page a;
      assertM ok;;
      touch l
  end.

Definition start_process (t : Z) : M vms unit :=
  run_process t;; a ← in_mem pml4_create; assertM (negb (a =? null));; set_pml4 a.

(** Where an address leads a process, and whether it may write there. *)
Definition leads_to (t a : Z) : M vms Z := p ← get_proc t; s ← get; mret (translate (mem s) (pg_no (pml4 p)) a).
Definition may_write (t a : Z) : M vms bool :=
  p ← get_proc t; s ← get;
  mret (match mapping (mem s) (pg_no (pml4 p)) a with Some e => pte_has e PTE_W | None => false end).

(** A byte that a process stores or loads, through its page table. *)
Definition store_byte (t a b : Z) : M vms unit := p ← leads_to t a; in_mem (page_write p (pg_ofs a) [b]).
Definition load_byte (t a : Z) : M vms (list Z) := p ← leads_to t a; in_mem (page_read p (pg_ofs a) 1).

Definition five_pages : list Z := [0x10000; 0x11000; 0x12000; 0x13000; 0x14000].

(** ** Eviction *)


(** ** Fork *)


(** ** Mappings *)

(** The running process maps the first [length] bytes of the file 11, which has 600;
    its descriptor is 2, behind the console's. *)
Definition map_file (addr length : Z) : M vms unit :=
  a ← sys_mmap true [1; 2; 11] addr length 1 2 0; assertM (a =? addr).

